(* ===== verification/_CoqProject ===== *)
-Q . S2P
Prelude.v
CDouble.v
RValue.v
JsonWriter.v
RequestQueue.v
HttpResponse.v
RateLimiter.v
StaticFiles.v
ResponseStream.v
StreamSession.v
Routes.v
Dispatcher.v
TaskQueue.v
NativeHandlers.v
WsSession.v
MsgBuffer.v
WsFrame.v
HttpRequest.v
Base64.v
Sha1.v
HttpParser.v
HttpDelivery.v
WsClient.v
ResponseRender.v
ResponseCache.v
ResponseParser.v
RangeParser.v
Handshake.v
MediaTypes.v
ClientRequest.v
ClientDelivery.v
MultiPart.v
HttpClient.v
Pipelining.v
RequestFlow.v
FlowOrder.v
FlowFunction.v
EventLoop.v
TimerQueue.v
TimingWheel.v
BufferNode.v
TcpConnection.v
TcpOrder.v
TcpOutput.v
Router.v
Server.v
HttpClientFlow.v
