(* ===== verification/Prelude.v ===== *)
(** * drogonR: a verification development

    drogonR is an R package that serves HTTP and WebSocket traffic with the
    C++ framework Drogon.  Requests arrive on Drogon's I/O threads; R code may
    only run on R's main thread.  The package's own C++ (directly under
    [src/src/]) is the bridge between the two sides: an I/O thread snapshots a
    request into a bounded queue and writes a byte to a pipe, the main thread
    is woken through [later_fd], drains the queue, evaluates the R handler and
    answers through the callback that came with the request.  Streams, native
    (C++) handlers, rate limits, static mounts, WebSocket sessions and a
    WebSocket client are variations of that scheme.  The vendored Drogon and
    trantor sources (under [src/src/drogon/]) are modelled where the bridge's
    behaviour depends on them: routing, rate limiters, request parsing and
    pipelining, rendering and parsing of responses, the chunked response stream, the worker pool, the byte buffer
    and WebSocket framing.

    ** Style of the model

    Pure C++ functions are Rocq functions.  An R entry point is a computation
    of the monad [M] below: it threads the component's globals and either
    returns or leaves through [Rf_error], keeping what was already written.
    C++ exceptions are values of the component's result type.  Concurrent
    parts are step relations ([Inductive]) whose steps are the code's critical
    sections, with reachability and invariants from [steps_invariant] and
    [reachable_invariant].  Machine integers are [Z] with their wrap-around
    written out where it can occur; doubles are binary64 ([CDouble]).  Code
    that is not in the repository (R's evaluator, [std::regex], the user's
    native backend, the kernel's file system) is an argument of the
    definitions that use it.

    ** Files

    - [Prelude]: the monad, step relations, tactics, hint databases and the
      lemmas on lists, strings and integers that the components share.
    - [CDouble]: binary64 values, C conversions from double, [%d] and
      [%.17g] printing.  [RValue]: R values ([SEXP]) and [namedField]
      ([r_dispatcher.cpp], [stream_session.cpp]).
    - [JsonWriter]: [json_writer.cpp].  The serializer with its buffer,
      indentation and depth limit against a specification of the output text
      ([to_json_refines]); escaped strings decode to what was written
      ([escaped_string_roundtrip]).
    - [RequestQueue]: [request_queue.cpp], [socket_compat.h].  The queue, the
      wake pipe over a model of POSIX pipes, and all interleavings of
      producers with the draining thread ([no_lost_wakeup],
      [queue_fifo_bounded]).
    - [HttpResponse]: the setters and the content-length rule of
      [HttpResponseImpl].  [ResponseStream]: [ResponseStream] and
      [AsyncStreamImpl]; [chunked_roundtrip].
    - [RateLimiter]: the three limiters of Drogon and [checkRateLimits],
      limiter sharing and rule matching of [drogon_server.cpp].
    - [StaticFiles]: static mounts of [drogon_server.cpp]; no path outside
      the mounted directory is served ([static_handler_contained]).
    - [StreamSession]: [stream_session.cpp].  Two threads: the main thread
      pumps the R generator, the I/O loop writes chunks and notices that the
      peer left.  The body is the chunks in order, protected R objects are
      released once, an open stream always has exactly one pump scheduled.
    - [Routes]: the registration entry points of [drogon_server.cpp].
      [Dispatcher]: [r_dispatcher.cpp]; each drained request is answered
      exactly once or handed to a stream, a failing handler gives a 500.
      [NativeHandlers]: the request-handler lambdas of [drogon_server.cpp].
    - [TaskQueue]: [ConcurrentTaskQueue.cc], the worker pool of the native
      streams.
    - [WsSession]: [ws_session.cpp]; capacity counters, rooms, event queue,
      hooks, reaper.  [WsClient]: [ws_client.cpp] on [WebSocketClientImpl].
    - [MsgBuffer]: trantor's byte buffer refines a queue of bytes
      ([msgbuffer_refines]).  The class [ByteQueue] is the interface its
      clients are proved against, [MsgBuffer_queue] the instance.
    - [WsFrame]: [WebSocketConnectionImpl.cc] over [ByteQueue]: frames sent
      by one end, cut into segments in any way, are delivered by the other
      end's parser as the same messages.
    - [HttpRequest]: the fields, headers, cookies and body of
      [HttpRequestImpl], URL encoding ([Utilities.cc]).  [HttpParser]:
      [HttpRequestParser.cc] and [onMessage] of [HttpServer.cc] over
      [ByteQueue]: on any bytes the parser ends, and hands out only complete
      requests within the configured limits ([parser_safe]).
      [HttpDelivery]: well-formed requests as a client writes them, sized or
      chunked, cut into segments in any way, are handed out unchanged and in
      order ([requests_delivered]).
    - [ResponseRender]: the rendering of responses ([HttpResponseImpl.cc],
      [HttpUtils.cc]) and [sendResponse], [sendResponses] of [HttpServer.cc]:
      sending responses in one batch equals sending them one by one
      ([batching_equivalent]).  [ResponseParser]: [HttpResponseParser.cc], the
      client's side, over [ByteQueue]: what the server renders arrives, cut
      into segments in any way ([response_roundtrip]).
    - [Pipelining]: [onRequests] and [handleResponse] of [HttpServer.cc]:
      whatever order the handlers finish in, responses leave in request order.
    - [Router]: the regex handlers of [HttpControllersRouter.cc] equal a
      first-match specification.
    - [Server]: start, stop, installation of the handlers and the table of
      entry points ([drogon_server.cpp], [r_bridge.cpp]); the whole package as
      one transition system ([dispatcher_always_consistent]) and the path
      from registration to routing ([routed_request_finds_route]).

    ** Bounds and fuel

    Loops that consume a buffer take the buffer's length as fuel
    ([parse] and [onNewMessage] of [WsFrame]: readable bytes plus one, each
    round consumes at least a frame header; [parseRequest] and [onMessage] of
    [HttpParser] and [parseResponse] of [ResponseParser]: readable bytes plus
    one, each round that goes on consumes a byte); the theorems show the fuel is not exhausted.  The wake-pipe drain has fuel from the pipe's content.  Sizes
    are taken below [2^63] and request counters below [2^64], as hypotheses
    with witnesses, where the code's own counters would wrap.

    ** Not modelled

    The R layer in front of the entry points; Drogon's application object
    (listeners, configuration, plugins, sessions, AOP advices, compression,
    controller classes, CORS); event loop, sockets, timers and TLS of trantor,
    which enter as the order in which queued tasks and callbacks may run;
    stream mode, JSON and parameters of requests; cookies, caching and
    compression of responses; the ORM, nosql and JSON-configuration
    code, which the package does not use; the Windows branches
    ([wepoll], [mman-win32], the Winsock half of [socket_compat.h]); the
    WebSocket ping timer, [sendJson] and the closing handshake. *)

From stdpp Require Import base gmap strings list numbers.
From Stdlib Require Import ZArith Lia Ascii.

Declare Scope drogonR_scope.
Delimit Scope drogonR_scope with dR.
Global Open Scope drogonR_scope.
Global Open Scope Z_scope.

(** ** Entry points that may raise an R error

    An R entry point ([SEXP drogonR_...(...)]) reads and writes the package's
    globals and either returns a value or leaves through [Rf_error], a
    non-local exit.  What was already written to the globals when [Rf_error]
    is raised stays written, so the state is returned on both ways out. *)

Inductive outcome (A : Type) : Type :=
| Ret (a : A)
| Rf_error (msg : string).
Arguments Ret {A} a.
Arguments Rf_error {A} msg.

Definition M (S A : Type) : Type := S → S * outcome A.

Definition run {S A} (m : M S A) (s : S) : S * outcome A := m s.

#[global] Instance M_ret {S} : MRet (M S) := λ A a s, (s, Ret a).
#[global] Instance M_bind {S} : MBind (M S) := λ A B f m s,
  match m s with
  | (s', Ret a) => f a s'
  | (s', Rf_error e) => (s', Rf_error e)
  end.

Definition get {S} : M S S := λ s, (s, Ret s).
Definition modify {S} (f : S → S) : M S unit := λ s, (f s, Ret tt).
Definition raise {S A} (msg : string) : M S A := λ s, (s, Rf_error msg).

(** A computation that touches no state. *)
Definition lift {S A} (o : outcome A) : M S A := λ s, (s, o).

(** [if (bad) Rf_error(msg);] *)
Definition reject_if {S} (bad : bool) (msg : string) : M S unit :=
  if bad then raise msg else mret tt.

Lemma bind_reject {S A} (b : bool) msg (k : unit → M S A) (s : S) :
  (reject_if b msg ≫= k) s = if b then (s, Rf_error msg) else k tt s.
Proof. by destruct b. Qed.

Lemma bind_ret {S A B} (a : A) (k : A → M S B) (s : S) :
  (mret a ≫= k) s = k a s.
Proof. done. Qed.

Lemma bind_get {S B} (k : S → M S B) (s : S) : (get ≫= k) s = k s s.
Proof. done. Qed.

Lemma bind_modify {S B} (f : S → S) (k : unit → M S B) (s : S) :
  (modify f ≫= k) s = k tt (f s).
Proof. done. Qed.

Lemma bind_raise {S A B} msg (k : A → M S B) (s : S) :
  (raise msg ≫= k) s = (s, Rf_error msg).
Proof. done. Qed.

Lemma bind_lift {S A B} (o : outcome A) (k : A → M S B) (s : S) :
  (lift o ≫= k) s = match o with Ret a => k a s | Rf_error e => (s, Rf_error e) end.
Proof. by destruct o. Qed.

(** Running a block of monadic code: one rewrite per primitive. *)
Create HintDb drogonR.
Create Rewrite HintDb drogonR.
#[export] Hint Rewrite @bind_reject @bind_ret @bind_get @bind_modify @bind_raise @bind_lift : drogonR.

Ltac run_M := unfold run; repeat (autorewrite with drogonR; cbn).

(** ** Machine integers

    Values of a C integer type are kept as [Z]; the wrap-around of unsigned
    types is written where the code relies on it. *)

(** A byte. *)
Definition is_byte (z : Z) : Prop := 0 ≤ z < 256.

Definition wrapU64 (z : Z) : Z := z mod 2 ^ 64.

Definition INT_MIN : Z := - 2 ^ 31.
Definition INT_MAX : Z := 2 ^ 31 - 1.

(** [static_cast<int>] of a 64-bit value. *)
Definition wrapI32 (z : Z) : Z := (z + 2 ^ 31) mod 2 ^ 32 - 2 ^ 31.

Lemma wrapI32_small z : INT_MIN ≤ z ≤ INT_MAX → wrapI32 z = z.
Proof. unfold wrapI32, INT_MIN, INT_MAX. intros. rewrite Z.mod_small; lia. Qed.

Lemma wrapU64_small z : 0 ≤ z < 2 ^ 64 → wrapU64 z = z.
Proof. intros. unfold wrapU64. by apply Z.mod_small. Qed.

(** ** Step systems: runs, reachability, the invariant rule

    A concurrent component is a labelled transition system.  [steps R n a b]
    is a run of [n] transitions; [n] bounds the counters that wrap. *)

Section Steps.
Context {S : Type} (R : S → S → Prop).

Inductive steps : nat → S → S → Prop :=
| steps_refl a : steps O a a
| steps_snoc n a b c : steps n a b → R b c → steps (Datatypes.S n) a c.

Definition reachable (init s : S) : Prop := ∃ n, steps n init s.

Lemma steps_trans n m a b c : steps n a b → steps m b c → steps (m + n) a c.
Proof.
  intros Hab Hbc. induction Hbc as [|m b c d _ IH HR]; [done|].
  cbn. econstructor; [by apply IH | done].
Qed.

Lemma steps_one a b : R a b → steps 1 a b.
Proof. intros. econstructor; [apply steps_refl | done]. Qed.

Lemma reach_refl a : reachable a a.
Proof. exists O. apply steps_refl. Qed.

Lemma reach_step init a b : reachable init a → R a b → reachable init b.
Proof. intros [n Hn] HR. exists (Datatypes.S n). by eapply steps_snoc. Qed.

Lemma steps_invariant (I : nat → S → Prop) init :
  I O init →
  (∀ n a b, I n a → R a b → I (Datatypes.S n) b) →
  ∀ n s, steps n init s → I n s.
Proof.
  intros H0 Hstep n s Hs. remember init as a eqn:Ha.
  induction Hs as [|n a b c _ IH HR]; subst; eauto.
Qed.

Lemma reachable_invariant (I : S → Prop) init :
  I init → (∀ a b, I a → R a b → I b) → ∀ s, reachable init s → I s.
Proof.
  intros H0 Hstep s [n Hn].
  by apply (steps_invariant (λ _, I) init H0 (λ _, Hstep) n s Hn).
Qed.
End Steps.

#[global] Arguments reach_refl {S R} a.
#[global] Arguments reach_step {S R init} a b.

(** ** Traces

    A property of every entry of a trace together with what came before it. *)

Section Traces.
Context {E : Type} (P : list E → E → Prop).

Definition every_entry (tr : list E) : Prop := ∀ before e after, tr = before ++ e :: after → P before e.

Lemma every_entry_nil : every_entry [].
Proof. by intros [|x l] e after. Qed.

Lemma every_entry_snoc tr e : every_entry tr → P tr e → every_entry (tr ++ [e]).
Proof.
  intros Htr He before e' after Heq. destruct after as [|x after _] using rev_ind.
  - by apply app_inj_2 in Heq as [-> [= ->]].
  - rewrite app_comm_cons, app_assoc in Heq. apply app_inj_2 in Heq as [-> _]; [by eapply Htr | done].
Qed.
End Traces.

(** ** Strings

    A [std::string] (and the bytes an R string points to) is a [string]: a
    list of 8-bit characters. *)

#[global] Arguments String.append !s1 s2 : simpl nomatch.

Definition code (c : ascii) : Z := Z.of_N (Ascii.N_of_ascii c).
Definition chr (z : Z) : ascii := Ascii.ascii_of_N (Z.to_N (z mod 256)).

Fixpoint str_forallb (p : ascii → bool) (s : string) : bool :=
  match s with
  | EmptyString => true
  | String c s' => p c && str_forallb p s'
  end.

(** [CHAR()]/[c_str()] read up to the first NUL. *)
Fixpoint c_str (s : string) : string :=
  match s with
  | EmptyString => EmptyString
  | String c s' => if Ascii.eqb c Ascii.zero then EmptyString else String c (c_str s')
  end.

Definition has_nul (s : string) : bool := negb (str_forallb (λ c, negb (Ascii.eqb c Ascii.zero)) s).

Lemma length_app_str (s t : string) :
  String.length (s +:+ t) = (String.length s + String.length t)%nat.
Proof. induction s; cbn; congruence. Qed.
Lemma prefix_split (a s : string) : String.prefix a s = true → ∃ t, s = a +:+ t.
Proof.
  revert s. induction a as [|c a IH]; intros s; [by exists s|]. destruct s as [|d s]; [done|]. cbn.
  destruct (Ascii.ascii_dec c d) as [->|]; [|done]. intros [t ->]%IH. by exists t.
Qed.
Lemma app_str_assoc (s1 s2 s3 : string) : (s1 +:+ s2) +:+ s3 = s1 +:+ (s2 +:+ s3).
Proof. induction s1; cbn; congruence. Qed.

Lemma app_str_nil (s : string) : s +:+ EmptyString = s.
Proof. induction s; cbn; congruence. Qed.

Lemma app_str_inj_l (s t1 t2 : string) : s +:+ t1 = s +:+ t2 → t1 = t2.
Proof. induction s; cbn; [done|]. intros [=]; auto. Qed.

Lemma str_forallb_app p s t :
  str_forallb p (s +:+ t) = str_forallb p s && str_forallb p t.
Proof. induction s; cbn; [done|]. by rewrite IHs, andb_assoc. Qed.

Lemma c_str_id s : has_nul s = false → c_str s = s.
Proof.
  unfold has_nul. rewrite negb_false_iff. induction s as [|c s IH]; cbn; [done|].
  rewrite andb_true_iff, negb_true_iff. intros [-> Hs]. by rewrite IH.
Qed.

#[export] Hint Rewrite app_str_assoc app_str_nil str_forallb_app : drogonR.

(** ** Case analysis on the code's tests *)

Ltac case_if :=
  match goal with
  | |- context [if ?b then _ else _] => destruct b eqn:?
  | H : context [if ?b then _ else _] |- _ => destruct b eqn:?
  end.

Ltac bool_to_prop :=
  repeat match goal with
  | H : (_ && _) = true |- _ => apply andb_true_iff in H; destruct H
  | H : (_ || _) = false |- _ => apply orb_false_iff in H; destruct H
  | H : negb _ = true |- _ => apply negb_true_iff in H
  | H : negb _ = false |- _ => apply negb_false_iff in H
  | H : (_ <? _) = true |- _ => apply Z.ltb_lt in H
  | H : (_ <? _) = false |- _ => apply Z.ltb_ge in H
  | H : (_ <=? _) = true |- _ => apply Z.leb_le in H
  | H : (_ <=? _) = false |- _ => apply Z.leb_gt in H
  | H : (_ =? _) = true |- _ => apply Z.eqb_eq in H
  | H : (_ =? _) = false |- _ => apply Z.eqb_neq in H
  | H : bool_decide _ = true |- _ => apply bool_decide_eq_true in H
  | H : bool_decide _ = false |- _ => apply bool_decide_eq_false in H
  end.
