(* ===== verification/CDouble.v ===== *)
(** * C doubles, integer conversions and printf

    The bridge uses [double] for R numbers, rate-limit windows, token counts
    and timer intervals.  A double is the Standard Library's [spec_float] at
    binary64 ([SpecFloat], IEEE 754 with round-to-nearest-even), so every
    arithmetic expression of the code is evaluated with its own rounding.
    [std::snprintf] with ["%d"] and ["%.17g"] and [std::to_string(int)] are
    modelled on exact integers. *)

From stdpp Require Import base gmap strings list numbers.
From Stdlib Require Import ZArith Lia Ascii SpecFloat.
From S2P Require Import Prelude.

Abbreviation double := spec_float.

Definition dadd : double → double → double := SFadd 53 1024.
Definition dsub : double → double → double := SFsub 53 1024.
Definition dmul : double → double → double := SFmul 53 1024.
Definition ddiv : double → double → double := SFdiv 53 1024.
Definition dlt : double → double → bool := SFltb.
Definition dle : double → double → bool := SFleb.
Definition deq : double → double → bool := SFeqb.

(** [static_cast<double>(z)] *)
Definition d_of_Z (z : Z) : double := binary_normalize 53 1024 z 0 false.

Definition d_zero : double := S754_zero false.
Definition d_one : double := d_of_Z 1.

(** [ISNAN] *)
Definition d_isnan (d : double) : bool :=
  match d with S754_nan => true | _ => false end.

(** The truncation of a finite double towards zero. *)
Definition d_trunc (d : double) : option Z :=
  match d with
  | S754_zero _ => Some 0
  | S754_finite s m e =>
      let mag := if 0 <=? e then Zpos m * 2 ^ e else Zpos m / 2 ^ (- e) in
      Some (if s then - mag else mag)
  | _ => None
  end.

(** [std::ceil], as an integer. *)
Definition d_ceil (d : double) : option Z :=
  match d with
  | S754_zero _ => Some 0
  | S754_finite s m e =>
      if 0 <=? e then Some (if s then - (Zpos m * 2 ^ e) else Zpos m * 2 ^ e)
      else Some (if s then - (Zpos m / 2 ^ (- e))
                 else (Zpos m + 2 ^ (- e) - 1) / 2 ^ (- e))
  | _ => None
  end.

(** A conversion from double to an integer type whose range does not hold the
    truncated value is undefined in C++; what the target yields there is a
    parameter of the model, so that no theorem depends on it. *)
Class Platform := {
  oob_int : double → Z;      (** [(int) d] *)
  oob_i64 : double → Z;      (** [(int64_t) d] *)
  oob_u64 : double → Z;      (** [(uint64_t) d] *)
}.

(** What x86-64 yields: the "integer indefinite" value. *)
Definition x86_64 : Platform := {|
  oob_int _ := INT_MIN; oob_i64 _ := - 2 ^ 63; oob_u64 _ := 2 ^ 63 |}.

Definition in_range (lo hi : Z) (oz : option Z) (oob : Z) : Z :=
  match oz with
  | Some z => if (lo <=? z) && (z <=? hi) then z else oob
  | None => oob
  end.

Section Conversions.
Context `{Platform}.
Definition d_to_int (d : double) : Z := in_range INT_MIN INT_MAX (d_trunc d) (oob_int d).
Definition d_to_i64 (d : double) : Z := in_range (- 2 ^ 63) (2 ^ 63 - 1) (d_trunc d) (oob_i64 d).
Definition d_to_u64 (d : double) : Z := in_range 0 (2 ^ 64 - 1) (d_trunc d) (oob_u64 d).
End Conversions.

(** ** Decimal printing of integers *)

Definition digit (z : Z) : ascii := chr (48 + z mod 10).
Definition is_digit (c : ascii) : bool := (48 <=? code c) && (code c <=? 57).
Definition is_digit19 (c : ascii) : bool := (49 <=? code c) && (code c <=? 57).

(** The [n] low decimal digits of [z]. *)
Fixpoint digits_fixed (n : nat) (z : Z) : string :=
  match n with
  | O => EmptyString
  | S n' => digits_fixed n' (z / 10) +:+ String (digit z) EmptyString
  end.

(** The decimal numeral of [z >= 0]; [fuel] digits are enough for [z < 10^fuel]. *)
Fixpoint dec_fuel (fuel : nat) (z : Z) : string :=
  match fuel with
  | O => EmptyString
  | S f => if z <? 10 then String (digit z) EmptyString
           else dec_fuel f (z / 10) +:+ String (digit z) EmptyString
  end.
Definition dec (z : Z) : string := dec_fuel 40 z.

(** ["%d"] and [std::to_string(int)] *)
Definition print_int (z : Z) : string :=
  if z <? 0 then String "-"%char (dec (- z)) else dec z.

(** ** printf("%.17g")

    A finite non-zero double is [m * 2^e = num / den]; its decimal exponent
    [x] satisfies [10^x <= m * 2^e < 10^(x+1)], and it is rounded (to nearest,
    ties to even, on the exact value) to the 17-digit significand. *)

Definition num_den (m : positive) (e : Z) : Z * Z :=
  if 0 <=? e then (Zpos m * 2 ^ e, 1) else (Zpos m, 2 ^ (- e)).

(** [10^k <= num / den] *)
Definition ge_pow10 (num den k : Z) : bool :=
  if 0 <=? k then den * 10 ^ k <=? num else den <=? num * 10 ^ (- k).

Fixpoint find_exp10 (fuel : nat) (num den k : Z) : Z :=
  match fuel with
  | O => k
  | S f => if ge_pow10 num den k then k else find_exp10 f num den (k - 1)
  end.

(** Round [a / b] to the nearest integer, ties to even. *)
Definition round_half_even (a b : Z) : Z :=
  let q := a / b in
  let r := a mod b in
  if (2 * r <? b) || ((2 * r =? b) && Z.even q) then q else q + 1.

Definition scaled17 (num den x : Z) : Z :=
  if 0 <=? x - 16 then round_half_even num (den * 10 ^ (x - 16))
  else round_half_even (num * 10 ^ (16 - x)) den.

Definition sig17 (m : positive) (e : Z) : Z * Z :=
  let '(num, den) := num_den m e in
  let x := find_exp10 650 num den 309 in
  let d := scaled17 num den x in
  if d =? 10 ^ 17 then (10 ^ 16, x + 1) else (d, x).

Fixpoint str_take (n : nat) (s : string) : string :=
  match n, s with
  | S n', String c s' => String c (str_take n' s')
  | _, _ => EmptyString
  end.
Fixpoint str_drop (n : nat) (s : string) : string :=
  match n, s with
  | S n', String _ s' => str_drop n' s'
  | _, _ => s
  end.

(** [%g] removes the trailing zeros of the fraction. *)
Fixpoint rstrip0 (s : string) : string :=
  match s with
  | EmptyString => EmptyString
  | String c s' =>
      match rstrip0 s' with
      | EmptyString => if Ascii.eqb c "0" then EmptyString else String c EmptyString
      | r => String c r
      end
  end.

Definition frac_part (s : string) : string :=
  match rstrip0 s with EmptyString => EmptyString | f => String "."%char f end.

Definition exp_part (x : Z) : string :=
  String "e"%char (String (if x <? 0 then "-"%char else "+"%char)
    (if Z.abs x <? 100 then digits_fixed 2 (Z.abs x) else digits_fixed 3 (Z.abs x))).

Definition format_g17 (d x : Z) : string :=
  let ds := digits_fixed 17 d in
  if (x <? -4) || (17 <=? x) then
    str_take 1 ds +:+ frac_part (str_drop 1 ds) +:+ exp_part x
  else if x <? 0 then
    "0." +:+ digits_fixed (Z.to_nat (- x - 1)) 0 +:+ rstrip0 ds
  else
    str_take (Z.to_nat (x + 1)) ds +:+ frac_part (str_drop (Z.to_nat (x + 1)) ds).

Definition snprintf_17g (d : double) : string :=
  match d with
  | S754_zero s => if s then "-0" else "0"
  | S754_infinity s => if s then "-inf" else "inf"
  | S754_nan => "nan"
  | S754_finite s m e =>
      let '(dg, x) := sig17 m e in
      (if s then "-" else "") +:+ format_g17 dg x
  end.

Example g17_tenth : snprintf_17g (ddiv d_one (d_of_Z 10)) = "0.10000000000000001".
Proof. vm_compute. reflexivity. Qed.
Example g17_third : snprintf_17g (ddiv d_one (d_of_Z (-3))) = "-0.33333333333333331".
Proof. vm_compute. reflexivity. Qed.
Example g17_big : snprintf_17g (d_of_Z (10 ^ 22)) = "1e+22".
Proof. vm_compute. reflexivity. Qed.
Example g17_small : snprintf_17g (ddiv d_one (d_of_Z 100000)) = "1.0000000000000001e-05".
Proof. vm_compute. reflexivity. Qed.
Example g17_int : snprintf_17g (d_of_Z 1500) = "1500".
Proof. vm_compute. reflexivity. Qed.
Example g17_max : snprintf_17g (S754_finite false 9007199254740991 971) = "1.7976931348623157e+308".
Proof. vm_compute. reflexivity. Qed.
Example g17_min : snprintf_17g (S754_finite false 1 (-1074)) = "4.9406564584124654e-324".
Proof. vm_compute. reflexivity. Qed.

(** ** Shape of the printed numerals *)

Lemma code_chr z : 0 ≤ z < 256 → code (chr z) = z.
Proof.
  intros. unfold code, chr. rewrite Z.mod_small by lia.
  rewrite N_ascii_embedding by lia. lia.
Qed.

Lemma code_digit z : code (digit z) = 48 + z mod 10.
Proof. pose proof (Z.mod_pos_bound z 10). unfold digit. apply code_chr. lia. Qed.

Lemma is_digit_digit z : is_digit (digit z) = true.
Proof.
  unfold is_digit. rewrite code_digit. pose proof (Z.mod_pos_bound z 10). lia.
Qed.

Lemma is_digit19_digit z : 1 ≤ z ≤ 9 → is_digit19 (digit z) = true.
Proof. intros. unfold is_digit19. rewrite code_digit, Z.mod_small by lia. lia. Qed.

Lemma is_digit_19 c : is_digit19 c = true → is_digit c = true.
Proof. unfold is_digit19, is_digit. lia. Qed.

Abbreviation all_digits := (str_forallb is_digit).

Lemma digits_fixed_digits n z : all_digits (digits_fixed n z) = true.
Proof.
  revert z; induction n; intros; cbn [digits_fixed]; [done|].
  rewrite str_forallb_app, IHn. cbn. by rewrite is_digit_digit.
Qed.

Lemma digits_fixed_length n z : String.length (digits_fixed n z) = n.
Proof.
  assert (Hl : ∀ a b, String.length (a +:+ b) = (String.length a + String.length b)%nat).
  { induction a; intros; cbn; [done|]. by rewrite IHa. }
  revert z; induction n; intros; cbn [digits_fixed]; [done|].
  rewrite Hl, IHn. cbn. lia.
Qed.

(** A number with exactly [S n] digits starts with a non-zero one. *)
Lemma digits_fixed_head n z :
  10 ^ Z.of_nat n ≤ z < 10 ^ Z.of_nat (S n) →
  ∃ c r, digits_fixed (S n) z = String c r ∧ is_digit19 c = true ∧
         all_digits r = true ∧ String.length r = n.
Proof.
  revert z; induction n as [|n IH]; intros z Hz.
  - exists (digit z), EmptyString. cbn in Hz |- *.
    repeat split. apply is_digit19_digit. lia.
  - destruct (IH (z / 10)) as (c & r & Hd & Hc & Hr & Hl).
    { rewrite !Nat2Z.inj_succ, !Z.pow_succ_r in * by lia. split.
      - apply Z.div_le_lower_bound; lia.
      - apply Z.div_lt_upper_bound; lia. }
    exists c, (r +:+ String (digit z) EmptyString).
    change (digits_fixed (S (S n)) z)
      with (digits_fixed (S n) (z / 10) +:+ String (digit z) EmptyString).
    rewrite Hd. split; [done|]. split; [done|].
    rewrite str_forallb_app, Hr. split.
    + cbn. by rewrite is_digit_digit.
    + clear -Hl. revert n Hl. induction r; intros n <-; cbn; [done|]. by rewrite (IHr _ eq_refl).
Qed.

Lemma str_take_digits n s : all_digits s = true → all_digits (str_take n s) = true.
Proof.
  revert n; induction s as [|c s IH]; intros [|n]; cbn; try done.
  rewrite !andb_true_iff. intros [? ?]; auto.
Qed.

Lemma str_drop_app n s t : n = String.length s → str_drop n (s +:+ t) = t.
Proof. intros ->. induction s; cbn; [by destruct t|done]. Qed.
Lemma str_drop_digits n s : all_digits s = true → all_digits (str_drop n s) = true.
Proof.
  revert n; induction s as [|c s IH]; intros [|n]; cbn; try done.
  rewrite !andb_true_iff. intros [? ?]; auto.
Qed.

Lemma rstrip0_digits s : all_digits s = true → all_digits (rstrip0 s) = true.
Proof.
  induction s as [|c s IH]; cbn; [done|]. rewrite andb_true_iff. intros [Hc Hs].
  specialize (IH Hs). destruct (rstrip0 s); cbn in *; [case_if; cbn; [done|]|];
    rewrite ?Hc; done.
Qed.

Lemma rstrip0_nonempty c s : is_digit19 c = true → rstrip0 (String c s) ≠ EmptyString.
Proof.
  intros Hc. cbn. destruct (rstrip0 s); [|done]. case_if; [|done].
  apply Ascii.eqb_eq in Heqb; subst. done.
Qed.

(** The decimal numeral of a positive number: digits, the first one not zero. *)
Lemma dec_fuel_shape f z :
  0 < z < 10 ^ Z.of_nat f →
  ∃ c r, dec_fuel f z = String c r ∧ is_digit19 c = true ∧ all_digits r = true.
Proof.
  revert z; induction f as [|f IH]; intros z Hz; cbn [dec_fuel]; [cbn in Hz; lia|].
  rewrite Nat2Z.inj_succ, Z.pow_succ_r in Hz by lia. case_if; bool_to_prop.
  - exists (digit z), EmptyString. repeat split. apply is_digit19_digit; lia.
  - destruct (IH (z / 10)) as (c & r & -> & Hc & Hr).
    { split; [apply Z.div_str_pos; lia | apply Z.div_lt_upper_bound; lia]. }
    exists c, (r +:+ String (digit z) EmptyString). repeat split; [done|].
    rewrite str_forallb_app, Hr. cbn. by rewrite is_digit_digit.
Qed.

(** ** Bounds of the 17-digit significand *)

Lemma round_half_even_bounds a b lo hi :
  0 < b → lo * b ≤ a → a < hi * b → lo ≤ round_half_even a b ≤ hi.
Proof.
  intros Hb Hlo Hhi. unfold round_half_even.
  assert (lo ≤ a / b) by (apply Z.div_le_lower_bound; lia).
  assert (a / b < hi) by (apply Z.div_lt_upper_bound; lia).
  case_if; lia.
Qed.

(** The rational comparison [10^k <= num/den] without the case split. *)
Lemma ge_pow10_spec num den k :
  ge_pow10 num den k = (den * 10 ^ Z.max k 0 <=? num * 10 ^ Z.max (- k) 0).
Proof.
  unfold ge_pow10. case_if; bool_to_prop.
  - rewrite Z.max_l, Z.max_r by lia. by rewrite Z.mul_1_r.
  - rewrite Z.max_r, Z.max_l by lia. by rewrite Z.mul_1_r.
Qed.

Lemma find_exp10_spec f num den k :
  0 < den →
  ge_pow10 num den (k + 1) = false →
  ge_pow10 num den (k - Z.of_nat f) = true →
  ge_pow10 num den (find_exp10 f num den k) = true ∧
  ge_pow10 num den (find_exp10 f num den k + 1) = false.
Proof.
  revert k; induction f as [|f IH]; intros k Hden Hup Hlo; cbn [find_exp10].
  - by rewrite Z.sub_0_r in Hlo.
  - case_if; [done|]. apply IH; [done| |].
    + by replace (k - 1 + 1) with k by lia.
    + by replace (k - 1 - Z.of_nat f) with (k - Z.of_nat (S f)) by lia.
Qed.

Lemma scaled17_bounds num den x :
  0 < den →
  ge_pow10 num den x = true → ge_pow10 num den (x + 1) = false →
  10 ^ 16 ≤ scaled17 num den x ≤ 10 ^ 17.
Proof.
  intros Hden Hge Hlt. unfold scaled17.
  assert (Hp : ∀ a b, 0 ≤ a → 0 ≤ b → 10 ^ (a + b) = 10 ^ a * 10 ^ b)
    by (intros; apply Z.pow_add_r; lia).
  assert (Hpos : ∀ a, 0 ≤ a → 0 < 10 ^ a) by (intros; apply Z.pow_pos_nonneg; lia).
  rewrite ge_pow10_spec in Hge, Hlt. bool_to_prop.
  destruct (0 <=? x - 16) eqn:E; bool_to_prop; [|destruct (Z_le_dec 0 x)];
    rewrite ?(Z.max_l x), ?(Z.max_l (x + 1)), ?(Z.max_r (- x)), ?(Z.max_r (- (x + 1))) in * by lia;
    rewrite ?(Z.pow_0_r 10), ?Z.mul_1_r in *;
    apply round_half_even_bounds; try done.
  - specialize (Hpos (x - 16)). nia.
  - replace x with (16 + (x - 16)) in Hge by lia. rewrite Hp in Hge by lia. lia.
  - replace (x + 1) with (17 + (x - 16)) in Hlt by lia. rewrite Hp in Hlt by lia. lia.
  - replace 16 with (x + (16 - x)) at 1 by lia. rewrite Hp by lia.
    specialize (Hpos (16 - x)). nia.
  - replace 17 with ((x + 1) + (16 - x)) by lia. rewrite Hp by lia.
    specialize (Hpos (16 - x)). nia.
  - replace (16 - x) with (16 + - x) by lia. rewrite Hp by lia.
    rewrite (Z.max_r x), (Z.max_l (- x)) in Hge by lia. nia.
  - rewrite (Z.max_r (x + 1)), (Z.max_l (- (x + 1))) in Hlt by lia.
    replace (16 - x) with (17 + - (x + 1)) by lia. rewrite Hp by lia. lia.
Qed.

Lemma digits2_pos_bound m : Zpos m < 2 ^ Zpos (digits2_pos m).
Proof.
  induction m as [m IH|m IH|]; cbn [digits2_pos]; [| |done];
    rewrite Pos2Z.inj_succ, Z.pow_succ_r by lia; lia.
Qed.

(** A double in canonical form has a 53-bit significand and an exponent in
    [-1074, 971]. *)
Lemma bounded_range m e :
  bounded 53 1024 m e = true → Zpos m < 2 ^ 53 ∧ -1074 ≤ e ≤ 971.
Proof.
  unfold bounded, canonical_mantissa, fexp, emin. intros H. bool_to_prop.
  apply Z.eqb_eq in H. pose proof (digits2_pos_bound m).
  split; [|lia]. eapply Z.lt_le_trans; [done|]. apply Z.pow_le_mono_r; lia.
Qed.

Definition valid_double (d : double) : bool := valid_binary 53 1024 d.

Lemma exp10_search_ends m e num den :
  bounded 53 1024 m e = true → num_den m e = (num, den) →
  0 < den ∧ ge_pow10 num den 310 = false ∧ ge_pow10 num den (-341) = true.
Proof.
  intros [Hm He]%bounded_range Hnd. unfold num_den in Hnd.
  unfold ge_pow10. cbn [Z.leb Z.compare]. change (- (-341)) with 341.
  assert (H1 : 2 ^ 53 * 2 ^ 971 < 10 ^ 310) by (vm_compute; reflexivity).
  assert (H2 : 2 ^ 1074 ≤ 10 ^ 341) by (vm_compute; discriminate).
  assert (H3 : 2 ^ 53 ≤ 10 ^ 310) by (vm_compute; discriminate).
  assert (H4 : 2 ^ 0 ≤ 10 ^ 341) by (vm_compute; discriminate).
  generalize dependent (10 ^ 341). generalize dependent (10 ^ 310). intros A H1 H3 B H2 H4.
  case_if; simplify_eq; bool_to_prop.
  - assert (2 ^ e ≤ 2 ^ 971) by (apply Z.pow_le_mono_r; lia).
    assert (0 < 2 ^ e) by (apply Z.pow_pos_nonneg; lia).
    assert (Zpos m * 2 ^ e ≤ 2 ^ 53 * 2 ^ 971) by (apply Z.mul_le_mono_nonneg; lia).
    split; [done|split]; [apply Z.leb_gt; lia|apply Z.leb_le; change (2 ^ 0) with 1 in *; nia].
  - assert (0 < 2 ^ (- e)) by (apply Z.pow_pos_nonneg; lia).
    assert (2 ^ (- e) ≤ 2 ^ 1074) by (apply Z.pow_le_mono_r; lia).
    generalize dependent (2 ^ 1074). intros C HC1 HC2.
    split; [done|split]; [apply Z.leb_gt; nia|apply Z.leb_le; nia].
Qed.

(** The significand printed by ["%.17g"] has exactly 17 digits. *)
Lemma sig17_bounds m e d x :
  bounded 53 1024 m e = true → sig17 m e = (d, x) → 10 ^ 16 ≤ d < 10 ^ 17.
Proof.
  intros Hb. unfold sig17. destruct (num_den m e) as [num den] eqn:Hnd.
  destruct (exp10_search_ends _ _ _ _ Hb Hnd) as (Hden & Hup & Hlo).
  destruct (find_exp10_spec 650 num den 309 Hden Hup Hlo) as [Hge Hlt].
  pose proof (scaled17_bounds _ _ _ Hden Hge Hlt) as Hs.
  case_if; bool_to_prop; intros [<- <-]%pair_equal_spec.
  - split; [done|]. by vm_compute.
  - destruct Hs as [Hs1 Hs2]. split; [done|]. apply Z.le_neq. done.
Qed.
