(* ===== verification/RValue.v ===== *)
(** * R values as the C++ bridge sees them

    The bridge reads R objects through the C API ([TYPEOF], [LENGTH],
    [STRING_ELT], [Rf_getAttrib], ...).  A [SEXP] is modelled by its type, its
    payload and the two attributes the bridge ever asks for ([names] and
    [class]).  A closure is an identity: what it computes is not part of the
    bridge.  [R_PreserveObject]/[R_ReleaseObject] maintain R's precious list,
    here a list of values used as a multiset. *)

From stdpp Require Import base gmap strings list numbers.
From Stdlib Require Import ZArith Lia Ascii SpecFloat.
From S2P Require Import Prelude CDouble.

(** A CHARSXP: [None] is [NA_STRING].  R strings never contain a NUL. *)
Abbreviation charsxp := (option string).

(** An element of a numeric vector: [NA_real_] is a NaN that [ISNA] tells from
    the others. *)
Inductive rreal := NA_REAL | Real (d : double).

Record rattr := Rattr { a_names : option (list charsxp); a_class : option (list charsxp) }.
Definition no_attr : rattr := Rattr None None.

#[local] Set Warnings "-register-all".

Inductive SEXP :=
| R_NilValue
| LGLSXP (v : list Z) (at_ : rattr)
| INTSXP (v : list Z) (at_ : rattr)
| REALSXP (v : list rreal) (at_ : rattr)
| STRSXP (v : list charsxp) (at_ : rattr)
| RAWSXP (v : string) (at_ : rattr)
| VECSXP (v : list SEXP) (at_ : rattr)
| CLOSXP (id : positive)
| EXTPTRSXP (addr : Z)
| OTHERSXP (type_code : Z).

(** [NA_INTEGER] and [NA_LOGICAL] *)
Definition NA_INTEGER : Z := INT_MIN.
Definition NA_LOGICAL : Z := INT_MIN.

Definition attrs (x : SEXP) : rattr :=
  match x with
  | LGLSXP _ a | INTSXP _ a | REALSXP _ a | STRSXP _ a | RAWSXP _ a | VECSXP _ a => a
  | _ => no_attr
  end.

(** [Rf_getAttrib(x, R_NamesSymbol)] / [R_ClassSymbol]; [None] is [R_NilValue].
    R's [names<-] and [class<-] only ever store character vectors. *)
Definition getNames (x : SEXP) : option (list charsxp) := a_names (attrs x).
Definition getClass (x : SEXP) : option (list charsxp) := a_class (attrs x).

(** [CHAR(c)]: [CHAR(NA_STRING)] is the C string "NA". *)
Definition CHAR (c : charsxp) : string := match c with Some s => s | None => "NA" end.

(** [STRING_ELT(names, i)] for an [i] in range (R keeps a names attribute at
    the length of its vector). *)
Definition STRING_ELT (v : list charsxp) (i : nat) : charsxp := nth i v None.

Definition is_nil (x : SEXP) : bool := match x with R_NilValue => true | _ => false end.
Definition is_closure (x : SEXP) : bool := match x with CLOSXP _ => true | _ => false end.

(** [TYPEOF(x) == STRSXP && LENGTH(x) == 1] *)
Definition single_string (x : SEXP) : option charsxp :=
  match x with STRSXP [c] _ => Some c | _ => None end.

Definition single_int (x : SEXP) : option Z :=
  match x with INTSXP [z] _ => Some z | _ => None end.

(** [TYPEOF(x) == LGLSXP && LENGTH(x) >= 1 && LOGICAL(x)[0] == 1] *)
Definition lgl_true (x : SEXP) : bool := match x with LGLSXP (z :: _) _ => z =? 1 | _ => false end.

(** [Rf_mkString(s)], [Rf_ScalarInteger(z)], ... *)
Definition mkString (s : string) : SEXP := STRSXP [Some (c_str s)] no_attr.
Definition ScalarInteger (z : Z) : SEXP := INTSXP [z] no_attr.
Definition ScalarLogical (b : bool) : SEXP := LGLSXP [if b then 1 else 0] no_attr.
Definition ScalarReal (d : double) : SEXP := REALSXP [Real d] no_attr.

(** A list with names, as [list(a = ..., b = ...)] builds it. *)
Definition named_list (l : list (string * SEXP)) : SEXP :=
  VECSXP (map snd l) (Rattr (Some (map (λ p, Some (fst p)) l)) None).

(** ** Induction over nested lists *)

Section SEXP_ind.
Context (P : SEXP → Prop).
Hypothesis Hlist : ∀ v a, Forall P v → P (VECSXP v a).
Hypothesis Hleaf : ∀ x, (∀ v a, x ≠ VECSXP v a) → P x.

Fixpoint SEXP_nested_ind (x : SEXP) : P x.
Proof using Hlist Hleaf.
  destruct x as [| | | | | |v a| | |] eqn:E; try (apply Hleaf; intros; discriminate).
  apply Hlist. clear E.
  induction v as [|y v IH]; constructor; [apply SEXP_nested_ind | exact IH].
Defined.
End SEXP_ind.

(** ** Decidable equality *)

#[global] Instance spec_float_eq_dec : EqDecision spec_float.
Proof. solve_decision. Defined.
#[global] Instance rreal_eq_dec : EqDecision rreal.
Proof. solve_decision. Defined.
#[global] Instance rattr_eq_dec : EqDecision rattr.
Proof. solve_decision. Defined.

#[global] Instance SEXP_eq_dec : EqDecision SEXP.
Proof.
  unfold EqDecision, RelDecision. fix go 1. intros x y.
  destruct x as [|v a|v a|v a|v a|v a|v a|i|i|i], y as [|w b|w b|w b|w b|w b|w b|j|j|j];
    try (right; discriminate); try (left; reflexivity).
  6: assert (Hvw : Decision (v = w));
     [ clear -go; revert w; induction v as [|x v IH]; intros [|y w];
       [left; reflexivity | right; discriminate | right; discriminate |];
       destruct (go x y) as [->|]; [destruct (IH w) as [->|]|];
       [left; reflexivity | right; congruence | right; congruence]
     | destruct Hvw as [->|]; [|right; congruence] ].
  1, 2, 3, 4, 5: destruct (decide (v = w)) as [->|]; [|right; congruence].
  1, 2, 3, 4, 5, 6: destruct (decide (a = b)) as [->|]; [left; reflexivity|right; congruence].
  all: destruct (decide (i = j)) as [->|]; [left; reflexivity | right; congruence].
Defined.

(** ** Looking a field up by name

    [namedField] of r_dispatcher.cpp and of stream_session.cpp: the first
    element whose name is [nm], [R_NilValue] on a miss. *)

Fixpoint first_named (names : list charsxp) (v : list SEXP) (nm : string) : SEXP :=
  match v, names with
  | x :: v', n :: names' => if String.eqb (CHAR n) nm then x else first_named names' v' nm
  | x :: v', [] => R_NilValue
  | [], _ => R_NilValue
  end.

Definition namedField (x : SEXP) (nm : string) : SEXP :=
  match x with
  | VECSXP v a => match a_names a with Some names => first_named names v nm | None => R_NilValue end
  | _ => R_NilValue
  end.

(** ** The precious list *)

Definition R_PreserveObject (x : SEXP) (l : list SEXP) : list SEXP := x :: l.

Fixpoint R_ReleaseObject (x : SEXP) (l : list SEXP) : list SEXP :=
  match l with
  | [] => []
  | y :: l' => if decide (x = y) then l' else y :: R_ReleaseObject x l'
  end.

Lemma release_preserve x l : R_ReleaseObject x (R_PreserveObject x l) = l.
Proof. cbn. by case_decide. Qed.

Lemma release_perm x l l' : l ≡ₚ x :: l' → R_ReleaseObject x l ≡ₚ l'.
Proof.
  revert l'. induction l as [|y l IH]; intros l' Hp.
  - apply Permutation_nil_cons in Hp. done.
  - cbn. case_decide as Hxy; [subst; by apply Permutation_cons_inv in Hp|].
    assert (y ∈ x :: l') as Hin by (rewrite <- Hp; set_solver).
    apply elem_of_cons in Hin as [->|Hin]; [done|].
    apply elem_of_Permutation in Hin as [k Hk].
    rewrite Hk in Hp |- *. constructor. apply IH.
    apply (Permutation_cons_inv (a := y)). rewrite Hp. apply perm_swap.
Qed.

#[global] Instance release_proper x : Proper ((≡ₚ) ==> (≡ₚ)) (R_ReleaseObject x).
Proof.
  intros l l' Hp. destruct (decide (x ∈ l)) as [Hin|Hni].
  - apply elem_of_Permutation in Hin as [k Hk].
    rewrite (release_perm x l k Hk), (release_perm x l' k); [done|]. by rewrite <- Hp.
  - assert (Hid : ∀ m, x ∉ m → R_ReleaseObject x m = m).
    { induction m as [|y m IH]; [done|]. intros Hm. cbn.
      case_decide; [set_solver|]. rewrite IH; [done|set_solver]. }
    rewrite !Hid; [done| |done]. by rewrite <- Hp.
Qed.
