(* ===== verification/JsonWriter.v ===== *)
(** * The direct R to JSON serializer (src/json_writer.cpp)

    [writeValue]/[writeAtomic]/[writeList] follow the source: they append to a
    buffer and answer [Ok] or [Unsupported]; [drogonR_to_json] returns the
    text, or [R_NilValue] so that the R caller falls back to jsonlite.  The
    second half states what the text means: a reference reader of RFC 8259
    texts ([parse_json]) and the JSON value an R value stands for ([json_of]),
    and shows that the writer produces exactly the texts of the values
    [json_of] is defined on. *)

From stdpp Require Import base gmap strings list numbers.
From Stdlib Require Import ZArith Lia Ascii SpecFloat.
From S2P Require Import Prelude CDouble RValue.

Definition kMaxDepth : Z := 64.

Inductive WriteResult := Ok | Unsupported.

Definition hasClass (x : SEXP) : bool :=
  match getClass x with
  | Some cls => negb (Nat.eqb (length cls) 0)
  | None => false
  end.

Definition push_back (buf : string) (c : ascii) : string := buf +:+ String c EmptyString.

(** ** Strings *)

Definition QUOTE : ascii := chr 34.
Definition BACKSLASH : ascii := chr 92.

Definition hex_digit (z : Z) : ascii := if z <? 10 then chr (48 + z) else chr (87 + z).

(** ["\\u%04x"] for a value below 256 *)
Definition u_escape (z : Z) : string :=
  String BACKSLASH (String "u" (String "0" (String "0"
    (String (hex_digit (z / 16)) (String (hex_digit (z mod 16)) EmptyString))))).

Definition escape_char (c : ascii) : string :=
  let two d := String BACKSLASH (String d EmptyString) in
  if Ascii.eqb c QUOTE then two QUOTE
  else if Ascii.eqb c BACKSLASH then two BACKSLASH
  else if code c =? 8 then two "b"%char
  else if code c =? 12 then two "f"%char
  else if code c =? 10 then two "n"%char
  else if code c =? 13 then two "r"%char
  else if code c =? 9 then two "t"%char
  else if code c <? 32 then u_escape (code c)
  else String c EmptyString.

Fixpoint escape_loop (buf s : string) : string :=
  match s with
  | EmptyString => buf
  | String c s' => escape_loop (buf +:+ escape_char c) s'
  end.

Definition appendEscapedString (buf s : string) : string :=
  push_back (escape_loop (push_back buf QUOTE) s) QUOTE.

Definition appendCharSEXP (buf : string) (c : charsxp) : string :=
  match c with
  | None => buf +:+ "null"
  | Some s => appendEscapedString buf (c_str s)
  end.

(** ** Numbers and logicals *)

Definition quoted (s : string) : string := String QUOTE (s +:+ String QUOTE EmptyString).

Definition appendDouble (buf : string) (v : rreal) : string :=
  match v with
  | NA_REAL => buf +:+ quoted "NA"
  | Real d =>
      if d_isnan d then buf +:+ quoted "NaN"
      else if deq d (S754_infinity false) then buf +:+ quoted "Inf"
      else if deq d (S754_infinity true) then buf +:+ quoted "-Inf"
      else buf +:+ snprintf_17g d
  end.

Definition appendInt (buf : string) (v : Z) : string :=
  if v =? NA_INTEGER then buf +:+ quoted "NA" else buf +:+ print_int v.

Definition appendBool (buf : string) (v : Z) : string :=
  if v =? NA_LOGICAL then buf +:+ "null"
  else if v =? 0 then buf +:+ "false"
  else buf +:+ "true".

(** [for (i = 0; i < n; ++i) { if (i) buf.push_back(','); append(buf, p[i]); }] *)
Fixpoint elems_loop {A} (append : string → A → string) (first : bool)
    (xs : list A) (buf : string) : string :=
  match xs with
  | [] => buf
  | x :: xs' =>
      let buf := if first then buf else push_back buf ","%char in
      elems_loop append false xs' (append buf x)
  end.

Definition write_vector {A} (append : string → A → string) (unbox : bool)
    (xs : list A) (buf : string) : string :=
  match unbox, xs with
  | true, x :: _ => append buf x
  | _, _ => push_back (elems_loop append true xs (push_back buf "["%char)) "]"%char
  end.

Definition writeAtomic (buf : string) (x : SEXP) (autoUnbox : bool) : string * WriteResult :=
  if hasClass x then (buf, Unsupported) else
  match x with
  | LGLSXP v _ => (write_vector appendBool (autoUnbox && Nat.eqb (length v) 1) v buf, Ok)
  | INTSXP v _ => (write_vector appendInt (autoUnbox && Nat.eqb (length v) 1) v buf, Ok)
  | REALSXP v _ => (write_vector appendDouble (autoUnbox && Nat.eqb (length v) 1) v buf, Ok)
  | STRSXP v _ => (write_vector appendCharSEXP (autoUnbox && Nat.eqb (length v) 1) v buf, Ok)
  | _ => (buf, Unsupported)
  end.

(** ** Lists

    The two loops of [writeList], over the recursive call [wv]. *)

Section Loops.
Context (wv : string → SEXP → string * WriteResult).

Fixpoint object_loop (first : bool) (nms : list charsxp) (xs : list SEXP)
    (buf : string) {struct xs} : string * WriteResult :=
  match xs with
  | [] => (buf, Ok)
  | x :: xs' =>
      let buf := if first then buf else push_back buf ","%char in
      match nms with
      | [] => (buf, Unsupported)
      | key :: nms' =>
          match key with
          | None => (buf, Unsupported)
          | Some k =>
              match c_str k with
              | EmptyString => (buf, Unsupported)
              | ks =>
                  let buf := push_back (appendEscapedString buf ks) ":"%char in
                  match wv buf x with
                  | (buf, Ok) => object_loop false nms' xs' buf
                  | r => r
                  end
              end
          end
      end
  end.

Fixpoint array_loop (first : bool) (xs : list SEXP) (buf : string) : string * WriteResult :=
  match xs with
  | [] => (buf, Ok)
  | x :: xs' =>
      let buf := if first then buf else push_back buf ","%char in
      match wv buf x with
      | (buf, Ok) => array_loop false xs' buf
      | r => r
      end
  end.
End Loops.

Definition close_with (c : ascii) (r : string * WriteResult) : string * WriteResult :=
  match r with (buf, Ok) => (push_back buf c, Ok) | _ => r end.

(** [writeList], with the recursive call as a parameter. *)
Definition writeList_with (wv : string → SEXP → string * WriteResult)
    (buf : string) (x : SEXP) (v : list SEXP) : string * WriteResult :=
  if hasClass x then (buf, Unsupported) else
  match getNames x with
  | Some nms =>
      if Nat.eqb (length nms) (length v)
      then close_with "}"%char (object_loop wv true nms v (push_back buf "{"%char))
      else (buf, Unsupported)
  | None => close_with "]"%char (array_loop wv true v (push_back buf "["%char))
  end.

Fixpoint writeValue (autoUnbox : bool) (x : SEXP) (buf : string) (depth : Z) {struct x}
    : string * WriteResult :=
  if kMaxDepth <? depth then (buf, Unsupported) else
  match x with
  | R_NilValue => if 0 <? depth then (buf, Unsupported) else (buf +:+ "{}", Ok)
  | LGLSXP _ _ | INTSXP _ _ | REALSXP _ _ | STRSXP _ _ => writeAtomic buf x autoUnbox
  | VECSXP v a =>
      writeList_with (λ b y, writeValue autoUnbox y b (depth + 1)) buf x v
  | _ => (buf, Unsupported)
  end.

Definition auto_unbox_flag (auto_unbox_ : SEXP) : bool :=
  match auto_unbox_ with LGLSXP [b] _ => b =? 1 | _ => false end.

Definition drogonR_to_json (x auto_unbox_ : SEXP) : SEXP :=
  match writeValue (auto_unbox_flag auto_unbox_) x EmptyString 0 with
  | (buf, Ok) => STRSXP [Some buf] no_attr
  | (_, Unsupported) => R_NilValue
  end.

(** ** Reference: JSON texts *)

#[local] Set Warnings "-register-all".

Inductive json :=
| JNull
| JBool (b : bool)
| JNum (lexeme : string)
| JStr (s : string)
| JArr (l : list json)
| JObj (l : list (string * json)).

(** The number grammar of RFC 8259 (section 6) as an automaton. *)
Inductive nstate := NStart | NMinus | NZero | NInt | NDot | NFrac | NExp | NSign | NExpDig | NBad.

Definition nstep (st : nstate) (c : ascii) : nstate :=
  let d := is_digit c in
  let d19 := is_digit19 c in
  let isc x := Ascii.eqb c x in
  match st with
  | NStart => if isc "-"%char then NMinus else if d19 then NInt else if d then NZero else NBad
  | NMinus => if d19 then NInt else if d then NZero else NBad
  | NZero => if isc "."%char then NDot else if isc "e"%char || isc "E"%char then NExp else NBad
  | NInt => if d then NInt else if isc "."%char then NDot
            else if isc "e"%char || isc "E"%char then NExp else NBad
  | NDot => if d then NFrac else NBad
  | NFrac => if d then NFrac else if isc "e"%char || isc "E"%char then NExp else NBad
  | NExp => if d then NExpDig else if isc "+"%char || isc "-"%char then NSign else NBad
  | NSign => if d then NExpDig else NBad
  | NExpDig => if d then NExpDig else NBad
  | NBad => NBad
  end.

Fixpoint nrun (st : nstate) (s : string) : nstate :=
  match s with EmptyString => st | String c s' => nrun (nstep st c) s' end.

Definition naccept (st : nstate) : bool :=
  match st with NZero | NInt | NFrac | NExpDig => true | _ => false end.

Definition is_json_number (s : string) : bool := naccept (nrun NStart s).

Definition is_numchar (c : ascii) : bool :=
  is_digit c || Ascii.eqb c "-" || Ascii.eqb c "+" || Ascii.eqb c "." ||
  Ascii.eqb c "e" || Ascii.eqb c "E".

Fixpoint span_num (s : string) : string * string :=
  match s with
  | EmptyString => (EmptyString, EmptyString)
  | String c s' =>
      if is_numchar c then let '(a, b) := span_num s' in (String c a, b) else (EmptyString, s)
  end.

(** String literals: the text after the opening quote. *)
Definition hex_val (c : ascii) : option Z :=
  let z := code c in
  if is_digit c then Some (z - 48)
  else if (97 <=? z) && (z <=? 102) then Some (z - 87)
  else if (65 <=? z) && (z <=? 70) then Some (z - 55)
  else None.

Definition hex4 (a b c d : ascii) : option Z :=
  match hex_val a, hex_val b, hex_val c, hex_val d with
  | Some a, Some b, Some c, Some d => Some (4096 * a + 256 * b + 16 * c + d)
  | _, _, _, _ => None
  end.

(** UTF-8 of a code point of the basic plane; surrogates are refused. *)
Definition utf8 (z : Z) : option string :=
  if z <? 128 then Some (String (chr z) EmptyString)
  else if z <? 2048 then
    Some (String (chr (192 + z / 64)) (String (chr (128 + z mod 64)) EmptyString))
  else if (55296 <=? z) && (z <=? 57343) then None
  else Some (String (chr (224 + z / 4096)) (String (chr (128 + z / 64 mod 64))
         (String (chr (128 + z mod 64)) EmptyString))).

Definition simple_escape (c : ascii) : option ascii :=
  if Ascii.eqb c QUOTE then Some QUOTE
  else if Ascii.eqb c BACKSLASH then Some BACKSLASH
  else if Ascii.eqb c "/" then Some "/"%char
  else if Ascii.eqb c "b" then Some (chr 8)
  else if Ascii.eqb c "f" then Some (chr 12)
  else if Ascii.eqb c "n" then Some (chr 10)
  else if Ascii.eqb c "r" then Some (chr 13)
  else if Ascii.eqb c "t" then Some (chr 9)
  else None.

Definition cons_out (o : string) (r : option (string * string)) : option (string * string) :=
  match r with Some (a, b) => Some (o +:+ a, b) | None => None end.

Fixpoint parse_chars (s : string) : option (string * string) :=
  match s with
  | EmptyString => None
  | String c s' =>
      if Ascii.eqb c QUOTE then Some (EmptyString, s')
      else if Ascii.eqb c BACKSLASH then
        match s' with
        | String "u"%char (String h1 (String h2 (String h3 (String h4 s'')))) =>
            match hex4 h1 h2 h3 h4 with
            | Some z => match utf8 z with
                        | Some o => cons_out o (parse_chars s'')
                        | None => None
                        end
            | None => None
            end
        | String e s'' =>
            match simple_escape e with
            | Some o => cons_out (String o EmptyString) (parse_chars s'')
            | None => None
            end
        | EmptyString => None
        end
      else if code c <? 32 then None
      else cons_out (String c EmptyString) (parse_chars s')
  end.

Definition strip_prefix (p s : string) : option string :=
  if String.prefix p s then Some (str_drop (String.length p) s) else None.

(** Values; [fuel] bounds the recursion, and twice the length of the text is
    always enough (see [parse_json]). *)
Fixpoint parse_value (fuel : nat) (s : string) : option (json * string) :=
  match fuel with
  | O => None
  | S f =>
      match s with
      | EmptyString => None
      | String c s' =>
          if Ascii.eqb c "{" then
            match s' with
            | String "}"%char r => Some (JObj [], r)
            | _ => match parse_members f s' with
                   | Some (l, r) => Some (JObj l, r)
                   | None => None
                   end
            end
          else if Ascii.eqb c "[" then
            match s' with
            | String "]"%char r => Some (JArr [], r)
            | _ => match parse_elements f s' with
                   | Some (l, r) => Some (JArr l, r)
                   | None => None
                   end
            end
          else if Ascii.eqb c QUOTE then
            match parse_chars s' with Some (o, r) => Some (JStr o, r) | None => None end
          else match strip_prefix "true" s with
          | Some r => Some (JBool true, r)
          | None => match strip_prefix "false" s with
          | Some r => Some (JBool false, r)
          | None => match strip_prefix "null" s with
          | Some r => Some (JNull, r)
          | None =>
              let '(n, r) := span_num s in
              if is_json_number n then Some (JNum n, r) else None
          end end end
      end
  end
with parse_elements (fuel : nat) (s : string) : option (list json * string) :=
  match fuel with
  | O => None
  | S f =>
      match parse_value f s with
      | Some (j, String "]"%char r) => Some ([j], r)
      | Some (j, String ","%char r) =>
          match parse_elements f r with
          | Some (l, r') => Some (j :: l, r')
          | None => None
          end
      | _ => None
      end
  end
with parse_members (fuel : nat) (s : string) : option (list (string * json) * string) :=
  match fuel with
  | O => None
  | S f =>
      match s with
      | String q s' =>
          if Ascii.eqb q QUOTE then
            match parse_chars s' with
            | Some (k, String ":"%char r) =>
                match parse_value f r with
                | Some (j, String "}"%char r') => Some ([(k, j)], r')
                | Some (j, String ","%char r') =>
                    match parse_members f r' with
                    | Some (l, r'') => Some ((k, j) :: l, r'')
                    | None => None
                    end
                | _ => None
                end
            | _ => None
            end
          else None
      | EmptyString => None
      end
  end.

Definition parse_json (s : string) : option json :=
  match parse_value (2 * String.length s) s with
  | Some (j, EmptyString) => Some j
  | _ => None
  end.

(** ** Reference: the JSON value an R value stands for *)

Definition json_of_lgl (v : Z) : json :=
  if v =? NA_LOGICAL then JNull else JBool (negb (v =? 0)).
Definition json_of_int (v : Z) : json :=
  if v =? NA_INTEGER then JStr "NA" else JNum (print_int v).
Definition json_of_real (v : rreal) : json :=
  match v with
  | NA_REAL => JStr "NA"
  | Real S754_nan => JStr "NaN"
  | Real (S754_infinity false) => JStr "Inf"
  | Real (S754_infinity true) => JStr "-Inf"
  | Real d => JNum (snprintf_17g d)
  end.
Definition json_of_char (c : charsxp) : json :=
  match c with None => JNull | Some s => JStr (c_str s) end.

(** [auto_unbox]: a length-one atomic vector is a scalar. *)
Definition json_of_vec (autoUnbox : bool) (l : list json) : json :=
  match autoUnbox, l with true, [j] => j | _, _ => JArr l end.

Definition json_key (c : charsxp) : option string :=
  match c with
  | Some k => match c_str k with EmptyString => None | ks => Some ks end
  | None => None
  end.

Fixpoint json_of (autoUnbox : bool) (depth : Z) (x : SEXP) {struct x} : option json :=
  if kMaxDepth <? depth then None else
  if hasClass x then None else
  match x with
  | R_NilValue => if 0 <? depth then None else Some (JObj [])
  | LGLSXP v _ => Some (json_of_vec autoUnbox (map json_of_lgl v))
  | INTSXP v _ => Some (json_of_vec autoUnbox (map json_of_int v))
  | REALSXP v _ => Some (json_of_vec autoUnbox (map json_of_real v))
  | STRSXP v _ => Some (json_of_vec autoUnbox (map json_of_char v))
  | VECSXP v a =>
      match a_names a with
      | Some nms =>
          if Nat.eqb (length nms) (length v) then
            match mapM json_key nms, mapM (json_of autoUnbox (depth + 1)) v with
            | Some ks, Some js => Some (JObj (zip ks js))
            | _, _ => None
            end
          else None
      | None => JArr <$> mapM (json_of autoUnbox (depth + 1)) v
      end
  | _ => None
  end.

(** What every R value satisfies: integers are 32-bit, doubles canonical. *)
Definition int32_ok (z : Z) : bool := (INT_MIN <=? z) && (z <=? INT_MAX).
Definition real_ok (r : rreal) : bool :=
  match r with NA_REAL => true | Real d => valid_double d end.
Fixpoint rvalue_ok (x : SEXP) : bool :=
  match x with
  | LGLSXP v _ | INTSXP v _ => forallb int32_ok v
  | REALSXP v _ => forallb real_ok v
  | VECSXP v _ => forallb rvalue_ok v
  | _ => true
  end.

(** ** Proofs: string literals *)

Lemma parse_escape_char c r :
  parse_chars (escape_char c +:+ r) = cons_out (String c EmptyString) (parse_chars r).
Proof. destruct c as [[] [] [] [] [] [] [] []]; reflexivity. Qed.

Fixpoint esc (s : string) : string :=
  match s with EmptyString => EmptyString | String c s' => escape_char c +:+ esc s' end.

Lemma escape_loop_esc buf s : escape_loop buf s = buf +:+ esc s.
Proof.
  revert buf; induction s as [|c s IH]; intros buf; cbn; autorewrite with drogonR; [done|].
  by rewrite IH, app_str_assoc.
Qed.

(** The literal [appendEscapedString] writes. *)
Definition literal (s : string) : string := String QUOTE (esc s +:+ String QUOTE EmptyString).

Lemma appendEscapedString_literal buf s : appendEscapedString buf s = buf +:+ literal s.
Proof.
  unfold appendEscapedString, push_back, literal. rewrite escape_loop_esc.
  by autorewrite with drogonR.
Qed.

#[local] Arguments appendEscapedString : simpl never.

Lemma parse_chars_esc s rest : parse_chars (esc s +:+ String QUOTE rest) = Some (s, rest).
Proof.
  induction s as [|c s IH]; cbn [esc]; [done|].
  by rewrite app_str_assoc, parse_escape_char, IH.
Qed.

(** ** Proofs: number lexemes *)

Lemma nrun_app st s t : nrun st (s +:+ t) = nrun (nrun st s) t.
Proof. revert st; induction s; intros; cbn; auto. Qed.

Lemma nrun_digits st s :
  (st = NInt ∨ st = NFrac ∨ st = NExpDig) → all_digits s = true → nrun st s = st.
Proof.
  intros Hst. revert st Hst. induction s as [|c s IH]; intros st Hst; cbn; [done|].
  intros H. bool_to_prop. replace (nstep st c) with st; [by apply IH|].
  destruct Hst as [->|[->| ->]]; cbn; by rewrite H.
Qed.

(** Digits read from a state where one is required. *)
Lemma nrun_digits1 st st' s :
  (st, st') ∈ [(NDot, NFrac); (NExp, NExpDig); (NSign, NExpDig)] →
  all_digits s = true → s ≠ EmptyString → nrun st s = st'.
Proof.
  intros Hst Hs Hne. destruct s as [|c s]; [done|]. cbn in *. bool_to_prop.
  assert (nstep st c = st') as ->.
  { set_unfold in Hst. destruct_or?; simplify_eq; cbn; by rewrite H. }
  apply nrun_digits; [set_unfold in Hst; naive_solver|done].
Qed.

Lemma nrun_head st c r :
  (st = NStart ∨ st = NMinus) → is_digit19 c = true → all_digits r = true →
  nrun st (String c r) = NInt.
Proof.
  intros Hst Hc Hr. cbn. assert (nstep st c = NInt) as ->; [|by apply nrun_digits; auto].
  destruct Hst as [->| ->]; cbn; rewrite Hc; [|done].
  case_if; [|done]. apply Ascii.eqb_eq in Heqb; by subst.
Qed.

Lemma nrun_frac s :
  all_digits s = true → nrun NInt (frac_part s) = NInt ∨ nrun NInt (frac_part s) = NFrac.
Proof.
  intros Hs%rstrip0_digits. unfold frac_part. destruct (rstrip0 s) as [|c r] eqn:E; [by left|].
  right. change (nrun NDot (String c r) = NFrac). apply nrun_digits1; [set_solver|done|done].
Qed.

Lemma nrun_exp st x : st = NInt ∨ st = NFrac → nrun st (exp_part x) = NExpDig.
Proof.
  intros Hst. unfold exp_part. cbn [nrun].
  assert (nstep st "e" = NExp) as -> by (by destruct Hst as [->| ->]).
  assert (nstep NExp (if x <? 0 then "-"%char else "+"%char) = NSign) as -> by (by case_if).
  case_if; (apply nrun_digits1; [set_solver | apply digits_fixed_digits |]);
    intros E%(f_equal String.length); by rewrite digits_fixed_length in E.
Qed.

Lemma nrun_format_g17 st d x :
  (st = NStart ∨ st = NMinus) → 10 ^ 16 ≤ d < 10 ^ 17 →
  naccept (nrun st (format_g17 d x)) = true.
Proof.
  intros Hst Hd. unfold format_g17.
  destruct (digits_fixed_head 16 d Hd) as (c & r & -> & Hc & Hr & _).
  case_if; [|case_if]; bool_to_prop.
  - cbn [str_take str_drop]. rewrite !nrun_app, (nrun_head st c) by done.
    rewrite nrun_exp; [done|]. by apply nrun_frac.
  - rewrite !nrun_app. assert (nrun st "0." = NDot) as -> by (by destruct Hst as [->| ->]).
    assert (Hz : nrun NDot (digits_fixed (Z.to_nat (- x - 1)) 0) = NDot ∨
                 nrun NDot (digits_fixed (Z.to_nat (- x - 1)) 0) = NFrac).
    { destruct (digits_fixed _ _) eqn:E; [by left|right]. rewrite <- E.
      apply nrun_digits1; [set_solver|apply digits_fixed_digits|by rewrite E]. }
    pose proof (rstrip0_nonempty c r Hc).
    assert (all_digits (rstrip0 (String c r)) = true).
    { apply rstrip0_digits. cbn. by rewrite (is_digit_19 _ Hc). }
    destruct Hz as [-> | ->].
    + rewrite (nrun_digits1 NDot NFrac); [done|set_solver|done|done].
    + rewrite nrun_digits; auto.
  - destruct (Z.to_nat (x + 1)) as [|k] eqn:Ek; [lia|]. cbn [str_take str_drop].
    rewrite nrun_app, nrun_head by (auto using str_take_digits).
    destruct (nrun_frac (str_drop k r)) as [-> | ->]; auto using str_drop_digits.
Qed.

Lemma json_number_print_int z : int32_ok z = true → is_json_number (print_int z) = true.
Proof.
  unfold int32_ok, is_json_number, print_int, INT_MIN, INT_MAX. intros H. bool_to_prop.
  assert (Hdec : ∀ y st, (st = NStart ∨ st = NMinus) → 0 < y < 10 ^ 40 →
                 naccept (nrun st (dec y)) = true).
  { intros y st Hst Hy. unfold dec. destruct (dec_fuel_shape 40 y Hy) as (c & r & -> & Hc & Hr).
    by rewrite nrun_head. }
  assert (2 ^ 31 < 10 ^ 40) by (vm_compute; done). generalize dependent (10 ^ 40). intros.
  case_if; bool_to_prop; [cbn [nrun]; apply Hdec; [by right|lia]|].
  destruct (decide (z = 0)) as [->|]; [done|]. apply Hdec; [by left|lia].
Qed.

Lemma json_number_17g d :
  valid_double d = true →
  match d with S754_zero _ | S754_finite _ _ _ => True | _ => False end →
  is_json_number (snprintf_17g d) = true.
Proof.
  unfold is_json_number, valid_double. destruct d as [s| | |s m e]; intros Hv Hf; try done.
  - by destruct s.
  - unfold snprintf_17g. destruct (sig17 m e) as [dg x] eqn:E.
    pose proof (sig17_bounds m e dg x Hv E). rewrite nrun_app.
    destruct s; apply nrun_format_g17; auto.
Qed.

(** ** Proofs: the texts of values

    [reads t j]: the reader, started on the text [t] followed by anything that
    cannot continue a number, consumes exactly [t] and yields [j]. *)

Definition delim (rest : string) : Prop :=
  match rest with EmptyString => True | String c _ => is_numchar c = false end.

Definition reads (t : string) (j : json) : Prop :=
  (∃ c t', t = String c t' ∧ c ≠ "]"%char) ∧
  ∀ f rest, (2 * String.length t ≤ f)%nat → delim rest →
    parse_value f (t +:+ rest) = Some (j, rest).

Lemma reads_literal s : reads (literal s) (JStr s).
Proof.
  split; [by eexists _, _|]. intros [|f] rest Hf _; [cbn in Hf; lia|].
  unfold literal. cbn -[parse_chars QUOTE esc]. rewrite app_str_assoc. cbn -[parse_chars QUOTE esc].
  by rewrite parse_chars_esc.
Qed.

Lemma reads_keyword t j :
  (t, j) ∈ [("true", JBool true); ("false", JBool false); ("null", JNull); ("{}", JObj [])] →
  reads t j.
Proof.
  intros Ht. set_unfold in Ht.
  destruct_or?; simplify_eq; (split; [by eexists _, _|]); intros [|f] rest Hf _; cbn in Hf; try lia;
    by destruct rest.
Qed.

Lemma span_num_app n rest :
  str_forallb is_numchar n = true → delim rest → span_num (n +:+ rest) = (n, rest).
Proof.
  intros Hn Hd. induction n as [|c n IH]; cbn in *.
  - destruct rest as [|c r]; cbn in *; [done|]. by rewrite Hd.
  - bool_to_prop. rewrite H, IH by done. done.
Qed.

Lemma nrun_numchars st s :
  naccept (nrun st s) = true → str_forallb is_numchar s = true.
Proof.
  assert (Hbad : ∀ s, nrun NBad s = NBad) by (induction s0; cbn; auto).
  revert st. induction s as [|c s IH]; intros st; cbn; [done|]. intros H.
  rewrite (IH _ H), andb_true_r.
  destruct (is_numchar c) eqn:E; [done|]. exfalso.
  assert (nstep st c = NBad) as Hb.
  { unfold is_numchar in E. bool_to_prop.
    assert (is_digit19 c = false)
      by (destruct (is_digit19 c) eqn:E'; [apply is_digit_19 in E'; congruence|done]).
    destruct st; cbn; repeat match goal with Hx : _ = false |- _ => rewrite Hx end; done. }
  by rewrite Hb, Hbad in H.
Qed.

Lemma reads_number n : is_json_number n = true → reads n (JNum n).
Proof.
  intros Hn. pose proof (nrun_numchars _ _ Hn) as Hc.
  destruct n as [|c n']; [done|]. split.
  { eexists _, _. split; [done|]. intros ->. done. }
  intros [|f] rest Hf Hd; [cbn in Hf; lia|].
  assert (Hall : ∀ c' p, is_numchar c' = false → strip_prefix (String c' p) (String c n' +:+ rest) = None).
  { intros c' p Hc'. unfold strip_prefix. cbn. destruct (ascii_dec c' c) as [->|]; [|done].
    cbn in Hc. bool_to_prop. congruence. }
  cbn [parse_value String.append]. cbn in Hc.
  destruct (Ascii.eqb_spec c "{") as [->|]; [done|].
  destruct (Ascii.eqb_spec c "[") as [->|]; [done|].
  destruct (Ascii.eqb_spec c QUOTE) as [->|]; [done|].
  change (String c (n' +:+ rest)) with (String c n' +:+ rest).
  rewrite !Hall by done. rewrite span_num_app by done. by rewrite Hn.
Qed.

(** A sequence of items after the first one: each preceded by a comma. *)
Fixpoint cjoin (ts : list string) : string :=
  match ts with [] => EmptyString | t :: ts' => String ","%char (t +:+ cjoin ts') end.

Lemma parse_elements_join ts js :
  Forall2 reads ts js → ∀ t j f rest,
  reads t j → (2 * String.length (t +:+ cjoin ts) + 1 ≤ f)%nat →
  parse_elements f (t +:+ cjoin ts +:+ String "]" rest) = Some (j :: js, rest).
Proof.
  induction 1 as [|t' j' ts js Ht' _ IH]; intros t j f rest [_ Ht] Hf;
    (destruct f as [|f]; [lia|]); rewrite length_app_str in Hf; cbn in Hf |- *.
  - rewrite Ht by (done || lia). done.
  - rewrite Ht by (done || lia). cbn. autorewrite with drogonR.
    rewrite (IH t' j'); [done|done|]. rewrite length_app_str in *. lia.
Qed.

Lemma reads_array t ts j js :
  reads t j → Forall2 reads ts js →
  reads (String "[" (t +:+ cjoin ts +:+ "]")) (JArr (j :: js)).
Proof.
  intros Ht Hts. split; [by eexists _, _|]. intros [|f] rest Hf _; [cbn in Hf; lia|].
  pose proof (parse_elements_join ts js Hts t j f rest Ht) as Hp.
  destruct Ht as [(c & t' & -> & Hc) _].
  cbn -[parse_elements cjoin] in *. autorewrite with drogonR in *.
  rewrite !length_app_str in *. cbn in Hf. cbn -[parse_elements cjoin].
  rewrite Hp by lia. destruct c as [[] [] [] [] [] [] [] []]; done.
Qed.

Lemma reads_empty_array : reads "[]" (JArr []).
Proof. split; [by eexists _, _|]. intros [|f] rest Hf _; [cbn in Hf; lia|done]. Qed.

(** One member of an object. *)
Definition member_text (k t : string) : string := literal k +:+ String ":" t.

Inductive reads_members : list string → list (string * json) → Prop :=
| rm_nil : reads_members [] []
| rm_cons k t j ts ms :
    reads t j → reads_members ts ms → reads_members (member_text k t :: ts) ((k, j) :: ms).

Lemma parse_member_step f k t r :
  parse_members (S f) (member_text k t +:+ r) =
  match parse_value f (t +:+ r) with
  | Some (j, String "}"%char r') => Some ([(k, j)], r')
  | Some (j, String ","%char r') =>
      match parse_members f r' with
      | Some (l, r'') => Some ((k, j) :: l, r'')
      | None => None
      end
  | _ => None
  end.
Proof.
  unfold member_text, literal. rewrite app_str_assoc. cbn [parse_members String.append].
  rewrite (Ascii.eqb_refl QUOTE), app_str_assoc. cbn [String.append].
  by rewrite parse_chars_esc.
Qed.

Lemma parse_members_join ts ms :
  reads_members ts ms → ∀ k t j f rest,
  reads t j → (2 * String.length (member_text k t +:+ cjoin ts) + 1 ≤ f)%nat →
  parse_members f (member_text k t +:+ cjoin ts +:+ String "}" rest) = Some ((k, j) :: ms, rest).
Proof.
  assert (Hlen : ∀ k t, (String.length t ≤ String.length (member_text k t))%nat).
  { intros. unfold member_text. rewrite length_app_str. cbn. lia. }
  induction 1 as [|k' t' j' ts ms Ht' _ IH]; intros k t j f rest [_ Ht] Hf;
    (destruct f as [|f]; [lia|]); rewrite length_app_str in Hf; specialize (Hlen k t);
    rewrite parse_member_step; cbn [cjoin String.append] in *; rewrite Ht by (done || lia);
    cbn [cjoin String.append]; [done|].
  autorewrite with drogonR. rewrite (IH k' t' j'); [done|done|].
  cbn [String.length] in Hf. lia.
Qed.

Lemma reads_object k t ts j ms :
  reads t j → reads_members ts ms →
  reads (String "{" (member_text k t +:+ cjoin ts +:+ "}")) (JObj ((k, j) :: ms)).
Proof.
  intros Ht Hts. split; [by eexists _, _|]. intros [|f] rest Hf _; [cbn in Hf; lia|].
  pose proof (parse_members_join ts ms Hts k t j f rest Ht) as Hp.
  cbn [String.length] in Hf. rewrite !length_app_str in *.
  assert (∃ s, member_text k t = String QUOTE s) as [s Es] by by eexists.
  cbn [parse_value String.append]. rewrite !app_str_assoc. cbn [String.append].
  change (String.length "}") with 1%nat in Hf. rewrite Hp by lia. by rewrite Es.
Qed.

(** ** Proofs: atoms and vectors *)

Definition writes {A} (append : string → A → string) (x : A) (j : json) : Prop :=
  ∃ t, (∀ buf, append buf x = buf +:+ t) ∧ reads t j.

Lemma reads_quoted s : str_forallb (λ c, Ascii.eqb c c && (Z.leb 32 (code c)) &&
    negb (Ascii.eqb c QUOTE) && negb (Ascii.eqb c BACKSLASH)) s = true →
  quoted s = literal s.
Proof.
  intros H. unfold quoted, literal. do 2 f_equal.
  induction s as [|c s IH]; cbn in *; [done|]. bool_to_prop. rewrite IH at 1 by done.
  unfold escape_char. rewrite H2, H1. 
  repeat match goal with |- context [code c =? ?k] => replace (code c =? k) with false by lia end.
  by replace (code c <? 32) with false by lia.
Qed.

Lemma writes_lgl v : writes appendBool v (json_of_lgl v).
Proof.
  unfold writes, appendBool, json_of_lgl. case_if; [|case_if];
    (eexists; split; [intros; reflexivity|]); apply reads_keyword; set_solver.
Qed.

Lemma writes_int v : int32_ok v = true → writes appendInt v (json_of_int v).
Proof.
  intros Hv. unfold writes, appendInt, json_of_int. case_if; (eexists; split; [intros; reflexivity|]).
  - rewrite reads_quoted by done. apply reads_literal.
  - by apply reads_number, json_number_print_int.
Qed.

Lemma writes_real v : real_ok v = true → writes appendDouble v (json_of_real v).
Proof.
  assert (Hq : ∀ s, quoted s = literal s → reads (quoted s) (JStr s))
    by (intros s ->; apply reads_literal).
  intros Hv. unfold writes, appendDouble, json_of_real.
  destruct v as [|[s|[]| |s m e]]; cbn -[snprintf_17g quoted];
    (eexists; split; [intros; reflexivity|]); try (apply Hq, reads_quoted; done);
    apply reads_number, json_number_17g; done.
Qed.

Lemma writes_char c : writes appendCharSEXP c (json_of_char c).
Proof.
  unfold writes. destruct c as [s|]; cbn.
  - exists (literal (c_str s)). split; [intros; apply appendEscapedString_literal|apply reads_literal].
  - eexists. split; [intros; reflexivity|]. apply reads_keyword; set_solver.
Qed.

Lemma elems_loop_writes {A} (append : string → A → string) jf xs :
  Forall (λ x, writes append x (jf x)) xs →
  ∃ ts, (∀ buf, elems_loop append false xs buf = buf +:+ cjoin ts) ∧ Forall2 reads ts (map jf xs).
Proof.
  induction 1 as [|x xs (t & Ht & Hr) _ (ts & Hts & Hrs)].
  - exists []. split; [intros; by autorewrite with drogonR|constructor].
  - exists (t :: ts). split; [|by constructor]. intros buf. cbn [elems_loop].
    unfold push_back. rewrite Hts, Ht. cbn. by autorewrite with drogonR.
Qed.

Lemma vector_writes {A} (append : string → A → string) jf u xs :
  Forall (λ x, writes append x (jf x)) xs →
  ∃ t, (∀ buf, write_vector append (u && Nat.eqb (length xs) 1) xs buf = buf +:+ t) ∧
       reads t (json_of_vec u (map jf xs)).
Proof.
  intros H. destruct xs as [|x [|y xs]]; unfold write_vector; cbn [length Nat.eqb map].
  - exists "[]". rewrite andb_false_r. split; [intros; cbn; unfold push_back; by autorewrite with drogonR|].
    destruct u; apply reads_empty_array.
  - apply Forall_singleton in H as (t & Ht & Hr). destruct u; cbn [andb json_of_vec].
    + by exists t.
    + eexists. split; [|by apply (reads_array t [] _ [])]. intros. cbn [elems_loop].
      unfold push_back. rewrite Ht. cbn. by autorewrite with drogonR.
  - rewrite andb_false_r. inversion_clear H as [|? ? (t & Ht & Hr) Hl].
    destruct (elems_loop_writes append jf _ Hl) as (ts & Hts & Hrs).
    exists (String "[" (t +:+ cjoin ts +:+ "]")). split.
    + intros. change (elems_loop append true (x :: y :: xs)) with
        (λ buf, elems_loop append false (y :: xs) (append buf x)). cbn beta.
      rewrite Hts, Ht. unfold push_back. cbn. by autorewrite with drogonR.
    + replace (json_of_vec u _) with (JArr (jf x :: map jf (y :: xs))) by (by destruct u).
      by apply reads_array.
Qed.

Lemma Forall_writes {A} (append : string → A → string) jf ok xs :
  (∀ x, ok x = true → writes append x (jf x)) → forallb ok xs = true →
  Forall (λ x, writes append x (jf x)) xs.
Proof.
  intros Hok. induction xs; cbn; [by constructor|]. intros; bool_to_prop. constructor; auto.
Qed.

(** ** Proofs: lists *)

(** What is proved of a recursive call: it writes the text of the value, or
    refuses when there is none. *)
Definition writes_opt (wv : string → string * WriteResult) (oj : option json) : Prop :=
  match oj with
  | Some j => ∃ t, (∀ buf, wv buf = (buf +:+ t, Ok)) ∧ reads t j
  | None => ∀ buf, snd (wv buf) = Unsupported
  end.

Definition unsupported (r : string * WriteResult) : Prop := snd r = Unsupported.

Lemma close_unsupported c r : unsupported r → unsupported (close_with c r).
Proof. destruct r as [? []]; done. Qed.

(** The items of a loop: the first one without its comma. *)
Definition djoin (first : bool) (ts : list string) : string :=
  match first, ts with true, t :: ts' => t +:+ cjoin ts' | _, _ => cjoin ts end.

Lemma djoin_cons (first : bool) buf t ts :
  ((if first then buf else push_back buf ",") +:+ t) +:+ cjoin ts = buf +:+ djoin first (t :: ts).
Proof. unfold push_back. destruct first; cbn; by autorewrite with drogonR. Qed.

Section ListProofs.
Context (wv : string → SEXP → string * WriteResult) (jf : SEXP → option json).

Lemma array_loop_spec xs :
  Forall (λ x, writes_opt (λ b, wv b x) (jf x)) xs →
  match mapM jf xs with
  | Some js => ∃ ts, Forall2 reads ts js ∧
      ∀ first buf, array_loop wv first xs buf = (buf +:+ djoin first ts, Ok)
  | None => ∀ first buf, unsupported (array_loop wv first xs buf)
  end.
Proof.
  induction 1 as [|x xs Hx _ IH]; cbn.
  { exists []. split; [constructor|]. intros []; intros; cbn; by autorewrite with drogonR. }
  unfold writes_opt in Hx. destruct (jf x) as [j|]; cbn.
  - destruct Hx as (t & Ht & Hr). destruct (mapM jf xs) as [js|]; cbn.
    + destruct IH as (ts & Hrs & Hts). exists (t :: ts). split; [by constructor|].
      intros. by rewrite Ht, Hts, <- djoin_cons.
    + intros. rewrite Ht. apply IH.
  - intros first buf. specialize (Hx (if first then buf else push_back buf ",")).
    destruct (wv _ x) as [? []]; done.
Qed.

Lemma object_loop_spec nms xs :
  length nms = length xs →
  Forall (λ x, writes_opt (λ b, wv b x) (jf x)) xs →
  match mapM json_key nms, mapM jf xs with
  | Some ks, Some js =>
      ∃ ts, reads_members ts (zip ks js) ∧
      ∀ first buf, object_loop wv first nms xs buf = (buf +:+ djoin first ts, Ok)
  | _, _ => ∀ first buf, unsupported (object_loop wv first nms xs buf)
  end.
Proof.
  intros Hlen Hxs. revert nms Hlen.
  induction Hxs as [|x xs Hx _ IH]; intros [|n nms] Hlen; try done; cbn.
  { exists []. split; [constructor|]. intros []; intros; cbn; by autorewrite with drogonR. }
  injection Hlen as Hlen. specialize (IH nms Hlen). unfold writes_opt in Hx.
  destruct n as [k|]; cbn; [|done]. destruct (c_str k) as [|c s] eqn:Ek; cbn; [done|].
  destruct (jf x) as [j|]; cbn.
  - destruct Hx as (t & Ht & Hr).
    destruct (mapM json_key nms) as [ks|], (mapM jf xs) as [js|]; cbn;
      try (intros; rewrite Ht; apply IH).
    destruct IH as (ts & Hrs & Hts).
    exists (member_text (String c s) t :: ts). split; [by constructor|].
    intros. rewrite Ht, Hts, appendEscapedString_literal, <- djoin_cons.
    unfold member_text, push_back. cbn [djoin]. autorewrite with drogonR. cbn [String.append].
    by autorewrite with drogonR.
  - assert (Hb : ∀ buf, unsupported match wv buf x with
      | (buf', Ok) => object_loop wv false nms xs buf' | r => r end).
    { intros buf. specialize (Hx buf). destruct (wv buf x) as [? []]; done. }
    destruct (mapM json_key nms); cbn; intros; apply Hb.
Qed.

Lemma writeList_spec v a :
  Forall (λ x, writes_opt (λ b, wv b x) (jf x)) v →
  hasClass (VECSXP v a) = false →
  writes_opt (λ b, writeList_with wv b (VECSXP v a) v)
    match a_names a with
    | Some nms =>
        if Nat.eqb (length nms) (length v) then
          match mapM json_key nms, mapM jf v with
          | Some ks, Some js => Some (JObj (zip ks js))
          | _, _ => None
          end
        else None
    | None => JArr <$> mapM jf v
    end.
Proof.
  intros Hv Hc. unfold writeList_with. rewrite Hc. unfold getNames. cbn [attrs].
  destruct (a_names a) as [nms|].
  - destruct (Nat.eqb_spec (length nms) (length v)) as [Hl|]; [|done].
    pose proof (object_loop_spec _ _ Hl Hv) as Hspec.
    destruct (mapM json_key nms) as [ks|], (mapM jf v) as [js|];
      try (intros buf; by apply close_unsupported, Hspec).
    destruct Hspec as (ts & Hrs & Hts).
    exists (String "{" (djoin true ts +:+ "}")). split.
    + intros. rewrite Hts. cbn [close_with]. unfold push_back. by autorewrite with drogonR.
    + destruct Hrs as [|k t j ts ms Ht Hts']; [apply reads_keyword; set_solver|].
      cbn [djoin]. rewrite app_str_assoc. by apply reads_object.
  - pose proof (array_loop_spec _ Hv) as Hspec.
    destruct (mapM jf v) as [js|]; cbn; [|intros buf; by apply close_unsupported, Hspec].
    destruct Hspec as (ts & Hrs & Hts).
    exists (String "[" (djoin true ts +:+ "]")). split.
    + intros. rewrite Hts. cbn [close_with]. unfold push_back. by autorewrite with drogonR.
    + destruct Hrs as [|t j ts js Ht Hts']; [apply reads_empty_array|].
      cbn [djoin]. rewrite app_str_assoc. by apply reads_array.
Qed.
End ListProofs.

(** ** The writer against its specification *)

Lemma json_of_classed u d x : hasClass x = true → json_of u d x = None.
Proof. intros H. destruct x; cbn -[hasClass]; rewrite H; by case_if. Qed.

Lemma writeValue_spec u x :
  rvalue_ok x = true → ∀ d, writes_opt (λ b, writeValue u x b d) (json_of u d x).
Proof.
  induction x as [v a IH|x Hx] using SEXP_nested_ind; intros Hok d.
  - cbn -[hasClass]. case_if; [done|]. destruct (hasClass (VECSXP v a)) eqn:Hc.
    { unfold writes_opt, writeList_with. by rewrite Hc. }
    apply writeList_spec; [|done]. cbn in Hok.
    induction IH as [|y v Hy _ IHv]; constructor; cbn in Hok; bool_to_prop; auto.
  - destruct (hasClass x) eqn:Hc.
    { rewrite json_of_classed by done. intros b. destruct x; try (by destruct (Hx v at_));
        cbn -[hasClass]; unfold writeAtomic; rewrite ?Hc; repeat case_if; done. }
    destruct x; try (by destruct (Hx v at_)); cbn -[hasClass] in *; rewrite Hc;
      unfold writeAtomic; rewrite ?Hc; (destruct (kMaxDepth <? d); [done|]); try done.
    { case_if; [done|]. exists "{}". split; [done|]. apply reads_keyword; set_solver. }
    1: destruct (vector_writes appendBool json_of_lgl u v) as (t & Ht & Hr);
      [by apply Forall_forall; intros; apply writes_lgl|].
    2: destruct (vector_writes appendInt json_of_int u v) as (t & Ht & Hr);
      [by eapply Forall_writes; [apply writes_int|]|].
    3: destruct (vector_writes appendDouble json_of_real u v) as (t & Ht & Hr);
      [by eapply Forall_writes; [apply writes_real|]|].
    4: destruct (vector_writes appendCharSEXP json_of_char u v) as (t & Ht & Hr);
      [by apply Forall_forall; intros; apply writes_char|].
    all: exists t; split; [intros; by rewrite Ht | done].
Qed.

Lemma reads_parse_json t j : reads t j → parse_json t = Some j.
Proof.
  intros [_ H]. unfold parse_json.
  specialize (H _ EmptyString (Nat.le_refl _) I). rewrite app_str_nil in H. by rewrite H.
Qed.

(** C1. The serializer refines its specification: on every R value, the text
    it returns is a well-formed JSON text that denotes exactly the value
    [json_of] assigns to it (strings, numbers, arrays, objects, NA and
    non-finite encodings, auto-unboxing and nesting included), and it returns
    [NULL] (so that the caller falls back to jsonlite) exactly when [json_of]
    assigns none: a class attribute, a missing or empty name, a nested NULL, an
    unsupported type or more than 64 levels of nesting. *)
Theorem to_json_refines (x auto_unbox_ : SEXP) :
  rvalue_ok x = true →
  match json_of (auto_unbox_flag auto_unbox_) 0 x with
  | Some j => ∃ t, drogonR_to_json x auto_unbox_ = STRSXP [Some t] no_attr ∧ parse_json t = Some j
  | None => drogonR_to_json x auto_unbox_ = R_NilValue
  end.
Proof.
  intros Hok. pose proof (writeValue_spec (auto_unbox_flag auto_unbox_) x Hok 0) as Hw.
  unfold drogonR_to_json. destruct (json_of _ 0 x) as [j|]; cbn in Hw.
  - destruct Hw as (t & Ht & Hr). exists t. rewrite Ht. split; [done|]. by apply reads_parse_json.
  - specialize (Hw EmptyString). by destruct (writeValue _ _ _ _) as [? []].
Qed.

Definition sample_value : SEXP :=
  named_list [("ok", LGLSXP [1] no_attr);
              ("path", STRSXP [Some ("a" +:+ String QUOTE (String (chr 10) "b")); None] no_attr);
              ("x", VECSXP [REALSXP [Real (ddiv d_one (d_of_Z 10)); NA_REAL] no_attr;
                            INTSXP [7] no_attr] no_attr)].

Definition sample_json : json :=
  JObj [("ok", JBool true);
        ("path", JArr [JStr ("a" +:+ String QUOTE (String (chr 10) "b")); JNull]);
        ("x", JArr [JArr [JNum "0.10000000000000001"; JStr "NA"]; JNum "7"])].

Lemma to_json_refines_witness :
  ∃ t, drogonR_to_json sample_value (ScalarLogical true) = STRSXP [Some t] no_attr ∧
       parse_json t = Some sample_json.
Proof.
  assert (Hj : json_of true 0 sample_value = Some sample_json) by (vm_compute; reflexivity).
  pose proof (to_json_refines sample_value (ScalarLogical true) ltac:(vm_compute; reflexivity)) as H.
  change (auto_unbox_flag (ScalarLogical true)) with true in H. rewrite Hj in H. exact H.
Defined.

(** String literals round-trip: whatever the bytes of the string (quotes,
    backslashes, control characters), reading back the literal that
    [appendEscapedString] appends yields the string itself, and leaves what
    was in the buffer before it unchanged. *)
Theorem escaped_string_roundtrip (buf s rest : string) :
  ∃ lit, appendEscapedString buf s = buf +:+ String QUOTE lit ∧
         parse_chars (lit +:+ rest) = Some (s, rest).
Proof.
  exists (esc s +:+ String QUOTE EmptyString). split; [apply appendEscapedString_literal|].
  rewrite app_str_assoc. apply parse_chars_esc.
Qed.
