(* ===== verification/RequestQueue.v ===== *)
(** * The request queue and the wake pipe
      (src/request_queue.cpp, src/socket_compat.h)

    Drogon I/O threads snapshot a request, push it under a mutex and write one
    byte to a non-blocking pipe; the dispatcher on the main R thread is woken
    by the readable pipe, empties it and then takes the whole queue.  Each
    function is a state transformer on the globals of the file and on the
    kernel's pipes; [Protocol] interleaves them at the granularity of their
    critical sections and system calls. *)

From stdpp Require Import base gmap strings list numbers.
From Stdlib Require Import ZArith Lia Ascii.
From S2P Require Import Prelude CDouble RValue.

(** ** Requests (src/r_bridge.h)

    The response callback and the weak reference to the TCP connection are
    identities; [None] is the empty [weak_ptr]. *)
Record PendingRequest := {
  pr_method : string;
  pr_path : string;
  pr_body : string;
  pr_headers : list (string * string);
  pr_queries : list (string * string);
  pr_path_params : list string;
  pr_respond : positive;
  pr_connection : option positive;
  pr_route_id : Z;
}.

(** ** Pipes

    [k_bytes] maps the read end of a pipe to the bytes buffered in it, and
    [k_peer] a write end to its read end.  A non-blocking write to a full pipe
    fails with EAGAIN and a read from an empty one returns -1. *)
Definition PIPE_CAPACITY : Z := 65536.

Record Kernel := { k_bytes : gmap Z Z; k_peer : gmap Z Z; k_next : Z }.

(** [pipe(2)] when descriptors are available. *)
Definition sys_pipe (k : Kernel) : (Z * Z) * Kernel :=
  let r := k_next k in
  let w := k_next k + 1 in
  ((r, w), {| k_bytes := <[r := 0]> (k_bytes k); k_peer := <[w := r]> (k_peer k);
              k_next := k_next k + 2 |}).

Definition sys_close (fd : Z) (k : Kernel) : Kernel :=
  {| k_bytes := delete fd (k_bytes k); k_peer := delete fd (k_peer k); k_next := k_next k |}.

Definition set_bytes (r n : Z) (k : Kernel) : Kernel :=
  {| k_bytes := <[r := n]> (k_bytes k); k_peer := k_peer k; k_next := k_next k |}.

Inductive write_result := Written | EAGAIN | EINTR.

(** [write(fd, &b, 1)]; [interrupted] when a signal arrives first. *)
Definition sys_write1 (interrupted : bool) (fd : Z) (k : Kernel) : write_result * Kernel :=
  if interrupted then (EINTR, k) else
  match k_peer k !! fd with
  | Some r =>
      match k_bytes k !! r with
      | Some n => if n <? PIPE_CAPACITY then (Written, set_bytes r (n + 1) k) else (EAGAIN, k)
      | None => (EAGAIN, k)
      end
  | None => (EAGAIN, k)
  end.

(** [read(fd, buf, max)]: the number of bytes read, -1 when there are none. *)
Definition sys_read (fd max : Z) (k : Kernel) : Z * Kernel :=
  match k_bytes k !! fd with
  | Some n => if 0 <? n then (Z.min n max, set_bytes fd (n - Z.min n max) k) else (-1, k)
  | None => (-1, k)
  end.

(** ** socket_compat.h (the POSIX branch) *)

(** [pipe_ok]: whether [pipe(2)] succeeds.  The result is the return code and
    the two descriptors. *)
Definition makeWakePipe (pipe_ok : bool) (fds : Z * Z) (k : Kernel) : Z * (Z * Z) * Kernel :=
  if pipe_ok then let '(fds', k') := sys_pipe k in (0, fds', k') else (-1, fds, k).

Definition closeWakeFd (fd : Z) (k : Kernel) : Kernel :=
  if fd <? 0 then k else sys_close fd k.

(** [while (write(fd, &b, 1) == -1 && errno == EINTR)]: [signals] says which
    attempts are interrupted; once it is exhausted none is. *)
Fixpoint writeWakeByte (signals : list bool) (fd : Z) (k : Kernel) : Kernel :=
  if fd <? 0 then k else
  match signals with
  | [] => snd (sys_write1 false fd k)
  | s :: signals' =>
      match sys_write1 s fd k with
      | (EINTR, k') => writeWakeByte signals' fd k'
      | (_, k') => k'
      end
  end.

(** [while (read(fd, buf, 64) > 0)]; one unit of fuel per read, and a pipe
    never needs more reads than it holds bytes, plus the last one. *)
Fixpoint drain_loop (fuel : nat) (fd : Z) (k : Kernel) : option Kernel :=
  match fuel with
  | O => None
  | S f => let '(n, k') := sys_read fd 64 k in if 0 <? n then drain_loop f fd k' else Some k'
  end.

Definition drainWakeBytes (fuel : nat) (fd : Z) (k : Kernel) : option Kernel :=
  if fd <? 0 then Some k else drain_loop fuel fd k.

(** ** request_queue.cpp *)

Record QueueState := {
  g_queue : list PendingRequest;
  g_wakeReadFd : Z;
  g_wakeWriteFd : Z;
  g_queueMaxSize : Z;
}.

Definition queue_init : QueueState :=
  {| g_queue := []; g_wakeReadFd := -1; g_wakeWriteFd := -1; g_queueMaxSize := 0 |}.

Definition with_queue (l : list PendingRequest) (q : QueueState) : QueueState :=
  {| g_queue := l; g_wakeReadFd := g_wakeReadFd q; g_wakeWriteFd := g_wakeWriteFd q;
     g_queueMaxSize := g_queueMaxSize q |}.

Definition setQueueMaxSize (n : Z) (q : QueueState) : QueueState :=
  {| g_queue := g_queue q; g_wakeReadFd := g_wakeReadFd q; g_wakeWriteFd := g_wakeWriteFd q;
     g_queueMaxSize := n |}.

Definition initQueueWakeup (readFd writeFd : Z) (q : QueueState) : QueueState :=
  {| g_queue := g_queue q; g_wakeReadFd := readFd; g_wakeWriteFd := writeFd;
     g_queueMaxSize := g_queueMaxSize q |}.

Definition resetQueueWakeup (q : QueueState) : QueueState :=
  {| g_queue := []; g_wakeReadFd := -1; g_wakeWriteFd := -1; g_queueMaxSize := g_queueMaxSize q |}.

Definition queueWakeReadFd (q : QueueState) : Z := g_wakeReadFd q.

Definition notifyDispatcher (signals : list bool) (q : QueueState) (k : Kernel) : Kernel :=
  writeWakeByte signals (g_wakeWriteFd q) k.

(** The critical section of [enqueueRequest]. *)
Definition enqueue_locked (req : PendingRequest) (q : QueueState) : bool * QueueState :=
  let cap := g_queueMaxSize q in
  if (0 <? cap) && (cap <=? Z.of_nat (length (g_queue q))) then (false, q)
  else (true, with_queue (g_queue q ++ [req]) q).

Definition enqueueRequest (signals : list bool) (req : PendingRequest) (q : QueueState)
    (k : Kernel) : bool * QueueState * Kernel :=
  match enqueue_locked req q with
  | (false, q') => (false, q', k)
  | (true, q') => (true, q', notifyDispatcher signals q' k)
  end.

Definition drainQueue (q : QueueState) : list PendingRequest * QueueState :=
  (g_queue q, with_queue [] q).

Definition drainWakePipe (fuel : nat) (q : QueueState) (k : Kernel) : option Kernel :=
  drainWakeBytes fuel (g_wakeReadFd q) k.

(** ** Lemmas *)

Lemma enqueue_locked_fds req q :
  let q' := snd (enqueue_locked req q) in
  g_wakeReadFd q' = g_wakeReadFd q ∧ g_wakeWriteFd q' = g_wakeWriteFd q ∧
  g_queueMaxSize q' = g_queueMaxSize q.
Proof. unfold enqueue_locked. case_if; done. Qed.

Definition bound_ok (q : QueueState) : Prop :=
  g_queueMaxSize q = 0 ∨ Z.of_nat (length (g_queue q)) ≤ g_queueMaxSize q.

Lemma enqueue_locked_bound req q :
  0 ≤ g_queueMaxSize q → bound_ok q → bound_ok (snd (enqueue_locked req q)).
Proof.
  unfold bound_ok, enqueue_locked. intros Hc Hb. case_if; cbn; [done|].
  rewrite length_app. cbn. apply andb_false_iff in Heqb as [?|?]; bool_to_prop; lia.
Qed.

(** The bytes in the pipe behind a write end. *)
Definition pipe_bytes (w : Z) (k : Kernel) : option Z :=
  match k_peer k !! w with Some r => k_bytes k !! r | None => None end.

Lemma sys_write1_pipe w k n :
  pipe_bytes w k = Some n →
  pipe_bytes w (snd (sys_write1 false w k)) = Some (if n <? PIPE_CAPACITY then n + 1 else n).
Proof.
  unfold pipe_bytes, sys_write1. destruct (k_peer k !! w) as [r|] eqn:Hp; [|done].
  intros Hn. rewrite Hn. case_if; cbn; rewrite Hp; [apply lookup_insert_eq|done].
Qed.

Lemma writeWakeByte_pipe signals w k n :
  0 ≤ w → 0 ≤ n → pipe_bytes w k = Some n →
  ∃ n', pipe_bytes w (writeWakeByte signals w k) = Some n' ∧ 0 < n'.
Proof.
  intros Hw Hn Hk.
  assert (Hw1 : ∃ n', pipe_bytes w (snd (sys_write1 false w k)) = Some n' ∧ 0 < n').
  { rewrite (sys_write1_pipe _ _ _ Hk). eexists. split; [done|]. unfold PIPE_CAPACITY.
    case_if; bool_to_prop; lia. }
  induction signals as [|s signals IH]; cbn [writeWakeByte];
    (replace (w <? 0) with false by lia); [done|].
  destruct s; cbn -[sys_write1]; [exact IH|].
  destruct (sys_write1 false w k) as [[] k'] eqn:E; cbn in *; try exact Hw1.
  unfold sys_write1 in E. repeat case_match; simplify_eq.
Qed.

Lemma sys_read_dec r k n :
  k_bytes k !! r = Some n → 0 < n →
  ∃ k', sys_read r 64 k = (Z.min n 64, k') ∧ k_bytes k' !! r = Some (n - Z.min n 64) ∧
        k_peer k' = k_peer k.
Proof.
  intros Hk Hn. unfold sys_read. rewrite Hk. replace (0 <? n) with true by lia.
  eexists. split; [done|]. cbn. by rewrite lookup_insert_eq.
Qed.

Lemma drain_loop_empty f r k n :
  k_bytes k !! r = Some n → 0 ≤ n < Z.of_nat f →
  ∃ k', drain_loop f r k = Some k' ∧ k_bytes k' !! r = Some 0 ∧ k_peer k' = k_peer k.
Proof.
  revert k n; induction f as [|f IH]; intros k n Hk Hn; [lia|]. cbn [drain_loop].
  destruct (decide (0 < n)) as [Hpos|Hz].
  - destruct (sys_read_dec r k n Hk Hpos) as (k' & -> & Hk' & Hp).
    replace (0 <? Z.min n 64) with true by lia.
    destruct (IH k' (n - Z.min n 64) Hk') as (k'' & ? & ? & ?); [lia|].
    exists k''. split; [done|]. split; [done|]. congruence.
  - assert (n = 0) as -> by lia. unfold sys_read. rewrite Hk. cbn.
    exists k. split; [done|]. split; done.
Qed.

(** Draining the wake pipe terminates and empties it: with one read more
    than there are bytes the loop has returned, no byte is left to read, and
    no other pipe is connected differently. *)
Theorem drainWakePipe_empties (q : QueueState) (k : Kernel) (n : Z) (fuel : nat) :
  0 ≤ g_wakeReadFd q → k_bytes k !! g_wakeReadFd q = Some n → 0 ≤ n < Z.of_nat fuel →
  ∃ k', drainWakePipe fuel q k = Some k' ∧ k_bytes k' !! g_wakeReadFd q = Some 0 ∧
        k_peer k' = k_peer k.
Proof.
  intros Hr Hk Hn. unfold drainWakePipe, drainWakeBytes.
  replace (g_wakeReadFd q <? 0) with false by lia. by apply (drain_loop_empty fuel _ k n).
Qed.

Definition sample_kernel : Kernel :=
  {| k_bytes := {[5 := 130]}; k_peer := {[6 := 5]}; k_next := 7 |}.
Definition sample_queue : QueueState := initQueueWakeup 5 6 queue_init.

Lemma drainWakePipe_empties_witness :
  ∃ k', drainWakePipe 131 sample_queue sample_kernel = Some k' ∧
        k_bytes k' !! g_wakeReadFd sample_queue = Some 0 ∧ k_peer k' = k_peer sample_kernel.
Proof.
  apply (drainWakePipe_empties sample_queue sample_kernel 130 131); [done|reflexivity|lia].
Defined.

(** ** Interleavings of producers and the dispatcher *)

Module Protocol.

(** Where the dispatcher is in [runDispatcher]: waiting in poll, inside
    [drainWakePipe], between [drainWakePipe] and [drainQueue], running the
    handlers. *)
Inductive phase := Waiting | Reading | Drained | Handling.

Record state := {
  st_q : QueueState;
  st_k : Kernel;
  st_phase : phase;
  st_pushed : nat;                      (** producers between push and notify *)
  st_accepted : list PendingRequest;    (** every request accepted, in order *)
  st_dispatched : list PendingRequest;  (** every request handed to handlers *)
}.

Definition upd_k (k : Kernel) (s : state) : state :=
  {| st_q := st_q s; st_k := k; st_phase := st_phase s; st_pushed := st_pushed s;
     st_accepted := st_accepted s; st_dispatched := st_dispatched s |}.
Definition upd_phase (p : phase) (s : state) : state :=
  {| st_q := st_q s; st_k := st_k s; st_phase := p; st_pushed := st_pushed s;
     st_accepted := st_accepted s; st_dispatched := st_dispatched s |}.

Inductive step : state → state → Prop :=
(** a producer's critical section, request accepted *)
| step_push req s q' :
    enqueue_locked req (st_q s) = (true, q') →
    step s {| st_q := q'; st_k := st_k s; st_phase := st_phase s;
              st_pushed := S (st_pushed s); st_accepted := st_accepted s ++ [req];
              st_dispatched := st_dispatched s |}
(** a producer's critical section, queue full: it answers 503 itself *)
| step_full req s q' :
    enqueue_locked req (st_q s) = (false, q') →
    step s {| st_q := q'; st_k := st_k s; st_phase := st_phase s;
              st_pushed := st_pushed s; st_accepted := st_accepted s;
              st_dispatched := st_dispatched s |}
(** a producer that has pushed writes its byte *)
| step_notify signals n s :
    st_pushed s = S n →
    step s {| st_q := st_q s; st_k := notifyDispatcher signals (st_q s) (st_k s);
              st_phase := st_phase s; st_pushed := n; st_accepted := st_accepted s;
              st_dispatched := st_dispatched s |}
(** later runs the callback: the pipe is readable, or the 600 s timeout *)
| step_wake s : st_phase s = Waiting → step s (upd_phase Reading s)
(** one read of the drain loop, with bytes and without *)
| step_read s c k' :
    st_phase s = Reading → sys_read (g_wakeReadFd (st_q s)) 64 (st_k s) = (c, k') → 0 < c →
    step s (upd_k k' s)
| step_read_empty s c k' :
    st_phase s = Reading → sys_read (g_wakeReadFd (st_q s)) 64 (st_k s) = (c, k') → c ≤ 0 →
    step s (upd_phase Drained (upd_k k' s))
| step_drain s items q' :
    st_phase s = Drained → drainQueue (st_q s) = (items, q') →
    step s {| st_q := q'; st_k := st_k s; st_phase := Handling; st_pushed := st_pushed s;
              st_accepted := st_accepted s; st_dispatched := st_dispatched s ++ items |}
| step_rearm s : st_phase s = Handling → step s (upd_phase Waiting s).

(** A server just started: the pipe exists and is empty. *)
Definition init (cap : Z) : state :=
  let '((r, w), k) := sys_pipe {| k_bytes := ∅; k_peer := ∅; k_next := 3 |} in
  {| st_q := initQueueWakeup r w (setQueueMaxSize cap queue_init); st_k := k;
     st_phase := Waiting; st_pushed := 0; st_accepted := []; st_dispatched := [] |}.

(** A byte is buffered in the wake pipe: poll reports it readable. *)
Definition readable (s : state) : Prop :=
  ∃ n, k_bytes (st_k s) !! g_wakeReadFd (st_q s) = Some n ∧ 0 < n.

Definition wired (s : state) : Prop :=
  0 ≤ g_wakeWriteFd (st_q s) ∧
  k_peer (st_k s) !! g_wakeWriteFd (st_q s) = Some (g_wakeReadFd (st_q s)) ∧
  ∃ n, k_bytes (st_k s) !! g_wakeReadFd (st_q s) = Some n ∧ 0 ≤ n.

Record inv (cap : Z) (s : state) : Prop := {
  inv_wired : wired s;
  inv_cap : g_queueMaxSize (st_q s) = cap;
  inv_bound : bound_ok (st_q s);
  inv_log : st_accepted s = st_dispatched s ++ g_queue (st_q s);
  inv_wake : g_queue (st_q s) ≠ [] →
    readable s ∨ (0 < st_pushed s)%nat ∨ st_phase s = Reading ∨ st_phase s = Drained;
}.

Lemma wired_write signals s :
  wired s →
  let k' := notifyDispatcher signals (st_q s) (st_k s) in
  k_peer k' = k_peer (st_k s) ∧
  ∃ n, k_bytes k' !! g_wakeReadFd (st_q s) = Some n ∧ 0 < n.
Proof.
  intros (Hw & Hp & n & Hn & Hpos). cbn.
  assert (Hpeer : k_peer (notifyDispatcher signals (st_q s) (st_k s)) = k_peer (st_k s)).
  { unfold notifyDispatcher. clear. induction signals as [|b l IH]; cbn; case_if; try done.
    - unfold sys_write1. by repeat case_match.
    - unfold sys_write1. repeat case_match; simplify_eq; done. }
  split; [done|].
  destruct (writeWakeByte_pipe signals (g_wakeWriteFd (st_q s)) (st_k s) n) as (n' & Hn' & ?);
    [done|done|by unfold pipe_bytes; rewrite Hp|].
  exists n'. split; [|done]. unfold pipe_bytes in Hn'.
  unfold notifyDispatcher in *. rewrite Hpeer, Hp in Hn'. done.
Qed.

Lemma sys_read_wired s c k' :
  wired s → sys_read (g_wakeReadFd (st_q s)) 64 (st_k s) = (c, k') → wired (upd_k k' s).
Proof.
  intros (Hw & Hp & n & Hn & Hpos). unfold sys_read. rewrite Hn.
  case_if; intros [= <- <-]; (split; [done|split]); cbn; try done.
  - exists (n - Z.min n 64). rewrite lookup_insert_eq. split; [done|lia].
  - exists n. done.
Qed.

Lemma inv_step cap s s' : 0 ≤ cap → inv cap s → step s s' → inv cap s'.
Proof.
  intros Hcap [Hwired Hc Hb Hlog Hwake] Hstep. destruct Hstep as
    [req s q' E|req s q' E|signals n s E|s E|s c k' E Er Hpos|s c k' E Er Hneg|s items q' E Ed|s E].
  - pose proof (enqueue_locked_fds req (st_q s)) as (H1 & H2 & H3).
    pose proof (enqueue_locked_bound req (st_q s)) as Hbd. rewrite E in *. cbn in *.
    split; cbn; [by unfold wired in *; cbn; rewrite H1, H2|congruence|apply Hbd; [lia|done]| |].
    + unfold enqueue_locked in E. case_if; simplify_eq. cbn. by rewrite Hlog, app_assoc.
    + intros _. right. left. lia.
  - unfold enqueue_locked in E. case_if; simplify_eq. by split.
  - destruct (wired_write signals s Hwired) as (Hpeer & n' & Hn' & Hpos').
    destruct Hwired as (? & ? & _).
    split; cbn; [|done|done|done|].
    + split; [done|]. split; cbn; [by rewrite Hpeer|]. exists n'. split; [done|lia].
    + intros _. left. by exists n'.
  - split; cbn; auto.
  - split; cbn; [by eapply sys_read_wired|done..|]. auto.
  - split; cbn; [by eapply sys_read_wired|done..|]. auto.
  - injection Ed as <- <-. split; cbn; [done|done| |by rewrite app_nil_r|done].
    unfold bound_ok in *; cbn in *. lia.
  - split; cbn; [done|done|done|done|].
    intros Hne. destruct (Hwake Hne) as [?|[?|[Hx|Hx]]]; [by left|by right; left|congruence|congruence].
Qed.

Lemma init_inv cap : 0 ≤ cap → inv cap (init cap).
Proof.
  intros Hcap. split; cbn; [|done| |done|done].
  - split; [done|]. split; [done|]. exists 0. done.
  - unfold bound_ok. cbn. lia.
Qed.

Lemma inv_reachable cap s : 0 ≤ cap → reachable step (init cap) s → inv cap s.
Proof.
  intros Hcap. apply reachable_invariant; [by apply init_inv|].
  intros a b. by apply inv_step.
Qed.

(** C2. No lost wake-up: in every interleaving of any number of producers
    with the dispatcher (including interrupted and would-block writes),
    whenever the dispatcher waits and no producer is between its push and its
    notification, a non-empty queue means the wake pipe is readable, so the
    dispatcher will run. *)
Theorem no_lost_wakeup (cap : Z) (s : state) :
  0 ≤ cap → reachable step (init cap) s →
  st_phase s = Waiting → st_pushed s = O → g_queue (st_q s) ≠ [] → readable s.
Proof.
  intros Hcap Hr Hp Hn Hq. destruct (inv_wake _ _ (inv_reachable _ _ Hcap Hr) Hq)
    as [?|[?|[?|?]]]; [done|lia|congruence|congruence].
Qed.

(** C3. The queue is a bounded FIFO under every interleaving: what has been
    handed to the handlers followed by what is still queued is exactly the
    sequence of accepted requests (nothing lost, duplicated or reordered),
    and a queue with a positive limit never exceeds it. *)
Theorem queue_fifo_bounded (cap : Z) (s : state) :
  0 ≤ cap → reachable step (init cap) s →
  st_accepted s = st_dispatched s ++ g_queue (st_q s) ∧
  (0 < cap → Z.of_nat (length (g_queue (st_q s))) ≤ cap).
Proof.
  intros Hcap Hr. destruct (inv_reachable _ _ Hcap Hr) as [_ Hc Hb Hlog _].
  split; [done|]. unfold bound_ok in Hb. lia.
Qed.

Definition req0 : PendingRequest :=
  {| pr_method := "GET"; pr_path := "/"; pr_body := ""; pr_headers := []; pr_queries := [];
     pr_path_params := []; pr_respond := 1; pr_connection := None; pr_route_id := 0 |}.

Lemma reach_cons s1 s2 s3 : step s2 s3 → reachable step s1 s2 → reachable step s1 s3.
Proof. intros Hs [n Hn]. exists (S n). by econstructor. Qed.

(** One request pushed, then notified (after an interrupted write). *)
Definition one_request : state :=
  {| st_q := with_queue [req0] (st_q (init 1));
     st_k := notifyDispatcher [true; false] (with_queue [req0] (st_q (init 1))) (st_k (init 1));
     st_phase := Waiting; st_pushed := 0; st_accepted := [req0]; st_dispatched := [] |}.

Lemma one_request_reachable : reachable step (init 1) one_request.
Proof.
  assert (H0 : reachable step (init 1) (init 1)) by (exists O; apply steps_refl).
  pose proof (step_push req0 (init 1) (with_queue [req0] (st_q (init 1))) eq_refl) as H1.
  pose proof (reach_cons _ _ _ H1 H0) as H2.
  eapply reach_cons; [|exact H2]. by apply (step_notify [true; false] 0).
Qed.

Lemma no_lost_wakeup_witness : readable one_request.
Proof.
  apply (no_lost_wakeup 1 one_request); [lia|apply one_request_reachable|done|done|done].
Defined.

Lemma queue_fifo_bounded_witness :
  st_accepted one_request = st_dispatched one_request ++ g_queue (st_q one_request) ∧
  (0 < 1 → Z.of_nat (length (g_queue (st_q one_request))) ≤ 1).
Proof. apply (queue_fifo_bounded 1 one_request); [lia|apply one_request_reachable]. Defined.
End Protocol.
