(* ===== verification/HttpResponse.v ===== *)
(** * Drogon responses, as far as the bridge builds and delivers them
      (src/drogon/lib/src/HttpResponseImpl.h, HttpResponseImpl.cc, HttpServer.cc)

    The fields the bridge sets through [drogon::HttpResponse]: status,
    content type, body, header map and the async-stream callback; and the part
    of [HttpServer::sendResponse] that decides whether that callback is ever
    called. *)

From stdpp Require Import base gmap strings list numbers.
From Stdlib Require Import ZArith Lia Ascii.
From S2P Require Import Prelude CDouble.

(** [tolower] in the C locale. *)
Definition tolower (c : ascii) : ascii :=
  if (65 <=? code c) && (code c <=? 90) then chr (code c + 32) else c.
Fixpoint str_tolower (s : string) : string :=
  match s with EmptyString => EmptyString | String c s' => String (tolower c) (str_tolower s') end.

(** [strcasecmp(a, b) == 0] *)
Definition strcaseeq (a b : string) : bool := String.eqb (str_tolower a) (str_tolower b).

(** The content types the bridge names. *)
Inductive ContentType := CT_TEXT_HTML | CT_TEXT_PLAIN.
Definition contentTypeToMime (t : ContentType) : string :=
  match t with
  | CT_TEXT_HTML => "text/html; charset=utf-8"
  | CT_TEXT_PLAIN => "text/plain; charset=utf-8"
  end.

Record HttpResponse := {
  statusCode_ : Z;
  contentTypeString_ : string;
  bodyPtr_ : option string;
  headers_ : gmap string string;
  asyncStreamCallback_ : bool;
  closeConnection_ : bool;
}.

Definition newHttpResponse : HttpResponse :=
  {| statusCode_ := 200; contentTypeString_ := contentTypeToMime CT_TEXT_HTML; bodyPtr_ := None;
     headers_ := ∅; asyncStreamCallback_ := false; closeConnection_ := false |}.

Definition setStatusCode (code : Z) (r : HttpResponse) : HttpResponse :=
  {| statusCode_ := code; contentTypeString_ := contentTypeString_ r; bodyPtr_ := bodyPtr_ r;
     headers_ := headers_ r; asyncStreamCallback_ := asyncStreamCallback_ r;
     closeConnection_ := closeConnection_ r |}.

Definition setContentTypeString (s : string) (r : HttpResponse) : HttpResponse :=
  {| statusCode_ := statusCode_ r; contentTypeString_ := s; bodyPtr_ := bodyPtr_ r;
     headers_ := headers_ r; asyncStreamCallback_ := asyncStreamCallback_ r;
     closeConnection_ := closeConnection_ r |}.

Definition setContentTypeCode (t : ContentType) (r : HttpResponse) : HttpResponse :=
  setContentTypeString (contentTypeToMime t) r.

Definition setBody (b : string) (r : HttpResponse) : HttpResponse :=
  {| statusCode_ := statusCode_ r; contentTypeString_ := contentTypeString_ r; bodyPtr_ := Some b;
     headers_ := headers_ r; asyncStreamCallback_ := asyncStreamCallback_ r;
     closeConnection_ := closeConnection_ r |}.

Definition addHeader (field value : string) (r : HttpResponse) : HttpResponse :=
  {| statusCode_ := statusCode_ r; contentTypeString_ := contentTypeString_ r; bodyPtr_ := bodyPtr_ r;
     headers_ := <[str_tolower field := value]> (headers_ r);
     asyncStreamCallback_ := asyncStreamCallback_ r; closeConnection_ := closeConnection_ r |}.

Definition setCloseConnection (on : bool) (r : HttpResponse) : HttpResponse :=
  {| statusCode_ := statusCode_ r; contentTypeString_ := contentTypeString_ r; bodyPtr_ := bodyPtr_ r;
     headers_ := headers_ r; asyncStreamCallback_ := asyncStreamCallback_ r; closeConnection_ := on |}.

(** The default-constructed response with an async-stream callback. *)
Definition newAsyncStreamResponse : HttpResponse :=
  {| statusCode_ := 200; contentTypeString_ := contentTypeToMime CT_TEXT_HTML; bodyPtr_ := None;
     headers_ := ∅; asyncStreamCallback_ := true; closeConnection_ := false |}.

Definition contentLengthIsAllowed (r : HttpResponse) : bool :=
  ((200 <=? statusCode_ r) || (statusCode_ r <? 100)) && negb (statusCode_ r =? 204).

(** Whether [HttpServer::sendResponse] invokes the async-stream callback. *)
Definition delivers_stream (isHeadMethod : bool) (r : HttpResponse) : bool :=
  negb isHeadMethod && contentLengthIsAllowed r && asyncStreamCallback_ r &&
  negb (closeConnection_ r).
