(* ===== verification/RateLimiter.v ===== *)
(** * Rate limiting
      (src/drogon/lib/src/*RateLimiter.cc and the limiter part of
      src/drogon_server.cpp)

    The three limiter algorithms are modelled with their own double
    arithmetic; time is the steady clock's nanosecond count, an argument.
    Limiters are shared objects: rules with global scope hand the same limiter
    to every route, so they live in a heap and routes hold pointers. *)

From stdpp Require Import base gmap strings list numbers.
From Stdlib Require Import ZArith Lia Ascii SpecFloat.
From S2P Require Import Prelude CDouble HttpResponse.

(** [duration_cast<duration<double>>(nanoseconds(ns)).count()] *)
Definition ns_to_s (ns : Z) : double := ddiv (d_of_Z ns) (d_of_Z 1000000000).

Inductive RateLimiterType := kFixedWindow | kSlidingWindow | kTokenBucket.

(** ** Fixed window *)

Record FixedWindowRateLimiter := {
  fw_capacity : Z; fw_currentRequests : Z; fw_lastTime : Z; fw_timeUnit : double }.

Definition newFixedWindow (capacity : Z) (timeUnit : double) (now : Z) : FixedWindowRateLimiter :=
  {| fw_capacity := capacity; fw_currentRequests := 0; fw_lastTime := now; fw_timeUnit := timeUnit |}.

Definition fw_isAllowed (now : Z) (l : FixedWindowRateLimiter) : bool * FixedWindowRateLimiter :=
  let duration := ns_to_s (now - fw_lastTime l) in
  let '(cur, last) :=
    if dle (fw_timeUnit l) duration then (0, now) else (fw_currentRequests l, fw_lastTime l) in
  let st c := {| fw_capacity := fw_capacity l; fw_currentRequests := c; fw_lastTime := last;
                 fw_timeUnit := fw_timeUnit l |} in
  if cur <? fw_capacity l then (true, st (cur + 1)) else (false, st cur).

(** ** Sliding window *)

Record SlidingWindowRateLimiter := {
  sw_capacity : Z; sw_currentRequests : Z; sw_previousRequests : Z;
  sw_unitStartTime : Z; sw_lastTime : Z; sw_timeUnit : double }.

Definition newSlidingWindow (capacity : Z) (timeUnit : double) (now : Z) : SlidingWindowRateLimiter :=
  {| sw_capacity := capacity; sw_currentRequests := 0; sw_previousRequests := 0;
     sw_unitStartTime := now; sw_lastTime := now; sw_timeUnit := timeUnit |}.

Section Sliding.
Context `{Platform}.

(** The start of the time unit that [now] falls in. *)
Definition sw_unit_start (now : Z) (l : SlidingWindowRateLimiter) : Z :=
  let q := d_to_u64 (ddiv (ns_to_s (now - sw_unitStartTime l)) (sw_timeUnit l)) in
  sw_unitStartTime l +
  d_to_i64 (dmul (dmul (d_of_Z q) (sw_timeUnit l)) (d_of_Z 1000000000)).

Definition sw_isAllowed (now : Z) (l : SlidingWindowRateLimiter) : bool * SlidingWindowRateLimiter :=
  let unitStart := sw_unit_start now l in
  let '(prev, cur) :=
    if sw_lastTime l <? unitStart then
      (if dle (sw_timeUnit l) (ns_to_s (unitStart - sw_lastTime l)) then 0
       else sw_currentRequests l, 0)
    else (sw_previousRequests l, sw_currentRequests l) in
  let coef := ddiv (ns_to_s (now - unitStart)) (sw_timeUnit l) in
  let count := dadd (dmul (d_of_Z prev) (dsub d_one coef)) (d_of_Z cur) in
  if dlt count (d_of_Z (sw_capacity l)) then
    (true, {| sw_capacity := sw_capacity l; sw_currentRequests := cur + 1;
              sw_previousRequests := prev; sw_unitStartTime := unitStart;
              sw_lastTime := now; sw_timeUnit := sw_timeUnit l |})
  else
    (false, {| sw_capacity := sw_capacity l; sw_currentRequests := cur;
               sw_previousRequests := prev; sw_unitStartTime := unitStart;
               sw_lastTime := sw_lastTime l; sw_timeUnit := sw_timeUnit l |}).
End Sliding.

(** ** Token bucket *)

Record TokenBucketRateLimiter := {
  tb_capacity : Z; tb_lastTime : Z; tb_timeUnit : double; tb_tokens : double }.

Definition newTokenBucket (capacity : Z) (timeUnit : double) (now : Z) : TokenBucketRateLimiter :=
  {| tb_capacity := capacity; tb_lastTime := now; tb_timeUnit := timeUnit;
     tb_tokens := d_of_Z capacity |}.

Definition tb_isAllowed (now : Z) (l : TokenBucketRateLimiter) : bool * TokenBucketRateLimiter :=
  let duration := ns_to_s (now - tb_lastTime l) in
  let tokens := dadd (tb_tokens l)
                  (dmul (d_of_Z (tb_capacity l)) (ddiv duration (tb_timeUnit l))) in
  let tokens := if dlt (d_of_Z (tb_capacity l)) tokens then d_of_Z (tb_capacity l) else tokens in
  let st t := {| tb_capacity := tb_capacity l; tb_lastTime := now; tb_timeUnit := tb_timeUnit l;
                 tb_tokens := t |} in
  if dlt d_one tokens then (true, st (dsub tokens d_one)) else (false, st tokens).

(** ** The limiter interface *)

Inductive RateLimiter :=
| FixedWindow (l : FixedWindowRateLimiter)
| SlidingWindow (l : SlidingWindowRateLimiter)
| TokenBucket (l : TokenBucketRateLimiter).

Definition newRateLimiter (type : RateLimiterType) (capacity : Z) (timeUnit : double) (now : Z)
    : RateLimiter :=
  match type with
  | kFixedWindow => FixedWindow (newFixedWindow capacity timeUnit now)
  | kSlidingWindow => SlidingWindow (newSlidingWindow capacity timeUnit now)
  | kTokenBucket => TokenBucket (newTokenBucket capacity timeUnit now)
  end.

Section Interface.
Context `{Platform}.

Definition isAllowed (now : Z) (l : RateLimiter) : bool * RateLimiter :=
  match l with
  | FixedWindow f => let '(b, f') := fw_isAllowed now f in (b, FixedWindow f')
  | SlidingWindow s => let '(b, s') := sw_isAllowed now s in (b, SlidingWindow s')
  | TokenBucket t => let '(b, t') := tb_isAllowed now t in (b, TokenBucket t')
  end.

(** A sequence of calls at the given times: the verdicts and the limiter. *)
Fixpoint isAllowed_seq (times : list Z) (l : RateLimiter) : list bool * RateLimiter :=
  match times with
  | [] => ([], l)
  | t :: times' =>
      let '(b, l') := isAllowed t l in
      let '(bs, l'') := isAllowed_seq times' l' in
      (b :: bs, l'')
  end.
End Interface.

(** ** Rules and routes (src/drogon_server.cpp) *)

Record RateLimitRule := {
  rl_capacity : Z;
  rl_window : double;
  rl_type : RateLimiterType;
  rl_global_scope : bool;
  rl_route_prefixes : list string;
  rl_shared_limiter : option positive;
}.

(** The limiter objects; [heap_next] is the next free pointer. *)
Record LimiterHeap := { heap_objs : gmap positive RateLimiter; heap_next : positive }.

Definition heap_new (l : RateLimiter) (h : LimiterHeap) : positive * LimiterHeap :=
  (heap_next h, {| heap_objs := <[heap_next h := l]> (heap_objs h);
                   heap_next := Pos.succ (heap_next h) |}).

Record RouteLimiters := { rls_limiters : list positive; rls_max_window : double }.
Definition RouteLimiters_empty (r : RouteLimiters) : bool :=
  match rls_limiters r with [] => true | _ => false end.

(** [static_cast<size_t>(int)] *)
Definition int_to_size (z : Z) : Z := wrapU64 z.

Definition rule_matches (rule : RateLimitRule) (path : string) : bool :=
  match rl_route_prefixes rule with
  | [] => true
  | pfxs => existsb (λ pfx, String.prefix pfx path) pfxs
  end.

Definition set_shared (p : positive) (rule : RateLimitRule) : RateLimitRule :=
  {| rl_capacity := rl_capacity rule; rl_window := rl_window rule; rl_type := rl_type rule;
     rl_global_scope := rl_global_scope rule; rl_route_prefixes := rl_route_prefixes rule;
     rl_shared_limiter := Some p |}.

Definition rule_limiter (now : Z) (rule : RateLimitRule) : RateLimiter :=
  newRateLimiter (rl_type rule) (int_to_size (rl_capacity rule)) (rl_window rule) now.

(** One iteration of [buildLimitersForPath]. *)
Definition build_step (now : Z) (path : string) (rule : RateLimitRule)
    (out : RouteLimiters) (h : LimiterHeap) : RateLimitRule * RouteLimiters * LimiterHeap :=
  if negb (rule_matches rule path) then (rule, out, h) else
  let '(p, rule', h') :=
    if rl_global_scope rule then
      match rl_shared_limiter rule with
      | Some p => (p, rule, h)
      | None => let '(p, h') := heap_new (rule_limiter now rule) h in (p, set_shared p rule, h')
      end
    else let '(p, h') := heap_new (rule_limiter now rule) h in (p, rule, h') in
  (rule', {| rls_limiters := rls_limiters out ++ [p];
             rls_max_window := if dlt (rls_max_window out) (rl_window rule) then rl_window rule
                               else rls_max_window out |}, h').

Fixpoint build_loop (now : Z) (path : string) (rules : list RateLimitRule)
    (out : RouteLimiters) (h : LimiterHeap) : list RateLimitRule * RouteLimiters * LimiterHeap :=
  match rules with
  | [] => ([], out, h)
  | rule :: rules' =>
      let '(rule', out', h') := build_step now path rule out h in
      let '(rules'', out'', h'') := build_loop now path rules' out' h' in
      (rule' :: rules'', out'', h'')
  end.

Definition buildLimitersForPath (now : Z) (path : string) (rules : list RateLimitRule)
    (h : LimiterHeap) : list RateLimitRule * RouteLimiters * LimiterHeap :=
  build_loop now path rules {| rls_limiters := []; rls_max_window := d_zero |} h.

(** [std::ceil] then [(int)]; a non-positive or NaN hint gives 1. *)
Definition retry_after_secs `{Platform} (retry_after_s : double) : Z :=
  if dlt d_zero retry_after_s then
    in_range INT_MIN INT_MAX (d_ceil retry_after_s) (oob_int retry_after_s)
  else 1.

Definition makeRateLimitResponse `{Platform} (retry_after_s : double) : HttpResponse :=
  addHeader "Retry-After" (print_int (retry_after_secs retry_after_s))
    (setBody "429 Too Many Requests"
      (setContentTypeCode CT_TEXT_PLAIN
        (setStatusCode 429 newHttpResponse))).

(** [clock i]: the clock as the [i]-th [isAllowed] call of this check reads
    it.  [None]: every limiter admits the request. *)
Fixpoint checkRateLimits `{Platform} (clock : nat → Z) (limiters : list positive)
    (max_window : double) (h : LimiterHeap) : option HttpResponse * LimiterHeap :=
  match limiters with
  | [] => (None, h)
  | p :: limiters' =>
      match heap_objs h !! p with
      | None => checkRateLimits (λ i, clock (S i)) limiters' max_window h
      | Some l =>
          let '(ok, l') := isAllowed (clock O) l in
          let h' := {| heap_objs := <[p := l']> (heap_objs h); heap_next := heap_next h |} in
          if ok then checkRateLimits (λ i, clock (S i)) limiters' max_window h'
          else (Some (makeRateLimitResponse max_window), h')
      end
  end.

(** ** Counting admissions *)

Definition count_true (bs : list bool) : Z := Z.of_nat (length (filter (λ b, b = true) bs)).

Lemma count_true_cons b bs : count_true (b :: bs) = (if b then 1 else 0) + count_true bs.
Proof. unfold count_true. destruct b; rewrite ?filter_cons_True, ?filter_cons_False by done; cbn [length]; lia. Qed.

(** *** Fixed window *)

Fixpoint fw_seq (times : list Z) (l : FixedWindowRateLimiter) : list bool * FixedWindowRateLimiter :=
  match times with
  | [] => ([], l)
  | t :: times' =>
      let '(b, l') := fw_isAllowed t l in
      let '(bs, l'') := fw_seq times' l' in (b :: bs, l'')
  end.

Lemma isAllowed_seq_fw `{Platform} times l :
  isAllowed_seq times (FixedWindow l) =
  (fst (fw_seq times l), FixedWindow (snd (fw_seq times l))).
Proof.
  revert l; induction times as [|t times IH]; intros l; cbn; [done|].
  destruct (fw_isAllowed t l) as [b l']. rewrite IH. by destruct (fw_seq times l').
Qed.

(** A call rolls the window over when a whole time unit has passed. *)
Definition fw_roll (t : Z) (l : FixedWindowRateLimiter) : bool :=
  dle (fw_timeUnit l) (ns_to_s (t - fw_lastTime l)).

(** The number of window starts after the first among the calls. *)
Fixpoint fw_rolls (times : list Z) (l : FixedWindowRateLimiter) : Z :=
  match times with
  | [] => 0
  | t :: times' => (if fw_roll t l then 1 else 0) + fw_rolls times' (snd (fw_isAllowed t l))
  end.

Lemma fw_rolls_nonneg times l : 0 ≤ fw_rolls times l.
Proof.
  revert l; induction times as [|t times IH]; intros l; cbn [fw_rolls]; [lia|].
  specialize (IH (snd (fw_isAllowed t l))). case_if; lia.
Qed.

Lemma fw_step t l :
  0 ≤ fw_currentRequests l ≤ fw_capacity l →
  let '(b, l') := fw_isAllowed t l in
  fw_capacity l' = fw_capacity l ∧ 0 ≤ fw_currentRequests l' ≤ fw_capacity l ∧
  (if b then 1 else 0) ≤ fw_currentRequests l' - fw_currentRequests l
                         + (if fw_roll t l then fw_capacity l else 0).
Proof.
  intros Hc. unfold fw_isAllowed. fold (fw_roll t l).
  destruct (fw_roll t l); case_if; bool_to_prop; cbn; lia.
Qed.

Lemma fw_seq_bound times l :
  0 ≤ fw_currentRequests l ≤ fw_capacity l →
  count_true (fst (fw_seq times l)) ≤
    (fw_capacity l - fw_currentRequests l) + fw_rolls times l * fw_capacity l.
Proof.
  revert l; induction times as [|t times IH]; intros l Hl; cbn [fw_seq fw_rolls fst].
  { unfold count_true; cbn. lia. }
  pose proof (fw_step t l Hl) as Hs. destruct (fw_isAllowed t l) as [b l'].
  destruct Hs as (Hcap & Hcur & Hb). specialize (IH l' ltac:(lia)).
  cbn [snd]. pose proof (fw_rolls_nonneg times l').
  destruct (fw_seq times l') as [bs l'']. cbn [fst] in *.
  rewrite count_true_cons. destruct (fw_roll t l); lia.
Qed.

(** The fixed-window limiter: over any sequence of calls at any times, a
    fresh limiter admits at most its capacity per window it has opened (one
    plus the number of calls that found a whole time unit elapsed). *)
Theorem fixed_window_bound `{Platform} (capacity t0 : Z) (timeUnit : double) (times : list Z) :
  0 ≤ capacity →
  count_true (fst (isAllowed_seq times (newRateLimiter kFixedWindow capacity timeUnit t0))) ≤
    (1 + fw_rolls times (newFixedWindow capacity timeUnit t0)) * capacity.
Proof.
  intros Hc. unfold newRateLimiter. rewrite isAllowed_seq_fw. cbn [fst].
  pose proof (fw_seq_bound times (newFixedWindow capacity timeUnit t0)) as Hb. cbn in Hb.
  specialize (Hb ltac:(lia)). lia.
Qed.

Lemma fixed_window_bound_witness :
  count_true (fst (@isAllowed_seq x86_64 [0; 1; 2; 61000000000; 61000000001]
    (newRateLimiter kFixedWindow 2 (d_of_Z 60) 0))) ≤
  (1 + fw_rolls [0; 1; 2; 61000000000; 61000000001] (newFixedWindow 2 (d_of_Z 60) 0)) * 2.
Proof.
  apply (@fixed_window_bound x86_64 2 0 (d_of_Z 60) [0; 1; 2; 61000000000; 61000000001]). lia.
Defined.

(** Within one window the fixed-window limiter is exact: the first
    [capacity] calls are admitted and every later one is refused. *)
Theorem fixed_window_exact `{Platform} (capacity : nat) (t0 : Z) (timeUnit : double) (times : list Z) :
  Forall (λ t, dle timeUnit (ns_to_s (t - t0)) = false) times →
  fst (isAllowed_seq times (newRateLimiter kFixedWindow (Z.of_nat capacity) timeUnit t0)) =
    replicate (min capacity (length times)) true ++ replicate (length times - capacity) false.
Proof.
  intros Ht. unfold newRateLimiter. rewrite isAllowed_seq_fw. cbn [fst].
  assert (Hgen : ∀ used, (used ≤ capacity)%nat →
    fst (fw_seq times {| fw_capacity := Z.of_nat capacity; fw_currentRequests := Z.of_nat used;
                         fw_lastTime := t0; fw_timeUnit := timeUnit |}) =
    replicate (min (capacity - used) (length times)) true ++
    replicate (length times - (capacity - used)) false).
  { induction Ht as [|t times Hroll _ IH]; intros used Hu; cbn [fw_seq length fst].
    { by rewrite Nat.min_0_r. }
    unfold fw_isAllowed. cbn. rewrite Hroll.
    case_if; bool_to_prop.
    - replace (Z.of_nat used + 1) with (Z.of_nat (S used)) by lia.
      specialize (IH (S used) ltac:(lia)). destruct (fw_seq _ _) as [bs l']. cbn in *. rewrite IH.
      replace (capacity - used)%nat with (S (capacity - S used)) by lia. done.
    - assert (used = capacity) as -> by lia.
      specialize (IH capacity ltac:(lia)). destruct (fw_seq _ _) as [bs l']. cbn in *. rewrite IH.
      rewrite Nat.sub_diag, Nat.sub_0_r. done. }
  rewrite <- (Nat.sub_0_r capacity) at 2 3. apply (Hgen O). lia.
Qed.

Lemma fixed_window_exact_witness :
  fst (@isAllowed_seq x86_64 [0; 5; 9; 11] (newRateLimiter kFixedWindow 2 (d_of_Z 60) 0)) =
    [true; true; false; false].
Proof.
  apply (@fixed_window_exact x86_64 2 0 (d_of_Z 60) [0; 5; 9; 11]).
  repeat constructor.
Defined.

(** *** Token bucket *)

Lemma tb_capacity_one `{Platform} t l :
  tb_capacity l = 1 → fst (tb_isAllowed t l) = false ∧ tb_capacity (snd (tb_isAllowed t l)) = 1.
Proof.
  intros Hc. unfold tb_isAllowed. rewrite Hc.
  set (tok := dadd _ _). change (d_of_Z 1) with d_one.
  destruct (dlt d_one tok) eqn:E.
  - replace (dlt d_one d_one) with false by (by vm_compute). done.
  - rewrite E. done.
Qed.

(** A token-bucket limiter of capacity 1 refuses every request, for every
    time unit and however long the caller waits: the bucket is clamped to
    1.0 token and a request needs strictly more than 1.0.  ([capacity = 1] is
    accepted by [dr_rate_limit].) *)
Theorem token_bucket_capacity_one_starves `{Platform} (t0 : Z) (timeUnit : double) (times : list Z) :
  fst (isAllowed_seq times (newRateLimiter kTokenBucket 1 timeUnit t0)) =
    replicate (length times) false.
Proof.
  assert (Hgen : ∀ l, tb_capacity l = 1 →
    fst (isAllowed_seq times (TokenBucket l)) = replicate (length times) false).
  { induction times as [|t times IH]; intros l Hl; cbn [isAllowed_seq isAllowed]; [done|].
    destruct (tb_capacity_one t l Hl) as [Hb Hc]. destruct (tb_isAllowed t l) as [b l']. cbn in *.
    specialize (IH l' Hc). destruct (isAllowed_seq times (TokenBucket l')) as [bs l'']. cbn in *.
    by rewrite Hb, IH. }
  by apply Hgen.
Qed.

(** The burst a full token bucket admits is [capacity - 1], not
    [capacity]: of [capacity + 1] simultaneous requests to a fresh limiter,
    for every capacity from 1 to 64. *)
Theorem token_bucket_burst :
  Forall (λ c, count_true (fst (@isAllowed_seq x86_64 (repeat 0 (S c))
                 (newRateLimiter kTokenBucket (Z.of_nat c) (d_of_Z 60) 0))) = Z.of_nat c - 1)
    (seq 1 64).
Proof. repeat (constructor; [vm_compute; reflexivity|]). constructor. Qed.

(** *** Sliding window *)

(** A refused request wipes the sliding-window history: with capacity 2
    and a 10 s window, after two requests at 9.0 s and one at 10.1 s the request
    at 10.2 s is refused; but when one more request is refused at 10.0 s, the
    ones at 10.1 s and 10.2 s are both admitted: four admissions in 1.2 s. *)
Theorem sliding_window_rejection_resets :
  let s := 1000000000 in
  let lim := newRateLimiter kSlidingWindow 2 (d_of_Z 10) 0 in
  let run ts := fst (@isAllowed_seq x86_64 ts lim) in
  run [9 * s; 9 * s; 10 * s + s / 10; 10 * s + s / 5] = [true; true; true; false] ∧
  run [9 * s; 9 * s; 10 * s; 10 * s + s / 10; 10 * s + s / 5] = [true; true; false; true; true].
Proof. vm_compute. done. Qed.

(** ** Which routes share a limiter *)

(** What one [buildLimitersForPath] does to each rule: [built path n rules
    rules' qs n'], where [qs] gives for each rule the pointer the route gets
    from it (if the rule matches) and [n], [n'] are the next free pointers. *)
Inductive built (path : string) :
  positive → list RateLimitRule → list RateLimitRule → list (option positive) → positive → Prop :=
| built_nil n : built path n [] [] [] n
| built_skip n r rs rs' qs n' :
    rule_matches r path = false →
    built path n rs rs' qs n' → built path n (r :: rs) (r :: rs') (None :: qs) n'
| built_shared n r rs rs' qs n' p :
    rule_matches r path = true → rl_global_scope r = true → rl_shared_limiter r = Some p →
    built path n rs rs' qs n' → built path n (r :: rs) (r :: rs') (Some p :: qs) n'
| built_new_shared n r rs rs' qs n' :
    rule_matches r path = true → rl_global_scope r = true → rl_shared_limiter r = None →
    built path (Pos.succ n) rs rs' qs n' →
    built path n (r :: rs) (set_shared n r :: rs') (Some n :: qs) n'
| built_own n r rs rs' qs n' :
    rule_matches r path = true → rl_global_scope r = false →
    built path (Pos.succ n) rs rs' qs n' →
    built path n (r :: rs) (r :: rs') (Some n :: qs) n'.

Lemma build_loop_built now path rules out h rules' out' h' :
  build_loop now path rules out h = (rules', out', h') →
  ∃ qs, rls_limiters out' = rls_limiters out ++ omap id qs ∧
        built path (heap_next h) rules rules' qs (heap_next h').
Proof.
  revert out h rules' out' h'. induction rules as [|r rs IH]; intros out h rules' out' h'; cbn [build_loop].
  { intros [= <- <- <-]. exists []. rewrite app_nil_r. split; [done|constructor]. }
  destruct (build_step now path r out h) as [[r1 out1] h1] eqn:Es.
  destruct (build_loop now path rs out1 h1) as [[rs2 out2] h2] eqn:El.
  intros [= <- <- <-]. apply IH in El as (qs & Hl & Hb).
  unfold build_step in Es. destruct (rule_matches r path) eqn:Em; cbn in Es.
  - destruct (rl_global_scope r) eqn:Eg; [destruct (rl_shared_limiter r) as [p|] eqn:Esh|];
      simplify_eq; cbn in *; rewrite <- app_assoc in Hl.
    + exists (Some p :: qs). split; [done|]. by apply built_shared.
    + exists (Some (heap_next h) :: qs). split; [done|]. by apply built_new_shared.
    + exists (Some (heap_next h) :: qs). split; [done|]. by apply built_own.
  - simplify_eq. exists (None :: qs). split; [done|]. by apply built_skip.
Qed.

(** A rule table whose shared limiters are allocated, distinct, and only on
    global rules: the state after [drogonR_register_rate_limits] and after any
    number of route installations. *)
Record rules_wf (rules : list RateLimitRule) (n : positive) : Prop := {
  rw_alloc i r p : rules !! i = Some r → rl_shared_limiter r = Some p → (p < n)%positive;
  rw_inj i j ri rj p : rules !! i = Some ri → rules !! j = Some rj →
    rl_shared_limiter ri = Some p → rl_shared_limiter rj = Some p → i = j;
  rw_global i r p : rules !! i = Some r → rl_shared_limiter r = Some p → rl_global_scope r = true;
}.

Definition same_rule (r r' : RateLimitRule) : Prop :=
  rl_global_scope r' = rl_global_scope r ∧ rl_route_prefixes r' = rl_route_prefixes r.

Lemma same_rule_matches r r' path : same_rule r r' → rule_matches r' path = rule_matches r path.
Proof. intros [_ H]. unfold rule_matches. by rewrite H. Qed.

Lemma same_rule_refl r : same_rule r r.
Proof. done. Qed.
Lemma same_rule_set p r : same_rule r (set_shared p r).
Proof. done. Qed.
#[export] Hint Resolve same_rule_refl same_rule_set : drogonR.

Ltac head_rule :=
  eexists _, _; do 2 (split; [reflexivity|]); split; [eauto with drogonR|]; cbn.

(** The three ways a pointer reaches a route. *)
Lemma built_lookup path n rs rs' qs n' :
  built path n rs rs' qs n' → (n ≤ n')%positive ∧
  ∀ i r', rs' !! i = Some r' → ∃ r q, rs !! i = Some r ∧ qs !! i = Some q ∧ same_rule r r' ∧
    match q with
    | None => rule_matches r path = false ∧ r' = r
    | Some p => rule_matches r path = true ∧
        (rl_shared_limiter r = Some p ∧ r' = r ∧ rl_global_scope r = true ∨
         (n ≤ p < n')%positive ∧
          (rl_global_scope r = true ∧ rl_shared_limiter r = None ∧ r' = set_shared p r ∨
           rl_global_scope r = false ∧ r' = r))
    end.
Proof.
  induction 1 as [n|n r rs rs' qs n' Hm Hb [Hle IH]|n r rs rs' qs n' p Hm Hg Hs Hb [Hle IH]
    |n r rs rs' qs n' Hm Hg Hs Hb [Hle IH]|n r rs rs' qs n' Hm Hg Hb [Hle IH]];
    (split; [lia|]); intros [|i] r' Hi; cbn in Hi; simplify_eq; cbn.
  - head_rule. done.
  - by apply IH.
  - head_rule. split; [done|]. by left.
  - by apply IH.
  - head_rule. split; [done|]. right. split; [lia|]. by left.
  - destruct (IH i r' Hi) as (r0 & q & ? & ? & ? & Hq). exists r0, q. split_and!; try done.
    destruct q; [|done]. destruct Hq as [? [?|[? ?]]]; split; auto. right. split; [lia|done].
  - head_rule. split; [done|]. right. split; [lia|]. by right.
  - destruct (IH i r' Hi) as (r0 & q & ? & ? & ? & Hq). exists r0, q. split_and!; try done.
    destruct q; [|done]. destruct Hq as [? [?|[? ?]]]; split; auto. right. split; [lia|done].
Qed.

Lemma built_length path n rs rs' qs n' :
  built path n rs rs' qs n' → length rs' = length rs ∧ length qs = length rs.
Proof. induction 1; cbn; lia. Qed.

(** Freshly allocated pointers go to one rule each. *)
Lemma built_fresh path n rs rs' qs n' :
  built path n rs rs' qs n' →
  (∀ i r p, rs !! i = Some r → rl_shared_limiter r = Some p → (p < n)%positive) →
  ∀ i j p, qs !! i = Some (Some p) → qs !! j = Some (Some p) → (n ≤ p)%positive → i = j.
Proof.
  assert (Hlow : ∀ path n rs rs' qs n', built path n rs rs' qs n' → ∀ m,
    (∀ i r p, rs !! i = Some r → rl_shared_limiter r = Some p → (p < m)%positive) → (m < n)%positive →
    ∀ j, qs !! j ≠ Some (Some m)).
  { clear. induction 1; intros m Ha Hm [|j]; cbn; try done;
      try (intros [= ->]; lia);
      try (apply IHbuilt; [intros i0 ? ? ? ?; by eapply (Ha (S i0)) | lia]).
    intros [= ->]. specialize (Ha O r m eq_refl). specialize (Ha ltac:(done)). lia. }
  induction 1 as [n|n r rs rs' qs n' Hm Hb IH|n r rs rs' qs n' q Hm Hg Hs Hb IH
    |n r rs rs' qs n' Hm Hg Hs Hb IH|n r rs rs' qs n' Hm Hg Hb IH]; intros Ha [|i] [|j] p Hi Hj Hp;
    cbn in *; simplify_eq; try done.
  all: try (f_equal; eapply IH; [intros k ? ? ? ?; eapply (Pos.lt_le_trans _ n);
     [by eapply (Ha (S k))|lia]|done|done|]).
  all: try lia.
  all: try (specialize (Ha O r p eq_refl Hs); lia).
  all: try (exfalso; eapply (Hlow _ _ _ _ _ _ Hb p); [| |eassumption];
     [intros k ? ? ? ?; by eapply (Ha (S k))|lia]).
  all: destruct (decide (p = n)) as [->|]; [|lia]; exfalso;
    eapply (Hlow _ _ _ _ _ _ Hb n); [| |eassumption];
     [intros k ? ? ? ?; by eapply (Ha (S k))|lia].
Qed.

(** A shared pointer of the new table is an old one, or fresh and handed to
    the route. *)
Lemma built_shared_case path n rs rs' qs n' i r' p :
  built path n rs rs' qs n' → rules_wf rs n →
  rs' !! i = Some r' → rl_shared_limiter r' = Some p →
  rl_global_scope r' = true ∧
  ((p < n)%positive ∧ (∃ r, rs !! i = Some r ∧ rl_shared_limiter r = Some p) ∨
   (n ≤ p < n')%positive ∧ qs !! i = Some (Some p)).
Proof.
  intros Hb [Ha Hi Hg] Hr' Hp. destruct (built_lookup _ _ _ _ _ _ Hb) as [_ Hl].
  destruct (Hl i r' Hr') as (r & q & Hr & Hq & [Hsg _] & Hcs).
  assert (Hold : r' = r → rl_global_scope r' = true ∧
    ((p < n)%positive ∧ (∃ r, rs !! i = Some r ∧ rl_shared_limiter r = Some p) ∨
     (n ≤ p < n')%positive ∧ qs !! i = Some (Some p))).
  { intros ->. split; [by eapply Hg|]. left. split; [by eapply Ha|by exists r]. }
  destruct q as [q|]; [|by destruct Hcs; auto].
  destruct Hcs as [_ [(_ & ? & _)|[Hrange [(Hgl & _ & ->)|[_ ?]]]]]; [by auto| |by auto].
  cbn in Hp. simplify_eq. split; [done|]. by right.
Qed.

Lemma built_wf path n rs rs' qs n' :
  built path n rs rs' qs n' → rules_wf rs n → rules_wf rs' n'.
Proof.
  intros Hb Hwf. destruct (built_lookup _ _ _ _ _ _ Hb) as [Hle _].
  pose proof (built_fresh _ _ _ _ _ _ Hb (rw_alloc _ _ Hwf)) as Hf.
  pose proof (λ i r p, built_shared_case _ _ _ _ _ _ i r p Hb Hwf) as Hcase.
  split.
  - intros i r p Hr Hp. destruct (Hcase i r p Hr Hp) as [_ [[? _]|[? _]]]; lia.
  - intros i j ri rj p Hri Hrj Hpi Hpj.
    destruct (Hcase _ _ _ Hri Hpi) as [_ [[? (r1 & ? & ?)]|[? ?]]],
             (Hcase _ _ _ Hrj Hpj) as [_ [[? (r2 & ? & ?)]|[? ?]]]; try lia.
    + by eapply (rw_inj _ _ Hwf).
    + eapply Hf; [done|done|lia].
  - intros i r p Hr Hp. by destruct (Hcase i r p Hr Hp).
Qed.

Lemma elem_of_omap_id (p : positive) (qs : list (option positive)) :
  p ∈ omap id qs ↔ ∃ i : nat, qs !! i = Some (Some p).
Proof.
  rewrite list_elem_of_omap. split.
  - intros (q & Hq & Hid). cbn in Hid. subst. by apply list_elem_of_lookup in Hq.
  - intros [i Hi]. exists (Some p). split; [by eapply list_elem_of_lookup_2|done].
Qed.

(** Scope of the limiters: when two routes are installed one after the
    other, a limiter object is shared by both exactly when it is the shared
    limiter of a rule with global scope that matches both paths; limiters of
    per-route rules are never shared.  The rule table stays well formed, so
    this holds for every pair of consecutive installations. *)
Theorem limiter_sharing now1 now2 path1 path2 rules h rules1 out1 h1 rules2 out2 h2 :
  rules_wf rules (heap_next h) →
  buildLimitersForPath now1 path1 rules h = (rules1, out1, h1) →
  buildLimitersForPath now2 path2 rules1 h1 = (rules2, out2, h2) →
  rules_wf rules2 (heap_next h2) ∧
  ∀ p, (p ∈ rls_limiters out1 ∧ p ∈ rls_limiters out2) ↔
       ∃ (i : nat) r, rules1 !! i = Some r ∧ rl_global_scope r = true ∧
         rule_matches r path1 = true ∧ rule_matches r path2 = true ∧
         rl_shared_limiter r = Some p.
Proof.
  intros Hwf H1 H2.
  apply build_loop_built in H1 as (qs1 & Hl1 & B1), H2 as (qs2 & Hl2 & B2). cbn in Hl1, Hl2.
  pose proof (built_wf _ _ _ _ _ _ B1 Hwf) as Hwf1. pose proof (built_wf _ _ _ _ _ _ B2 Hwf1) as Hwf2.
  split; [done|]. intros p. rewrite Hl1, Hl2, !elem_of_omap_id.
  destruct (built_lookup _ _ _ _ _ _ B1) as [Hle1 L1], (built_lookup _ _ _ _ _ _ B2) as [Hle2 L2].
  destruct (built_length _ _ _ _ _ _ B1) as [Len1 Lq1], (built_length _ _ _ _ _ _ B2) as [Len2 Lq2].
  split.
  - intros [[i Hi] [j Hj]].
    destruct (lookup_lt_is_Some_2 rules1 i) as [r1 Hr1];
      [apply lookup_lt_Some in Hi; lia|].
    destruct (lookup_lt_is_Some_2 rules2 j) as [r2 Hr2];
      [apply lookup_lt_Some in Hj; lia|].
    destruct (L1 i r1 Hr1) as (r & q & Hr & Hq & Hsame & Hc). rewrite Hi in Hq. simplify_eq.
    destruct Hc as [Hm1 Hc].
    assert (Hlt : (p < heap_next h1)%positive).
    { destruct Hc as [(? & _)|[? _]]; [|lia].
      eapply Pos.lt_le_trans; [by eapply (rw_alloc _ _ Hwf)|done]. }
    destruct (L2 j r2 Hr2) as (r' & q' & Hr' & Hq' & _ & Hc'). rewrite Hj in Hq'. simplify_eq.
    destruct Hc' as [Hm2 [(Hs' & _ & Hg')|[? _]]]; [|lia].
    (* the pointer of the first route is the shared limiter of the same rule *)
    assert (Hs1 : rl_shared_limiter r1 = Some p).
    { destruct Hc as [(? & -> & _)|[Hrange [(_ & _ & ->)|[Hng ->]]]]; [done|done|].
      destruct (built_shared_case _ _ _ _ _ _ j r' p B1 Hwf Hr' Hs') as [Hg [[? _]|[_ Hj']]]; [lia|].
      assert (i = j) as ->; [|congruence].
      eapply (built_fresh _ _ _ _ _ _ B1 (rw_alloc _ _ Hwf)); [done|done|lia]. }
    assert (i = j) as -> by (by eapply (rw_inj _ _ Hwf1)).
    rewrite Hr1 in Hr'. injection Hr' as <-.
    exists j, r1. split_and!; try done. by rewrite (same_rule_matches r r1).
  - intros (i & r1 & Hr1 & Hg & Hm1 & Hm2 & Hs).
    destruct (L1 i r1 Hr1) as (r & q & Hr & Hq & Hsame & Hc). split; exists i.
    + destruct q as [q|]; [|destruct Hc as [Hm _]; rewrite <- (same_rule_matches r r1) in Hm by done; congruence].
      destruct Hc as [_ [(Hs0 & -> & _)|[_ [(_ & _ & ->)|[Hng ->]]]]]; [congruence| |congruence].
      cbn in Hs. congruence.
    + destruct (lookup_lt_is_Some_2 rules2 i) as [r2 Hr2]; [apply lookup_lt_Some in Hr1; lia|].
      destruct (L2 i r2 Hr2) as (r' & q' & Hr' & Hq' & _ & Hc'). simplify_eq.
      destruct q' as [q'|]; [|destruct Hc'; congruence].
      destruct Hc' as [_ [(Hs0 & _)|[_ [(_ & Hn & _)|[Hng _]]]]]; congruence.
Qed.

Lemma clean_rules_wf rules n :
  Forall (λ r, rl_shared_limiter r = None) rules → rules_wf rules n.
Proof.
  intros Hc. rewrite Forall_lookup in Hc.
  split; intros; match goal with H : rules !! _ = Some _ |- _ => apply Hc in H end; congruence.
Qed.

Definition sample_rules : list RateLimitRule :=
  [{| rl_capacity := 10; rl_window := d_of_Z 1; rl_type := kFixedWindow; rl_global_scope := true;
      rl_route_prefixes := ["/api/"]; rl_shared_limiter := None |};
   {| rl_capacity := 5; rl_window := d_of_Z 60; rl_type := kTokenBucket; rl_global_scope := false;
      rl_route_prefixes := []; rl_shared_limiter := None |}].
Definition empty_heap : LimiterHeap := {| heap_objs := ∅; heap_next := 1 |}.

Definition sample_build1 := buildLimitersForPath 0 "/api/a" sample_rules empty_heap.
Definition sample_build2 :=
  buildLimitersForPath 0 "/api/b" (fst (fst sample_build1)) (snd sample_build1).

Lemma limiter_sharing_witness :
  rls_limiters (snd (fst sample_build1)) = [1; 2]%positive ∧
  rls_limiters (snd (fst sample_build2)) = [1; 3]%positive ∧
  ∀ p, (p ∈ rls_limiters (snd (fst sample_build1)) ∧ p ∈ rls_limiters (snd (fst sample_build2))) ↔
       ∃ (i : nat) r, fst (fst sample_build1) !! i = Some r ∧ rl_global_scope r = true ∧
         rule_matches r "/api/a" = true ∧ rule_matches r "/api/b" = true ∧
         rl_shared_limiter r = Some p.
Proof.
  split; [reflexivity|]. split; [reflexivity|].
  apply (limiter_sharing 0 0 "/api/a" "/api/b" sample_rules empty_heap
    (fst (fst sample_build1)) (snd (fst sample_build1)) (snd sample_build1)
    (fst (fst sample_build2)) (snd (fst sample_build2)) (snd sample_build2)).
  - apply clean_rules_wf. repeat constructor.
  - reflexivity.
  - reflexivity.
Defined.

(** ** The check made for every request *)

(** A request passes the rate-limit check exactly when every limiter of
    its route, consulted in order, admits it; otherwise the answer is a 429
    with a Retry-After header, limiters after the refusing one are not
    consulted, and the object of every other limiter is untouched. *)
Theorem checkRateLimits_spec `{Platform} (clock : nat → Z) (limiters : list positive)
    (max_window : double) (h : LimiterHeap) :
  NoDup limiters → (∀ p, p ∈ limiters → is_Some (heap_objs h !! p)) →
  match checkRateLimits clock limiters max_window h with
  | (None, h') =>
      ∀ i p l, limiters !! i = Some p → heap_objs h !! p = Some l →
        fst (isAllowed (clock i) l) = true ∧ heap_objs h' !! p = Some (snd (isAllowed (clock i) l))
  | (Some resp, h') =>
      statusCode_ resp = 429 ∧
      headers_ resp !! "retry-after" = Some (print_int (retry_after_secs max_window)) ∧
      ∃ i p l, limiters !! i = Some p ∧ heap_objs h !! p = Some l ∧
        fst (isAllowed (clock i) l) = false ∧
        (∀ j q m, (j < i)%nat → limiters !! j = Some q → heap_objs h !! q = Some m →
           fst (isAllowed (clock j) m) = true) ∧
        (∀ j q, (i < j)%nat → limiters !! j = Some q → heap_objs h' !! q = heap_objs h !! q)
  end ∧
  ∀ p, p ∉ limiters → heap_objs (snd (checkRateLimits clock limiters max_window h)) !! p = heap_objs h !! p.
Proof.
  intros Hnd. revert clock h. induction Hnd as [|p ps Hp Hnd IH]; intros clock h Hd; cbn [checkRateLimits].
  { split; [|done]. intros [|i]; done. }
  destruct (Hd p ltac:(set_solver)) as [l Hl]. rewrite Hl.
  destruct (isAllowed (clock O) l) as [ok l'] eqn:Eok.
  set (h1 := {| heap_objs := <[p := l']> (heap_objs h); heap_next := heap_next h |}).
  assert (Hother : ∀ q, q ≠ p → heap_objs h1 !! q = heap_objs h !! q)
    by (intros; cbn; by rewrite lookup_insert_ne).
  destruct ok.
  - specialize (IH (λ i, clock (S i)) h1) as [IH1 IH2].
    { intros q Hq. destruct (decide (q = p)) as [->|]; [cbn; rewrite lookup_insert_eq; eauto|].
      rewrite Hother by done. apply Hd. set_solver. }
    assert (Hpin : ∀ i : nat, ps !! i ≠ Some p) by (intros i Hi; by apply list_elem_of_lookup_2 in Hi).
    split.
    + destruct (checkRateLimits _ ps max_window h1) as [[resp|] h'].
      * destruct IH1 as (? & ? & i & q & m & Hi & Hq & Hf & Hbefore & Hafter).
        split_and!; try done. exists (S i), q, m.
        assert (q ≠ p) by (intros ->; by apply (Hpin i)).
        rewrite Hother in Hq by done. split_and!; try done.
        -- intros [|j] q' m' Hj Hq' Hm'; cbn in Hq'; [simplify_eq; by rewrite Eok|].
           eapply Hbefore; [|done|]; [lia|]. rewrite Hother; [done|].
           intros ->. by apply (Hpin j).
        -- intros [|j] q' Hj Hq'; [lia|]. cbn in Hq'. rewrite (Hafter j q') by (lia || done).
           apply Hother. intros ->. by apply (Hpin j).
      * intros [|i] q m Hi Hm; cbn in Hi; simplify_eq.
        -- rewrite Eok. split; [done|]. cbn in IH2. rewrite IH2 by done. cbn. apply lookup_insert_eq.
        -- apply IH1; [done|]. rewrite Hother; [done|]. intros ->. by apply (Hpin i).
    + intros q Hq. rewrite IH2 by set_solver. apply Hother. set_solver.
  - split.
    + split; [done|]. split; [cbn; apply lookup_insert_eq|].
      exists O, p, l. rewrite Eok. split_and!; try done; [intros; lia|].
      intros [|j] q Hj Hq; [lia|]. cbn in Hq. apply Hother.
      intros ->. apply Hp. by eapply list_elem_of_lookup_2.
    + intros q Hq. apply Hother. set_solver.
Qed.

Definition two_limiters : LimiterHeap :=
  {| heap_objs := {[1%positive := newRateLimiter kFixedWindow 1 (d_of_Z 60) 0;
                    2%positive := newRateLimiter kFixedWindow 0 (d_of_Z 60) 0]}; heap_next := 3 |}.

Lemma checkRateLimits_spec_witness :
  match @checkRateLimits x86_64 (λ _, 5) [1; 2]%positive (d_of_Z 60) two_limiters with
  | (Some resp, _) => statusCode_ resp = 429 ∧ headers_ resp !! "retry-after" = Some "60"
  | _ => False
  end.
Proof.
  assert (Hnd : NoDup [1; 2]%positive) by (by apply (bool_decide_unpack _)).
  pose proof (@checkRateLimits_spec x86_64 (λ _, 5) [1; 2]%positive (d_of_Z 60) two_limiters Hnd) as Hs.
  destruct Hs as [Hs _].
  { intros p Hp. repeat (apply elem_of_cons in Hp as [->|Hp]; [eexists; reflexivity|]).
    by apply elem_of_nil in Hp. }
  destruct (checkRateLimits _ _ _ _) as [[resp|] h'] eqn:E; [|vm_compute in E; discriminate].
  destruct Hs as (? & Hh & _). split; [done|]. rewrite Hh. vm_compute. reflexivity.
Defined.
