(* ===== verification/StaticFiles.v ===== *)
(** * Static mounts (src/drogon_server.cpp: escapeRegex, resolveSafely,
      installStaticMount)

    The path arithmetic is that of [std::filesystem::path] on POSIX: a path is
    a string, [operator/] and [lexically_normal] work on its filenames and
    never look at the file system. *)

From stdpp Require Import base gmap strings list numbers.
From Stdlib Require Import ZArith Lia Ascii.
From S2P Require Import Prelude CDouble HttpResponse.

Definition SLASH : ascii := "/"%char.

(** ** std::filesystem::path *)

Definition is_absolute (p : string) : bool :=
  match p with String c _ => Ascii.eqb c SLASH | EmptyString => false end.

Fixpoint str_last (p : string) : option ascii :=
  match p with
  | EmptyString => None
  | String c EmptyString => Some c
  | String _ p' => str_last p'
  end.

Definition ends_with_slash (p : string) : bool :=
  match str_last p with Some c => Ascii.eqb c SLASH | None => false end.

(** [p / q] *)
Definition path_append (p q : string) : string :=
  if is_absolute q then q
  else if String.eqb p EmptyString || ends_with_slash p then p +:+ q
  else p +:+ String SLASH q.

(** The filenames of a path: the maximal runs of characters other than '/'. *)
Definition flush (acc : string) (rest : list string) : list string :=
  match acc with EmptyString => rest | _ => acc :: rest end.
Fixpoint split_from (acc p : string) : list string :=
  match p with
  | EmptyString => flush acc []
  | String c p' =>
      if Ascii.eqb c SLASH then flush acc (split_from EmptyString p')
      else split_from (acc +:+ String c EmptyString) p'
  end.
Definition filenames (p : string) : list string := split_from EmptyString p.

(** One filename of the normalisation: the filenames kept so far (innermost
    first), and whether a separator is left at the end. *)
Definition norm_step (rooted : bool) (st : list string * bool) (f : string) : list string * bool :=
  let '(stack, _) := st in
  if String.eqb f "." then (stack, true)
  else if String.eqb f ".." then
    match stack with
    | [] => if rooted then ([], true) else ([".."], false)
    | top :: stack' => if String.eqb top ".." then (".." :: stack, false) else (stack', true)
    end
  else (f :: stack, false).

Definition norm_filenames (rooted : bool) (fs : list string) : list string * bool :=
  let '(stack, sep) := fold_left (norm_step rooted) fs ([], false) in (rev stack, sep).

Fixpoint join_path (fs : list string) : string :=
  match fs with
  | [] => EmptyString
  | [f] => f
  | f :: fs' => f +:+ String SLASH (join_path fs')
  end.

Definition render (rooted : bool) (fs : list string) (trailing : bool) : string :=
  match fs with
  | [] => if rooted then String SLASH EmptyString else "."
  | _ => (if rooted then String SLASH EmptyString else EmptyString) +:+ join_path fs +:+
         (if trailing then String SLASH EmptyString else EmptyString)
  end.

(** [p.lexically_normal()] *)
Definition lexically_normal (p : string) : string :=
  match p with
  | EmptyString => EmptyString
  | _ =>
      let rooted := is_absolute p in
      let '(fs, sep) := norm_filenames rooted (filenames p) in
      let trailing := match rev fs with
                      | f :: _ => negb (String.eqb f "..") && (sep || ends_with_slash p)
                      | [] => false
                      end in
      render rooted fs trailing
  end.

Example normal1 : lexically_normal "/srv//www/./a/../b/" = "/srv/www/b/".
Proof. reflexivity. Qed.
Example normal2 : lexically_normal "foo/./bar/.." = "foo/".
Proof. reflexivity. Qed.
Example normal3 : lexically_normal "a/.." = ".".
Proof. reflexivity. Qed.
Example normal4 : lexically_normal "/../x" = "/x".
Proof. reflexivity. Qed.
Example normal5 : lexically_normal "../a/../.." = "../..".
Proof. reflexivity. Qed.
Example normal6 : lexically_normal "../" = "..".
Proof. reflexivity. Qed.

(** ** drogon_server.cpp *)

(** The characters of [R"(\.+*?()[]{}|^$)"]. *)
Definition regex_special (c : ascii) : bool :=
  existsb (Ascii.eqb c) (map chr [92; 46; 43; 42; 63; 40; 41; 91; 93; 123; 125; 124; 94; 36]).

Fixpoint escapeRegex (s : string) : string :=
  match s with
  | EmptyString => EmptyString
  | String c s' =>
      if regex_special c then String (chr 92) (String c (escapeRegex s'))
      else String c (escapeRegex s')
  end.

(** [while (!dir_str.empty() && dir_str.back() == '/') dir_str.pop_back();] *)
Fixpoint strip_slashes (s : string) : string :=
  match s with
  | EmptyString => EmptyString
  | String c s' =>
      match strip_slashes s' with
      | EmptyString => if Ascii.eqb c SLASH then EmptyString else String c EmptyString
      | r => String c r
      end
  end.

Definition char_at (n : nat) (s : string) : option ascii := String.get n s.

Definition resolveSafely (dir rel : string) : option string :=
  if has_nul rel then None
  else if is_absolute rel then None
  else
    let norm_str := lexically_normal (path_append dir rel) in
    let dir_str := strip_slashes (lexically_normal dir) in
    if (String.length norm_str <=? String.length dir_str)%nat
       || negb (String.prefix dir_str norm_str)
       || negb (match char_at (String.length dir_str) norm_str with
                | Some c => Ascii.eqb c SLASH | None => false end)
    then None
    else Some norm_str.

Record StaticMount := { sm_mount : string; sm_dir : string }.

Inductive HttpMethod := Get | Post | Head | Put | Delete | Options | Patch | Invalid.

(** The regex and methods [installStaticMount] registers. *)
Definition static_regex (sm : StaticMount) : string :=
  "^" +:+ escapeRegex (sm_mount sm) +:+ "/(.*)$".
Definition static_methods : list HttpMethod := [Get; Head].

Definition forbidden_response : HttpResponse :=
  setBody "403 Forbidden" (setContentTypeCode CT_TEXT_PLAIN (setStatusCode 403 newHttpResponse)).

(** The handler: the response it passes to its callback.  [newFileResponse]
    reads the file system. *)
Definition static_handler (newFileResponse : string → HttpResponse) (dir : string)
    (routing_params : list string) : HttpResponse :=
  let rel := match routing_params with [] => EmptyString | p :: _ => p end in
  match resolveSafely dir rel with
  | None => forbidden_response
  | Some full => newFileResponse full
  end.

(** ** Filenames of concatenations *)

Lemma split_from_app acc p q :
  split_from acc (p +:+ String SLASH q) = split_from acc p ++ filenames q.
Proof.
  revert acc; induction p as [|c p IH]; intros acc; cbn.
  - unfold flush. by destruct acc.
  - case_if; [|apply IH]. unfold flush. destruct acc; rewrite IH; done.
Qed.

Lemma filenames_app p q : filenames (p +:+ String SLASH q) = filenames p ++ filenames q.
Proof. apply split_from_app. Qed.

(** A filename: not empty and without separator. *)
Definition is_filename (f : string) : bool :=
  negb (String.eqb f EmptyString) && str_forallb (λ c, negb (Ascii.eqb c SLASH)) f.

Lemma split_from_name acc f q :
  str_forallb (λ c, negb (Ascii.eqb c SLASH)) f = true →
  split_from acc (f +:+ q) = split_from (acc +:+ f) q.
Proof.
  revert acc; induction f as [|c f IH]; intros acc Hf; cbn in *; [by rewrite app_str_nil|].
  bool_to_prop. rewrite H, IH by done. by rewrite app_str_assoc.
Qed.

Lemma filenames_name f : is_filename f = true → filenames f = [f].
Proof.
  unfold is_filename, filenames. intros H. bool_to_prop.
  rewrite <- (app_str_nil f) at 1. rewrite split_from_name by done. cbn.
  destruct f; [done|]. done.
Qed.

Lemma filenames_join fs : Forall (λ f, is_filename f = true) fs → filenames (join_path fs) = fs.
Proof.
  induction 1 as [|f fs Hf Hfs IH]; [done|]. destruct fs as [|g fs]; [by apply filenames_name|].
  change (join_path (f :: g :: fs)) with (f +:+ String SLASH (join_path (g :: fs))).
  by rewrite filenames_app, IH, filenames_name.
Qed.

Lemma filenames_render fs trailing :
  Forall (λ f, is_filename f = true) fs → filenames (render true fs trailing) = fs.
Proof.
  intros Hfs. destruct fs as [|f fs]; [done|]. unfold render.
  assert (Hj := filenames_join _ Hfs). set (j := join_path (f :: fs)) in *.
  cbn [String.append]. change (String SLASH (j +:+ ?t)) with (EmptyString +:+ String SLASH (j +:+ t)).
  rewrite filenames_app. cbn [filenames app]. destruct trailing.
  - rewrite filenames_app, Hj. cbn. by rewrite app_nil_r.
  - by rewrite app_str_nil, Hj.
Qed.

Lemma filenames_ok p : Forall (λ f, is_filename f = true) (filenames p).
Proof.
  unfold filenames.
  assert (Hgen : ∀ acc, str_forallb (λ c, negb (Ascii.eqb c SLASH)) acc = true →
    Forall (λ f, is_filename f = true) (split_from acc p)); [|by apply Hgen].
  induction p as [|c p IH]; intros acc Hacc; cbn.
  - unfold flush. destruct acc; constructor; [|done]. done.
  - case_if.
    + unfold flush. destruct acc; [by apply IH|]. constructor; [done|by apply IH].
    + apply IH. rewrite str_forallb_app, Hacc. cbn. by rewrite Heqb.
Qed.

(** ** Normalised filenames *)

(** A filename that names an entry of its directory: neither "." nor "..". *)
Definition plain (f : string) : Prop :=
  is_filename f = true ∧ f ≠ "." ∧ f ≠ "..".

Lemma norm_rooted_plain fs st sep :
  Forall (λ f, is_filename f = true) fs → Forall plain st →
  Forall plain (fst (fold_left (norm_step true) fs (st, sep))).
Proof.
  intros Hfs. revert st sep. induction Hfs as [|f fs Hf _ IH]; intros st sep Hst; [done|].
  cbn [fold_left norm_step].
  destruct (String.eqb_spec f "."); [by apply IH|].
  destruct (String.eqb_spec f "..").
  - destruct st as [|top st]; [by apply IH|]. inversion_clear Hst as [|? ? Htop Hst'].
    destruct (String.eqb_spec top ".."); [by destruct Htop as (_ & _ & ?)|]. by apply IH.
  - apply IH. constructor; done.
Qed.

Lemma norm_filenames_plain p :
  Forall plain (fst (norm_filenames true (filenames p))).
Proof.
  unfold norm_filenames. pose proof (norm_rooted_plain (filenames p) [] false (filenames_ok p)) as H.
  destruct (fold_left _ _ _) as [st sep]. cbn in *. apply Forall_rev. apply H. constructor.
Qed.

Lemma plain_filename fs : Forall plain fs → Forall (λ f, is_filename f = true) fs.
Proof. apply Forall_impl. by intros f (? & ?). Qed.

(** The filenames of the normal form of an absolute path. *)
Definition normal_filenames (p : string) : list string :=
  fst (norm_filenames true (filenames p)).

Lemma lexically_normal_filenames p :
  is_absolute p = true → filenames (lexically_normal p) = normal_filenames p.
Proof.
  intros Ha. destruct p as [|c p]; [done|]. unfold lexically_normal, normal_filenames. rewrite Ha.
  pose proof (plain_filename _ (norm_filenames_plain (String c p))) as Hp.
  destruct (norm_filenames true _) as [fs sep]. by apply filenames_render.
Qed.

Lemma strip_slashes_filenames s : filenames (strip_slashes s) = filenames s.
Proof.
  assert (Hs : ∃ t, s = strip_slashes s +:+ t ∧ str_forallb (λ c, Ascii.eqb c SLASH) t = true).
  { induction s as [|c s (t & Ht & Hall)]; [by exists EmptyString|]. cbn.
    destruct (strip_slashes s) as [|d r] eqn:E.
    - case_if; cbn in *.
      + exists (String c s). split; [done|]. cbn. rewrite Heqb. by rewrite Ht.
      + exists s. split; [done|]. by rewrite Ht.
    - exists t. split; [|done]. cbn. f_equal. exact Ht. }
  destruct Hs as (t & Ht & Hall). rewrite Ht at 2. clear Ht.
  generalize (strip_slashes s) as u. intros u. destruct t as [|c t]; [by rewrite app_str_nil|].
  cbn in Hall. bool_to_prop. apply Ascii.eqb_eq in H; subst c.
  rewrite filenames_app. replace (filenames t) with (@nil string); [by rewrite app_nil_r|].
  unfold filenames. induction t as [|c t IH]; [done|]. cbn in *. bool_to_prop.
  rewrite H. cbn. by apply IH.
Qed.

Lemma path_append_filenames p q :
  is_absolute q = false → filenames (path_append p q) = filenames p ++ filenames q.
Proof.
  intros Hq. unfold path_append. rewrite Hq. case_if; [|apply filenames_app].
  apply orb_true_iff in Heqb as [He|He].
  - apply String.eqb_eq in He; by subst.
  - assert (Hs : ∃ p', p = p' +:+ String SLASH EmptyString).
    { clear Hq. unfold ends_with_slash in He. induction p as [|c p IH]; [done|].
      destruct p as [|d p]; cbn in He.
      - apply Ascii.eqb_eq in He; subst. by exists EmptyString.
      - destruct IH as [p' Hp]; [done|]. exists (String c p'). cbn. by rewrite Hp. }
    destruct Hs as [p' ->]. rewrite app_str_assoc. cbn. rewrite !filenames_app.
    by rewrite <- app_assoc.
Qed.

Lemma path_append_absolute p q :
  is_absolute p = true → is_absolute q = false → is_absolute (path_append p q) = true.
Proof.
  intros Hp Hq. unfold path_append. rewrite Hq. destruct p; [done|]. by case_if.
Qed.

Lemma get_app p r : char_at (String.length p) (p +:+ r) = char_at 0 r.
Proof. unfold char_at. induction p; cbn; auto. Qed.

(** The filenames a request may reach stay below the mount directory. *)
Lemma resolveSafely_inv dir rel out :
  resolveSafely dir rel = Some out →
  has_nul rel = false ∧ is_absolute rel = false ∧
  out = lexically_normal (path_append dir rel) ∧
  ∃ r, out = strip_slashes (lexically_normal dir) +:+ String SLASH r.
Proof.
  unfold resolveSafely. destruct (has_nul rel); [done|]. destruct (is_absolute rel); [done|].
  case_if; [done|]. intros [= <-]. bool_to_prop. repeat split; [done..|].
  apply prefix_split in H1 as [r Hr]. rewrite Hr in H0 |- *. rewrite get_app in H0.
  destruct r as [|c r]; [done|]. cbn in H0. apply Ascii.eqb_eq in H0 as ->. by exists r.
Qed.

(** Containment: whatever path the request asks for, a path that
    [resolveSafely] lets through is absolute, contains no "." or ".." and
    consists of the filenames of the (normalised) mount directory followed by
    filenames below it. *)
Theorem resolveSafely_contained dir rel out :
  is_absolute dir = true →
  resolveSafely dir rel = Some out →
  is_absolute out = true ∧ Forall plain (filenames out) ∧
  ∃ below, filenames out = filenames (lexically_normal dir) ++ below.
Proof.
  intros Hdir Hres. apply resolveSafely_inv in Hres as (_ & Hrel & -> & r & Hr).
  pose proof (path_append_absolute _ _ Hdir Hrel) as Habs.
  split; [|split].
  - unfold lexically_normal. rewrite Habs. destruct (path_append dir rel); [done|].
    destruct (norm_filenames true _) as [[|f fs] sep]; [done|]. by destruct (rev _).
  - rewrite lexically_normal_filenames by done. apply norm_filenames_plain.
  - exists (filenames r). by rewrite Hr, filenames_app, strip_slashes_filenames.
Qed.

Lemma resolveSafely_contained_witness :
  resolveSafely "/srv/www" "css/../js/app.js" = Some "/srv/www/js/app.js" ∧
  is_absolute "/srv/www/js/app.js" = true ∧
  Forall plain (filenames "/srv/www/js/app.js") ∧
  ∃ below, filenames "/srv/www/js/app.js" = filenames (lexically_normal "/srv/www") ++ below.
Proof.
  split; [vm_compute; reflexivity|].
  apply (resolveSafely_contained "/srv/www" "css/../js/app.js"); vm_compute; reflexivity.
Defined.

(** ** Requests that name a file below the mount are served *)

Lemma norm_plain_app rooted fs rs st sep :
  fold_left (norm_step rooted) fs ([], false) = (st, sep) → Forall plain rs →
  norm_filenames rooted (fs ++ rs) =
    (rev st ++ rs, match rs with [] => sep | _ => false end).
Proof.
  intros Hfs Hrs. unfold norm_filenames. rewrite fold_left_app, Hfs.
  assert (Hgen : ∀ st sep, fold_left (norm_step rooted) rs (st, sep) =
                   (rev rs ++ st, match rs with [] => sep | _ => false end)).
  { clear -Hrs. induction Hrs as [|f rs (_ & Hd & Hdd) _ IH]; intros st sep; [done|].
    cbn [fold_left norm_step].
    apply String.eqb_neq in Hd, Hdd. rewrite Hd, Hdd, IH. cbn.
    rewrite <- app_assoc. by destruct rs. }
  rewrite Hgen, rev_app_distr, rev_involutive. done.
Qed.

Lemma join_app fs rs :
  fs ≠ [] → rs ≠ [] → join_path (fs ++ rs) = join_path fs +:+ String SLASH (join_path rs).
Proof.
  intros Hfs Hrs. induction fs as [|f fs IH]; [done|].
  destruct fs as [|g fs]; [by destruct rs|].
  change (join_path ((f :: g :: fs) ++ rs)) with (f +:+ String SLASH (join_path ((g :: fs) ++ rs))).
  rewrite IH by done. change (join_path (f :: g :: fs)) with (f +:+ String SLASH (join_path (g :: fs))).
  by rewrite app_str_assoc.
Qed.

Lemma strip_slashes_app s t :
  strip_slashes t ≠ EmptyString → strip_slashes (s +:+ t) = s +:+ strip_slashes t.
Proof.
  intros Ht. induction s as [|c s IH]; [done|]. cbn. rewrite IH.
  destruct (s +:+ strip_slashes t) eqn:E; [|done]. destruct s; [by destruct (strip_slashes t)|done].
Qed.

Lemma strip_slashes_name f t :
  is_filename f = true → t = EmptyString ∨ t = String SLASH EmptyString → strip_slashes (f +:+ t) = f.
Proof.
  unfold is_filename. intros Hf Ht. bool_to_prop. clear H. rename H0 into Hf.
  induction f as [|c f IH]; [by destruct Ht; subst|].
  cbn in Hf. bool_to_prop. cbn. rewrite IH by done. destruct f; [|done].
  by rewrite H.
Qed.

Lemma strip_slashes_join fs t :
  Forall (λ f, is_filename f = true) fs → fs ≠ [] →
  t = EmptyString ∨ t = String SLASH EmptyString →
  strip_slashes (join_path fs +:+ t) = join_path fs.
Proof.
  intros Hfs Hne Ht. induction Hfs as [|f fs Hf Hfs IH]; [done|].
  destruct fs as [|g fs]; [by apply strip_slashes_name|].
  change (join_path (f :: g :: fs)) with (f +:+ (String SLASH EmptyString +:+ join_path (g :: fs))).
  assert (Hj : join_path (g :: fs) ≠ EmptyString).
  { inversion Hfs; subst. destruct g; [done|]. by destruct fs. }
  rewrite !app_str_assoc, <- (app_str_assoc f), strip_slashes_app; rewrite IH by done; [|done].
  by rewrite app_str_assoc.
Qed.

Lemma strip_slashes_render fs trailing :
  Forall (λ f, is_filename f = true) fs →
  strip_slashes (render true fs trailing) =
    match fs with [] => EmptyString | _ => String SLASH (join_path fs) end.
Proof.
  intros Hfs. destruct fs as [|f fs]; [done|]. unfold render.
  rewrite strip_slashes_app; rewrite strip_slashes_join; try done; try (destruct trailing; tauto).
  inversion Hfs; subst. destruct f; [done|]. by destruct fs.
Qed.

Lemma lexically_normal_absolute p fs sep :
  is_absolute p = true → norm_filenames true (filenames p) = (fs, sep) →
  lexically_normal p = render true fs (sep || ends_with_slash p).
Proof.
  intros Ha Hn. destruct p as [|c p]; [done|]. unfold lexically_normal. rewrite Ha, Hn.
  pose proof (norm_filenames_plain (String c p)) as Hp. rewrite Hn in Hp. cbn [fst] in Hp.
  destruct (rev fs) as [|f rs] eqn:E.
  - apply (f_equal (@rev string)) in E. rewrite rev_involutive in E. by subst.
  - assert (Hf : plain f).
    { rewrite Forall_forall in Hp. apply Hp. apply in_rev. rewrite E. by left. }
    destruct Hf as (_ & _ & Hf). apply String.eqb_neq in Hf. by rewrite Hf.
Qed.

Lemma ends_with_slash_app p q :
  ends_with_slash (p +:+ String SLASH q) = match q with EmptyString => true | _ => ends_with_slash q end.
Proof.
  unfold ends_with_slash. replace (str_last (p +:+ String SLASH q)) with (str_last (String SLASH q)).
  { by destruct q. }
  induction p as [|c p IH]; [done|]. rewrite IH. cbn. by destruct p.
Qed.

Lemma relative_no_filenames rel :
  is_absolute rel = false → filenames rel = [] → rel = EmptyString.
Proof.
  destruct rel as [|c rel]; [done|]. cbn. intros Hc. rewrite Hc.
  assert (Hne : ∀ acc q, acc ≠ EmptyString → split_from acc q ≠ []).
  { intros acc q; revert acc. induction q as [|d q IH]; intros acc Hacc; cbn.
    - by destruct acc.
    - case_if; [by destruct acc|]. apply IH. by destruct acc. }
  intros H. by apply Hne in H.
Qed.

Lemma path_append_trailing dir :
  is_absolute dir = true → ends_with_slash (path_append dir EmptyString) = true.
Proof.
  intros Hd. unfold path_append. cbn [is_absolute]. case_if; [|apply ends_with_slash_app].
  rewrite app_str_nil. apply orb_true_iff in Heqb as [He|He]; [|done].
  apply String.eqb_eq in He; by subst.
Qed.

Lemma prefix_app p q : String.prefix p (p +:+ q) = true.
Proof. induction p as [|c p IH]; [by destruct q|]. cbn. by destruct (ascii_dec c c). Qed.

(** The path tests of [resolveSafely] accept exactly the extensions of the
    directory by a separator. *)
Lemma resolveSafely_intro dir rel r :
  has_nul rel = false → is_absolute rel = false →
  lexically_normal (path_append dir rel) = strip_slashes (lexically_normal dir) +:+ String SLASH r →
  resolveSafely dir rel = Some (lexically_normal (path_append dir rel)).
Proof.
  intros Hn Ha Hr. unfold resolveSafely. rewrite Hn, Ha, Hr, prefix_app, get_app, length_app_str. cbn.
  replace (_ <=? _)%nat with false by (symmetry; apply Nat.leb_gt; lia). done.
Qed.

(** Completeness: a relative path without NUL whose filenames are plain
    (no "." or "..") is accepted, and resolves to the normalised mount
    directory followed by exactly these filenames. *)
Theorem resolveSafely_accepts dir rel :
  is_absolute dir = true → is_absolute rel = false → has_nul rel = false →
  Forall plain (filenames rel) →
  ∃ out, resolveSafely dir rel = Some out ∧
         filenames out = filenames (lexically_normal dir) ++ filenames rel.
Proof.
  intros Hdir Hrel Hnul Hpl.
  pose proof (path_append_absolute _ _ Hdir Hrel) as Habs.
  pose proof (path_append_filenames dir _ Hrel) as Hfn.
  destruct (fold_left (norm_step true) (filenames dir) ([], false)) as [st sep] eqn:Hst.
  assert (Hd : norm_filenames true (filenames dir) = (rev st, sep)) by (unfold norm_filenames; by rewrite Hst).
  pose proof (norm_plain_app _ _ _ _ _ Hst Hpl) as Hn. rewrite <- Hfn in Hn.
  pose proof (plain_filename _ (norm_filenames_plain dir)) as Hdp. rewrite Hd in Hdp. cbn [fst] in Hdp.
  exists (lexically_normal (path_append dir rel)). split.
  - pose proof (lexically_normal_absolute _ _ _ Habs Hn) as Hnorm.
    assert (Hr : ∃ r, render true (rev st ++ filenames rel)
                        (match filenames rel with [] => sep | _ => false end || ends_with_slash (path_append dir rel))
                      = strip_slashes (lexically_normal dir) +:+ String SLASH r).
    { rewrite (lexically_normal_absolute _ _ _ Hdir Hd), strip_slashes_render by done.
      destruct (filenames rel) as [|f fs] eqn:Ef.
      - apply relative_no_filenames in Ef; [subst rel|done].
        rewrite path_append_trailing, orb_true_r, app_nil_r by done.
        destruct (rev st) as [|g gs]; [by exists EmptyString|]. cbn [render].
        exists EmptyString. done.
      - destruct (rev st) as [|g gs]; [by eexists|]. unfold render. cbn [app].
        change (g :: gs ++ f :: fs) with ((g :: gs) ++ f :: fs).
        rewrite join_app by done. eexists. cbn. by rewrite !app_str_assoc. }
    destruct Hr as [r Hr]. apply (resolveSafely_intro _ _ r); congruence.
  - rewrite !lexically_normal_filenames by done. unfold normal_filenames. by rewrite Hn, Hd.
Qed.

Lemma resolveSafely_accepts_witness :
  ∃ out, resolveSafely "/srv/../www/" "css/.hidden/a..b" = Some out ∧
         filenames out = filenames (lexically_normal "/srv/../www/") ++ filenames "css/.hidden/a..b".
Proof.
  apply (resolveSafely_accepts "/srv/../www/" "css/.hidden/a..b"); try (vm_compute; reflexivity).
  repeat constructor; vm_compute; congruence.
Defined.

(** C28. The handler of a static mount answers every request, either with the
    plain-text 403 or with the file response of a path inside the mount
    directory; absolute paths and paths with a NUL always get the 403. *)
Theorem static_handler_contained newFileResponse dir params :
  is_absolute dir = true →
  let rel := match params with [] => EmptyString | p :: _ => p end in
  let resp := static_handler newFileResponse dir params in
  (resolveSafely dir rel = None ∧ resp = forbidden_response ∨
   ∃ full below, resp = newFileResponse full ∧ is_absolute full = true ∧
     has_nul rel = false ∧ is_absolute rel = false ∧
     filenames full = filenames (lexically_normal dir) ++ below ∧ Forall plain below).
Proof.
  intros Hdir rel resp. unfold resp, static_handler. fold rel.
  destruct (resolveSafely dir rel) as [full|] eqn:E; [right|by left].
  pose proof (resolveSafely_inv _ _ _ E) as (Hn & Ha & Hout & r & Hr).
  exists full, (filenames r).
  assert (Hf : filenames full = filenames (lexically_normal dir) ++ filenames r)
    by (by rewrite Hr, filenames_app, strip_slashes_filenames).
  assert (Hp : Forall plain (filenames full)).
  { rewrite Hout, lexically_normal_filenames by (by apply path_append_absolute).
    apply norm_filenames_plain. }
  split; [done|]. repeat split; try done.
  - rewrite Hout. pose proof (path_append_absolute _ _ Hdir Ha) as Habs.
    destruct (norm_filenames true (filenames (path_append dir rel))) as [fs sep] eqn:Hn'.
    rewrite (lexically_normal_absolute _ _ _ Habs Hn'). by destruct fs.
  - rewrite Hf in Hp. by apply Forall_app in Hp as [_ Hp].
Qed.

Lemma static_handler_contained_witness :
  resolveSafely "/srv" "../etc/passwd" = None ∧
  static_handler (λ _, newHttpResponse) "/srv" ["../etc/passwd"] = forbidden_response.
Proof.
  destruct (static_handler_contained (λ _, newHttpResponse) "/srv" ["../etc/passwd"] eq_refl)
    as [H|(full & below & H & _ & _ & _ & _ & _)].
  - exact H.
  - split; [vm_compute; reflexivity|]. vm_compute in H. discriminate H.
Defined.

(** ** The mount's regex matches the mount literally *)

(** The string a regex denotes when it consists of ordinary characters and
    escaped metacharacters only. *)
Fixpoint literal_of_regex (r : string) : option string :=
  match r with
  | EmptyString => Some EmptyString
  | String c r' =>
      if Ascii.eqb c (chr 92) then
        match r' with
        | String d r'' => if regex_special d then String d <$> literal_of_regex r'' else None
        | EmptyString => None
        end
      else if regex_special c then None
      else String c <$> literal_of_regex r'
  end.

(** [escapeRegex s] is a regex without operators that denotes exactly
    [s], so a mount prefix such as "/v1.0" matches only itself. *)
Theorem escapeRegex_literal s : literal_of_regex (escapeRegex s) = Some s.
Proof.
  induction s as [|c s IH]; [done|]. cbn [escapeRegex].
  destruct (regex_special c) eqn:E; cbn [literal_of_regex].
  - by rewrite Ascii.eqb_refl, E, IH.
  - destruct (Ascii.eqb_spec c (chr 92)) as [->|]; [by vm_compute in E|].
    by rewrite E, IH.
Qed.
