(* ===== verification/ResponseStream.v ===== *)
(** * The chunked response stream
      (src/drogon/lib/inc/drogon/HttpResponse.h: ResponseStream;
       src/drogon/trantor/net/inner/TcpConnectionImpl.cc: AsyncStreamImpl)

    Streaming routes push chunks through [drogon::ResponseStream], which
    frames them for the chunked transfer coding.  The bytes a connection's
    stream node accepts are kept as one string. *)

From stdpp Require Import base gmap strings list numbers.
From Stdlib Require Import ZArith Lia Ascii HexadecimalString HexadecimalN.
From S2P Require Import Prelude CDouble.

(** ** AsyncStreamImpl

    [node_data] is what [sendAsyncDataInLoop] has appended for this stream,
    [node_done] whether the closing callback ran. *)
Record AsyncStream := { node_data : string; node_done : bool }.

(** [connected]: the weak pointer locks and the connection's status is
    Connected. *)
Definition async_send (connected : bool) (data : string) (a : AsyncStream) : bool * AsyncStream :=
  if connected then (true, {| node_data := node_data a +:+ data; node_done := node_done a |})
  else (false, a).

Definition async_close (connected : bool) (a : AsyncStream) : AsyncStream :=
  if connected then {| node_data := node_data a; node_done := true |} else a.

(** ** ResponseStream *)

Definition CR : ascii := chr 13.
Definition LF : ascii := chr 10.
Definition CRLF : string := String CR (String LF EmptyString).

(** [oss << std::hex << data.length()] *)
Definition hex_length (data : string) : string :=
  NilEmpty.string_of_uint (N.to_hex_uint (N.of_nat (String.length data))).

Definition chunk_frame (data : string) : string := hex_length data +:+ CRLF +:+ data +:+ CRLF.

Definition closeStream : string := "0" +:+ CRLF +:+ CRLF.

(** [rs_open]: [asyncStream_] has not been reset. *)
Record ResponseStream := { rs_open : bool; rs_node : AsyncStream }.

Definition newResponseStream : ResponseStream :=
  {| rs_open := true; rs_node := {| node_data := EmptyString; node_done := false |} |}.

Definition stream_send (connected : bool) (data : string) (s : ResponseStream) : bool * ResponseStream :=
  if rs_open s then
    let '(ok, a) := async_send connected (chunk_frame data) (rs_node s) in
    (ok, {| rs_open := true; rs_node := a |})
  else (false, s).

Definition stream_close (connected : bool) (s : ResponseStream) : ResponseStream :=
  if rs_open s then
    let '(_, a) := async_send connected closeStream (rs_node s) in
    {| rs_open := false; rs_node := async_close connected a |}
  else s.

(** ** What a client reads: a decoder of the chunked coding *)

(** The longest prefix of hexadecimal digits. *)
Definition is_hex (c : ascii) : bool :=
  match uint_of_char c (Some Hexadecimal.Nil) with Some _ => true | None => false end.
Fixpoint span_hex (s : string) : string * string :=
  match s with
  | String c s' => if is_hex c then let '(h, r) := span_hex s' in (String c h, r) else (EmptyString, s)
  | EmptyString => (EmptyString, EmptyString)
  end.

Definition eat_crlf (s : string) : option string :=
  match s with
  | String c (String d r) => if Ascii.eqb c CR && Ascii.eqb d LF then Some r else None
  | _ => None
  end.

(** The payload and the bytes after the terminating chunk; [None] when the
    coding is malformed or incomplete. *)
Fixpoint decode_chunked (fuel : nat) (s : string) : option (string * string) :=
  match fuel with
  | O => None
  | S f =>
      let '(h, r) := span_hex s in
      d ← NilZero.uint_of_string h;
      r ← eat_crlf r;
      let n := N.to_nat (N.of_hex_uint d) in
      if (String.length r <? n)%nat then None else
      rest ← eat_crlf (str_drop n r);
      match n with
      | O => Some (EmptyString, rest)
      | _ => '(body, tl) ← decode_chunked f rest; Some (str_take n r +:+ body, tl)
      end
  end.

(** ** Lemmas *)

Lemma string_of_uint_hex d : str_forallb is_hex (NilEmpty.string_of_uint d) = true.
Proof. induction d; cbn; try done; by rewrite IHd. Qed.

Lemma span_hex_app h r :
  str_forallb is_hex h = true → span_hex (h +:+ String CR r) = (h, String CR r).
Proof.
  induction h as [|c h IH]; intros Hh; [done|]. cbn in Hh. bool_to_prop. cbn [span_hex String.append].
  rewrite H. by rewrite IH.
Qed.

Lemma to_hex_uint_nonnil n : N.to_hex_uint n ≠ Hexadecimal.Nil.
Proof.
  intros H. apply (f_equal N.of_hex_uint) in H as Hn. rewrite HexadecimalN.Unsigned.of_to in Hn.
  cbn in Hn. by subst n.
Qed.

Lemma hex_length_parse data :
  NilZero.uint_of_string (hex_length data) = Some (N.to_hex_uint (N.of_nat (String.length data))).
Proof.
  unfold hex_length. set (d := N.to_hex_uint _). pose proof (to_hex_uint_nonnil (N.of_nat (String.length data))) as Hd.
  fold d in Hd.
  replace (NilEmpty.string_of_uint d) with (NilZero.string_of_uint d) by (by destruct d).
  by apply NilZero.usu.
Qed.

Lemma str_take_app n s t : n = String.length s → str_take n (s +:+ t) = s.
Proof. intros ->. induction s; cbn; [by destruct t|]. by rewrite IHs. Qed.

(** One frame in front of the rest of the wire. *)
Lemma decode_frame f data rest :
  decode_chunked (S f) (chunk_frame data +:+ rest) =
    match data with
    | EmptyString => Some (EmptyString, rest)
    | _ => '(body, tl) ← decode_chunked f rest; Some (data +:+ body, tl)
    end.
Proof.
  unfold chunk_frame. rewrite !app_str_assoc. cbn [decode_chunked].
  change (CRLF +:+ ?t) with (String CR (String LF t)).
  rewrite span_hex_app by apply string_of_uint_hex. rewrite hex_length_parse. cbn [mbind option_bind].
  change (eat_crlf (String CR (String LF ?t))) with (Some t). cbn [mbind option_bind].
  rewrite HexadecimalN.Unsigned.of_to, Nat2N.id.
  rewrite length_app_str.
  replace (_ <? _)%nat with false by (symmetry; apply Nat.ltb_ge; lia).
  rewrite str_drop_app by done. change (eat_crlf (String CR (String LF rest))) with (Some rest).
  cbn [mbind option_bind].
  rewrite str_take_app by done. by destruct data.
Qed.

Fixpoint send_all (chunks : list string) (s : ResponseStream) : ResponseStream :=
  match chunks with [] => s | c :: cs => send_all cs (snd (stream_send true c s)) end.

Fixpoint concat_str (l : list string) : string :=
  match l with [] => EmptyString | s :: l' => s +:+ concat_str l' end.

Lemma send_all_data chunks s :
  rs_open s = true →
  rs_open (send_all chunks s) = true ∧
  node_data (rs_node (send_all chunks s)) =
    node_data (rs_node s) +:+ concat_str (map chunk_frame chunks).
Proof.
  revert s. induction chunks as [|c cs IH]; intros s Hs; cbn [send_all].
  - split; [done|]. cbn. by rewrite app_str_nil.
  - destruct (IH (snd (stream_send true c s))) as [H1 H2].
    + unfold stream_send. by rewrite Hs.
    + split; [done|]. rewrite H2. unfold stream_send. rewrite Hs. cbn. by rewrite app_str_assoc.
Qed.

Lemma decode_frames chunks rest fuel :
  Forall (λ c, c ≠ EmptyString) chunks → (length chunks < fuel)%nat →
  decode_chunked fuel (concat_str (map chunk_frame chunks) +:+ closeStream +:+ rest) =
    Some (concat_str chunks, rest).
Proof.
  intros Hne. revert fuel. induction Hne as [|c cs Hc _ IH]; intros fuel Hf;
    (destruct fuel as [|f]; [cbn in Hf; lia|]).
  - change (concat_str (map chunk_frame []) +:+ closeStream +:+ rest)
      with (chunk_frame EmptyString +:+ rest).
    by rewrite decode_frame.
  - cbn [map concat_str]. rewrite app_str_assoc, decode_frame, IH by (cbn in Hf; lia).
    by destruct c.
Qed.

Lemma concat_str_app l1 l2 : concat_str (l1 ++ l2) = concat_str l1 +:+ concat_str l2.
Proof. induction l1 as [|x l1 IH]; cbn; [done|]. by rewrite IH, app_str_assoc. Qed.

(** The frames of a sequence of chunks. *)
Definition frames (l : list string) : string := concat_str (map chunk_frame l).
#[global] Arguments frames : simpl never.

Lemma frames_app l1 l2 : frames (l1 ++ l2) = frames l1 +:+ frames l2.
Proof. unfold frames. by rewrite map_app, concat_str_app. Qed.

Lemma frames_one x : frames [x] = chunk_frame x.
Proof. unfold frames. cbn. by rewrite app_str_nil. Qed.

(** Round trip of the chunked coding: a client that decodes what a stream
    has put on the connection after any sequence of non-empty chunks and the
    closing call reads exactly the concatenated chunks, with no byte left over;
    closing again changes nothing. *)
Theorem chunked_roundtrip chunks :
  Forall (λ c, c ≠ EmptyString) chunks →
  let s := stream_close true (send_all chunks newResponseStream) in
  decode_chunked (S (length chunks)) (node_data (rs_node s)) = Some (concat_str chunks, EmptyString) ∧
  node_done (rs_node s) = true ∧ stream_close true s = s.
Proof.
  intros Hne s. destruct (send_all_data chunks newResponseStream eq_refl) as [Ho Hd].
  unfold s, stream_close. rewrite Ho. cbn [async_send async_close rs_node rs_open node_data node_done].
  split; [|done]. rewrite Hd. cbn [newResponseStream rs_node node_data String.append].
  rewrite <- (app_str_nil closeStream). apply decode_frames; [done|lia].
Qed.

Lemma chunked_roundtrip_witness :
  let s := stream_close true (send_all ["data: hello"; "!"] newResponseStream) in
  decode_chunked 3 (node_data (rs_node s)) = Some ("data: hello!", EmptyString) ∧
  node_done (rs_node s) = true ∧ stream_close true s = s.
Proof.
  apply (chunked_roundtrip ["data: hello"; "!"]). repeat constructor; discriminate.
Defined.

(** A chunk of length zero is the terminator itself: the client sees the end
    of the body there, and what follows is left over. *)
Lemma empty_chunk_terminates before after_ fuel :
  Forall (λ c, c ≠ EmptyString) before → (length before < fuel)%nat →
  let s := send_all (before ++ EmptyString :: after_) newResponseStream in
  decode_chunked fuel (node_data (rs_node s)) =
    Some (concat_str before, concat_str (map chunk_frame after_)).
Proof.
  intros Hb Hf s. unfold s.
  destruct (send_all_data (before ++ EmptyString :: after_) newResponseStream eq_refl) as [_ Hd].
  rewrite Hd. cbn [newResponseStream rs_node node_data String.append].
  rewrite map_app, concat_str_app. cbn [map concat_str]. change (chunk_frame EmptyString) with closeStream.
  by apply decode_frames.
Qed.
