(* ===== verification/StreamSession.v ===== *)
(** * Streaming sessions of R handlers (src/stream_session.cpp)

    A session lives on the heap and is shared by the table [g_streams], by the
    response's async-stream callback and by the tasks queued on the Drogon
    loop.  [pumpStreamMain] runs on the main R thread from later's queue; the
    stream is delivered, chunks are written and disconnects are noticed on the
    loop thread.  The transition system at the end interleaves the two threads.
    Within one pump the main thread reads [stream] and [cancelled] once each
    and afterwards only appends to the loop's queue, so a pump is one step. *)

From stdpp Require Import base gmap strings list numbers.
From Stdlib Require Import ZArith Lia Ascii.
From S2P Require Import Prelude CDouble RValue HttpResponse ResponseStream.

(** ** State *)

Inductive loop_task := SendTask (data : string) | CloseTask.

(** [ss_next_chunk] and [ss_state] are [None] when the C++ pointer is null.
    [ss_tasks] are the tasks queued on the session's loop, [ss_connected] the
    state of its TCP connection.  The last three fields record history: the
    [cancelled] arguments the generator was called with, the chunks handed to
    the loop, and the stream node left behind when the stream was reset. *)
Record StreamSession := {
  ss_id : Z;
  ss_next_chunk : option SEXP;
  ss_state : option SEXP;
  ss_stream : option ResponseStream;
  ss_loop : bool;
  ss_closing : bool;
  ss_cancelled : bool;
  ss_min_interval : double;
  ss_tasks : list loop_task;
  ss_connected : bool;
  ss_calls : list bool;
  ss_sent : list string;
  ss_final : option AsyncStream;
}.

Definition set_sexps (nc st : option SEXP) (s : StreamSession) : StreamSession :=
  {| ss_id := ss_id s; ss_next_chunk := nc; ss_state := st; ss_stream := ss_stream s;
     ss_loop := ss_loop s; ss_closing := ss_closing s; ss_cancelled := ss_cancelled s;
     ss_min_interval := ss_min_interval s; ss_tasks := ss_tasks s; ss_connected := ss_connected s;
     ss_calls := ss_calls s; ss_sent := ss_sent s; ss_final := ss_final s |}.
Definition set_stream (st : option ResponseStream) (lp : bool) (fin : option AsyncStream)
    (s : StreamSession) : StreamSession :=
  {| ss_id := ss_id s; ss_next_chunk := ss_next_chunk s; ss_state := ss_state s; ss_stream := st;
     ss_loop := lp; ss_closing := ss_closing s; ss_cancelled := ss_cancelled s;
     ss_min_interval := ss_min_interval s; ss_tasks := ss_tasks s; ss_connected := ss_connected s;
     ss_calls := ss_calls s; ss_sent := ss_sent s; ss_final := fin |}.
Definition set_closing (s : StreamSession) : StreamSession :=
  {| ss_id := ss_id s; ss_next_chunk := ss_next_chunk s; ss_state := ss_state s;
     ss_stream := ss_stream s; ss_loop := ss_loop s; ss_closing := true;
     ss_cancelled := ss_cancelled s; ss_min_interval := ss_min_interval s; ss_tasks := ss_tasks s;
     ss_connected := ss_connected s; ss_calls := ss_calls s; ss_sent := ss_sent s;
     ss_final := ss_final s |}.
Definition set_conn (connected cancelled : bool) (s : StreamSession) : StreamSession :=
  {| ss_id := ss_id s; ss_next_chunk := ss_next_chunk s; ss_state := ss_state s;
     ss_stream := ss_stream s; ss_loop := ss_loop s; ss_closing := ss_closing s;
     ss_cancelled := cancelled; ss_min_interval := ss_min_interval s; ss_tasks := ss_tasks s;
     ss_connected := connected; ss_calls := ss_calls s; ss_sent := ss_sent s;
     ss_final := ss_final s |}.
Definition set_tasks (ts : list loop_task) (sent : list string) (s : StreamSession) : StreamSession :=
  {| ss_id := ss_id s; ss_next_chunk := ss_next_chunk s; ss_state := ss_state s;
     ss_stream := ss_stream s; ss_loop := ss_loop s; ss_closing := ss_closing s;
     ss_cancelled := ss_cancelled s; ss_min_interval := ss_min_interval s; ss_tasks := ts;
     ss_connected := ss_connected s; ss_calls := ss_calls s; ss_sent := sent;
     ss_final := ss_final s |}.
Definition log_call (b : bool) (s : StreamSession) : StreamSession :=
  {| ss_id := ss_id s; ss_next_chunk := ss_next_chunk s; ss_state := ss_state s;
     ss_stream := ss_stream s; ss_loop := ss_loop s; ss_closing := ss_closing s;
     ss_cancelled := ss_cancelled s; ss_min_interval := ss_min_interval s; ss_tasks := ss_tasks s;
     ss_connected := ss_connected s; ss_calls := ss_calls s ++ [b]; ss_sent := ss_sent s;
     ss_final := ss_final s |}.

(** A [shared_ptr<StreamSession>] is an index into [heap]. *)
Abbreviation sref := nat.

Record StreamWorld := {
  heap : list StreamSession;
  g_streams : gmap Z sref;
  g_nextStreamId : Z;
  g_later : bool;                        (** [g_later != nullptr] *)
  later_q : list (Z * double);           (** pumps waiting in later's queue *)
  precious : list SEXP;
  responded : list (positive * HttpResponse);   (** calls of [respond] *)
}.

Definition set_heap (h : list StreamSession) (w : StreamWorld) : StreamWorld :=
  {| heap := h; g_streams := g_streams w; g_nextStreamId := g_nextStreamId w; g_later := g_later w;
     later_q := later_q w; precious := precious w; responded := responded w |}.
Definition set_precious (p : list SEXP) (w : StreamWorld) : StreamWorld :=
  {| heap := heap w; g_streams := g_streams w; g_nextStreamId := g_nextStreamId w;
     g_later := g_later w; later_q := later_q w; precious := p; responded := responded w |}.
Definition set_table (t : gmap Z sref) (w : StreamWorld) : StreamWorld :=
  {| heap := heap w; g_streams := t; g_nextStreamId := g_nextStreamId w; g_later := g_later w;
     later_q := later_q w; precious := precious w; responded := responded w |}.
Definition set_later (q : list (Z * double)) (w : StreamWorld) : StreamWorld :=
  {| heap := heap w; g_streams := g_streams w; g_nextStreamId := g_nextStreamId w;
     g_later := g_later w; later_q := q; precious := precious w; responded := responded w |}.
Definition set_responded (l : list (positive * HttpResponse)) (w : StreamWorld) : StreamWorld :=
  {| heap := heap w; g_streams := g_streams w; g_nextStreamId := g_nextStreamId w;
     g_later := g_later w; later_q := later_q w; precious := precious w; responded := l |}.

Definition with_session (r : sref) (f : StreamSession → StreamSession) (w : StreamWorld) : StreamWorld :=
  set_heap (alter f r (heap w)) w.

(** ** Operations *)

Definition findSession (id : Z) (w : StreamWorld) : option sref := g_streams w !! id.

Definition eraseSession (id : Z) (w : StreamWorld) : StreamWorld :=
  set_table (delete id (g_streams w)) w.

Definition release_opt (x : option SEXP) (p : list SEXP) : list SEXP :=
  match x with Some x => R_ReleaseObject x p | None => p end.

Definition releaseSEXPs (r : sref) (w : StreamWorld) : StreamWorld :=
  match heap w !! r with
  | Some s =>
      with_session r (set_sexps None None)
        (set_precious (release_opt (ss_state s) (release_opt (ss_next_chunk s) (precious w))) w)
  | None => w
  end.

Definition scheduleNextPump (id : Z) (w : StreamWorld) : StreamWorld :=
  if negb (g_later w) then w else
  let secs := match findSession id w ≫= λ r, heap w !! r with
              | Some s => ss_min_interval s
              | None => d_zero
              end in
  set_later (later_q w ++ [(id, secs)]) w.

(** [raw->loop->queueInLoop(t)]; [None] when [loop] is null. *)
Definition queueInLoop (r : sref) (t : loop_task) (sent : list string) (w : StreamWorld) : option StreamWorld :=
  match heap w !! r with
  | Some s => if ss_loop s
              then Some (with_session r (set_tasks (ss_tasks s ++ [t]) (ss_sent s ++ sent)) w)
              else None
  | None => None
  end.

Definition sendChunkInLoop (r : sref) (data : string) (w : StreamWorld) : option StreamWorld :=
  queueInLoop r (SendTask data) [data] w.

Definition closeStreamFromMain (r : sref) (w : StreamWorld) : option StreamWorld :=
  match heap w !! r with
  | Some s =>
      w ← queueInLoop r CloseTask [] (with_session r set_closing w);
      Some (eraseSession (ss_id s) (releaseSEXPs r w))
  | None => None
  end.

(** A task running on the loop. *)
Definition run_task (t : loop_task) (s : StreamSession) : StreamSession :=
  match ss_stream s with
  | None => s
  | Some rs =>
      match t with
      | SendTask data =>
          let '(ok, rs') := stream_send (ss_connected s) data rs in
          let s' := set_stream (Some rs') (ss_loop s) (ss_final s) s in
          if ok then s' else set_conn (ss_connected s) true s'
      | CloseTask =>
          set_stream None (ss_loop s) (Some (rs_node (stream_close (ss_connected s) rs))) s
      end
  end.

(** [done = (LOGICAL(s_done)[0] == 1)] *)
Definition read_done (x : SEXP) : bool :=
  match x with LGLSXP (z :: _) _ => z =? 1 | _ => false end.
Definition read_chunk (x : SEXP) : string :=
  match x with STRSXP (c :: _) _ => CHAR c | _ => EmptyString end.

(** [R_PreserveObject(s_state); old = sess->state; ...; R_ReleaseObject(old)] *)
Definition update_state (r : sref) (s_state : SEXP) (w : StreamWorld) : StreamWorld :=
  if is_nil s_state then w else
  match heap w !! r with
  | Some s =>
      with_session r (set_sexps (ss_next_chunk s) (Some s_state))
        (set_precious (release_opt (ss_state s) (R_PreserveObject s_state (precious w))) w)
  | None => w
  end.

(** The pump.  [eval next_chunk state cancelled] is [R_tryEval] of the call,
    [None] when it raised an error; a null [SEXP] is [None]. *)
Definition pumpStreamMain (eval : option SEXP → option SEXP → bool → option SEXP) (id : Z)
    (w : StreamWorld) : option StreamWorld :=
  match findSession id w with
  | None => Some w
  | Some r =>
      match heap w !! r with
      | None => None
      | Some s =>
          if ss_closing s then Some w else
          match ss_stream s with
          | None => Some (scheduleNextPump id w)
          | Some _ =>
              let was_cancelled := ss_cancelled s in
              let w := with_session r (log_call was_cancelled) w in
              match eval (ss_next_chunk s) (ss_state s) was_cancelled with
              | Some (VECSXP v a) =>
                  let res := VECSXP v a in
                  let w := update_state r (namedField res "state") w in
                  let done := read_done (namedField res "done") in
                  let chunk := read_chunk (namedField res "chunk") in
                  if was_cancelled then closeStreamFromMain r w else
                  w ← (if String.eqb chunk EmptyString then Some w else sendChunkInLoop r chunk w);
                  if done then closeStreamFromMain r w else Some (scheduleNextPump id w)
              | _ => closeStreamFromMain r w
              end
          end
      end
  end.

Record StreamHeader := { h_name : string; h_value : string }.

Definition stream_header_step (resp : HttpResponse) (h : StreamHeader) : HttpResponse :=
  if strcaseeq (h_name h) "Content-Type" then setContentTypeString (h_value h) resp
  else addHeader (h_name h) (h_value h) resp.

Definition stream_response (content_type : string) (headers : list StreamHeader) : HttpResponse :=
  fold_left stream_header_step headers
    (setContentTypeString content_type (setStatusCode 200 newAsyncStreamResponse)).

(** [conn_alive]: whether [connection.lock()] succeeds. *)
Definition startStreamSession (respond : positive) (next_chunk state : SEXP) (content_type : string)
    (headers : list StreamHeader) (conn_alive : bool) (min_interval : double) (w : StreamWorld) : StreamWorld :=
  let id := g_nextStreamId w in
  let sess := {| ss_id := id; ss_next_chunk := Some next_chunk;
                 ss_state := if is_nil state then None else Some state;
                 ss_stream := None; ss_loop := false; ss_closing := false;
                 ss_cancelled := negb conn_alive;
                 ss_min_interval := if dlt d_zero min_interval then min_interval else d_zero;
                 ss_tasks := []; ss_connected := conn_alive; ss_calls := []; ss_sent := [];
                 ss_final := None |} in
  let r := length (heap w) in
  let w := {| heap := heap w ++ [sess];
              g_streams := match g_streams w !! id with
                           | Some _ => g_streams w           (* emplace keeps an existing entry *)
                           | None => <[id := r]> (g_streams w)
                           end;
              g_nextStreamId := wrapU64 (id + 1); g_later := g_later w; later_q := later_q w;
              precious := (if is_nil state then λ p, p else R_PreserveObject state)
                            (R_PreserveObject next_chunk (precious w));
              responded := responded w ++ [(respond, stream_response content_type headers)] |} in
  scheduleNextPump id w.

(** What Drogon's loop does when it invokes the async-stream callback. *)
Definition deliver_stream (s : StreamSession) : StreamSession :=
  set_stream (Some newResponseStream) true (ss_final s) s.

(** [clearAllStreamSessions]: the connections are already destroyed, so
    [~ResponseStream] writes nothing. *)
Definition drop_session (s : StreamSession) : StreamSession :=
  let s := set_closing s in
  match ss_stream s with
  | Some rs => set_stream None (ss_loop s) (Some (rs_node (stream_close false rs))) s
  | None => s
  end.

Fixpoint clear_loop (rs : list sref) (w : StreamWorld) : StreamWorld :=
  match rs with
  | [] => w
  | r :: rs' => clear_loop rs' (releaseSEXPs r (with_session r drop_session w))
  end.

Definition clearAllStreamSessions (w : StreamWorld) : StreamWorld :=
  clear_loop (map snd (map_to_list (g_streams w))) (set_table ∅ w).

(** ** Lemmas on the heap *)

Lemma with_session_insert r f w s :
  heap w !! r = Some s → with_session r f w = set_heap (<[r := f s]> (heap w)) w.
Proof.
  intros Hs. unfold with_session. f_equal. revert r Hs.
  induction (heap w) as [|x l IH]; intros [|r] Hs; cbn in *; simplify_eq; [done|]. f_equal. by apply IH.
Qed.

Definition opt_list {A} (x : option A) : list A := match x with Some a => [a] | None => [] end.

(** The R objects a session keeps alive. *)
Definition held (s : StreamSession) : list SEXP := opt_list (ss_next_chunk s) ++ opt_list (ss_state s).
Definition all_held (h : list StreamSession) : list SEXP := concat (map held h).
#[global] Arguments all_held : simpl never.

Lemma all_held_split h r s :
  h !! r = Some s →
  ∃ rest, all_held h ≡ₚ held s ++ rest ∧ ∀ s', all_held (<[r := s']> h) ≡ₚ held s' ++ rest.
Proof.
  unfold all_held. revert r. induction h as [|x h IH]; intros [|r] Hs; cbn in *; simplify_eq.
  - by exists (concat (map held h)).
  - destruct (IH r Hs) as (rest & H1 & H2). exists (held x ++ rest). split.
    + rewrite H1. solve_Permutation.
    + intros s'. rewrite H2. solve_Permutation.
Qed.

Lemma release_opt_perm x p q : p ≡ₚ opt_list x ++ q → release_opt x p ≡ₚ q.
Proof. destruct x; cbn; [apply release_perm|done]. Qed.

(** ** The session invariant *)

(** While the client is connected: what is on the wire, followed by the sends
    still queued on the loop, is what the generator produced. *)
Definition wire_ok (s : StreamSession) : Prop :=
  match ss_stream s, ss_final s with
  | Some rs, None =>
      rs_open rs = true ∧
      ∃ l, ss_tasks s = map SendTask l ++ (if ss_closing s then [CloseTask] else []) ∧
           node_data (rs_node rs) +:+ frames l = frames (ss_sent s)
  | None, Some a =>
      ss_closing s = true ∧ ss_tasks s = [] ∧ ss_loop s = true ∧
      node_data a = frames (ss_sent s) +:+ closeStream ∧ node_done a = true
  | None, None => ss_loop s = false ∧ ss_tasks s = [] ∧ ss_sent s = [] ∧ ss_closing s = false
  | Some _, Some _ => False
  end.

Definition calls_ok (closing : bool) (calls : list bool) : Prop :=
  ∃ k, calls = repeat false k ∨ (calls = repeat false k ++ [true] ∧ closing = true).

Record sess_ok (s : StreamSession) : Prop := {
  so_loop : ss_stream s ≠ None → ss_loop s = true;
  so_calls : calls_ok (ss_closing s) (ss_calls s);
  so_held : if ss_closing s then held s = [] else ss_next_chunk s ≠ None;
  so_sent : Forall (λ c, c ≠ EmptyString) (ss_sent s);
  so_wire : ss_connected s = true → wire_ok s;
}.

(** ** The world invariant *)

Definition pumps (id : Z) (q : list (Z * double)) : nat := length (filter (λ p, p.1 = id) q).
#[global] Arguments pumps : simpl never.

Record inv (base : list SEXP) (w : StreamWorld) : Prop := {
  inv_ids : ∀ r s, heap w !! r = Some s → ss_id s = Z.of_nat r + 1;
  inv_next : g_nextStreamId w = Z.of_nat (length (heap w)) + 1;
  inv_sess : ∀ r s, heap w !! r = Some s → sess_ok s;
  inv_table : ∀ id r, g_streams w !! id = Some r ↔
                id = Z.of_nat r + 1 ∧ ∃ s, heap w !! r = Some s ∧ ss_closing s = false;
  inv_later : g_later w = true;
  inv_pumps : ∀ id r, g_streams w !! id = Some r → pumps id (later_q w) = 1%nat;
  inv_pump_ids : ∀ p, p ∈ later_q w → p.1 < g_nextStreamId w;
  inv_precious : precious w ≡ₚ base ++ all_held (heap w);
}.

(** One session rewritten, the rest of the world kept. *)
Definition commit (r : sref) (s' : StreamSession) (t : gmap Z sref) (q : list (Z * double))
    (p : list SEXP) (w : StreamWorld) : StreamWorld :=
  {| heap := <[r := s']> (heap w); g_streams := t; g_nextStreamId := g_nextStreamId w;
     g_later := g_later w; later_q := q; precious := p; responded := responded w |}.

Lemma inv_commit base w r s s' q p :
  inv base w → heap w !! r = Some s → sess_ok s' → ss_id s' = ss_id s →
  (ss_closing s = true → ss_closing s' = true) →
  p ++ held s ≡ₚ precious w ++ held s' →
  let t := if ss_closing s' then delete (ss_id s) (g_streams w) else g_streams w in
  (∀ id r', t !! id = Some r' → pumps id q = 1%nat) →
  (∀ x, x ∈ q → x.1 < g_nextStreamId w) →
  inv base (commit r s' t q p w).
Proof.
  intros [Hids Hnext Hsess Htab Hlat Hpumps Hpid Hprec] Hs Hok Hid Hmono Hp t Hq1 Hq2.
  pose proof (lookup_lt_Some _ _ _ Hs) as Hlt.
  split; cbn; try done.
  - intros r' x Hx. apply list_lookup_insert_Some in Hx as [(<- & <- & _)|(? & Hx)]; [|by apply Hids].
    rewrite Hid. by apply Hids.
  - by rewrite length_insert.
  - intros r' x Hx. apply list_lookup_insert_Some in Hx as [(<- & <- & _)|(? & Hx)]; [done|by eapply Hsess].
  - intros id r'. specialize (Hids _ _ Hs). subst t.
    destruct (decide (r' = r)) as [->|Hne].
    + rewrite list_lookup_insert_eq by done. destruct (ss_closing s') eqn:Ec.
      * split; [|intros (_ & x & [= <-] & ?); congruence].
        intros Ht. apply lookup_delete_Some in Ht as [Hne Ht]. apply Htab in Ht as [? _]. congruence.
      * rewrite Htab. split; intros (-> & _); (split; [done|]); [by exists s'|].
        exists s. split; [done|]. destruct (ss_closing s); [|done]. by discriminate Hmono.
    + rewrite list_lookup_insert_ne by done. rewrite <- Htab. destruct (ss_closing s'); [|done].
      rewrite lookup_delete_Some. split; [tauto|]. intros Ht. split; [|done].
      apply Htab in Ht as [-> _]. lia.
  - destruct (all_held_split _ _ _ Hs) as (rest & H1 & H2). rewrite H2. rewrite Hprec, H1 in Hp.
    apply (Permutation_app_inv_r (held s)). rewrite Hp. solve_Permutation.
Qed.

(** ** What one pump does *)

Definition close_session (s : StreamSession) : StreamSession :=
  set_sexps None None (set_tasks (ss_tasks s ++ [CloseTask]) (ss_sent s ++ []) (set_closing s)).

Lemma commit_lookup r s s' t q p w :
  heap w !! r = Some s → heap (commit r s' t q p w) !! r = Some s'.
Proof. intros Hs. cbn. apply list_lookup_insert_eq. by eapply lookup_lt_Some. Qed.

Lemma commit_commit r s s' t t' q q' p p' w :
  commit r s' t' q' p' (commit r s t q p w) = commit r s' t' q' p' w.
Proof. unfold commit. cbn. by rewrite list_insert_insert_eq. Qed.

Lemma commit_id r s w :
  heap w !! r = Some s → commit r s (g_streams w) (later_q w) (precious w) w = w.
Proof. intros Hs. unfold commit. rewrite list_insert_id by done. by destruct w. Qed.

Lemma with_session_commit r f w s :
  heap w !! r = Some s →
  with_session r f w = commit r (f s) (g_streams w) (later_q w) (precious w) w.
Proof. intros Hs. by rewrite (with_session_insert r f w s). Qed.

Lemma closeStreamFromMain_eq r s w :
  heap w !! r = Some s → ss_loop s = true →
  closeStreamFromMain r w =
    Some (commit r (close_session s) (delete (ss_id s) (g_streams w)) (later_q w)
            (release_opt (ss_state s) (release_opt (ss_next_chunk s) (precious w))) w).
Proof.
  intros Hs Hl. unfold closeStreamFromMain. rewrite Hs.
  rewrite (with_session_commit r _ w s Hs). unfold queueInLoop.
  rewrite (commit_lookup _ _ _ _ _ _ _ Hs). cbn [set_closing ss_loop]. rewrite Hl.
  erewrite with_session_commit by (by eapply commit_lookup).
  rewrite commit_commit. cbn [mbind option_bind]. unfold releaseSEXPs.
  rewrite (commit_lookup _ _ _ _ _ _ _ Hs).
  set (w1 := commit r _ _ _ _ w). set (pr := release_opt _ _).
  rewrite (with_session_insert r _ (set_precious pr w1)
             (set_tasks (ss_tasks s ++ [CloseTask]) (ss_sent s ++ []) (set_closing s)))
    by (subst w1; cbn; apply list_lookup_insert_eq; by eapply lookup_lt_Some).
  subst w1 pr. unfold eraseSession, set_table, set_heap, set_precious, commit. cbn.
  by rewrite list_insert_insert_eq.
Qed.

Definition new_chunks (chunk : string) : list string :=
  if String.eqb chunk EmptyString then [] else [chunk].

Lemma sendChunk_eq r s w chunk :
  heap w !! r = Some s → ss_loop s = true →
  (if String.eqb chunk EmptyString then Some w else sendChunkInLoop r chunk w) =
    Some (commit r (set_tasks (ss_tasks s ++ map SendTask (new_chunks chunk))
                      (ss_sent s ++ new_chunks chunk) s)
            (g_streams w) (later_q w) (precious w) w).
Proof.
  intros Hs Hl. unfold new_chunks. case_if.
  - cbn. rewrite !app_nil_r. rewrite commit_id; [done|]. by destruct s.
  - unfold sendChunkInLoop, queueInLoop. rewrite Hs, Hl. by erewrite with_session_commit.
Qed.

Definition next_state (s : StreamSession) (x : SEXP) : option SEXP :=
  if is_nil x then ss_state s else Some x.
Definition next_precious (s : StreamSession) (x : SEXP) (p : list SEXP) : list SEXP :=
  if is_nil x then p else release_opt (ss_state s) (R_PreserveObject x p).

Lemma update_state_eq r s w x :
  heap w !! r = Some s →
  update_state r x w =
    commit r (set_sexps (ss_next_chunk s) (next_state s x) s)
      (g_streams w) (later_q w) (next_precious s x (precious w)) w.
Proof.
  intros Hs. unfold update_state, next_state, next_precious. case_if.
  - rewrite commit_id; [done|]. rewrite Hs. by destruct s.
  - rewrite Hs. by rewrite (with_session_insert r _ _ s).
Qed.

Lemma schedule_eq id w :
  g_later w = true → ∃ secs, scheduleNextPump id w = set_later (later_q w ++ [(id, secs)]) w.
Proof. intros Hl. unfold scheduleNextPump. rewrite Hl. by eexists. Qed.

(** The effect of a pump that calls the generator, on the session it pumps. *)
Record pumped (id : Z) (w : StreamWorld) (s s' : StreamSession) (q : list (Z * double))
    (p : list SEXP) : Prop := {
  pd_id : ss_id s' = ss_id s;
  pd_stream : ss_stream s' = ss_stream s ∧ ss_loop s' = ss_loop s ∧ ss_final s' = ss_final s;
  pd_conn : ss_connected s' = ss_connected s ∧ ss_cancelled s' = ss_cancelled s;
  pd_calls : ss_calls s' = ss_calls s ++ [ss_cancelled s];
  pd_cancel : ss_cancelled s = true → ss_closing s' = true;
  pd_sent : ∃ l, Forall (λ c, c ≠ EmptyString) l ∧ ss_sent s' = ss_sent s ++ l ∧
     ss_tasks s' = ss_tasks s ++ map SendTask l ++ (if ss_closing s' then [CloseTask] else []);
  pd_held : if ss_closing s' then held s' = [] else ss_next_chunk s' = ss_next_chunk s;
  pd_precious : p ++ held s ≡ₚ precious w ++ held s';
  pd_later : if ss_closing s' then q = later_q w else ∃ secs, q = later_q w ++ [(id, secs)];
}.

Lemma close_precious s p rest :
  p ≡ₚ held s ++ rest → release_opt (ss_state s) (release_opt (ss_next_chunk s) p) ≡ₚ rest.
Proof.
  intros Hp. apply release_opt_perm. apply release_opt_perm. rewrite Hp. unfold held. by rewrite app_assoc.
Qed.

Lemma next_precious_perm s x p rest :
  p ≡ₚ held s ++ rest →
  next_precious s x p ≡ₚ held (set_sexps (ss_next_chunk s) (next_state s x) s) ++ rest.
Proof.
  intros Hp. unfold next_precious, next_state. destruct (is_nil x); [done|].
  apply release_opt_perm. unfold R_PreserveObject. rewrite Hp. unfold held. cbn. solve_Permutation.
Qed.

Lemma pumped_close id w s s1 p1 l rest :
  precious w ≡ₚ held s ++ rest → p1 ≡ₚ held s1 ++ rest →
  ss_id s1 = ss_id s → ss_stream s1 = ss_stream s → ss_loop s1 = ss_loop s →
  ss_final s1 = ss_final s → ss_connected s1 = ss_connected s → ss_cancelled s1 = ss_cancelled s →
  ss_calls s1 = ss_calls s ++ [ss_cancelled s] →
  Forall (λ c, c ≠ EmptyString) l → ss_sent s1 = ss_sent s ++ l →
  ss_tasks s1 = ss_tasks s ++ map SendTask l →
  pumped id w s (close_session s1) (later_q w)
    (release_opt (ss_state s1) (release_opt (ss_next_chunk s1) p1)).
Proof.
  intros Hp Hp1 ? ? ? ? ? ? ? Hl Hsent Htasks. split; try done.
  - exists l. cbn. rewrite Hsent, Htasks, app_nil_r, app_assoc. done.
  - rewrite (close_precious _ _ rest) by done. rewrite Hp. cbn. rewrite app_nil_r. apply Permutation_app_comm.
Qed.

Lemma pump_spec eval id w r s rest :
  findSession id w = Some r → heap w !! r = Some s → g_later w = true →
  ss_closing s = false → ss_stream s ≠ None → ss_loop s = true →
  precious w ≡ₚ held s ++ rest →
  ∃ s' q p,
    pumpStreamMain eval id w =
      Some (commit r s' (if ss_closing s' then delete (ss_id s) (g_streams w) else g_streams w) q p w) ∧
    pumped id w s s' q p.
Proof.
  intros Hf Hs Hlat Hc Hst Hl Hp. unfold pumpStreamMain. rewrite Hf, Hs, Hc.
  destruct (ss_stream s) as [rs|] eqn:Ers; [|done].
  rewrite (with_session_commit r _ w s Hs). set (s1 := log_call (ss_cancelled s) s).
  set (w1 := commit r s1 _ _ _ w).
  assert (Hs1 : heap w1 !! r = Some s1) by (by eapply commit_lookup).
  assert (Hclose : ∃ s' q p, closeStreamFromMain r w1 =
      Some (commit r s' (if ss_closing s' then delete (ss_id s) (g_streams w) else g_streams w) q p w) ∧
      pumped id w s s' q p).
  { rewrite (closeStreamFromMain_eq r s1 w1 Hs1 Hl). unfold w1. rewrite commit_commit.
    exists (close_session s1), (later_q w), (release_opt (ss_state s1) (release_opt (ss_next_chunk s1) (precious w))).
    split; [reflexivity|].
    apply (pumped_close id w s s1 (precious w) [] rest); try done; cbn; by rewrite app_nil_r. }
  destruct (eval _ _ _) as [[]|]; try exact Hclose. clear Hclose.
  set (res := VECSXP v at_). set (x := namedField res "state"). set (chunk := read_chunk _).
  rewrite (update_state_eq r s1 w1 x Hs1). unfold w1. rewrite commit_commit.
  set (s2 := set_sexps _ _ s1). cbn [g_streams later_q precious commit].
  set (p2 := next_precious s1 x (precious w)).
  assert (Hp2 : p2 ≡ₚ held s2 ++ rest) by (by apply next_precious_perm).
  set (w2 := commit r s2 _ _ p2 w).
  assert (Hs2 : heap w2 !! r = Some s2) by (by eapply commit_lookup).
  destruct (ss_cancelled s) eqn:Ecan.
  - rewrite (closeStreamFromMain_eq r s2 w2 Hs2 Hl). unfold w2. rewrite commit_commit.
    exists (close_session s2), (later_q w), (release_opt (ss_state s2) (release_opt (ss_next_chunk s2) p2)).
    split; [reflexivity|].
    apply (pumped_close id w s s2 p2 [] rest); try done; cbn; by rewrite ?app_nil_r, ?Ecan.
  - rewrite (sendChunk_eq r s2 w2 chunk Hs2 Hl). cbn [mbind option_bind]. unfold w2.
    rewrite commit_commit. cbn [g_streams later_q precious commit].
    set (s3 := set_tasks _ _ s2). set (w3 := commit r s3 _ _ p2 w).
    assert (Hs3 : heap w3 !! r = Some s3) by (by eapply commit_lookup).
    assert (Hnew : Forall (λ c, c ≠ EmptyString) (new_chunks chunk)).
    { unfold new_chunks. case_if; repeat constructor. by apply String.eqb_neq. }
    destruct (read_done _).
    + rewrite (closeStreamFromMain_eq r s3 w3 Hs3 Hl). unfold w3. rewrite commit_commit.
      exists (close_session s3), (later_q w), (release_opt (ss_state s3) (release_opt (ss_next_chunk s3) p2)).
    split; [reflexivity|].
      apply (pumped_close id w s s3 p2 (new_chunks chunk) rest); try done; cbn; by rewrite ?Ecan.
    + destruct (schedule_eq id w3 Hlat) as [secs ->].
      exists s3, (later_q w ++ [(id, secs)]), p2. split; [unfold set_later, w3, commit; cbn; by rewrite Hc|].
      split; try done; cbn; rewrite ?Ecan, ?Hc; try done.
      * exists (new_chunks chunk). by rewrite app_nil_r.
      * rewrite Hp2, Hp. unfold held at 2. cbn. solve_Permutation.
      * by eexists.
Qed.

Lemma pumped_ok id w s s' q p :
  ss_closing s = false → ss_stream s ≠ None → sess_ok s → pumped id w s s' q p → sess_ok s'.
Proof.
  intros Hc Hst [Hl Hcalls Hheld Hsent Hwire] [_ (Es & El & Ef) (Ec & _) Hlog Hcan (l & Hne & Hs' & Ht') Hh _ _].
  rewrite Hc in *. split.
  - by rewrite Es, El.
  - destruct Hcalls as [k [Hk|[_ ?]]]; [|done]. rewrite Hlog, Hk. exists (if ss_cancelled s then k else S k).
    destruct (ss_cancelled s); [right; auto|left]. by rewrite <- repeat_cons.
  - destruct (ss_closing s'); [done|]. by rewrite Hh.
  - rewrite Hs'. by apply Forall_app.
  - rewrite Ec. intros Hconn. specialize (Hwire Hconn). unfold wire_ok in *. rewrite Es, Ef, Hc in *.
    destruct (ss_stream s) as [rs|], (ss_final s) as [a|]; try done.
    destruct Hwire as (Ho & l0 & Ht & Hd). split; [done|]. exists (l0 ++ l). split.
    + rewrite Ht', Ht, map_app, app_nil_r, app_assoc. done.
    + by rewrite Hs', !frames_app, <- app_str_assoc, Hd.
Qed.

(** ** The two threads *)

Inductive step : StreamWorld → StreamWorld → Prop :=
(** main thread *)
| step_start respond nc st ct hs alive mi w :
    step w (startStreamSession respond nc st ct hs alive mi w)
| step_pump eval id secs l1 l2 w w' :
    later_q w = l1 ++ (id, secs) :: l2 →
    pumpStreamMain eval id (set_later (l1 ++ l2) w) = Some w' → step w w'
| step_clear w :
    (∀ r s, heap w !! r = Some s → ss_connected s = false) → step w (clearAllStreamSessions w)
(** loop thread: the async-stream callback, a queued task, the connection *)
| step_deliver r s w :
    heap w !! r = Some s → ss_loop s = false → step w (with_session r deliver_stream w)
| step_task r s t ts w :
    heap w !! r = Some s → ss_tasks s = t :: ts →
    step w (with_session r (λ s, run_task t (set_tasks ts (ss_sent s) s)) w)
| step_disconnect r s w :
    heap w !! r = Some s → step w (with_session r (λ s, set_conn false (ss_cancelled s) s) w)
| step_user_close r s w :
    heap w !! r = Some s → step w (with_session r (set_conn false true) w).

Definition init (base : list SEXP) : StreamWorld :=
  {| heap := []; g_streams := ∅; g_nextStreamId := 1; g_later := true; later_q := [];
     precious := base; responded := [] |}.

Lemma stream_init_inv base : inv base (init base).
Proof.
  split; cbn; try done.
  - intros id r. rewrite lookup_empty. split; [done|]. by intros (_ & s & ? & _).
  - intros p Hp. by apply not_elem_of_nil in Hp.
  - unfold all_held. cbn. by rewrite app_nil_r.
Qed.

(** A step of the loop thread: one session changes, nothing else. *)
Lemma inv_local base w r s f :
  inv base w → heap w !! r = Some s →
  sess_ok (f s) → ss_id (f s) = ss_id s → ss_closing (f s) = ss_closing s →
  held (f s) = held s →
  inv base (with_session r f w).
Proof.
  intros Hinv Hs Hok Hid Hcl Hh. rewrite (with_session_commit r f w s Hs).
  pose proof Hinv as [Hids _ _ Htab _ Hpumps Hpid _].
  assert (Hdel : (if ss_closing (f s) then delete (ss_id s) (g_streams w) else g_streams w) = g_streams w).
  { destruct (ss_closing (f s)) eqn:E; [|done]. apply delete_id.
    destruct (g_streams w !! ss_id s) as [r'|] eqn:Et; [|done].
    apply Htab in Et as (Hr & s' & Hs' & ?). rewrite (Hids _ _ Hs) in Hr.
    assert (r' = r) as -> by lia. congruence. }
  rewrite <- Hdel at 1. apply (inv_commit base w r s); rewrite ?Hdel, ?Hcl, ?Hh; done.
Qed.

Lemma pumps_app id q1 q2 : pumps id (q1 ++ q2) = (pumps id q1 + pumps id q2)%nat.
Proof. unfold pumps. by rewrite list.filter_app, length_app. Qed.
Lemma pumps_cons id p q : pumps id (p :: q) = ((if decide (p.1 = id) then 1 else 0) + pumps id q)%nat.
Proof. unfold pumps. rewrite filter_cons. by case_decide. Qed.
Lemma pumps_none id q : (∀ p, p ∈ q → p.1 ≠ id) → pumps id q = O.
Proof.
  induction q as [|p q IH]; intros Hq; [done|]. rewrite pumps_cons.
  case_decide; [by destruct (Hq p); [set_solver|]|]. apply IH. set_solver.
Qed.

Lemma inv_pump base w w' eval id secs l1 l2 :
  inv base w → later_q w = l1 ++ (id, secs) :: l2 →
  pumpStreamMain eval id (set_later (l1 ++ l2) w) = Some w' → inv base w'.
Proof.
  intros Hinv Hq Hp. set (w0 := set_later (l1 ++ l2) w) in *.
  pose proof Hinv as [Hids Hnext Hsess Htab Hlat Hpumps Hpid Hprec].
  assert (Hcount : ∀ i r, g_streams w !! i = Some r →
            pumps i (l1 ++ l2) = if decide (i = id) then O else 1%nat).
  { intros i r Hi. specialize (Hpumps i r Hi). rewrite Hq, pumps_app, pumps_cons in Hpumps. cbn in Hpumps.
    rewrite pumps_app. repeat case_decide; subst; try done; lia. }
  assert (Hpid0 : ∀ x, x ∈ l1 ++ l2 → x.1 < g_nextStreamId w).
  { intros x Hx. apply Hpid. rewrite Hq. set_solver. }
  assert (Hid : id < g_nextStreamId w) by (apply (Hpid (id, secs)); rewrite Hq; set_solver).
  assert (Hpid1 : ∀ s x, x ∈ (l1 ++ l2) ++ [(id, s)] → x.1 < g_nextStreamId w).
  { intros s x Hx. apply elem_of_app in Hx as [Hx|Hx]; [by apply Hpid0|]. apply list_elem_of_singleton in Hx. by subst. }
  assert (Hcount1 : ∀ s i r, g_streams w !! i = Some r → pumps i ((l1 ++ l2) ++ [(id, s)]) = 1%nat).
  { intros s i r Hi. rewrite pumps_app, (Hcount i r Hi), pumps_cons. cbn. repeat case_decide; subst; done. }
  destruct (g_streams w !! id) as [r|] eqn:Er.
  - pose proof (proj1 (Htab id r) Er) as (-> & s & Hs & Hc).
    destruct (ss_stream s) as [rs|] eqn:Est.
    + destruct (all_held_split _ _ _ Hs) as (rest & Hrest & _).
      assert (Hok := Hsess _ _ Hs). assert (Hne : ss_stream s ≠ None) by congruence.
      destruct (pump_spec eval (Z.of_nat r + 1) w0 r s (base ++ rest)) as (s' & q & p & Heq & Hpd);
        try done; [by apply (so_loop s Hok)| |].
      { unfold w0; cbn. rewrite Hprec, Hrest. solve_Permutation. }
      rewrite Heq in Hp. injection Hp as <-. pose proof (pumped_ok _ _ _ _ _ _ Hc Hne Hok Hpd) as Hok'.
      destruct Hpd as [Hid' H2 H3 H4 H5 H6 H7 H8 H9].
      change (commit r s' ?t q p w0) with (commit r s' t q p w).
      apply (inv_commit base w r s); try done.
      * congruence.
      * intros i r' Hi. change (later_q w0) with (l1 ++ l2) in H9. destruct (ss_closing s').
        -- apply lookup_delete_Some in Hi as [Hne' Hi]. rewrite H9, (Hcount i r' Hi).
           rewrite (Hids _ _ Hs) in Hne'. by case_decide.
        -- destruct H9 as [sc ->]. by eapply Hcount1.
      * change (later_q w0) with (l1 ++ l2) in H9. destruct (ss_closing s');
          [subst q; exact Hpid0|destruct H9 as [sc ->]; apply Hpid1].
    + unfold pumpStreamMain, findSession in Hp. unfold w0 in Hp. cbn [g_streams set_later heap] in Hp.
      rewrite Er, Hs, Hc, Est in Hp. injection Hp as <-.
      destruct (schedule_eq (Z.of_nat r + 1) w0 Hlat) as [sc Hsc]. unfold w0 in Hsc. rewrite Hsc.
      split; cbn; try done; [intros i r' Hi; by eapply Hcount1|apply Hpid1].
  - unfold pumpStreamMain, findSession in Hp. cbn in Hp. rewrite Er in Hp. injection Hp as <-.
    unfold w0. split; cbn; try done.
    intros i r Hi. rewrite (Hcount i r Hi). case_decide; [congruence|done].
Qed.

Lemma inv_start base w respond nc st ct hs alive mi :
  Z.of_nat (length (heap w)) + 2 < 2 ^ 64 → inv base w →
  inv base (startStreamSession respond nc st ct hs alive mi w).
Proof.
  intros Hb [Hids Hnext Hsess Htab Hlat Hpumps Hpid Hprec]. unfold startStreamSession.
  set (sess := Build_StreamSession _ _ _ _ _ _ _ _ _ _ _ _ _).
  assert (Hfresh : g_streams w !! g_nextStreamId w = None).
  { destruct (g_streams w !! g_nextStreamId w) as [r|] eqn:E; [|done].
    apply Htab in E as (Hr & s & Hs & _). apply lookup_lt_Some in Hs. lia. }
  rewrite Hfresh. set (w1 := Build_StreamWorld _ _ _ _ _ _ _).
  destruct (schedule_eq (g_nextStreamId w) w1 Hlat) as [secs ->].
  assert (Hlk : ∀ r s, (heap w ++ [sess]) !! r = Some s →
     heap w !! r = Some s ∨ r = length (heap w) ∧ s = sess).
  { intros r s Hs. apply lookup_app_Some in Hs as [?|(Hle & Hs)]; [by left|]. right.
    apply list_lookup_singleton_Some in Hs as [? ->]. split; [lia|done]. }
  split; cbn; try done.
  - intros r s Hs. apply Hlk in Hs as [?|(-> & ->)]; [by apply Hids|]. done.
  - rewrite length_app. cbn. rewrite wrapU64_small; lia.
  - intros r s Hs. apply Hlk in Hs as [?|(-> & ->)]; [by eapply Hsess|].
    split; cbn; try done. exists O. by left.
  - intros id r. rewrite lookup_insert_Some. split.
    + intros [(<- & <-)|(Hne & Ht)].
      * split; [done|]. exists sess. split; [|done]. by rewrite lookup_app_r, Nat.sub_diag.
      * apply Htab in Ht as (-> & s & Hs & ?). split; [done|]. exists s. split; [|done].
        by apply lookup_app_l_Some.
    + intros (-> & s & Hs & Hc). apply Hlk in Hs as [Hs|(-> & ->)]; [|by left].
      right. split; [apply lookup_lt_Some in Hs; lia|]. apply Htab. split; [done|]. by exists s.
  - intros id r Ht. rewrite pumps_app, pumps_cons. cbn. apply lookup_insert_Some in Ht as [(<- & <-)|(Hne & Ht)].
    + rewrite decide_True by done. rewrite pumps_none; [done|]. intros p Hp. apply Hpid in Hp. lia.
    + rewrite decide_False by done. rewrite (Hpumps _ _ Ht). done.
  - intros p Hp. rewrite wrapU64_small by lia. apply elem_of_app in Hp as [Hp|Hp].
    + apply Hpid in Hp. lia.
    + apply list_elem_of_singleton in Hp as ->. cbn. lia.
  - unfold all_held. rewrite map_app, concat_app. fold (all_held (heap w)). cbn. unfold held. cbn.
    unfold R_PreserveObject. destruct (is_nil st); cbn; rewrite Hprec; solve_Permutation.
Qed.

Lemma calls_ok_closing b l : calls_ok b l → calls_ok true l.
Proof. intros [k [?|[? _]]]; exists k; auto. Qed.

(** ** Clearing *)

Record clearing (base : list SEXP) (rs : list sref) (w : StreamWorld) : Prop := {
  cl_ids : ∀ r s, heap w !! r = Some s → ss_id s = Z.of_nat r + 1;
  cl_next : g_nextStreamId w = Z.of_nat (length (heap w)) + 1;
  cl_sess : ∀ r s, heap w !! r = Some s → sess_ok s ∧ ss_connected s = false;
  cl_table : g_streams w = ∅;
  cl_open : ∀ r s, heap w !! r = Some s → ss_closing s = false → r ∈ rs;
  cl_live : ∀ r, r ∈ rs → is_Some (heap w !! r);
  cl_later : g_later w = true;
  cl_pump_ids : ∀ p, p ∈ later_q w → p.1 < g_nextStreamId w;
  cl_precious : precious w ≡ₚ base ++ all_held (heap w);
}.

Lemma drop_session_ok s :
  sess_ok s → ss_connected s = false →
  sess_ok (set_sexps None None (drop_session s)) ∧
  ss_id (drop_session s) = ss_id s ∧ ss_closing (drop_session s) = true ∧
  ss_connected (drop_session s) = false ∧ held (drop_session s) = held s.
Proof.
  intros [Hl Hc Hh Hsent Hw] Hconn. unfold drop_session.
  destruct (ss_stream (set_closing s)) as [rs|] eqn:Es; cbn in *;
    (split; [split; cbn; try done|done]); try congruence; try by eapply calls_ok_closing.
Qed.

Lemma clear_step base r rs w :
  clearing base (r :: rs) w → clearing base rs (releaseSEXPs r (with_session r drop_session w)).
Proof.
  intros [Hids Hnext Hsess Htab Hopen Hlive Hlat Hpid Hprec].
  destruct (Hlive r) as [s Hs]; [set_solver|]. destruct (Hsess _ _ Hs) as [Hok Hconn].
  destruct (drop_session_ok s Hok Hconn) as (Hok' & Hid & Hcl & Hconn' & Hh).
  rewrite (with_session_commit r _ w s Hs). unfold releaseSEXPs.
  rewrite (commit_lookup _ _ _ _ _ _ _ Hs).
  set (w1 := commit r _ _ _ _ w). set (pr := release_opt _ _).
  rewrite (with_session_insert r _ (set_precious pr w1) (drop_session s))
    by (by apply (commit_lookup r s _ _ _ _ w)).
  set (s' := set_sexps None None (drop_session s)) in *.
  assert (Hlk : ∀ r' x, <[r := s']> (heap w) !! r' = Some x →
            (r' = r ∧ x = s') ∨ (r' ≠ r ∧ heap w !! r' = Some x)).
  { intros r' x Hx. apply list_lookup_insert_Some in Hx as [(-> & -> & _)|(? & ?)]; auto. }
  subst w1. cbn [heap set_precious commit]. rewrite list_insert_insert_eq.
  split; cbn; try done.
  - intros r' x Hx. apply Hlk in Hx as [(-> & ->)|(_ & Hx)]; [cbn; rewrite Hid; by apply Hids|by apply Hids].
  - by rewrite length_insert.
  - intros r' x Hx. apply Hlk in Hx as [(-> & ->)|(_ & Hx)]; [done|by eapply Hsess].
  - intros r' x Hx Hx'. apply Hlk in Hx as [(-> & ->)|(Hne & Hx)]; [cbn in Hx'; congruence|].
    pose proof (Hopen _ _ Hx Hx'). set_solver.
  - intros r' Hr'. apply list_lookup_insert_is_Some. apply Hlive. set_solver.
  - destruct (all_held_split _ _ _ Hs) as (rest & H1 & H2). rewrite H2.
    assert (Hpr : pr ≡ₚ base ++ rest).
    { apply close_precious. cbn [precious commit]. rewrite Hh, Hprec, H1. solve_Permutation. }
    rewrite Hpr. done.
Qed.

Lemma clear_loop_ok base rs w : clearing base rs w → clearing base [] (clear_loop rs w).
Proof.
  revert w; induction rs as [|r rs IH]; intros w Hw; [done|]. cbn. apply IH. by apply clear_step.
Qed.

Lemma clearing_start base w :
  inv base w → (∀ r s, heap w !! r = Some s → ss_connected s = false) →
  clearing base (map snd (map_to_list (g_streams w))) (set_table ∅ w).
Proof.
  intros [Hids Hnext Hsess Htab Hlat Hpumps Hpid Hprec] Hconn. split; cbn; try done.
  - intros r s Hs. split; [by eapply Hsess|by eapply Hconn].
  - intros r s Hs Hc. apply list_elem_of_fmap. exists (Z.of_nat r + 1, r). split; [done|].
    apply elem_of_map_to_list. apply Htab. split; [done|]. by exists s.
  - intros r Hr. apply list_elem_of_fmap in Hr as ([id r'] & -> & Hr). apply elem_of_map_to_list in Hr.
    apply Htab in Hr as (_ & s & Hs & _). by exists s.
Qed.

Lemma clearing_done base w : clearing base [] w → inv base w ∧ all_held (heap w) = [].
Proof.
  intros [Hids Hnext Hsess Htab Hopen Hlive Hlat Hpid Hprec].
  assert (Hclosed : ∀ r s, heap w !! r = Some s → ss_closing s = true).
  { intros r s Hs. destruct (ss_closing s) eqn:E; [done|]. by apply (Hopen r s) in E; [apply not_elem_of_nil in E|]. }
  split.
  - split; try done.
    + intros r s Hs. by eapply Hsess.
    + intros id r. rewrite Htab, lookup_empty. split; [done|]. intros (_ & s & Hs & Hc).
      rewrite (Hclosed _ _ Hs) in Hc. done.
    + intros id r. by rewrite Htab, lookup_empty.
  - unfold all_held. assert (Hall : ∀ s, s ∈ heap w → held s = []).
    { intros s Hs. apply list_elem_of_lookup in Hs as [r Hr].
      pose proof (so_held s (proj1 (Hsess _ _ Hr))) as Hh. by rewrite (Hclosed _ _ Hr) in Hh. }
    clear -Hall. induction (heap w) as [|s h IH]; [done|]. cbn. rewrite (Hall s) by set_solver.
    apply IH. set_solver.
Qed.

(** ** Preservation *)

Lemma deliver_ok s : sess_ok s → ss_loop s = false → sess_ok (deliver_stream s).
Proof.
  intros [Hl Hc Hh Hsent Hw] Hloop. split; cbn; try done. intros Hconn. specialize (Hw Hconn).
  unfold wire_ok in *. cbn. destruct (ss_stream s) as [rs|] eqn:Es; [rewrite Hl in Hloop; done|].
  destruct (ss_final s) as [a|].
  - destruct Hw as (_ & _ & Hlt & _). congruence.
  - destruct Hw as (_ & Ht & Hs & Hcl). split; [done|]. exists []. cbn. rewrite Ht, Hs, Hcl. done.
Qed.

Lemma run_task_fields t s :
  ss_id (run_task t s) = ss_id s ∧ ss_closing (run_task t s) = ss_closing s ∧
  held (run_task t s) = held s ∧ ss_calls (run_task t s) = ss_calls s ∧
  ss_sent (run_task t s) = ss_sent s ∧ ss_connected (run_task t s) = ss_connected s ∧
  ss_loop (run_task t s) = ss_loop s ∧ ss_tasks (run_task t s) = ss_tasks s.
Proof.
  unfold run_task. destruct (ss_stream s); [|done]. destruct t; [|done].
  destruct (stream_send _ _ _) as [[] ?]; done.
Qed.

Lemma task_ok t ts s : sess_ok s → ss_tasks s = t :: ts → sess_ok (run_task t (set_tasks ts (ss_sent s) s)).
Proof.
  intros [Hl Hc Hh Hsent Hw] Ht. set (s1 := set_tasks ts (ss_sent s) s).
  destruct (run_task_fields t s1) as (_ & E2 & E3 & E4 & E5 & E6 & E7 & E8).
  split; rewrite ?E2, ?E3, ?E4, ?E5, ?E6, ?E7; try done.
  - intros Hs. apply Hl. intros Hn. apply Hs. unfold run_task, s1. cbn. by rewrite Hn.
  - cbn. destruct (ss_closing s); [done|]. intros Hn. apply Hh.
    unfold held in E3. rewrite Hn in E3. unfold run_task, s1 in E3, Hn. cbn in *.
    destruct (ss_stream s); [|done]. destruct t; [|done]. by destruct (stream_send _ _ _) as [[] ?].
  - cbn. intros Hconn. specialize (Hw Hconn). unfold wire_ok in *. rewrite E2, E5, E7, E8.
    unfold run_task, s1. cbn. rewrite Hconn.
    destruct (ss_stream s) as [rs|], (ss_final s) as [a|] eqn:Ef; cbn; try done;
      [|by destruct Hw as (_ & Hw & _); congruence|by destruct Hw as (_ & Hw & _); congruence].
    destruct Hw as (Ho & l & Hts & Hd). rewrite Ht in Hts.
    destruct l as [|x l]; cbn in Hts.
    + destruct (ss_closing s) eqn:Ecl; [|done]. injection Hts as -> ->. cbn.
      unfold stream_close. rewrite Ho. cbn. rewrite <- Hd. unfold frames. cbn.
      rewrite app_str_nil, Hl; done.
    + injection Hts as -> ->. unfold stream_send. rewrite Ho. cbn. split; [done|].
      exists l. split; [done|]. rewrite <- Hd. unfold frames. cbn. by rewrite app_str_assoc.
Qed.

Lemma conn_ok b s : sess_ok s → sess_ok (set_conn false b s).
Proof. intros [Hl Hc Hh Hsent Hw]. by split. Qed.

Lemma stream_inv_step base w w' :
  Z.of_nat (length (heap w)) + 2 < 2 ^ 64 → inv base w → step w w' → inv base w'.
Proof.
  intros Hb Hinv Hstep. destruct Hstep as
    [respond nc st ct hs alive mi w|eval id secs l1 l2 w w' Hq Hp|w Hconn|r s w Hs Hl|r s t ts w Hs Ht|r s w Hs|r s w Hs].
  - by apply inv_start.
  - by eapply inv_pump.
  - apply clearing_done. apply clear_loop_ok. by apply clearing_start.
  - apply (inv_local base w r s); try done. apply deliver_ok; [by eapply inv_sess|done].
  - destruct (run_task_fields t (set_tasks ts (ss_sent s) s)) as (E1 & E2 & E3 & _).
    apply (inv_local base w r s); try done. apply task_ok; [by eapply inv_sess|done].
  - apply (inv_local base w r s); try done. apply conn_ok. by eapply inv_sess.
  - apply (inv_local base w r s); try done. apply conn_ok. by eapply inv_sess.
Qed.

Lemma commit_length r s t q p w : length (heap (commit r s t q p w)) = length (heap w).
Proof. apply length_insert. Qed.

Lemma with_session_length r f w : length (heap (with_session r f w)) = length (heap w).
Proof. apply length_alter. Qed.

Lemma clear_loop_length rs w : length (heap (clear_loop rs w)) = length (heap w).
Proof.
  revert w; induction rs as [|r rs IH]; intros w; [done|]. cbn. rewrite IH. unfold releaseSEXPs.
  destruct (heap (with_session r drop_session w) !! r); [|apply with_session_length].
  rewrite with_session_length. cbn. apply length_alter.
Qed.

Lemma schedule_length id w : length (heap (scheduleNextPump id w)) = length (heap w).
Proof. unfold scheduleNextPump. by case_if. Qed.

Lemma step_length base w w' :
  inv base w → step w w' → (length (heap w') ≤ S (length (heap w)))%nat.
Proof.
  intros Hinv Hstep. destruct Hstep as
    [respond nc st ct hs alive mi w|eval id secs l1 l2 w w' Hq Hp|w Hconn|r s w Hs Hl|r s t ts w Hs Ht|r s w Hs|r s w Hs];
    rewrite ?with_session_length; try lia.
  - unfold startStreamSession. rewrite schedule_length. cbn. rewrite length_app. cbn. lia.
  - unfold pumpStreamMain in Hp. destruct (findSession id _) as [r|] eqn:Hf; [|by simplify_eq; cbn; lia].
    destruct (heap _ !! r) as [s|] eqn:Hs; [|done].
    destruct (ss_closing s) eqn:Hc; [by simplify_eq; cbn; lia|].
    destruct (ss_stream s) as [rs|] eqn:Hst; [|simplify_eq; rewrite schedule_length; cbn; lia].
    assert (Hok := inv_sess _ _ Hinv _ _ Hs).
    destruct (all_held_split _ _ _ Hs) as (rest & Hrest & _).
    destruct (pump_spec eval id (set_later (l1 ++ l2) w) r s (base ++ rest)) as (s' & q & p & Heq & _);
      try done; [exact (inv_later _ _ Hinv)|congruence|apply (so_loop s Hok); congruence| |].
    { cbn in *. rewrite (inv_precious _ _ Hinv), Hrest. solve_Permutation. }
    unfold pumpStreamMain in Heq. rewrite Hf, Hs, Hc, Hst in Heq. rewrite Heq in Hp.
    injection Hp as <-. rewrite commit_length. cbn. lia.
  - unfold clearAllStreamSessions. rewrite clear_loop_length. cbn. lia.
Qed.

(** Runs shorter than the range of the 64-bit session counter. *)
Definition MAX_RUN : Z := 2 ^ 64 - 2.

Lemma inv_steps base n w : Z.of_nat n ≤ MAX_RUN → steps step n (init base) w → inv base w.
Proof.
  intros Hn Hs.
  assert (Hg : inv base w ∧ (length (heap w) ≤ n)%nat); [|tauto].
  revert Hn. remember (init base) as w0 eqn:Hw0. induction Hs as [a|n a b c Hab IH Hbc]; intros Hn; subst.
  - split; [apply stream_init_inv|cbn; lia].
  - destruct IH as [Hi Hlen]; [done|lia|]. pose proof (step_length _ _ _ Hi Hbc).
    split; [|lia]. eapply stream_inv_step; [|done|done]. unfold MAX_RUN in Hn. lia.
Qed.

(** ** Theorems *)

(** R objects are preserved and released in balance: after any interleaving
    of starts, pumps (whatever the generators return or raise), deliveries,
    writes and disconnects, R's precious list is what it was at the start plus
    exactly the generator and state of the sessions still open; a session that
    began its teardown holds nothing, and clearing at server stop restores the
    initial list. *)
Theorem stream_precious_balanced base n w :
  Z.of_nat n ≤ MAX_RUN → steps step n (init base) w →
  precious w ≡ₚ base ++ all_held (heap w) ∧
  (∀ r s, heap w !! r = Some s → ss_closing s = true → held s = []) ∧
  ((∀ r s, heap w !! r = Some s → ss_connected s = false) →
   precious (clearAllStreamSessions w) ≡ₚ base).
Proof.
  intros Hn Hs. pose proof (inv_steps _ _ _ Hn Hs) as Hinv. split; [by apply inv_precious|]. split.
  - intros r s Hr Hc. pose proof (so_held s (inv_sess _ _ Hinv _ _ Hr)) as Hh. by rewrite Hc in Hh.
  - intros Hconn. pose proof (clear_loop_ok _ _ _ (clearing_start _ _ Hinv Hconn)) as Hcl.
    destruct (clearing_done _ _ Hcl) as [Hi Hh]. unfold clearAllStreamSessions.
    rewrite (inv_precious _ _ Hi), Hh. by rewrite app_nil_r.
Qed.

(** The generator sees cancellation at most once and last: its calls are
    some with [cancelled = FALSE], possibly followed by a single one with
    [cancelled = TRUE] after which the session is closing; once a session is
    closing no pump calls the generator or changes anything. *)
Theorem generator_cancelled_once base n w r s :
  Z.of_nat n ≤ MAX_RUN → steps step n (init base) w → heap w !! r = Some s →
  (∃ k, ss_calls s = repeat false k ∨ ss_calls s = repeat false k ++ [true] ∧ ss_closing s = true) ∧
  (ss_closing s = true → ∀ eval, pumpStreamMain eval (ss_id s) w = Some w).
Proof.
  intros Hn Hs Hr. pose proof (inv_steps _ _ _ Hn Hs) as Hinv. split.
  - exact (so_calls s (inv_sess _ _ Hinv _ _ Hr)).
  - intros Hc eval. unfold pumpStreamMain, findSession.
    destruct (g_streams w !! ss_id s) as [r'|] eqn:E; [|done].
    apply (inv_table _ _ Hinv) in E as (Hid & s' & Hs' & Hc'). rewrite (inv_ids _ _ Hinv _ _ Hr) in Hid.
    assert (r' = r) as -> by lia. congruence.
Qed.

(** What the client receives: once the closing task of a session has run on
    a connection that stayed up, decoding the response body gives the non-empty
    chunks the generator produced, complete and in order, and nothing after
    them. *)
Theorem stream_body_is_chunks base n w r s a :
  Z.of_nat n ≤ MAX_RUN → steps step n (init base) w → heap w !! r = Some s →
  ss_connected s = true → ss_final s = Some a →
  decode_chunked (S (length (ss_sent s))) (node_data a) = Some (concat_str (ss_sent s), EmptyString).
Proof.
  intros Hn Hs Hr Hconn Hfin. pose proof (inv_steps _ _ _ Hn Hs) as Hinv.
  destruct (inv_sess _ _ Hinv _ _ Hr) as [_ _ _ Hsent Hw]. specialize (Hw Hconn).
  unfold wire_ok in Hw. rewrite Hfin in Hw. destruct (ss_stream s); [done|].
  destruct Hw as (_ & _ & _ & -> & _). rewrite <- (app_str_nil closeStream). apply decode_frames; [done|lia].
Qed.

(** No stalled and no doubled stream: every open session has exactly one
    pump waiting in later's queue, and running it, whatever the generator does,
    never goes through a null event loop. *)
Theorem open_stream_has_one_pump base n w id r :
  Z.of_nat n ≤ MAX_RUN → steps step n (init base) w → g_streams w !! id = Some r →
  pumps id (later_q w) = 1%nat ∧ ∀ eval, is_Some (pumpStreamMain eval id w).
Proof.
  intros Hn Hs Hr. pose proof (inv_steps _ _ _ Hn Hs) as Hinv. split; [by eapply inv_pumps|].
  intros eval. pose proof (proj1 (inv_table _ _ Hinv id r) Hr) as (_ & s & Hs' & Hc).
  destruct (ss_stream s) as [rs|] eqn:Est.
  - destruct (all_held_split _ _ _ Hs') as (rest & Hrest & _).
    destruct (pump_spec eval id w r s (base ++ rest)) as (s' & q & p & -> & _); try done.
    + by apply (inv_later base).
    + congruence.
    + apply (so_loop s (inv_sess _ _ Hinv _ _ Hs')). congruence.
    + rewrite (inv_precious _ _ Hinv), Hrest. solve_Permutation.
  - unfold pumpStreamMain, findSession. by rewrite Hr, Hs', Hc, Est.
Qed.

(** *** Streams that are never delivered *)

Fixpoint pump_times (k : nat) (eval : option SEXP → option SEXP → bool → option SEXP) (id : Z)
    (w : StreamWorld) : option StreamWorld :=
  match k with O => Some w | S k' => w' ← pumpStreamMain eval id w; pump_times k' eval id w' end.

Lemma undelivered_pump eval id w r s :
  findSession id w = Some r → heap w !! r = Some s → ss_closing s = false → ss_stream s = None →
  pumpStreamMain eval id w = Some (scheduleNextPump id w).
Proof. intros Hf Hs Hc Hst. unfold pumpStreamMain. by rewrite Hf, Hs, Hc, Hst. Qed.

(** A stream response that Drogon answers without invoking its stream
    callback (a HEAD request, or a request without keep-alive) is never torn
    down: however many pumps run, and even when the client's disconnect was
    recorded, the generator is not called, the session stays in the table, its
    R objects stay preserved and another pump is scheduled. *)
Theorem undelivered_stream_never_closes ct hs (isHead keepAlive : bool) eval k id w r s :
  isHead = true ∨ keepAlive = false →
  findSession id w = Some r → heap w !! r = Some s → ss_closing s = false → ss_stream s = None →
  g_later w = true →
  delivers_stream isHead (setCloseConnection (negb keepAlive) (stream_response ct hs)) = false ∧
  ∃ w', pump_times k eval id w = Some w' ∧ heap w' = heap w ∧ findSession id w' = Some r ∧
        precious w' = precious w ∧ pumps id (later_q w') = (pumps id (later_q w) + k)%nat.
Proof.
  intros Hresp Hf Hs Hc Hst Hlat. split.
  - unfold delivers_stream. destruct Hresp as [-> | ->]; cbn; [done|]. by rewrite andb_false_r.
  - revert w Hf Hs Hlat. induction k as [|k IH]; intros w Hf Hs Hlat; cbn [pump_times].
    + exists w. repeat split; auto.
    + rewrite (undelivered_pump eval id w r s) by done. cbn [mbind option_bind].
      destruct (schedule_eq id w Hlat) as [secs ->].
      destruct (IH (set_later (later_q w ++ [(id, secs)]) w)) as (w' & H1 & H2 & H3 & H4 & H5); try done.
      exists w'. repeat split; try done. rewrite H5. cbn. rewrite pumps_app, pumps_cons. cbn.
      rewrite decide_True by done. change (pumps id []) with O. lia.
Qed.

(** A session started with the default state [NULL] calls the generator with a
    null pointer in the place of the state. *)
Lemma null_state_reaches_generator eval eval' respond nc ct hs alive mi base :
  (∀ x c, eval x None c = eval' x None c) →
  let w := with_session 0 deliver_stream
             (startStreamSession respond nc R_NilValue ct hs alive mi (init base)) in
  pumpStreamMain eval 1 w = pumpStreamMain eval' 1 w.
Proof.
  intros He w. assert (Hf : findSession 1 w = Some O) by reflexivity.
  destruct (heap w !! O) as [s|] eqn:Hs; [|done].
  assert (Hst : ss_state s = None) by (cbn in Hs; by injection Hs as <-).
  unfold pumpStreamMain. rewrite Hf, Hs, Hst, He. done.
Qed.

(** ** A concrete run *)

Section Run.
Let gen : SEXP := CLOSXP 7.
Let state0 : SEXP := mkString "s0".
(** One chunk, then done. *)
Let eval (_ _ : option SEXP) (_ : bool) : option SEXP :=
  Some (named_list [("chunk", mkString "hi"); ("state", mkString "s1"); ("done", ScalarLogical true)]).

Definition started : StreamWorld :=
  startStreamSession 1 gen state0 "text/plain" [] true d_zero (init []).
Definition delivered : StreamWorld := with_session 0 deliver_stream started.
Definition pumped_once : StreamWorld :=
  default delivered (pumpStreamMain eval 1 (set_later [] delivered)).
Definition sent_one : StreamWorld :=
  with_session 0 (λ s, run_task (SendTask "hi") (set_tasks [CloseTask] (ss_sent s) s)) pumped_once.
Definition finished : StreamWorld :=
  with_session 0 (λ s, run_task CloseTask (set_tasks [] (ss_sent s) s)) sent_one.

Definition no_session : StreamSession :=
  {| ss_id := 0; ss_next_chunk := None; ss_state := None; ss_stream := None; ss_loop := false;
     ss_closing := false; ss_cancelled := false; ss_min_interval := d_zero; ss_tasks := [];
     ss_connected := false; ss_calls := []; ss_sent := []; ss_final := None |}.
Definition head_session (w : StreamWorld) : StreamSession :=
  match heap w with s :: _ => s | [] => no_session end.

Lemma started_steps : steps step 1 (init []) started.
Proof. apply steps_one. apply step_start. Qed.

Lemma finished_steps : steps step 5 (init []) finished.
Proof.
  eapply steps_snoc; [eapply steps_snoc; [eapply steps_snoc; [eapply steps_snoc;
    [apply started_steps|]|]|]|].
  - eapply (step_deliver 0 (head_session started)); vm_compute; reflexivity.
  - apply (step_pump eval 1 d_zero [] []); vm_compute; reflexivity.
  - apply (step_task 0 (head_session pumped_once) (SendTask "hi") [CloseTask]); vm_compute; reflexivity.
  - apply (step_task 0 (head_session sent_one) CloseTask []); vm_compute; reflexivity.
Qed.
End Run.

(** The session and its response body at the end of the run. *)
Definition finished_session : StreamSession :=
  Eval vm_compute in head_session finished.
Definition finished_node : AsyncStream :=
  Eval vm_compute in match ss_final finished_session with
                     | Some a => a | None => {| node_data := EmptyString; node_done := false |} end.

Lemma finished_lookup : heap finished !! O = Some finished_session.
Proof. vm_compute. reflexivity. Qed.

Lemma stream_precious_balanced_witness :
  precious finished ≡ₚ [] ++ all_held (heap finished) ∧
  (∀ r s, heap finished !! r = Some s → ss_closing s = true → held s = []) ∧
  ((∀ r s, heap finished !! r = Some s → ss_connected s = false) →
   precious (clearAllStreamSessions finished) ≡ₚ []).
Proof. apply (stream_precious_balanced [] 5 finished); [done|apply finished_steps]. Defined.

Lemma generator_cancelled_once_witness :
  (∃ k, ss_calls finished_session = repeat false k ∨
        ss_calls finished_session = repeat false k ++ [true] ∧ ss_closing finished_session = true) ∧
  (ss_closing finished_session = true →
   ∀ eval, pumpStreamMain eval (ss_id finished_session) finished = Some finished).
Proof.
  apply (generator_cancelled_once [] 5 finished O finished_session);
    [done|apply finished_steps|apply finished_lookup].
Defined.

Lemma stream_body_is_chunks_witness :
  decode_chunked (S (length (ss_sent finished_session))) (node_data finished_node) =
    Some (concat_str (ss_sent finished_session), EmptyString).
Proof.
  apply (stream_body_is_chunks [] 5 finished O finished_session finished_node);
    [done|apply finished_steps|apply finished_lookup|reflexivity|reflexivity].
Defined.

Lemma open_stream_has_one_pump_witness :
  pumps 1 (later_q started) = 1%nat ∧ ∀ eval, is_Some (pumpStreamMain eval 1 started).
Proof. apply (open_stream_has_one_pump [] 1 started 1 O); [done|apply started_steps|reflexivity]. Defined.

(** The client of the undelivered stream has disconnected. *)
Definition gone : StreamWorld := with_session 0 (set_conn false true) started.
Definition gone_session : StreamSession :=
  Eval vm_compute in head_session gone.

Lemma undelivered_stream_never_closes_witness :
  ss_cancelled gone_session = true ∧
  ∃ w', pump_times 1000 (λ _ _ _, None) 1 gone = Some w' ∧ heap w' = heap gone.
Proof.
  split; [reflexivity|].
  destruct (undelivered_stream_never_closes "text/plain" [] false false (λ _ _ _, None) 1000 1
              gone O gone_session) as [_ (w' & H1 & H2 & _)];
    [by right|vm_compute; reflexivity..|].
  exists w'. split; [exact H1|exact H2].
Defined.
