(* ===== verification/Routes.v ===== *)
(** * The route tables and their registration (src/drogon_server.cpp)

    The tables an R session fills before [dr_serve]: R routes, native routes,
    native streaming routes, static mounts and rate-limit rules.  Each [.Call]
    entry point checks its arguments in the order of the source and leaves
    through [Rf_error] on the first that is wrong. *)

From stdpp Require Import base gmap strings list numbers.
From Stdlib Require Import ZArith Lia Ascii SpecFloat.
From S2P Require Import Prelude CDouble RValue HttpResponse RateLimiter StaticFiles.

(** ** The tables *)

Record Route := {
  r_method : string; r_path : string; r_regex : string;
  r_param_names : list string; r_handler : SEXP }.

(** A native handler is the address it is called through. *)
Record CppRoute := {
  cr_method : string; cr_path : string; cr_regex : string;
  cr_param_names : list string; cr_fn : Z }.

Record CppStreamRoute := {
  csr_method : string; csr_path : string; csr_regex : string;
  csr_param_names : list string; csr_fn : Z; csr_content_type : string }.

(** The globals of drogon_server.cpp that registration reads and writes;
    [rt_precious] is the route tables' share of R's precious list. *)
Record RouteState := {
  g_routes : list Route;
  g_cppRoutes : list CppRoute;
  g_cppStreamRoutes : list CppStreamRoute;
  g_staticMounts : list StaticMount;
  g_rateLimitRules : list RateLimitRule;
  g_running : bool;
  g_everStarted : bool;
  rt_precious : list SEXP;
}.

Definition set_routes (l : list Route) (p : list SEXP) (s : RouteState) : RouteState :=
  {| g_routes := l; g_cppRoutes := g_cppRoutes s; g_cppStreamRoutes := g_cppStreamRoutes s;
     g_staticMounts := g_staticMounts s; g_rateLimitRules := g_rateLimitRules s;
     g_running := g_running s; g_everStarted := g_everStarted s; rt_precious := p |}.
Definition set_cppRoutes (l : list CppRoute) (s : RouteState) : RouteState :=
  {| g_routes := g_routes s; g_cppRoutes := l; g_cppStreamRoutes := g_cppStreamRoutes s;
     g_staticMounts := g_staticMounts s; g_rateLimitRules := g_rateLimitRules s;
     g_running := g_running s; g_everStarted := g_everStarted s; rt_precious := rt_precious s |}.
Definition set_cppStreamRoutes (l : list CppStreamRoute) (s : RouteState) : RouteState :=
  {| g_routes := g_routes s; g_cppRoutes := g_cppRoutes s; g_cppStreamRoutes := l;
     g_staticMounts := g_staticMounts s; g_rateLimitRules := g_rateLimitRules s;
     g_running := g_running s; g_everStarted := g_everStarted s; rt_precious := rt_precious s |}.
Definition set_staticMounts (l : list StaticMount) (s : RouteState) : RouteState :=
  {| g_routes := g_routes s; g_cppRoutes := g_cppRoutes s; g_cppStreamRoutes := g_cppStreamRoutes s;
     g_staticMounts := l; g_rateLimitRules := g_rateLimitRules s;
     g_running := g_running s; g_everStarted := g_everStarted s; rt_precious := rt_precious s |}.
Definition set_rules (l : list RateLimitRule) (s : RouteState) : RouteState :=
  {| g_routes := g_routes s; g_cppRoutes := g_cppRoutes s; g_cppStreamRoutes := g_cppStreamRoutes s;
     g_staticMounts := g_staticMounts s; g_rateLimitRules := l;
     g_running := g_running s; g_everStarted := g_everStarted s; rt_precious := rt_precious s |}.
Definition set_flags (running ever : bool) (s : RouteState) : RouteState :=
  {| g_routes := g_routes s; g_cppRoutes := g_cppRoutes s; g_cppStreamRoutes := g_cppStreamRoutes s;
     g_staticMounts := g_staticMounts s; g_rateLimitRules := g_rateLimitRules s;
     g_running := running; g_everStarted := ever; rt_precious := rt_precious s |}.

Definition getRoute (id : Z) (s : RouteState) : option Route :=
  if (id <? 0) || (wrapI32 (Z.of_nat (length (g_routes s))) <=? id) then None
  else g_routes s !! Z.to_nat id.

Definition methodFromString (m : string) : HttpMethod :=
  if String.eqb m "GET" then Get
  else if String.eqb m "POST" then Post
  else if String.eqb m "PUT" then Put
  else if String.eqb m "DELETE" then Delete
  else if String.eqb m "PATCH" then Patch
  else if String.eqb m "HEAD" then Head
  else if String.eqb m "OPTIONS" then Options
  else Get.

(** ** Argument checks *)

Definition want_string {S} (x : SEXP) (msg : string) : M S charsxp :=
  match single_string x with Some c => mret c | None => raise msg end.
Definition want_strings {S} (x : SEXP) (msg : string) : M S (list charsxp) :=
  match x with STRSXP v _ => mret v | _ => raise msg end.
Definition want_extptr {S} (x : SEXP) (msg : string) : M S Z :=
  match x with EXTPTRSXP a => mret a | _ => raise msg end.

(** ** Registration *)

Definition drogonR_register_route (method_ path_ regex_ param_names_ handler_ : SEXP)
    : M RouteState SEXP :=
  st ← get;
  _ ← reject_if (g_running st)
        "dr_register_route: cannot register routes while the server is running. Stop it first with dr_stop().";
  method ← want_string method_ "method must be a single string";
  path ← want_string path_ "path must be a single string";
  regex ← want_string regex_ "regex must be a single string";
  names ← want_strings param_names_ "param_names must be a character vector";
  _ ← reject_if (negb (is_closure handler_)) "handler must be a function";
  let r := {| r_method := CHAR method; r_path := CHAR path; r_regex := CHAR regex;
              r_param_names := map CHAR names; r_handler := handler_ |} in
  let id := wrapI32 (Z.of_nat (length (g_routes st))) in
  _ ← modify (λ s, set_routes (g_routes s ++ [r]) (R_PreserveObject handler_ (rt_precious s)) s);
  mret (ScalarInteger id).

Definition drogonR_register_static (mount_ dir_ : SEXP) : M RouteState SEXP :=
  st ← get;
  _ ← reject_if (g_running st)
        "dr_register_static: cannot register mounts while the server is running. Stop it first with dr_stop().";
  mount ← want_string mount_ "mount must be a single string";
  dir ← want_string dir_ "dir must be a single string";
  _ ← modify (λ s, set_staticMounts (g_staticMounts s ++ [{| sm_mount := CHAR mount; sm_dir := CHAR dir |}]) s);
  mret R_NilValue.

(** [getCCallable pkg cal] is [R_GetCCallable]; 0 is NULL. *)
Definition drogonR_resolve_ccallable (getCCallable : string → string → Z) (package_ callable_ : SEXP)
    : M RouteState SEXP :=
  pkg ← want_string package_ "package must be a single string";
  cal ← want_string callable_ "callable must be a single string";
  let f := getCCallable (CHAR pkg) (CHAR cal) in
  _ ← reject_if (f =? 0)
        ("R_GetCCallable returned NULL for " +:+ CHAR pkg +:+ "::" +:+ CHAR cal +:+
         " (missing R_RegisterCCallable in the backend?)");
  mret (EXTPTRSXP f).

Definition drogonR_register_cpp_route (method_ path_ regex_ param_names_ ptr_ : SEXP) : M RouteState SEXP :=
  st ← get;
  _ ← reject_if (g_running st)
        "dr_register_cpp_route: cannot register routes while the server is running. Stop it first with dr_stop().";
  method ← want_string method_ "method must be a single string";
  path ← want_string path_ "path must be a single string";
  regex ← want_string regex_ "regex must be a single string";
  names ← want_strings param_names_ "param_names must be a character vector";
  raw ← want_extptr ptr_ "ptr must be an external pointer to a drogonr_unary_handler_t";
  _ ← reject_if (raw =? 0)
        "dr_register_cpp_route: external pointer is NULL (callable was not resolved before serve)";
  let cr := {| cr_method := CHAR method; cr_path := CHAR path; cr_regex := CHAR regex;
               cr_param_names := map CHAR names; cr_fn := raw |} in
  _ ← modify (λ s, set_cppRoutes (g_cppRoutes s ++ [cr]) s);
  mret R_NilValue.

Definition drogonR_register_cpp_stream_route
    (method_ path_ regex_ param_names_ ptr_ content_type_ : SEXP) : M RouteState SEXP :=
  st ← get;
  _ ← reject_if (g_running st)
        "dr_register_cpp_stream_route: cannot register routes while the server is running. Stop it first with dr_stop().";
  method ← want_string method_ "method must be a single string";
  path ← want_string path_ "path must be a single string";
  regex ← want_string regex_ "regex must be a single string";
  names ← want_strings param_names_ "param_names must be a character vector";
  raw ← want_extptr ptr_ "ptr must be an external pointer to a drogonr_stream_handler_t";
  ct ← want_string content_type_ "content_type must be a single string or NA";
  _ ← reject_if (raw =? 0)
        "dr_register_cpp_stream_route: external pointer is NULL (callable was not resolved before serve)";
  let cr := {| csr_method := CHAR method; csr_path := CHAR path; csr_regex := CHAR regex;
               csr_param_names := map CHAR names; csr_fn := raw;
               csr_content_type := match ct with Some s => s | None => EmptyString end |} in
  _ ← modify (λ s, set_cppStreamRoutes (g_cppStreamRoutes s ++ [cr]) s);
  mret R_NilValue.

(** [for (auto &r : g_routes) if (r.handler != R_NilValue) R_ReleaseObject(r.handler);] *)
Fixpoint release_handlers (rs : list Route) (p : list SEXP) : list SEXP :=
  match rs with
  | [] => p
  | r :: rs' => release_handlers rs' (if is_nil (r_handler r) then p else R_ReleaseObject (r_handler r) p)
  end.

Definition drogonR_clear_routes : M RouteState SEXP :=
  st ← get;
  _ ← reject_if (g_running st)
        "dr_clear_routes: cannot clear routes while the server is running. Stop it first with dr_stop().";
  _ ← modify (λ s, set_rules [] (set_staticMounts [] (set_cppStreamRoutes [] (set_cppRoutes []
                    (set_routes [] (release_handlers (g_routes s) (rt_precious s)) s)))));
  mret R_NilValue.

(** ** Rate-limit rules *)

Definition real_value (r : rreal) : double := match r with NA_REAL => S754_nan | Real d => d end.

Definition rule_error (i : Z) (rest : string) : string := "rules[[" +:+ print_int i +:+ "]]" +:+ rest.

Record rule_fields := {
  f_capacity : SEXP; f_window : SEXP; f_type : SEXP; f_scope : SEXP; f_routes : SEXP }.
Definition no_fields : rule_fields :=
  {| f_capacity := R_NilValue; f_window := R_NilValue; f_type := R_NilValue; f_scope := R_NilValue;
     f_routes := R_NilValue |}.

(** The loop over the names of one rule: the last field of a name wins. *)
Definition field_step (fs : rule_fields) (p : charsxp * SEXP) : rule_fields :=
  let '(n, val) := p in
  let nm := CHAR n in
  if String.eqb nm "capacity" then
    {| f_capacity := val; f_window := f_window fs; f_type := f_type fs; f_scope := f_scope fs; f_routes := f_routes fs |}
  else if String.eqb nm "window" then
    {| f_capacity := f_capacity fs; f_window := val; f_type := f_type fs; f_scope := f_scope fs; f_routes := f_routes fs |}
  else if String.eqb nm "type" then
    {| f_capacity := f_capacity fs; f_window := f_window fs; f_type := val; f_scope := f_scope fs; f_routes := f_routes fs |}
  else if String.eqb nm "scope" then
    {| f_capacity := f_capacity fs; f_window := f_window fs; f_type := f_type fs; f_scope := val; f_routes := f_routes fs |}
  else if String.eqb nm "routes" then
    {| f_capacity := f_capacity fs; f_window := f_window fs; f_type := f_type fs; f_scope := f_scope fs; f_routes := val |}
  else fs.

Definition limiter_type (s : string) : option RateLimiterType :=
  if String.eqb s "sliding_window" then Some kSlidingWindow
  else if String.eqb s "fixed_window" then Some kFixedWindow
  else if String.eqb s "token_bucket" then Some kTokenBucket
  else None.
Definition limiter_scope (s : string) : option bool :=
  if String.eqb s "global" then Some true else if String.eqb s "per_route" then Some false else None.

(** The body of the loop of [drogonR_register_rate_limits] for [rules[[i]]]; it
    touches no global. *)
Definition parse_rule `{Platform} (i : Z) (rule : SEXP) : M unit RateLimitRule :=
  match rule with
  | VECSXP v a =>
      match a_names a with
      | None => raise (rule_error i " must be a named list")
      | Some names =>
          let fs := fold_left field_step (zip names v) no_fields in
          _ ← reject_if (is_nil (f_capacity fs) || is_nil (f_window fs) || is_nil (f_type fs) || is_nil (f_scope fs))
                (rule_error i " missing required field (capacity/window/type/scope)");
          capacity ← match f_capacity fs with
                     | INTSXP [z] _ => mret z
                     | REALSXP [r] _ => mret (d_to_int (real_value r))
                     | _ => raise (rule_error i "$capacity must be a single number")
                     end;
          window ← match f_window fs with
                   | REALSXP [r] _ => mret (real_value r)
                   | _ => raise (rule_error i "$window must be a single numeric")
                   end;
          type ← want_string (f_type fs) (rule_error i "$type must be a single string");
          scope ← want_string (f_scope fs) (rule_error i "$scope must be a single string");
          ty ← match limiter_type (CHAR type) with
               | Some t => mret t
               | None => raise (rule_error i ("$type unknown: " +:+ CHAR type))
               end;
          gl ← match limiter_scope (CHAR scope) with
               | Some b => mret b
               | None => raise (rule_error i ("$scope unknown: " +:+ CHAR scope))
               end;
          routes ← match f_routes fs with
                   | R_NilValue => mret []
                   | STRSXP l _ => mret (map CHAR l)
                   | _ => raise (rule_error i "$routes must be NULL or a character vector")
                   end;
          mret {| rl_capacity := capacity; rl_window := window; rl_type := ty; rl_global_scope := gl;
                  rl_route_prefixes := routes; rl_shared_limiter := None |}
      end
  | _ => raise (rule_error i " must be a list")
  end.

Fixpoint rules_loop `{Platform} (i : Z) (rules : list SEXP) : M RouteState unit :=
  match rules with
  | [] => mret tt
  | rule :: rules' =>
      r ← lift (snd (parse_rule i rule tt));
      _ ← modify (λ s, set_rules (g_rateLimitRules s ++ [r]) s);
      rules_loop (i + 1) rules'
  end.

Definition drogonR_register_rate_limits `{Platform} (rules_ : SEXP) : M RouteState SEXP :=
  st ← get;
  _ ← reject_if (g_running st)
        "dr_register_rate_limits: cannot register rate limits while the server is running. Stop it first with dr_stop().";
  _ ← match rules_ with
      | R_NilValue | VECSXP _ _ => mret tt
      | _ => raise "rules must be a list or NULL"
      end;
  _ ← modify (set_rules []);
  match rules_ with
  | VECSXP v _ => _ ← rules_loop 1 v; mret R_NilValue
  | _ => mret R_NilValue
  end.

Definition drogonR_server_running : M RouteState SEXP :=
  st ← get; mret (ScalarLogical (g_running st)).

Definition drogonR_reset_fork_state : M RouteState SEXP :=
  _ ← modify (set_flags false false); mret R_NilValue.

(** ** The entry points as one interface *)

Inductive call :=
| RegisterRoute (method_ path_ regex_ param_names_ handler_ : SEXP)
| RegisterStatic (mount_ dir_ : SEXP)
| RegisterCpp (method_ path_ regex_ param_names_ ptr_ : SEXP)
| RegisterCppStream (method_ path_ regex_ param_names_ ptr_ content_type_ : SEXP)
| RegisterRateLimits (rules_ : SEXP)
| ClearRoutes
| ServerRunning.

Definition run_call `{Platform} (c : call) : M RouteState SEXP :=
  match c with
  | RegisterRoute a b c d e => drogonR_register_route a b c d e
  | RegisterStatic a b => drogonR_register_static a b
  | RegisterCpp a b c d e => drogonR_register_cpp_route a b c d e
  | RegisterCppStream a b c d e f => drogonR_register_cpp_stream_route a b c d e f
  | RegisterRateLimits a => drogonR_register_rate_limits a
  | ClearRoutes => drogonR_clear_routes
  | ServerRunning => drogonR_server_running
  end.

(** ** Lemmas *)

Lemma bind_want_string {S A} x msg (k : charsxp → M S A) (s : S) :
  (want_string x msg ≫= k) s =
    match single_string x with Some c => k c s | None => (s, Rf_error msg) end.
Proof. unfold want_string. by destruct (single_string x). Qed.
Lemma bind_want_strings {S A} x msg (k : list charsxp → M S A) (s : S) :
  (want_strings x msg ≫= k) s = match x with STRSXP v _ => k v s | _ => (s, Rf_error msg) end.
Proof. by destruct x. Qed.
Lemma bind_want_extptr {S A} x msg (k : Z → M S A) (s : S) :
  (want_extptr x msg ≫= k) s = match x with EXTPTRSXP a => k a s | _ => (s, Rf_error msg) end.
Proof. by destruct x. Qed.
#[export] Hint Rewrite @bind_want_string @bind_want_strings @bind_want_extptr : drogonR.

(** What the rule loop stores: the rules it could read, in order. *)
Lemma rules_loop_spec `{Platform} i rules s :
  let '(s', out) := rules_loop i rules s in
  ∃ parsed,
    s' = set_rules (g_rateLimitRules s ++ parsed) s ∧ (length parsed ≤ length rules)%nat ∧
    (∀ j r, parsed !! j = Some r → ∃ rule, rules !! j = Some rule ∧
        snd (parse_rule (i + Z.of_nat j) rule tt) = Ret r) ∧
    match out with
    | Ret _ => length parsed = length rules
    | Rf_error e => ∃ rule, rules !! length parsed = Some rule ∧
        snd (parse_rule (i + Z.of_nat (length parsed)) rule tt) = Rf_error e
    end.
Proof.
  revert i s. induction rules as [|rule rules IH]; intros i s; cbn [rules_loop].
  - exists []. cbn. rewrite app_nil_r. repeat split; try done. by destruct s.
  - rewrite bind_lift. destruct (snd (parse_rule i rule tt)) as [r|e] eqn:Ep.
    + rewrite bind_modify. set (s1 := set_rules _ s).
      specialize (IH (i + 1) s1). destruct (rules_loop (i + 1) rules s1) as [s' out].
      destruct IH as (parsed & -> & Hk & Hp & Hout).
      assert (Hidx : ∀ n, i + Z.of_nat (S n) = i + 1 + Z.of_nat n) by lia.
      exists (r :: parsed). split; [unfold s1, set_rules; cbn; by rewrite <- app_assoc|].
      split; [cbn; lia|]. split.
      * intros [|j] r' Hr'; cbn in Hr'; [|rewrite Hidx; by apply Hp].
        injection Hr' as <-. exists rule. by rewrite Z.add_0_r.
      * cbn [length]. rewrite Hidx. destruct out as [u|e]; [cbn; lia|]. exact Hout.
    + exists []. cbn. rewrite app_nil_r. repeat split; try done; [by destruct s|lia|].
      exists rule. split; [done|]. by rewrite Z.add_0_r.
Qed.

(** ** Theorems *)

(** Follow an entry point's guards in [H] to its last statement. *)
Ltac follow H :=
  repeat (autorewrite with drogonR in H; cbn beta iota in H;
          try match type of H with
              | context [match ?x with _ => _ end] => destruct x eqn:?
              end);
  try discriminate H.

Lemma run_call_cases `{Platform} c s s' out :
  run_call c s = (s', out) →
  s' = s ∨ (g_running s = false ∧ ((∃ r, c = RegisterRateLimits r) ∨ ∃ x, out = Ret x)).
Proof.
  intros Hc. destruct c; cbn in Hc.
  1: unfold drogonR_register_route in Hc.
  2: unfold drogonR_register_static in Hc.
  3: unfold drogonR_register_cpp_route in Hc.
  4: unfold drogonR_register_cpp_stream_route in Hc.
  5: unfold drogonR_register_rate_limits in Hc.
  6: unfold drogonR_clear_routes in Hc.
  7: by injection Hc as <- <-; left.
  all: rewrite bind_get, bind_reject in Hc; destruct (g_running s); [by injection Hc as <- <-; left|].
  5: right; split; [done|]; left; by eexists.
  all: follow Hc.
  all: try (by injection Hc as <- <-; left).
  all: right; split; [done|]; right; unfold mret, M_ret in Hc; injection Hc as <- <-; by eexists.
Qed.

(** Registration is all or nothing and closed while the server runs: an
    entry point other than [drogonR_register_rate_limits] that raises an error
    leaves every table as it was, and while the server runs no entry point
    changes anything. *)
Theorem registration_atomic `{Platform} c s s' out :
  run_call c s = (s', out) →
  (g_running s = true → s' = s) ∧
  ((∀ r, c ≠ RegisterRateLimits r) → (∃ e, out = Rf_error e) → s' = s).
Proof.
  intros Hc. pose proof (run_call_cases _ _ _ _ Hc) as Hgen. split.
  - intros Hr. destruct Hgen as [?|[? _]]; [done|congruence].
  - intros Hne [e He]. destruct Hgen as [?|[_ [[r Hr]|[x Hx]]]]; [done|by destruct (Hne r)|congruence].
Qed.

(** The route the arguments describe. *)
Definition route_of (method_ path_ regex_ param_names_ handler_ : SEXP) : option Route :=
  match method_, path_, regex_, param_names_ with
  | STRSXP [m] _, STRSXP [p] _, STRSXP [rx] _, STRSXP names _ =>
      Some {| r_method := CHAR m; r_path := CHAR p; r_regex := CHAR rx;
              r_param_names := map CHAR names; r_handler := handler_ |}
  | _, _, _, _ => None
  end.

Lemma single_string_inv x c : single_string x = Some c → ∃ a, x = STRSXP [c] a.
Proof. destruct x as [| | | |[|c' [|]] a| | | | |]; cbn; intros; simplify_eq. by eexists. Qed.

Lemma register_route_inv m p rx pn h s s' x :
  drogonR_register_route m p rx pn h s = (s', Ret x) →
  g_running s = false ∧ is_closure h = true ∧
  ∃ r, route_of m p rx pn h = Some r ∧ r_handler r = h ∧
    x = ScalarInteger (wrapI32 (Z.of_nat (length (g_routes s)))) ∧
    s' = set_routes (g_routes s ++ [r]) (R_PreserveObject h (rt_precious s)) s.
Proof.
  intros H. unfold drogonR_register_route in H. follow H.
  repeat match goal with Hs : single_string _ = Some _ |- _ => apply single_string_inv in Hs as [? ->] end.
  unfold mret, M_ret in H. injection H as <- <-. split; [done|]. split; [by bool_to_prop|].
  subst. eexists. repeat split.
Qed.

(** Register, then look up: the id that [drogonR_register_route] returns
    finds exactly the route its arguments describe, the handler is preserved
    from R's collector, and every id given out before still finds its route. *)
Theorem register_then_get m p rx pn h s s' x :
  Z.of_nat (length (g_routes s)) < INT_MAX →
  drogonR_register_route m p rx pn h s = (s', Ret x) →
  ∃ id r, x = ScalarInteger id ∧ route_of m p rx pn h = Some r ∧ getRoute id s' = Some r ∧
    rt_precious s' = h :: rt_precious s ∧ (∀ j q, getRoute j s = Some q → getRoute j s' = Some q).
Proof.
  intros Hlen Hr. apply register_route_inv in Hr as (_ & _ & r & Hr & _ & -> & ->).
  exists (Z.of_nat (length (g_routes s))), r. unfold getRoute. cbn [g_routes set_routes].
  assert (Hw : ∀ n : nat, Z.of_nat n ≤ INT_MAX → wrapI32 (Z.of_nat n) = Z.of_nat n)
    by (intros; apply wrapI32_small; unfold INT_MIN, INT_MAX in *; lia).
  rewrite length_app, Nat.add_1_r, !Hw by lia.
  split; [done|]. split; [done|]. split; [|split; [done|]].
  - replace (_ || _) with false by (symmetry; apply orb_false_iff; split; [apply Z.ltb_ge|apply Z.leb_gt]; lia).
    by rewrite Nat2Z.id, lookup_app_r, Nat.sub_diag.
  - intros j q. case_if; [done|]. bool_to_prop. intros Hq.
    replace (_ || _) with false by (symmetry; apply orb_false_iff; split; [apply Z.ltb_ge|apply Z.leb_gt]; lia).
    by apply lookup_app_l_Some.
Qed.

(** A session's calls in order; an error does not undo what came before. *)
Fixpoint run_calls `{Platform} (cs : list call) (s : RouteState) : RouteState :=
  match cs with [] => s | c :: cs' => run_calls cs' (fst (run_call c s)) end.

Definition routes_balanced (base : list SEXP) (s : RouteState) : Prop :=
  Forall (λ r, is_closure (r_handler r) = true) (g_routes s) ∧
  rt_precious s ≡ₚ base ++ map r_handler (g_routes s).

Lemma release_handlers_perm rs p base :
  Forall (λ r, is_closure (r_handler r) = true) rs →
  p ≡ₚ base ++ map r_handler rs → release_handlers rs p ≡ₚ base.
Proof.
  intros Hrs. revert p. induction Hrs as [|r rs Hr _ IH]; intros p Hp; cbn in *; [by rewrite app_nil_r in Hp|].
  destruct (is_nil (r_handler r)) eqn:En; [by destruct (r_handler r)|].
  apply IH. apply release_perm. rewrite Hp. solve_Permutation.
Qed.

Lemma run_call_balanced `{Platform} base c s :
  routes_balanced base s → routes_balanced base (fst (run_call c s)).
Proof.
  intros [Hcl Hp]. destruct (run_call c s) as [s' out] eqn:Hc. cbn [fst].
  destruct out as [x|e].
  - destruct c; cbn in Hc.
    + apply register_route_inv in Hc as (_ & Hh & r & _ & Hr & _ & ->).
      split; cbn; [apply Forall_app; split; [done|]; constructor; [by rewrite Hr|done]|].
      unfold R_PreserveObject. rewrite map_app. cbn. rewrite Hr, Hp. solve_Permutation.
    + unfold drogonR_register_static in Hc. follow Hc; injection Hc as <- _; by split.
    + unfold drogonR_register_cpp_route in Hc. follow Hc; injection Hc as <- _; by split.
    + unfold drogonR_register_cpp_stream_route in Hc. follow Hc; injection Hc as <- _; by split.
    + unfold drogonR_register_rate_limits in Hc. rewrite bind_get, bind_reject in Hc.
      destruct (g_running s); [done|]. destruct rules_; cbn in Hc; try done;
        try (by injection Hc as <- _).
      unfold mbind, M_bind in Hc. cbn in Hc.
      pose proof (rules_loop_spec 1 v (set_rules [] s)) as Hspec.
      destruct (rules_loop 1 v (set_rules [] s)) as [s1 [u|e]]; [|done].
      injection Hc as <- _. destruct Hspec as (parsed & -> & _). by split.
    + unfold drogonR_clear_routes in Hc. follow Hc. injection Hc as <- _.
      split; cbn; [constructor|]. rewrite app_nil_r. by apply release_handlers_perm.
    + by injection Hc as <- _.
  - destruct (run_call_cases _ _ _ _ Hc) as [->|[_ [[rules_ ->]|[x Hx]]]]; [done| |done].
    cbn in Hc. unfold drogonR_register_rate_limits in Hc. rewrite bind_get, bind_reject in Hc.
    destruct (g_running s); [by injection Hc as <- _|]. destruct rules_; cbn in Hc; try (by injection Hc as <- _).
    unfold mbind, M_bind in Hc. cbn in Hc.
    pose proof (rules_loop_spec 1 v (set_rules [] s)) as Hspec.
    destruct (rules_loop 1 v (set_rules [] s)) as [s1 [u|e']]; [done|].
    injection Hc as <- _. destruct Hspec as (parsed & -> & _). by split.
Qed.

(** Registration never touches the life-cycle flags. *)
Lemma run_call_flags `{Platform} c t :
  g_running (fst (run_call c t)) = g_running t ∧ g_everStarted (fst (run_call c t)) = g_everStarted t.
Proof.
  unfold run_call. destruct c; unfold drogonR_register_route, drogonR_register_static,
    drogonR_register_cpp_route, drogonR_register_cpp_stream_route, drogonR_clear_routes,
    drogonR_server_running, drogonR_register_rate_limits.
  5: { rewrite bind_get, bind_reject. destruct (g_running t) eqn:Ht; [by rewrite <- Ht at 2|].
       destruct rules_; try done. unfold mbind, M_bind. cbn.
       pose proof (rules_loop_spec 1 v (set_rules [] t)) as Hspec.
       destruct (rules_loop 1 v (set_rules [] t)) as [s1 [u|e]]; destruct Hspec as (? & -> & _); done. }
  all: repeat (autorewrite with drogonR; try case_match); try done.
Qed.

Lemma run_calls_balanced `{Platform} base cs s :
  routes_balanced base s → routes_balanced base (run_calls cs s).
Proof. revert s; induction cs as [|c cs IH]; intros s Hs; cbn; [done|]. apply IH. by apply run_call_balanced. Qed.

Definition routes_init (base : list SEXP) : RouteState :=
  {| g_routes := []; g_cppRoutes := []; g_cppStreamRoutes := []; g_staticMounts := [];
     g_rateLimitRules := []; g_running := false; g_everStarted := false; rt_precious := base |}.

(** Handlers are kept alive exactly as long as they are registered: after
    any sequence of registration calls, failed ones included, R's precious list
    is the initial one plus the handlers of the registered routes; clearing the
    routes gives the initial list back and empties every table. *)
Theorem handlers_preserved_while_registered `{Platform} base cs :
  let s := run_calls cs (routes_init base) in
  rt_precious s ≡ₚ base ++ map r_handler (g_routes s) ∧
  ∃ s', drogonR_clear_routes s = (s', Ret R_NilValue) ∧ rt_precious s' ≡ₚ base ∧
        g_routes s' = [] ∧ g_cppRoutes s' = [] ∧ g_cppStreamRoutes s' = [] ∧
        g_staticMounts s' = [] ∧ g_rateLimitRules s' = [].
Proof.
  intros s. assert (Hb : routes_balanced base s).
  { apply run_calls_balanced. split; cbn; [constructor|by rewrite app_nil_r]. }
  assert (Hrun : g_running s = false).
  { unfold s. assert (Hgen : ∀ t, g_running t = false → g_running (run_calls cs t) = false); [|by apply Hgen].
    clear. induction cs as [|c cs IH]; intros t Ht; cbn; [done|]. apply IH. by rewrite (proj1 (run_call_flags c t)). }
  split; [apply Hb|]. destruct Hb as [Hcl Hp]. unfold drogonR_clear_routes.
  rewrite bind_get, bind_reject, Hrun, bind_modify. eexists. split; [reflexivity|].
  split; [by apply release_handlers_perm|done].
Qed.

(** [drogonR_register_rate_limits] replaces the rule table rule by rule: on
    success the table holds one rule per list element, each the reading of its
    element; on an error at some element the old rules are gone and the table
    holds exactly the rules before that element. *)
Theorem register_rate_limits_spec `{Platform} s v a s' out :
  g_running s = false →
  drogonR_register_rate_limits (VECSXP v a) s = (s', out) →
  ∃ parsed, s' = set_rules parsed s ∧
    (∀ j r, parsed !! j = Some r → ∃ rule, v !! j = Some rule ∧
        snd (parse_rule (1 + Z.of_nat j) rule tt) = Ret r) ∧
    match out with
    | Ret x => x = R_NilValue ∧ length parsed = length v
    | Rf_error e => ∃ rule, v !! length parsed = Some rule ∧
        snd (parse_rule (1 + Z.of_nat (length parsed)) rule tt) = Rf_error e
    end.
Proof.
  intros Hr Hc. unfold drogonR_register_rate_limits in Hc. rewrite bind_get, bind_reject, Hr in Hc.
  unfold mbind, M_bind in Hc. cbn in Hc.
  pose proof (rules_loop_spec 1 v (set_rules [] s)) as Hspec.
  destruct (rules_loop 1 v (set_rules [] s)) as [s1 [u|e]]; injection Hc as <- <-;
    destruct Hspec as (parsed & -> & _ & Hp & Hout); exists parsed; (split; [done|]); split; done.
Qed.

(** ** Concrete calls *)

Definition sample_register : M RouteState SEXP :=
  drogonR_register_route (mkString "GET") (mkString "/u/{id}") (mkString "^/u/([^/]+)$")
    (STRSXP [Some "id"] no_attr) (CLOSXP 5).

Lemma register_then_get_witness :
  ∃ id r, ScalarInteger 0 = ScalarInteger id ∧
    route_of (mkString "GET") (mkString "/u/{id}") (mkString "^/u/([^/]+)$")
      (STRSXP [Some "id"] no_attr) (CLOSXP 5) = Some r ∧
    getRoute id (fst (sample_register (routes_init []))) = Some r ∧
    rt_precious (fst (sample_register (routes_init []))) = [CLOSXP 5] ∧
    (∀ j q, getRoute j (routes_init []) = Some q →
            getRoute j (fst (sample_register (routes_init []))) = Some q).
Proof.
  apply (register_then_get (mkString "GET") (mkString "/u/{id}") (mkString "^/u/([^/]+)$")
           (STRSXP [Some "id"] no_attr) (CLOSXP 5) (routes_init []));
    [vm_compute; reflexivity|vm_compute; reflexivity].
Defined.

Definition running_state : RouteState := set_flags true true (routes_init []).

Lemma registration_atomic_witness :
  (g_running running_state = true → running_state = running_state) ∧
  ((∀ r, ClearRoutes ≠ RegisterRateLimits r) →
   (∃ e, snd (@run_call x86_64 ClearRoutes running_state) = Rf_error e) → running_state = running_state).
Proof.
  apply (@registration_atomic x86_64 ClearRoutes running_state running_state
           (snd (@run_call x86_64 ClearRoutes running_state))). reflexivity.
Defined.

Definition good_rule : SEXP :=
  named_list [("capacity", ScalarInteger 10); ("window", ScalarReal d_one);
              ("type", mkString "fixed_window"); ("scope", mkString "global")].
Definition bad_rule : SEXP :=
  named_list [("capacity", ScalarInteger 10); ("window", ScalarReal d_one);
              ("type", mkString "leaky"); ("scope", mkString "global")].

Lemma register_rate_limits_spec_witness :
  let r := @drogonR_register_rate_limits x86_64 (VECSXP [good_rule; bad_rule] no_attr) (routes_init []) in
  snd r = Rf_error "rules[[2]]$type unknown: leaky" ∧
  ∃ parsed, fst r = set_rules parsed (routes_init []).
Proof.
  split; [vm_compute; reflexivity|].
  destruct (@register_rate_limits_spec x86_64 (routes_init []) [good_rule; bad_rule] no_attr
    (fst (@drogonR_register_rate_limits x86_64 (VECSXP [good_rule; bad_rule] no_attr) (routes_init [])))
    (snd (@drogonR_register_rate_limits x86_64 (VECSXP [good_rule; bad_rule] no_attr) (routes_init []))))
    as (parsed & Hp & _); [reflexivity|vm_compute; reflexivity|].
  exists parsed. exact Hp.
Defined.
