(* ===== verification/Dispatcher.v ===== *)
(** * The R-side dispatcher (src/r_dispatcher.cpp)

    Runs on the main R thread when the wake pipe becomes readable: it empties
    the pipe, takes the whole queue, calls the R handler of each request and
    answers through the request's response callback, or hands the callback to a
    streaming session.  What R code computes is an argument ([R_eval]); the two
    WebSocket drains at the end of a round are an interface ([WsPump]). *)

From stdpp Require Import base gmap strings list numbers.
From Stdlib Require Import ZArith Lia Ascii SpecFloat.
From S2P Require Import Prelude CDouble RValue RequestQueue HttpResponse ResponseStream.
From S2P Require Import StreamSession RateLimiter StaticFiles Routes.

(** ** Responses *)

Definition makeErrorResponse (reason : string) : HttpResponse :=
  setBody reason (setContentTypeCode CT_TEXT_PLAIN (setStatusCode 500 newHttpResponse)).

Record response_fields := { rf_status : SEXP; rf_body : SEXP; rf_headers : SEXP }.

(** The loop over the names of the returned list: the last of a name wins. *)
Definition response_field_step (fs : response_fields) (p : charsxp * SEXP) : response_fields :=
  let '(n, v) := p in
  if String.eqb (CHAR n) "status" then {| rf_status := v; rf_body := rf_body fs; rf_headers := rf_headers fs |}
  else if String.eqb (CHAR n) "body" then {| rf_status := rf_status fs; rf_body := v; rf_headers := rf_headers fs |}
  else if String.eqb (CHAR n) "headers" then {| rf_status := rf_status fs; rf_body := rf_body fs; rf_headers := v |}
  else fs.

(** [INTEGER(s_status)[0]] or [(int) REAL(s_status)[0]].  The code reads element
    0 without looking at the length: on an empty vector it reads past the end,
    and [junk] is what it finds there. *)
Definition status_code `{Platform} (junk : Z) (x : SEXP) : Z :=
  match x with
  | INTSXP (z :: _) _ => z
  | INTSXP [] _ => junk
  | REALSXP (r :: _) _ => d_to_int (real_value r)
  | REALSXP [] _ => junk
  | _ => 0
  end.

Definition apply_status `{Platform} (junk : Z) (x : SEXP) (resp : HttpResponse) : HttpResponse :=
  if is_nil x then resp else
  let code := status_code junk x in
  if (100 <=? code) && (code <=? 599) then setStatusCode code resp else resp.

Definition apply_body (x : SEXP) (resp : HttpResponse) : HttpResponse :=
  match x with
  | STRSXP (c :: _) _ => setBody (CHAR c) resp
  | RAWSXP b _ => setBody b resp
  | _ => resp
  end.

Definition header_step (resp : HttpResponse) (p : charsxp * SEXP) : HttpResponse :=
  match p with
  | (hname, STRSXP (hval :: _) _) =>
      if strcaseeq (CHAR hname) "Content-Type" then setContentTypeString (CHAR hval) resp
      else addHeader (CHAR hname) (CHAR hval) resp
  | _ => resp
  end.

Definition apply_headers (x : SEXP) (resp : HttpResponse) : HttpResponse :=
  match x with
  | VECSXP v a =>
      match a_names a with
      | Some hnames => fold_left header_step (zip hnames v) resp
      | None => resp
      end
  | _ => resp
  end.

Definition buildResponse `{Platform} (junk : Z) (r_value : SEXP) : HttpResponse :=
  let resp := setStatusCode 200 newHttpResponse in
  match r_value with
  | STRSXP [c] _ => setContentTypeCode CT_TEXT_PLAIN (setBody (CHAR c) resp)
  | VECSXP v a =>
      match a_names a with
      | None => makeErrorResponse "R handler returned an unnamed list"
      | Some names =>
          let fs := fold_left response_field_step (zip names v)
                      {| rf_status := R_NilValue; rf_body := R_NilValue; rf_headers := R_NilValue |} in
          apply_headers (rf_headers fs) (apply_body (rf_body fs) (apply_status junk (rf_status fs) resp))
      end
  | _ => makeErrorResponse "R handler returned an unsupported value"
  end.

(** ** The request list handed to the handler *)

(** A character vector with names, built with [Rf_mkChar(s.c_str())]. *)
Definition named_strings (l : list (string * string)) : SEXP :=
  STRSXP (map (λ p, Some (c_str (snd p))) l) (Rattr (Some (map (λ p, Some (c_str (fst p))) l)) None).

Definition buildRequestList (pr : PendingRequest) (rs : RouteState) : SEXP :=
  let names := match getRoute (pr_route_id pr) rs with Some r => r_param_names r | None => [] end in
  VECSXP [mkString (pr_method pr); mkString (pr_path pr); mkString (pr_body pr);
          named_strings (pr_headers pr); named_strings (pr_queries pr);
          named_strings (zip names (pr_path_params pr))]
    (Rattr (Some [Some "method"; Some "path"; Some "body"; Some "headers"; Some "query"; Some "params"])
           (Some [Some "drogon_request"])).

Definition isDrogonStream (value : SEXP) : bool :=
  match value with
  | VECSXP _ a => match a_class a with
                  | Some cls => existsb (λ c, String.eqb (CHAR c) "drogon_stream") cls
                  | None => false
                  end
  | _ => false
  end.

Fixpoint stream_headers_loop (nms : list charsxp) (v : list SEXP) : list StreamHeader :=
  match nms, v with
  | n :: nms', STRSXP (c :: _) _ :: v' =>
      {| h_name := CHAR n; h_value := CHAR c |} :: stream_headers_loop nms' v'
  | _ :: nms', _ :: v' => stream_headers_loop nms' v'
  | _, _ => []
  end.

Definition parseStreamHeaders (s_headers : SEXP) : list StreamHeader :=
  match s_headers with
  | VECSXP v a => match a_names a with Some nms => stream_headers_loop nms v | None => [] end
  | _ => []
  end.

Definition stream_content_type (s_ct : SEXP) : string :=
  match s_ct with STRSXP (c :: _) _ => CHAR c | _ => "text/event-stream" end.

Definition stream_min_interval (s_int : SEXP) : double :=
  match s_int with
  | REALSXP (r :: _) _ => real_value r
  | INTSXP (z :: _) _ => d_of_Z z
  | _ => d_zero
  end.

(** ** Calling R *)

(** What [R_tryEval] gives for a handler call and for [geterrmessage()];
    [None] when it raised.  The index is the request's place in the round, so
    that handlers may behave differently from call to call. *)
Record R_eval := {
  eval_handler : nat → SEXP → SEXP → option SEXP;
  eval_geterrmessage : nat → option SEXP;
}.

Definition error_body (gres : option SEXP) : string :=
  "R handler error: " +:+
  match gres with
  | Some (STRSXP (c :: _) _) => CHAR c
  | _ => "(unknown error)"
  end.

(** What the dispatcher decides for one request: a response of its own, or a
    stream to start. *)
Inductive verdict :=
| Respond (resp : HttpResponse)
| Stream (next_chunk state : SEXP) (content_type : string) (headers : list StreamHeader) (min_interval : double).

Definition decide_request `{Platform} (R : R_eval) (junk : Z) (i : nat) (rs : RouteState) (pr : PendingRequest) : verdict :=
  let handler := match getRoute (pr_route_id pr) rs with Some r => r_handler r | None => R_NilValue end in
  if negb (is_closure handler) then Respond (makeErrorResponse "no handler registered for this route") else
  match eval_handler R i handler (buildRequestList pr rs) with
  | None => Respond (makeErrorResponse (error_body (eval_geterrmessage R i)))
  | Some res =>
      if isDrogonStream res then
        let s_next := namedField res "next_chunk" in
        if negb (is_closure s_next) then
          Respond (makeErrorResponse "drogon_stream: next_chunk is not a function")
        else Stream s_next (namedField res "state") (stream_content_type (namedField res "content_type"))
               (parseStreamHeaders (namedField res "headers"))
               (stream_min_interval (namedField res "min_interval"))
      else Respond (buildResponse junk res)
  end.

(** A string between double quotes. *)
Definition dquote (s : string) : string := String (chr 34) (s +:+ String (chr 34) EmptyString).

(** ** The dispatcher's state *)

(** What the dispatcher calls on the WebSocket components after the queue. *)
Class WsPump (WS : Type) := { drainWsEvents : WS → WS; drainWsClientEvents : WS → WS }.

Record DispWorld (WS : Type) := {
  dw_q : QueueState;
  dw_k : Kernel;
  dw_routes : RouteState;
  dw_streams : StreamWorld;
  dw_ws : WS;
  g_dispatcherFd : Z;
  g_later_fd : bool;         (** [g_later_fd != NULL] *)
  armed : list Z;            (** descriptors later waits on for [runDispatcher] *)
}.
Arguments dw_q {WS} _. Arguments dw_k {WS} _. Arguments dw_routes {WS} _. Arguments dw_streams {WS} _.
Arguments dw_ws {WS} _. Arguments g_dispatcherFd {WS} _. Arguments g_later_fd {WS} _. Arguments armed {WS} _.
Arguments Build_DispWorld {WS} _ _ _ _ _ _ _ _.

Section Dispatcher.
Context {WS : Type} `{!WsPump WS} `{Platform}.

Abbreviation W := (DispWorld WS).

Definition set_streams (sw : StreamWorld) (w : W) : W :=
  {| dw_q := dw_q w; dw_k := dw_k w; dw_routes := dw_routes w; dw_streams := sw; dw_ws := dw_ws w;
     g_dispatcherFd := g_dispatcherFd w; g_later_fd := g_later_fd w; armed := armed w |}.
Definition set_queue (q : QueueState) (k : Kernel) (w : W) : W :=
  {| dw_q := q; dw_k := k; dw_routes := dw_routes w; dw_streams := dw_streams w; dw_ws := dw_ws w;
     g_dispatcherFd := g_dispatcherFd w; g_later_fd := g_later_fd w; armed := armed w |}.
Definition set_ws (ws : WS) (w : W) : W :=
  {| dw_q := dw_q w; dw_k := dw_k w; dw_routes := dw_routes w; dw_streams := dw_streams w; dw_ws := ws;
     g_dispatcherFd := g_dispatcherFd w; g_later_fd := g_later_fd w; armed := armed w |}.
Definition set_fd (fd : Z) (l : list Z) (w : W) : W :=
  {| dw_q := dw_q w; dw_k := dw_k w; dw_routes := dw_routes w; dw_streams := dw_streams w; dw_ws := dw_ws w;
     g_dispatcherFd := fd; g_later_fd := g_later_fd w; armed := l |}.

Definition requireLaterInitialized : M W unit :=
  w ← get; reject_if (negb (g_later_fd w)) "drogonR not initialized — call library(drogonR)".

Definition registerDispatcherFd (readFd : Z) : M W unit :=
  _ ← requireLaterInitialized;
  modify (λ w, set_fd readFd (armed w ++ [readFd]) w).

Definition unregisterDispatcherFd (w : W) : W := set_fd (-1) (armed w) w.

(** One request of the round.  [alive] says whether the request's weak
    pointer to its connection still locks. *)
Definition dispatch_one (R : R_eval) (junk : Z) (alive : option positive → bool) (i : nat)
    (pr : PendingRequest) (w : W) : W :=
  match decide_request R junk i (dw_routes w) pr with
  | Respond resp =>
      set_streams (set_responded (responded (dw_streams w) ++ [(pr_respond pr, resp)]) (dw_streams w)) w
  | Stream nc st ct hs mi =>
      set_streams (startStreamSession (pr_respond pr) nc st ct hs (alive (pr_connection pr)) mi (dw_streams w)) w
  end.

Fixpoint dispatch_loop (R : R_eval) (junk : Z) (alive : option positive → bool) (i : nat)
    (items : list PendingRequest) (w : W) : W :=
  match items with
  | [] => w
  | pr :: items' => dispatch_loop R junk alive (S i) items' (dispatch_one R junk alive i pr w)
  end.

(** later runs the callback once it is no longer waiting, so the caller
    removes the descriptor from [armed] first.  [fuel] bounds the reads of
    [drainWakePipe]; [None] when it runs out. *)
Definition runDispatcher (R : R_eval) (junk : Z) (alive : option positive → bool) (fuel : nat)
    (w : W) : option W :=
  if g_dispatcherFd w <? 0 then Some w else
  k ← drainWakePipe fuel (dw_q w) (dw_k w);
  let '(items, q) := drainQueue (dw_q w) in
  let w := dispatch_loop R junk alive 0 items (set_queue q k w) in
  let w := set_ws (drainWsEvents (dw_ws w)) w in
  let w := set_ws (drainWsClientEvents (dw_ws w)) w in
  Some (set_fd (g_dispatcherFd w) (armed w ++ [g_dispatcherFd w]) w).

(** [getCCallable] as in [drogonR_resolve_ccallable]; 0 is NULL. *)
Definition set_later_fns (fd_fn : bool) (l_fn : bool) (w : W) : W :=
  let sw := dw_streams w in
  {| dw_q := dw_q w; dw_k := dw_k w; dw_routes := dw_routes w;
     dw_streams := {| heap := heap sw; g_streams := g_streams sw; g_nextStreamId := g_nextStreamId sw;
                      g_later := l_fn; later_q := later_q sw; precious := precious sw;
                      responded := responded sw |};
     dw_ws := dw_ws w; g_dispatcherFd := g_dispatcherFd w; g_later_fd := fd_fn; armed := armed w |}.

Definition drogonR_init_later (getCCallable : string → string → Z) : M W SEXP :=
  w ← get;
  if g_later_fd w && g_later (dw_streams w) then mret R_NilValue else
  _ ← reject_if (getCCallable "later" "execLaterFdNative" =? 0)
        ("R_GetCCallable(" +:+ dquote "later" +:+ ", " +:+ dquote "execLaterFdNative" +:+ ") returned NULL");
  _ ← modify (λ w, set_later_fns true (g_later (dw_streams w)) w);
  _ ← reject_if (getCCallable "later" "execLaterNative2" =? 0)
        ("R_GetCCallable(" +:+ dquote "later" +:+ ", " +:+ dquote "execLaterNative2" +:+ ") returned NULL");
  _ ← modify (λ w, set_later_fns true true w);
  mret R_NilValue.
End Dispatcher.

(** ** Lemmas *)

Definition status_ok (r : HttpResponse) : Prop := 100 ≤ statusCode_ r ≤ 599.

Lemma header_step_status r p : statusCode_ (header_step r p) = statusCode_ r.
Proof. destruct p as [n []]; try done. destruct v; [done|]. cbn. by case_if. Qed.

Lemma apply_headers_status x r : statusCode_ (apply_headers x r) = statusCode_ r.
Proof.
  destruct x; try done. cbn. destruct (a_names at_) as [hn|]; [|done].
  generalize (zip hn v) as l. intros l. revert r. induction l as [|p l IH]; intros r; cbn; [done|].
  by rewrite IH, header_step_status.
Qed.

Lemma apply_body_status x r : statusCode_ (apply_body x r) = statusCode_ r.
Proof. destruct x; try done. by destruct v. Qed.

Lemma apply_status_ok `{Platform} junk x r : status_ok r → status_ok (apply_status junk x r).
Proof. intros Hr. unfold apply_status. case_if; [done|]. case_if; [|done]. bool_to_prop. done. Qed.

Lemma error_status m : status_ok (makeErrorResponse m).
Proof. unfold status_ok. cbn. lia. Qed.

Lemma buildResponse_status `{Platform} junk x : status_ok (buildResponse junk x).
Proof.
  unfold buildResponse. destruct x; try apply error_status.
  - destruct v as [|c [|]]; try apply error_status. unfold status_ok. cbn. lia.
  - destruct (a_names at_); [|apply error_status]. unfold status_ok.
    rewrite apply_headers_status, apply_body_status. apply apply_status_ok. unfold status_ok. cbn. lia.
Qed.

Lemma buildResponse_plain `{Platform} junk x : asyncStreamCallback_ (buildResponse junk x) = false.
Proof.
  assert (Hh : ∀ l r, asyncStreamCallback_ (fold_left header_step l r) = asyncStreamCallback_ r).
  { induction l as [|[n y] l IH]; intros r; cbn; [done|]. rewrite IH. destruct y; try done.
    destruct v; [done|]. by case_if. }
  unfold buildResponse. destruct x; try done; [by destruct v as [|c [|]]|].
  destruct (a_names at_); [|done]. set (fs := fold_left _ _ _).
  assert (Hb : ∀ y r, asyncStreamCallback_ (apply_body y r) = asyncStreamCallback_ r)
    by (intros y r; destruct y; try done; by destruct v0).
  assert (Hs : ∀ y r, asyncStreamCallback_ (apply_status junk y r) = asyncStreamCallback_ r)
    by (intros y r; unfold apply_status; repeat case_if; done).
  destruct (rf_headers fs); cbn [apply_headers]; rewrite ?Hb, ?Hs; try done.
  destruct (a_names at_0); rewrite ?Hh, ?Hb, ?Hs; done.
Qed.

Section Lemmas.
Context {WS : Type} `{!WsPump WS} `{Platform}.
Implicit Types w : DispWorld WS.

Lemma start_responded respond nc st ct hs alive mi sw :
  responded (startStreamSession respond nc st ct hs alive mi sw) =
    responded sw ++ [(respond, stream_response ct hs)].
Proof. unfold startStreamSession, scheduleNextPump. by case_if. Qed.

(** The response a request is answered with. *)
Definition response_of (R : R_eval) (junk : Z) (i : nat) (rs : RouteState) (pr : PendingRequest) : HttpResponse :=
  match decide_request R junk i rs pr with
  | Respond resp => resp
  | Stream _ _ ct hs _ => stream_response ct hs
  end.

Fixpoint responses_of (R : R_eval) (junk : Z) (i : nat) (rs : RouteState) (items : list PendingRequest)
    : list (positive * HttpResponse) :=
  match items with
  | [] => []
  | pr :: items' => (pr_respond pr, response_of R junk i rs pr) :: responses_of R junk (S i) rs items'
  end.

Lemma responses_of_callbacks R junk i rs items :
  map fst (responses_of R junk i rs items) = map pr_respond items.
Proof. revert i; induction items; intros i; cbn; [done|]. by rewrite IHitems. Qed.

Lemma dispatch_one_spec R junk alive i pr w :
  let w' := dispatch_one R junk alive i pr w in
  dw_q w' = dw_q w ∧ dw_k w' = dw_k w ∧ dw_routes w' = dw_routes w ∧ dw_ws w' = dw_ws w ∧
  g_dispatcherFd w' = g_dispatcherFd w ∧ armed w' = armed w ∧
  responded (dw_streams w') =
    responded (dw_streams w) ++ [(pr_respond pr, response_of R junk i (dw_routes w) pr)].
Proof.
  unfold dispatch_one, response_of. destruct (decide_request _ _ _ _ _); cbn; [done|].
  rewrite start_responded. done.
Qed.

Lemma dispatch_loop_spec R junk alive i items w :
  let w' := dispatch_loop R junk alive i items w in
  dw_q w' = dw_q w ∧ dw_k w' = dw_k w ∧ dw_routes w' = dw_routes w ∧ dw_ws w' = dw_ws w ∧
  g_dispatcherFd w' = g_dispatcherFd w ∧ armed w' = armed w ∧
  responded (dw_streams w') =
    responded (dw_streams w) ++ responses_of R junk i (dw_routes w) items.
Proof.
  revert i w. induction items as [|pr items IH]; intros i w; cbn [dispatch_loop responses_of].
  { by rewrite app_nil_r. }
  destruct (dispatch_one_spec R junk alive i pr w) as (H1 & H2 & H3 & H4 & H5 & H6 & H7).
  destruct (IH (S i) (dispatch_one R junk alive i pr w)) as (G1 & G2 & G3 & G4 & G5 & G6 & G7).
  cbn in *. rewrite G1, G2, G3, G4, G5, G6, G7, H1, H2, H3, H4, H5, H6, H7. by rewrite <- app_assoc.
Qed.
End Lemmas.

(** ** Theorems *)

(** C4. Every queued request is answered exactly once: a dispatcher round
    terminates, empties the wake pipe and the queue, calls the response
    callback of each request that was queued exactly once and in queue order,
    whatever the R handlers return or raise, and waits on the pipe again. *)
Theorem dispatcher_answers_each_once {WS} `{!WsPump WS} `{Platform} R junk alive fuel (w : DispWorld WS) n :
  0 ≤ g_dispatcherFd w → 0 ≤ g_wakeReadFd (dw_q w) →
  k_bytes (dw_k w) !! g_wakeReadFd (dw_q w) = Some n → 0 ≤ n < Z.of_nat fuel →
  ∃ w', runDispatcher R junk alive fuel w = Some w' ∧
    map fst (responded (dw_streams w')) =
      map fst (responded (dw_streams w)) ++ map pr_respond (g_queue (dw_q w)) ∧
    g_queue (dw_q w') = [] ∧ k_bytes (dw_k w') !! g_wakeReadFd (dw_q w') = Some 0 ∧
    armed w' = armed w ++ [g_dispatcherFd w] ∧
    dw_ws w' = drainWsClientEvents (drainWsEvents (dw_ws w)).
Proof.
  intros Hfd Hr Hk Hn. unfold runDispatcher. replace (g_dispatcherFd w <? 0) with false by lia.
  unfold drainWakePipe, drainWakeBytes. replace (g_wakeReadFd (dw_q w) <? 0) with false by lia.
  destruct (drain_loop_empty fuel _ _ n Hk Hn) as (k' & -> & Hk' & _). cbn [mbind option_bind drainQueue].
  set (w1 := set_queue _ k' w).
  destruct (dispatch_loop_spec R junk alive 0 (g_queue (dw_q w)) w1) as (H1 & H2 & H3 & H4 & H5 & H6 & H7).
  eexists. split; [reflexivity|]. cbn. rewrite H7, H1, H2, H4, H5, H6, map_app, responses_of_callbacks. done.
Qed.

(** A response the dispatcher builds is always sendable: whatever the R
    handler returns (and whatever an out-of-bounds status read finds), its
    status code lies in 100..599; a streamed answer has status 200 and carries
    the stream callback, every other answer carries none. *)
Theorem response_well_formed `{Platform} R junk i rs pr :
  match decide_request R junk i rs pr with
  | Respond resp => status_ok resp ∧ asyncStreamCallback_ resp = false
  | Stream nc _ ct hs _ =>
      is_closure nc = true ∧ statusCode_ (stream_response ct hs) = 200 ∧
      asyncStreamCallback_ (stream_response ct hs) = true
  end.
Proof.
  assert (He : ∀ m, status_ok (makeErrorResponse m) ∧ asyncStreamCallback_ (makeErrorResponse m) = false).
  { intros m. split; [apply error_status|done]. }
  unfold decide_request. set (h := match getRoute _ _ with Some _ => _ | None => _ end).
  destruct (is_closure h); cbn [negb]; [|apply He].
  destruct (eval_handler R i h _) as [res|]; [|apply He].
  destruct (isDrogonStream res); [|split; [apply buildResponse_status|apply buildResponse_plain]].
  destruct (is_closure (namedField res "next_chunk")) eqn:Ec; cbn [negb]; [|apply He].
  split; [done|]. unfold stream_response.
  assert (Hh : ∀ l r, statusCode_ (fold_left stream_header_step l r) = statusCode_ r ∧
                      asyncStreamCallback_ (fold_left stream_header_step l r) = asyncStreamCallback_ r).
  { induction l as [|h' l IH]; intros r; cbn; [done|]. destruct (IH (stream_header_step r h')) as [-> ->].
    unfold stream_header_step. by case_if. }
  destruct (Hh (parseStreamHeaders (namedField res "headers"))
     (setContentTypeString (stream_content_type (namedField res "content_type")) (setStatusCode 200 newAsyncStreamResponse)))
    as [-> ->]. done.
Qed.


(** *** The request list *)

Definition read_named_strings (x : SEXP) : option (list (string * string)) :=
  match x with
  | STRSXP v a => match a_names a with
                  | Some ns => Some (zip (map CHAR ns) (map CHAR v))
                  | None => None
                  end
  | _ => None
  end.

Definition pairs_nul_free (l : list (string * string)) : Prop :=
  Forall (λ p, has_nul (fst p) = false ∧ has_nul (snd p) = false) l.

Lemma named_strings_roundtrip l : pairs_nul_free l → read_named_strings (named_strings l) = Some l.
Proof.
  intros Hl. cbn. f_equal. induction Hl as [|[a b] l [Ha Hb] _ IH]; cbn in *; [done|].
  rewrite !c_str_id by done. by rewrite IH.
Qed.

(** The handler sees the request: of a request without NUL bytes, every
    field of the list passed to the R handler reads back as the snapshot taken
    on the I/O thread; path parameters are paired by position with the route's
    parameter names, and the list has the class the R accessors expect. *)
Theorem request_list_roundtrip pr rs r :
  getRoute (pr_route_id pr) rs = Some r →
  has_nul (pr_method pr) = false → has_nul (pr_path pr) = false → has_nul (pr_body pr) = false →
  pairs_nul_free (pr_headers pr) → pairs_nul_free (pr_queries pr) →
  pairs_nul_free (zip (r_param_names r) (pr_path_params pr)) →
  let l := buildRequestList pr rs in
  namedField l "method" = STRSXP [Some (pr_method pr)] no_attr ∧
  namedField l "path" = STRSXP [Some (pr_path pr)] no_attr ∧
  namedField l "body" = STRSXP [Some (pr_body pr)] no_attr ∧
  read_named_strings (namedField l "headers") = Some (pr_headers pr) ∧
  read_named_strings (namedField l "query") = Some (pr_queries pr) ∧
  read_named_strings (namedField l "params") = Some (zip (r_param_names r) (pr_path_params pr)) ∧
  getClass l = Some [Some "drogon_request"].
Proof.
  intros Hr Hm Hp Hb Hh Hq Hps l. unfold l, buildRequestList. rewrite Hr. cbn -[named_strings read_named_strings].
  unfold mkString. rewrite !c_str_id by done. rewrite !named_strings_roundtrip by done. done.
Qed.

(** ** A concrete round: two requests, one handled and one for a missing route *)

Definition no_ws : WsPump unit := {| drainWsEvents := λ u, u; drainWsClientEvents := λ u, u |}.

Definition sample_request (cb : positive) (route : Z) : PendingRequest :=
  {| pr_method := "GET"; pr_path := "/u/7"; pr_body := ""; pr_headers := [("host", "x")];
     pr_queries := []; pr_path_params := ["7"]; pr_respond := cb; pr_connection := None;
     pr_route_id := route |}.

Definition sample_routes : RouteState := fst (sample_register (routes_init [])).

Definition sample_world : DispWorld unit :=
  {| dw_q := with_queue [sample_request 1 0; sample_request 2 9] sample_queue; dw_k := sample_kernel;
     dw_routes := sample_routes; dw_streams := init []; dw_ws := tt; g_dispatcherFd := 5;
     g_later_fd := true; armed := [] |}.

Definition sample_R : R_eval :=
  {| eval_handler := λ _ _ _, Some (mkString "hello"); eval_geterrmessage := λ _, None |}.

Lemma dispatcher_answers_each_once_witness :
  ∃ w', @runDispatcher unit no_ws x86_64 sample_R 0 (λ _, true) 131 sample_world = Some w' ∧
    map fst (responded (dw_streams w')) =
      map fst (responded (dw_streams sample_world)) ++ map pr_respond (g_queue (dw_q sample_world)) ∧
    g_queue (dw_q w') = [] ∧ k_bytes (dw_k w') !! g_wakeReadFd (dw_q w') = Some 0 ∧
    armed w' = armed sample_world ++ [g_dispatcherFd sample_world] ∧
    dw_ws w' = tt.
Proof.
  apply (@dispatcher_answers_each_once unit no_ws x86_64 sample_R 0 (λ _, true) 131 sample_world 130);
    [vm_compute; discriminate|vm_compute; discriminate|reflexivity|lia].
Defined.

Lemma request_list_roundtrip_witness :
  ∃ r, getRoute 0 sample_routes = Some r ∧
  read_named_strings (namedField (buildRequestList (sample_request 1 0) sample_routes) "params") =
    Some (zip (r_param_names r) ["7"]).
Proof.
  eexists. split; [vm_compute; reflexivity|].
  edestruct (request_list_roundtrip (sample_request 1 0) sample_routes) as (_ & _ & _ & _ & _ & Hp & _);
    [vm_compute; reflexivity|reflexivity|reflexivity|reflexivity|repeat constructor|constructor|
     repeat constructor|].
  exact Hp.
Defined.
