(* ===== verification/TaskQueue.v ===== *)
(** * The worker pool of native handlers
      (src/drogon/trantor/utils/ConcurrentTaskQueue.cc)

    Threads that take tasks from one queue guarded by [taskMutex_] and
    [taskCond_].  A worker is a small program counter; the steps are the
    atomic actions of [queueFunc], [runTaskInQueue] and [stop].  Only a worker
    between testing its wait condition and blocking in [taskCond_.wait] holds
    the mutex across steps.  Tasks are identities. *)

From stdpp Require Import base gmap strings list numbers.
From Stdlib Require Import ZArith Lia.
From S2P Require Import Prelude.

Abbreviation task := nat.

(** Where a worker is in [queueFunc]. *)
Inductive worker :=
| Loop                (** at [while (!stop_)] *)
| Locking             (** about to lock [taskMutex_] *)
| Checked             (** holds the mutex, found [!stop_] and an empty queue *)
| Blocked             (** in [taskCond_.wait] *)
| Woken               (** notified, re-acquiring the mutex *)
| Running (t : task)  (** executing [r()] *)
| Exited.

(** Where [stop()] is: not called, [stop_] set, joining, returned. *)
Inductive stopper := NotCalled | FlagSet | Joining | Stopped.

Record Pool := {
  taskQueue_ : list task;
  workers : list worker;
  stop_ : bool;
  stopping : stopper;
  submitted : list task;   (** every task pushed, in order *)
  started : list task;     (** every task taken by a worker, in order *)
  executed : list task;    (** every task that has returned *)
}.

Definition pool_init (threadNum : nat) : Pool :=
  {| taskQueue_ := []; workers := repeat Loop threadNum; stop_ := false; stopping := NotCalled;
     submitted := []; started := []; executed := [] |}.

Definition mutex_free (p : Pool) : Prop := Checked ∉ workers p.

Definition set_worker (i : nat) (w : worker) (p : Pool) : Pool :=
  {| taskQueue_ := taskQueue_ p; workers := <[i := w]> (workers p); stop_ := stop_ p;
     stopping := stopping p; submitted := submitted p; started := started p; executed := executed p |}.

(** With the mutex held: [while (!stop_ && taskQueue_.size() == 0) wait;] then
    take the front, or go back to the loop when there is none. *)
Definition take_or_wait (i : nat) (p : Pool) : Pool :=
  match taskQueue_ p with
  | [] => if stop_ p then set_worker i Loop p else set_worker i Checked p
  | t :: q =>
      {| taskQueue_ := q; workers := <[i := Running t]> (workers p); stop_ := stop_ p;
         stopping := stopping p; submitted := submitted p; started := started p ++ [t];
         executed := executed p |}
  end.

Definition finish (i : nat) (t : task) (p : Pool) : Pool :=
  {| taskQueue_ := taskQueue_ p; workers := <[i := Loop]> (workers p); stop_ := stop_ p;
     stopping := stopping p; submitted := submitted p; started := started p;
     executed := executed p ++ [t] |}.

Definition wake_all (ws : list worker) : list worker :=
  map (λ w, match w with Blocked => Woken | _ => w end) ws.

(** [runTaskInQueue]'s critical section, before its notification. *)
Definition runTaskInQueue (t : task) (p : Pool) : Pool :=
  {| taskQueue_ := taskQueue_ p ++ [t]; workers := workers p; stop_ := stop_ p;
     stopping := stopping p; submitted := submitted p ++ [t]; started := started p;
     executed := executed p |}.

Definition set_stop (b : bool) (s : stopper) (ws : list worker) (p : Pool) : Pool :=
  {| taskQueue_ := taskQueue_ p; workers := ws; stop_ := b; stopping := s;
     submitted := submitted p; started := started p; executed := executed p |}.

(** A producer pushes and notifies at most one blocked worker. *)
Inductive push_step : Pool → Pool → Prop :=
| push_wake t i p : mutex_free p → workers p !! i = Some Blocked →
    push_step p (set_worker i Woken (runTaskInQueue t p))
| push_nobody t p : mutex_free p → Blocked ∉ workers p → push_step p (runTaskInQueue t p).

Inductive pool_step : Pool → Pool → Prop :=
| ps_exit i p : workers p !! i = Some Loop → stop_ p = true → pool_step p (set_worker i Exited p)
| ps_enter i p : workers p !! i = Some Loop → stop_ p = false → pool_step p (set_worker i Locking p)
| ps_lock i p : workers p !! i = Some Locking → mutex_free p → pool_step p (take_or_wait i p)
| ps_relock i p : workers p !! i = Some Woken → mutex_free p → pool_step p (take_or_wait i p)
| ps_wait i p : workers p !! i = Some Checked → pool_step p (set_worker i Blocked p)
| ps_finish i t p : workers p !! i = Some (Running t) → pool_step p (finish i t p)
(** [stop()]: [stop_ = true]; [notify_all()]; [join()] each thread.  Neither of
    the first two takes the mutex. *)
| ps_stop p : stop_ p = false → pool_step p (set_stop true FlagSet (workers p) p)
| ps_notify_all p : stopping p = FlagSet → pool_step p (set_stop (stop_ p) Joining (wake_all (workers p)) p)
| ps_joined p : stopping p = Joining → Forall (λ w, w = Exited) (workers p) →
    pool_step p (set_stop (stop_ p) Stopped (workers p) p).

Inductive step (p p' : Pool) : Prop :=
| step_pool : pool_step p p' → step p p'
| step_push : push_step p p' → step p p'.

(** ** Invariant *)

Definition running (ws : list worker) : list task :=
  omap (λ w, match w with Running t => Some t | _ => None end) ws.

Lemma running_insert ws i w w' :
  ws !! i = Some w →
  ∃ rest, running ws ≡ₚ running [w] ++ rest ∧ running (<[i := w']> ws) ≡ₚ running [w'] ++ rest.
Proof.
  revert i. induction ws as [|x ws IH]; intros [|i] Hi; cbn in Hi; simplify_eq.
  - exists (running ws). split; cbn; [by destruct w|by destruct w'].
  - destruct (IH i Hi) as (rest & H1 & H2). exists (running [x] ++ rest).
    cbn [insert list_insert]. unfold running in *.
    split; [destruct x; cbn; rewrite ?H1|destruct x; cbn; rewrite ?H2]; cbn; solve_Permutation.
Qed.

Record pool_inv (p : Pool) : Prop := {
  pi_order : submitted p = started p ++ taskQueue_ p;
  pi_once : started p ≡ₚ executed p ++ running (workers p);
  pi_stop : stopping p = NotCalled ↔ stop_ p = false;
}.

Lemma quiet_inv p i w w' :
  pool_inv p → workers p !! i = Some w → running [w] = [] → running [w'] = [] →
  pool_inv (set_worker i w' p).
Proof.
  intros [Ho H1 Hs] Hi Hw Hw'. split; cbn; try done. rewrite H1.
  destruct (running_insert _ _ _ w' Hi) as (rest & E1 & E2). rewrite E1, E2, Hw, Hw'. reflexivity.
Qed.

Lemma take_inv p i w :
  pool_inv p → workers p !! i = Some w → running [w] = [] → pool_inv (take_or_wait i p).
Proof.
  intros Hp Hi Hw. unfold take_or_wait. destruct (taskQueue_ p) as [|t q] eqn:Eq.
  - case_if; by eapply quiet_inv.
  - destruct Hp as [Ho H1 Hs]. split; cbn; [by rewrite Ho, Eq, <- app_assoc| |done].
    destruct (running_insert _ _ _ (Running t) Hi) as (rest & E1 & E2).
    rewrite E2, H1, E1, Hw. cbn. solve_Permutation.
Qed.

Lemma running_wake ws : running (wake_all ws) = running ws.
Proof. induction ws as [|w ws IH]; [done|]. destruct w; try exact IH. exact (f_equal (cons t) IH). Qed.

Lemma pool_inv_step p p' : pool_inv p → step p p' → pool_inv p'.
Proof.
  intros Hp [Hstep|Hstep].
  - destruct Hstep as [i p Hi _|i p Hi _|i p Hi _|i p Hi _|i p Hi|i t p Hi|p Hs|p Hs|p Hs _];
      try (by eapply quiet_inv); try (by eapply take_inv).
    + destruct Hp as [Ho H1 Hs]. split; cbn; try done.
      destruct (running_insert _ _ _ Loop Hi) as (rest & E1 & E2). rewrite H1, E1, E2. cbn. solve_Permutation.
    + destruct Hp as [Ho H1 _]. by split.
    + destruct Hp as [Ho H1 Hx]. split; cbn; [done|by rewrite running_wake|].
      rewrite <- Hx, Hs. done.
    + destruct Hp as [Ho H1 Hx]. split; cbn; [done|done|]. rewrite <- Hx, Hs. done.
  - destruct Hstep as [t i p _ Hi|t p _ _].
    + eapply quiet_inv; [|exact Hi|done|done]. destruct Hp as [Ho H1 Hs].
      split; cbn; [by rewrite Ho, app_assoc|done|done].
    + destruct Hp as [Ho H1 Hs]. split; cbn; [by rewrite Ho, app_assoc|done|done].
Qed.

Lemma pool_inv_init n : pool_inv (pool_init n).
Proof.
  split; cbn; [done| |done]. induction n; [done|]. done.
Qed.

Lemma pool_reachable_inv n p : reachable step (pool_init n) p → pool_inv p.
Proof. apply reachable_invariant; [apply pool_inv_init|]. intros a b. apply pool_inv_step. Qed.

(** ** Theorems *)

(** Tasks start in submission order and at most once, under every
    interleaving of producers, workers and [stop()]: the tasks taken so far
    followed by those still queued are exactly the tasks submitted, and each
    task taken has either returned or is running on one worker. *)
Theorem pool_fifo_once (n : nat) (p : Pool) :
  reachable step (pool_init n) p →
  submitted p = started p ++ taskQueue_ p ∧ started p ≡ₚ executed p ++ running (workers p).
Proof. intros Hr. destruct (pool_reachable_inv _ _ Hr) as [Ho H1 _]. done. Qed.

Lemma pool_fifo_once_witness :
  submitted (runTaskInQueue 7 (pool_init 1)) =
    started (runTaskInQueue 7 (pool_init 1)) ++ taskQueue_ (runTaskInQueue 7 (pool_init 1)) ∧
  started (runTaskInQueue 7 (pool_init 1)) ≡ₚ
    executed (runTaskInQueue 7 (pool_init 1)) ++ running (workers (runTaskInQueue 7 (pool_init 1))).
Proof.
  apply (pool_fifo_once 1). exists 1%nat. apply steps_one. apply step_push, push_nobody.
  - unfold mutex_free. cbn. set_solver.
  - cbn. set_solver.
Defined.

Lemma reach_pool s1 s2 s3 : pool_step s2 s3 → reachable step s1 s2 → reachable step s1 s3.
Proof. intros Hs [n Hn]. exists (S n). econstructor; [exact Hn|by apply step_pool]. Qed.
Lemma reach_push s1 s2 s3 : push_step s2 s3 → reachable step s1 s2 → reachable step s1 s3.
Proof. intros Hs [n Hn]. exists (S n). econstructor; [exact Hn|by apply step_push]. Qed.

(** [stop()] (and so the destructor) does not wait for queued tasks: with
    one worker there is a run in which [stop()] has returned, the worker has
    exited, and a task that was accepted before [stop()] was called is still in
    the queue and is never executed. *)
Theorem stop_drops_queued_task :
  ∃ p, reachable step (pool_init 1) p ∧ stopping p = Stopped ∧ submitted p = [1; 2]%nat ∧
       executed p = [1]%nat ∧ taskQueue_ p = [2]%nat ∧ ∀ p', ¬ pool_step p p'.
Proof.
  eexists. split.
  - (* joined *) eapply reach_pool; [apply ps_joined|].
    3: eapply reach_pool; [apply (ps_exit 0)|].
    5: eapply reach_pool; [apply (ps_finish 0 1)|].
    6: eapply reach_pool; [apply ps_notify_all|].
    7: eapply reach_pool; [apply ps_stop|].
    8: eapply reach_pool; [apply (ps_lock 0)|].
    10: eapply reach_pool; [apply (ps_enter 0)|].
    12: eapply reach_push; [apply (push_nobody 2)|].
    14: eapply reach_push; [apply (push_nobody 1)|].
    16: exists O; apply steps_refl.
    all: try reflexivity.
    all: try (unfold mutex_free; cbn; set_solver).
  - cbn. repeat split; try done. intros p' Hp'.
    inversion Hp' as [i q Hi|i q Hi|i q Hi|i q Hi|i q Hi|i t q Hi|q Hs|q Hs|q Hs]; subst; cbn in *; try done;
      destruct i as [|i]; cbn in *; try done; by destruct i.
Qed.

(** [stop()] can wait forever: because it sets [stop_] and notifies without
    the mutex, a worker that has just tested its wait condition blocks after the
    notification.  With one idle worker there is a run to a state in which
    [stop()] is joining that worker, the worker is blocked, and no step of the
    pool is possible any more. *)
Theorem stop_can_hang :
  ∃ p, reachable step (pool_init 1) p ∧ stop_ p = true ∧ stopping p = Joining ∧
       workers p = [Blocked] ∧ ∀ p', ¬ pool_step p p'.
Proof.
  eexists. split.
  - eapply reach_pool; [apply (ps_wait 0)|].
    2: eapply reach_pool; [apply ps_notify_all|].
    3: eapply reach_pool; [apply ps_stop|].
    4: eapply reach_pool; [apply (ps_lock 0)|].
    6: eapply reach_pool; [apply (ps_enter 0)|].
    8: exists O; apply steps_refl.
    all: try reflexivity.
    unfold mutex_free; cbn; set_solver.
  - cbn. repeat split; try done. intros p' Hp'.
    inversion Hp' as [i q Hi|i q Hi|i q Hi|i q Hi|i q Hi|i t q Hi|q Hs|q Hs|q Hs Hall]; subst; cbn in *; try done;
      try (destruct i as [|i]; cbn in *; try done; by destruct i).
    inversion Hall; done.
Qed.
