(* ===== verification/NativeHandlers.v ===== *)
(** * Request handlers on the I/O threads (src/drogon_server.cpp:
      installDrogonHandler, installCppHandler, installCppStreamHandler and the
      streaming callbacks of inst/include/drogonR.h)

    Each route's closure first asks its rate limiters, then either queues the
    request for the R dispatcher or hands it to the worker pool.  A native
    handler is foreign code: it is the argument of these definitions, a unary
    one by what it returns, a streaming one by the callbacks it makes. *)

From stdpp Require Import base gmap strings list numbers.
From Stdlib Require Import ZArith Lia Ascii.
From S2P Require Import Prelude CDouble RValue RequestQueue HttpResponse ResponseStream.
From S2P Require Import RateLimiter StaticFiles Routes.

(** What the closures read of a [drogon::HttpRequest]. *)
Record HttpRequest := {
  rq_method : string;
  rq_path : string;
  rq_body : string;
  rq_query : string;
  rq_headers : list (string * string);
  rq_parameters : list (string * string);
  rq_routing : list string;
  rq_connection : option positive;
}.

(** [if (!rl.empty()) { if (!checkRateLimits(...)) { cb(deny); return; } }] *)
Definition gate `{Platform} (clock : nat → Z) (rl : RouteLimiters) (h : LimiterHeap)
    : option HttpResponse * LimiterHeap :=
  if RouteLimiters_empty rl then (None, h)
  else checkRateLimits clock (rls_limiters rl) (rls_max_window rl) h.

(** ** R routes *)

Definition snapshot (route_id : Z) (cb : positive) (req : HttpRequest) : PendingRequest :=
  {| pr_method := rq_method req; pr_path := rq_path req; pr_body := rq_body req;
     pr_headers := rq_headers req; pr_queries := rq_parameters req;
     pr_path_params := rq_routing req; pr_respond := cb; pr_connection := rq_connection req;
     pr_route_id := route_id |}.

Definition unavailable_response : HttpResponse :=
  setBody "503 Service Unavailable: request queue is full" (setStatusCode 503 newHttpResponse).

(** The closure of [installDrogonHandler]: what it passes to [cb] at once
    ([None]: nothing, the request went to the queue). *)
Definition drogon_handler `{Platform} (clock : nat → Z) (signals : list bool) (rl : RouteLimiters)
    (route_id : Z) (req : HttpRequest) (cb : positive) (h : LimiterHeap) (q : QueueState) (k : Kernel)
    : option HttpResponse * LimiterHeap * QueueState * Kernel :=
  match gate clock rl h with
  | (Some deny, h') => (Some deny, h', q, k)
  | (None, h') =>
      match enqueueRequest signals (snapshot route_id cb req) q k with
      | (true, q', k') => (None, h', q', k')
      | (false, q', k') => (Some unavailable_response, h', q', k')
      end
  end.

(** ** Native unary routes *)

(** The arguments of a native handler; [None] is a NULL query. *)
Record native_args := {
  na_body : string;
  na_query : option string;
  na_path_params : list string;
  na_headers : list string;
}.

Definition flat_headers (l : list (string * string)) : list string :=
  flat_map (λ p, [fst p; snd p]) l.

Definition native_args_of (req : HttpRequest) : native_args :=
  {| na_body := rq_body req;
     na_query := if String.eqb (rq_query req) EmptyString then None else Some (c_str (rq_query req));
     na_path_params := map c_str (rq_routing req);
     na_headers := map c_str (flat_headers (rq_headers req)) |}.

(** What a unary handler leaves behind: [no_rc] is [None] when it threw; the
    out-parameters keep their initial values unless it wrote them.  A malloc'ed
    buffer is its bytes. *)
Record native_out := {
  no_rc : option Z;
  no_body : option string;
  no_len : Z;
  no_status : Z;
  no_content_type : option string;
}.
Definition initial_out (rc : option Z) : native_out :=
  {| no_rc := rc; no_body := None; no_len := 0; no_status := 200; no_content_type := None |}.

Inductive buffer := OutBody | OutContentType.

(** The frees at the end of either branch. *)
Definition frees (o : native_out) : list buffer :=
  match no_body o with Some _ => [OutBody] | None => [] end ++
  match no_content_type o with Some _ => [OutContentType] | None => [] end.

(** The task of [installCppHandler]: the response passed to [cb] and the
    buffers freed. *)
Definition cpp_task (fn : native_args → native_out) (args : native_args) : HttpResponse * list buffer :=
  let o := fn args in
  let rc := match no_rc o with Some rc => rc | None => -1 end in
  let resp := newHttpResponse in
  if negb (rc =? 0) then
    (setBody "500 Internal Server Error: native backend returned non-zero"
       (setContentTypeCode CT_TEXT_PLAIN (setStatusCode 500 resp)), frees o)
  else
    let resp := match no_body o with
                | Some b => if 0 <? no_len o then setBody (str_take (Z.to_nat (no_len o)) b) resp else resp
                | None => resp
                end in
    let resp := setStatusCode (no_status o) resp in
    let resp := match no_content_type o with
                | Some ct => setContentTypeString (c_str ct) resp
                | None => setContentTypeString "application/octet-stream" resp
                end in
    (resp, frees o).

(** The closure of [installCppHandler]: an immediate answer, or a task for the
    worker pool. *)
Inductive effect := Answer (resp : HttpResponse) | Submit (args : native_args).

Definition cpp_handler `{Platform} (clock : nat → Z) (rl : RouteLimiters) (req : HttpRequest)
    (h : LimiterHeap) : effect * LimiterHeap :=
  match gate clock rl h with
  | (Some deny, h') => (Answer deny, h')
  | (None, h') => (Submit (native_args_of req), h')
  end.

(** ** Native streaming routes *)

Inductive ctask := CSend (data : string) | CClose.

(** [cs_loop]: [loop != nullptr].  [cs_tasks] is the queue of the session's
    loop; [cs_accepted] records the chunks [send] returned 0 for before the
    stream was closed, and [cs_final] the stream node at the reset. *)
Record CppStreamSession := {
  cs_stream : option ResponseStream;
  cs_loop : bool;
  cs_cancelled : bool;
  cs_closed : bool;
  cs_tasks : list ctask;
  cs_connected : bool;
  cs_accepted : list string;
  cs_final : option AsyncStream;
}.

(** The session [installCppStreamHandler] makes; [conn_alive]: the request's
    connection still locks. *)
Definition new_cpp_session (conn_alive : bool) : CppStreamSession :=
  {| cs_stream := None; cs_loop := false; cs_cancelled := negb conn_alive; cs_closed := false;
     cs_tasks := []; cs_connected := conn_alive; cs_accepted := []; cs_final := None |}.

Definition cs_upd (st : option ResponseStream) (lp can cl : bool) (ts : list ctask)
    (acc : list string) (fin : option AsyncStream) (s : CppStreamSession) : CppStreamSession :=
  {| cs_stream := st; cs_loop := lp; cs_cancelled := can; cs_closed := cl; cs_tasks := ts;
     cs_connected := cs_connected s; cs_accepted := acc; cs_final := fin |}.

(** The async-stream callback. *)
Definition cs_deliver (s : CppStreamSession) : CppStreamSession :=
  cs_upd (Some newResponseStream) true (cs_cancelled s) (cs_closed s) (cs_tasks s) (cs_accepted s) (cs_final s) s.

(** The user-close callback: the connection is gone. *)
Definition cs_user_close (s : CppStreamSession) : CppStreamSession :=
  {| cs_stream := cs_stream s; cs_loop := cs_loop s; cs_cancelled := true; cs_closed := cs_closed s;
     cs_tasks := cs_tasks s; cs_connected := false; cs_accepted := cs_accepted s; cs_final := cs_final s |}.

(** [drogonR_cpp_stream_send].  A null handle is [None].  [wait] is what other
    threads did to the session while the call was parked on [streamReady] (at
    most five seconds; it may change nothing).  [None] as a result: a null
    [loop] was dereferenced. *)
Definition drogonR_cpp_stream_send (wait : CppStreamSession → CppStreamSession) (data : string)
    (sess : option CppStreamSession) : option (Z * option CppStreamSession) :=
  match sess with
  | None => Some (-1, None)
  | Some s =>
      if cs_cancelled s then Some (-1, Some s) else
      let s := match cs_stream s with None => wait s | Some _ => s end in
      if cs_cancelled s then Some (-1, Some s) else
      match cs_stream s with
      | None => Some (-1, Some s)
      | Some _ =>
          if cs_loop s then
            Some (0, Some (cs_upd (cs_stream s) (cs_loop s) (cs_cancelled s) (cs_closed s)
                             (cs_tasks s ++ [CSend data])
                             (if cs_closed s then cs_accepted s else cs_accepted s ++ [data]) (cs_final s) s))
          else None
      end
  end.

Definition drogonR_cpp_stream_close (sess : option CppStreamSession) : option (option CppStreamSession) :=
  match sess with
  | None => Some None
  | Some s =>
      if cs_closed s then Some (Some s) else
      if cs_loop s then
        Some (Some (cs_upd (cs_stream s) (cs_loop s) (cs_cancelled s) true (cs_tasks s ++ [CClose])
                      (cs_accepted s) (cs_final s) s))
      else None
  end.

Definition drogonR_cpp_stream_is_cancelled (sess : option CppStreamSession) : Z :=
  match sess with
  | None => 1
  | Some s => if cs_cancelled s then 1 else 0
  end.

(** A task on the loop. *)
Definition cs_run_task (t : ctask) (s : CppStreamSession) : CppStreamSession :=
  match cs_stream s with
  | None => s
  | Some rs =>
      match t with
      | CSend data =>
          let '(ok, rs') := stream_send (cs_connected s) data rs in
          cs_upd (Some rs') (cs_loop s) (if ok then cs_cancelled s else true) (cs_closed s) (cs_tasks s)
            (cs_accepted s) (cs_final s) s
      | CClose =>
          cs_upd None (cs_loop s) (cs_cancelled s) (cs_closed s) (cs_tasks s) (cs_accepted s)
            (Some (rs_node (stream_close (cs_connected s) rs))) s
      end
  end.

(** The response of [installCppStreamHandler]. *)
Definition cpp_stream_response (content_type : string) : HttpResponse :=
  setContentTypeString (if String.eqb content_type EmptyString then "text/event-stream" else content_type)
    (setStatusCode 200 newAsyncStreamResponse).

(** Its closure: an immediate answer, or the stream response with the session
    and the task's arguments. *)
Inductive stream_effect :=
| SAnswer (resp : HttpResponse)
| SStream (resp : HttpResponse) (sess : CppStreamSession) (args : native_args).

Definition cpp_stream_handler `{Platform} (clock : nat → Z) (rl : RouteLimiters) (content_type : string)
    (conn_alive : bool) (req : HttpRequest) (h : LimiterHeap) : stream_effect * LimiterHeap :=
  match gate clock rl h with
  | (Some deny, h') => (SAnswer deny, h')
  | (None, h') => (SStream (cpp_stream_response content_type) (new_cpp_session conn_alive) (native_args_of req), h')
  end.

(** A streaming backend as the sequence of callbacks it makes, each chosen from
    the results of the earlier ones; [BReturn] also stands for an exception. *)
Inductive backend :=
| BReturn (rc : Z)
| BSend (data : string) (k : Z → backend)
| BClose (k : backend)
| BIsCancelled (k : Z → backend).

(** The worker task: the backend, then the automatic close.  [env i] is what
    the other threads do before the [i]-th callback (and while a send waits).
    [None]: the process dereferenced a null event loop. *)
Fixpoint run_backend (env : nat → CppStreamSession → CppStreamSession) (i : nat) (b : backend)
    (s : CppStreamSession) : option CppStreamSession :=
  let s := env i s in
  match b with
  | BReturn _ => match drogonR_cpp_stream_close (Some s) with Some (Some s') => Some s' | _ => None end
  | BSend data k =>
      match drogonR_cpp_stream_send (env (S i)) data (Some s) with
      | Some (rc, Some s') => run_backend env (S (S i)) (k rc) s'
      | _ => None
      end
  | BClose k =>
      match drogonR_cpp_stream_close (Some s) with
      | Some (Some s') => run_backend env (S i) k s'
      | _ => None
      end
  | BIsCancelled k => run_backend env (S i) (k (drogonR_cpp_stream_is_cancelled (Some s))) s
  end.

(** ** R routes: theorems *)

Lemma checkRateLimits_deny `{Platform} clock ls mw h r h' :
  checkRateLimits clock ls mw h = (Some r, h') → r = makeRateLimitResponse mw.
Proof.
  revert clock h. induction ls as [|p ls IH]; intros clock h; cbn; [done|].
  destruct (heap_objs h !! p) as [l|]; [|apply IH].
  destruct (isAllowed (clock O) l) as [[] l']; [apply IH|]. by intros [= <- _].
Qed.

Lemma gate_deny `{Platform} clock rl h r h' : gate clock rl h = (Some r, h') → statusCode_ r = 429.
Proof.
  unfold gate. case_if; [done|]. intros Hc. apply checkRateLimits_deny in Hc as ->. reflexivity.
Qed.

(** A request to an R route either is queued, at the tail and with its
    response callback, or is answered on the spot and leaves queue and pipe
    untouched: with 429 when a limiter refuses it, with 503 exactly when the
    queue is at its (positive) limit. *)
Theorem drogon_handler_queues_or_answers `{Platform} clock signals rl id req cb h q k ans h' q' k' :
  drogon_handler clock signals rl id req cb h q k = (ans, h', q', k') →
  match ans with
  | None => g_queue q' = g_queue q ++ [snapshot id cb req] ∧ pr_respond (snapshot id cb req) = cb ∧
            (0 < g_queueMaxSize q → Z.of_nat (length (g_queue q')) ≤ g_queueMaxSize q)
  | Some r => q' = q ∧ k' = k ∧
      (statusCode_ r = 429 ∨
       statusCode_ r = 503 ∧ 0 < g_queueMaxSize q ≤ Z.of_nat (length (g_queue q)))
  end.
Proof.
  unfold drogon_handler. destruct (gate clock rl h) as [[deny|] h1] eqn:Hg.
  - intros [= <- <- <- <-]. split; [done|]. split; [done|]. left. by eapply gate_deny.
  - unfold enqueueRequest, enqueue_locked.
    destruct ((0 <? g_queueMaxSize q) && (g_queueMaxSize q <=? Z.of_nat (length (g_queue q)))) eqn:E;
      intros [= <- <- <- <-].
    + bool_to_prop. split; [done|]. split; [done|]. right. split; [reflexivity|]. lia.
    + cbn. split; [done|]. split; [done|]. intros Hm. rewrite length_app. cbn.
      apply andb_false_iff in E as [E|E]; bool_to_prop; lia.
Qed.

Lemma drogon_handler_queues_or_answers_witness :
  let q := with_queue [snapshot 0 1 (Build_HttpRequest "GET" "/" "" "" [] [] [] None)]
             (setQueueMaxSize 1 sample_queue) in
  statusCode_ unavailable_response = 503 ∧ 0 < g_queueMaxSize q ≤ Z.of_nat (length (g_queue q)).
Proof.
  destruct (@drogon_handler_queues_or_answers x86_64 (λ _, 0) [] (Build_RouteLimiters [] d_zero) 0
    (Build_HttpRequest "GET" "/" "" "" [] [] [] None) 2 empty_heap
    (with_queue [snapshot 0 1 (Build_HttpRequest "GET" "/" "" "" [] [] [] None)]
             (setQueueMaxSize 1 sample_queue)) sample_kernel (Some unavailable_response) empty_heap
    (with_queue [snapshot 0 1 (Build_HttpRequest "GET" "/" "" "" [] [] [] None)]
             (setQueueMaxSize 1 sample_queue)) sample_kernel) as (_ & _ & [Hs|Hs]);
    [reflexivity|discriminate Hs|exact Hs].
Defined.

(** ** Native unary routes: theorem *)

(** The native unary task: a non-zero return code or an exception gives the
    fixed plain-text 500 and ignores the out-parameters; otherwise the response
    has the backend's status, the first [out_len] bytes of its body and its
    content type (or application/octet-stream).  In both cases each buffer the
    backend allocated is freed exactly once. *)
Theorem cpp_task_spec fn args :
  let o := fn args in
  let '(resp, freed) := cpp_task fn args in
  freed = match no_body o with Some _ => [OutBody] | None => [] end ++
          match no_content_type o with Some _ => [OutContentType] | None => [] end ∧
  ((no_rc o = Some 0 ∧ statusCode_ resp = no_status o ∧
    contentTypeString_ resp = default "application/octet-stream" (c_str <$> no_content_type o) ∧
    default EmptyString (bodyPtr_ resp) =
      default EmptyString (str_take (Z.to_nat (no_len o)) <$> no_body o)) ∨
   (no_rc o ≠ Some 0 ∧ statusCode_ resp = 500 ∧
    contentTypeString_ resp = contentTypeToMime CT_TEXT_PLAIN ∧
    bodyPtr_ resp = Some "500 Internal Server Error: native backend returned non-zero")).
Proof.
  intros o. unfold cpp_task. fold o. destruct (no_rc o) as [rc|] eqn:Erc; cbn; [|split; [done|]; right; done].
  destruct (Z.eqb_spec rc 0) as [->|Hne]; cbn; [|split; [done|]; right; split; [congruence|done]].
  split; [done|]. left. split; [done|].
  destruct (no_body o) as [b|] eqn:Eb, (no_content_type o) as [ct|]; cbn; try done.
  all: destruct (Z.ltb_spec 0 (no_len o)); cbn; try done.
  all: replace (Z.to_nat (no_len o)) with O by lia; by destruct b.
Qed.

(** ** Native streaming routes: the two threads *)

Inductive cstep : CppStreamSession → CppStreamSession → Prop :=
(** worker thread: the callbacks (a parked send is the other threads' steps) *)
| c_send data rc s s' :
    drogonR_cpp_stream_send (λ s, s) data (Some s) = Some (rc, Some s') → cstep s s'
| c_close s s' : drogonR_cpp_stream_close (Some s) = Some (Some s') → cstep s s'
(** loop thread *)
| c_deliver s : cs_loop s = false → cstep s (cs_deliver s)
| c_task t ts s :
    cs_tasks s = t :: ts →
    cstep s (cs_run_task t (cs_upd (cs_stream s) (cs_loop s) (cs_cancelled s) (cs_closed s) ts
                              (cs_accepted s) (cs_final s) s))
| c_user_close s : cstep s (cs_user_close s).

Definition is_close (t : ctask) : bool := match t with CClose => true | _ => false end.

(** The connected session: wire and queue together are what was accepted. *)
Definition cs_wire (s : CppStreamSession) : Prop :=
  match cs_stream s, cs_final s with
  | Some rs, None =>
      rs_open rs = true ∧
      ∃ l tl, cs_tasks s = map CSend l ++ (if cs_closed s then CClose :: map CSend tl else []) ∧
              node_data (rs_node rs) +:+ frames l = frames (cs_accepted s)
  | None, Some a =>
      cs_closed s = true ∧ node_data a = frames (cs_accepted s) +:+ closeStream ∧ node_done a = true ∧
      Forall (λ t, is_close t = false) (cs_tasks s)
  | None, None => cs_tasks s = [] ∧ cs_accepted s = [] ∧ cs_closed s = false
  | Some _, Some _ => False
  end.

Record cs_ok (s : CppStreamSession) : Prop := {
  cs_ok_loop : cs_loop s = false → cs_stream s = None ∧ cs_final s = None ∧ cs_tasks s = [] ∧
                                   cs_accepted s = [] ∧ cs_closed s = false;
  cs_ok_wire : cs_connected s = true → cs_wire s;
  cs_ok_loop' : cs_connected s = true → cs_loop s = true → cs_stream s = None → cs_final s ≠ None;
}.

Lemma cs_ok_new alive : cs_ok (new_cpp_session alive).
Proof. by split. Qed.

Lemma cs_ok_step s s' : cs_ok s → cstep s s' → cs_ok s'.
Proof.
  intros Hok Hstep. pose proof Hok as [Hl Hw Hf]. destruct Hstep as [data rc s s' Hs|s s' Hs|s Hloop|t ts s Ht|s].
  - cbn in Hs. destruct (cs_cancelled s) eqn:Ec; [injection Hs; intros; by subst|].
    destruct (cs_stream s) as [rs|] eqn:Es; rewrite ?Ec, ?Es in Hs; [|injection Hs; intros; by subst].
    destruct (cs_loop s) eqn:El; [|done]. simplify_eq. split; cbn; try done.
    intros Hconn. specialize (Hw Hconn). unfold cs_wire in *. rewrite Es in Hw. cbn.
    destruct (cs_final s); [done|]. destruct Hw as (Ho & l & tl & Ht & Hd). split; [done|].
    destruct (cs_closed s).
    + exists l, (tl ++ [data]). split; [|done]. rewrite Ht, map_app. cbn. by rewrite <- app_assoc.
    + exists (l ++ [data]), []. rewrite Ht, map_app, !app_nil_r. split; [done|].
      by rewrite !frames_app, <- app_str_assoc, Hd.
  - cbn in Hs. destruct (cs_closed s) eqn:Ec; [injection Hs; intros; by subst|].
    destruct (cs_loop s) eqn:El; [|done]. simplify_eq. split; cbn; try done.
    intros Hconn. pose proof (Hw Hconn) as Hw'. unfold cs_wire in *. cbn. rewrite Ec in Hw'.
    destruct (cs_stream s) as [rs|] eqn:Es, (cs_final s) as [a|] eqn:Ef; try done.
    + destruct Hw' as (Ho & l & tl & Ht & Hd). split; [done|]. exists l, []. by rewrite Ht, app_nil_r.
    + by destruct Hw' as [? _].
    + by destruct (Hf Hconn eq_refl eq_refl).
  - destruct (Hl Hloop) as (Es & Ef & Ht & Ha & Hc). split; cbn; try done.
    intros _. unfold cs_wire. cbn. rewrite Ef, Ht, Ha, Hc. split; [done|]. by exists [], [].
  - destruct (cs_loop s) eqn:El; [|by destruct (Hl eq_refl) as (_ & _ & ? & _); congruence].
    unfold cs_run_task. cbn. destruct (cs_stream s) as [rs|] eqn:Es.
    + destruct t as [data|].
      * destruct (stream_send (cs_connected s) data rs) as [ok rs'] eqn:Esend. split; cbn; try done.
        intros Hconn. specialize (Hw Hconn). unfold cs_wire in *. rewrite Es in Hw. cbn.
        destruct (cs_final s); [done|]. destruct Hw as (Ho & l & tl & Hts & Hd).
        unfold stream_send in Esend. rewrite Ho, Hconn in Esend. cbn in Esend. simplify_eq. cbn.
        split; [done|]. rewrite Ht in Hts. destruct l as [|x l]; cbn in Hts; [by destruct (cs_closed s)|].
        injection Hts as -> Hts. exists l, tl. split; [done|].
        rewrite <- Hd. change (frames (x :: l)) with (frames ([x] ++ l)).
        by rewrite frames_app, frames_one, app_str_assoc.
      * split; cbn; try done. intros Hconn. specialize (Hw Hconn). unfold cs_wire in *. rewrite Es in Hw. cbn.
        destruct (cs_final s); [done|]. destruct Hw as (Ho & l & tl & Hts & Hd). rewrite Ht in Hts.
        destruct l as [|x l]; [|done]. cbn in Hts. destruct (cs_closed s); [|done]. injection Hts as ->.
        unfold stream_close. rewrite Ho, Hconn. cbn. split; [done|]. rewrite <- Hd. change (frames []) with EmptyString.
        rewrite app_str_nil. split; [done|]. split; [done|]. apply Forall_map, Forall_true. done.
    + split; cbn; try done. intros Hconn. pose proof (Hw Hconn) as Hw'.
      unfold cs_wire in *. cbn. rewrite Es in *. destruct (cs_final s) as [a|] eqn:Ef.
      * destruct Hw' as (? & ? & ? & Hall). rewrite Ht in Hall. inversion Hall; subst. done.
      * by destruct (Hf Hconn eq_refl eq_refl).
  - split; cbn; try done.
Qed.

Lemma cs_ok_reachable alive s : reachable cstep (new_cpp_session alive) s → cs_ok s.
Proof. apply reachable_invariant; [apply cs_ok_new|]. intros a b. apply cs_ok_step. Qed.

(** ** Native streaming routes: theorems *)

(** What the client of a native stream receives: when the stream has been
    closed on a connection that stayed up, and the backend sent no empty chunk,
    decoding the body gives exactly the chunks for which [send] returned 0
    before the close, in order. *)
Theorem cpp_stream_body alive s a :
  reachable cstep (new_cpp_session alive) s → cs_connected s = true → cs_final s = Some a →
  Forall (λ c, c ≠ EmptyString) (cs_accepted s) →
  decode_chunked (S (length (cs_accepted s))) (node_data a) = Some (concat_str (cs_accepted s), EmptyString).
Proof.
  intros Hr Hconn Hf Hne. pose proof (cs_ok_wire s (cs_ok_reachable _ _ Hr) Hconn) as Hw.
  unfold cs_wire in Hw. rewrite Hf in Hw. destruct (cs_stream s); [done|]. destruct Hw as (_ & -> & _).
  rewrite <- (app_str_nil closeStream). apply decode_frames; [done|lia].
Qed.

(** Cancellation is seen: once the connection's close callback has run,
    then at every later moment [is_cancelled] returns 1 and [send] returns -1
    without queueing anything, however the threads interleave. *)
Theorem cpp_stream_cancel_seen s s' :
  reachable cstep (cs_user_close s) s' →
  drogonR_cpp_stream_is_cancelled (Some s') = 1 ∧
  ∀ wait data, drogonR_cpp_stream_send wait data (Some s') = Some (-1, Some s').
Proof.
  intros Hr. assert (Hc : cs_cancelled s' = true).
  { revert s' Hr. apply reachable_invariant; [done|]. intros a b Ha Hs.
    destruct Hs as [data rc a b Hs|a b Hs|a Hl|t ts a Ht|a]; try done.
    - cbn in Hs. rewrite Ha in Hs. injection Hs; intros; by subst.
    - cbn in Hs. destruct (cs_closed a); [injection Hs; intros; by subst|].
      destruct (cs_loop a); [|done]. injection Hs; intros; by subst.
    - unfold cs_run_task. cbn. destruct (cs_stream a); [|done]. destruct t; [|done].
      destruct (stream_send _ _ _) as [[] ?]; done. }
  cbn. rewrite Hc. done.
Qed.

Definition undelivered (s : CppStreamSession) : Prop :=
  cs_loop s = false ∧ cs_stream s = None ∧ cs_closed s = false.

Lemma undelivered_send wait data s :
  undelivered s → (∀ s, undelivered s → undelivered (wait s)) →
  ∃ s', drogonR_cpp_stream_send wait data (Some s) = Some (-1, Some s') ∧ undelivered s'.
Proof.
  intros (Hl & Hs & Hc) Hwait. cbn. destruct (cs_cancelled s) eqn:Ec; [by exists s|].
  rewrite Hs. destruct (Hwait s) as (Hl' & Hs' & Hc'); [done|]. rewrite Hs'.
  destruct (cs_cancelled (wait s)); by exists (wait s).
Qed.

(** A native stream whose response Drogon sends without invoking the stream
    callback (HEAD, or a request without keep-alive) ends in the dereference of
    a null event loop, for every backend: every send fails, and the automatic
    close after the backend returns goes through [loop == nullptr]. *)
Theorem undelivered_cpp_stream_null_loop ct (isHead keepAlive : bool) env i b s :
  isHead = true ∨ keepAlive = false →
  undelivered s → (∀ j s, undelivered s → undelivered (env j s)) →
  delivers_stream isHead (setCloseConnection (negb keepAlive) (cpp_stream_response ct)) = false ∧
  run_backend env i b s = None.
Proof.
  intros Hresp Hs Henv. split.
  { unfold delivers_stream. destruct Hresp as [-> | ->]; cbn; [done|]. by rewrite andb_false_r. }
  assert (Hclose : ∀ s, undelivered s → drogonR_cpp_stream_close (Some s) = None).
  { intros u (Hl & _ & Hc). cbn. by rewrite Hc, Hl. }
  revert i s Hs. induction b as [rc|data k IH|k IH|k IH]; intros i s Hs; cbn [run_backend].
  - rewrite Hclose; [done|by apply Henv].
  - destruct (undelivered_send (env (S i)) data (env i s)) as (s' & -> & Hs'); [by apply Henv|by apply Henv|].
    by apply IH.
  - rewrite Hclose; [done|by apply Henv].
  - apply IH. by apply Henv.
Qed.

(** When the stream callback has run before the backend starts, the worker
    task never goes through a null loop and leaves the stream closed, whatever
    callbacks the backend makes and however the loop thread interleaves. *)
Theorem delivered_cpp_stream_closes env i b s :
  cs_loop s = true → (∀ j s, cs_loop s = true → cs_loop (env j s) = true) →
  ∃ s', run_backend env i b s = Some s' ∧ cs_closed s' = true.
Proof.
  intros Hs Henv.
  assert (Hclose : ∀ s, cs_loop s = true → ∃ s', drogonR_cpp_stream_close (Some s) = Some (Some s') ∧
            cs_loop s' = true ∧ cs_closed s' = true).
  { intros u Hl. cbn. destruct (cs_closed u) eqn:E; [by exists u|]. rewrite Hl. eexists. done. }
  revert i s Hs. induction b as [rc|data k IH|k IH|k IH]; intros i s Hs; cbn [run_backend].
  - destruct (Hclose (env i s)) as (s' & -> & _ & Hc); [by apply Henv|]. by exists s'.
  - assert (Hsend : ∃ rc s', drogonR_cpp_stream_send (env (S i)) data (Some (env i s)) = Some (rc, Some s') ∧ cs_loop s' = true).
    { cbn. pose proof (Henv i s Hs) as Hl. destruct (cs_cancelled (env i s)) eqn:Ec; [by do 2 eexists|].
      destruct (cs_stream (env i s)) eqn:Es.
      - rewrite Ec, Es, Hl. by do 2 eexists.
      - pose proof (Henv (S i) _ Hl) as Hl'. destruct (cs_cancelled (env (S i) (env i s))); [by do 2 eexists|].
        destruct (cs_stream (env (S i) (env i s))); [|by do 2 eexists]. rewrite Hl'. by do 2 eexists. }
    destruct Hsend as (rc & s' & -> & Hl'). by apply IH.
  - destruct (Hclose (env i s)) as (s' & -> & Hl & _); [by apply Henv|]. by apply IH.
  - apply IH. by apply Henv.
Qed.

(** ** Concrete sessions *)

Definition cs_sent : CppStreamSession :=
  match drogonR_cpp_stream_send (λ s, s) "tok" (Some (cs_deliver (new_cpp_session true))) with
  | Some (_, Some s) => s | _ => new_cpp_session true end.
Definition cs_closing : CppStreamSession :=
  match drogonR_cpp_stream_close (Some cs_sent) with Some (Some s) => s | _ => cs_sent end.
Definition pop_task (s : CppStreamSession) : CppStreamSession :=
  match cs_tasks s with
  | t :: ts => cs_run_task t (cs_upd (cs_stream s) (cs_loop s) (cs_cancelled s) (cs_closed s) ts
                                (cs_accepted s) (cs_final s) s)
  | [] => s
  end.
Definition cs_done : CppStreamSession := pop_task (pop_task cs_closing).

Lemma cs_done_reachable : reachable cstep (new_cpp_session true) cs_done.
Proof.
  exists 5%nat. eapply steps_snoc; [eapply steps_snoc; [eapply steps_snoc; [eapply steps_snoc;
    [eapply steps_one|]|]|]|].
  - by apply c_deliver.
  - apply (c_send "tok" 0 _ cs_sent). vm_compute. reflexivity.
  - apply (c_close _ cs_closing). vm_compute. reflexivity.
  - apply (c_task (CSend "tok") [CClose] cs_closing). vm_compute. reflexivity.
  - apply (c_task CClose [] (pop_task cs_closing)). vm_compute. reflexivity.
Qed.

Lemma cpp_stream_body_witness :
  ∃ a, cs_final cs_done = Some a ∧
  decode_chunked (S (length (cs_accepted cs_done))) (node_data a) = Some (concat_str (cs_accepted cs_done), EmptyString).
Proof.
  destruct (cs_final cs_done) as [a|] eqn:E; [|vm_compute in E; discriminate E].
  exists a. split; [reflexivity|].
  apply (cpp_stream_body true cs_done a);
    [apply cs_done_reachable|vm_compute; reflexivity|exact E|repeat constructor; vm_compute; discriminate].
Defined.

Lemma cpp_stream_cancel_seen_witness :
  drogonR_cpp_stream_is_cancelled (Some (cs_user_close cs_sent)) = 1 ∧
  ∀ wait data, drogonR_cpp_stream_send wait data (Some (cs_user_close cs_sent)) = Some (-1, Some (cs_user_close cs_sent)).
Proof. apply (cpp_stream_cancel_seen cs_sent). exists O. apply steps_refl. Defined.

Lemma undelivered_cpp_stream_null_loop_witness :
  run_backend (λ _ s, s) 0 (BSend "tok" (λ rc, BReturn rc)) (new_cpp_session true) = None.
Proof.
  apply (undelivered_cpp_stream_null_loop "" false false (λ _ s, s) 0
           (BSend "tok" (λ rc, BReturn rc)) (new_cpp_session true)); [by right|done|by intros].
Defined.

Lemma delivered_cpp_stream_closes_witness :
  ∃ s', run_backend (λ _ s, s) 0 (BSend "tok" (λ rc, BReturn rc)) (cs_deliver (new_cpp_session true)) = Some s' ∧
        cs_closed s' = true.
Proof.
  apply (delivered_cpp_stream_closes (λ _ s, s) 0 (BSend "tok" (λ rc, BReturn rc)));
    [reflexivity|by intros].
Defined.
