(* ===== verification/WsSession.v ===== *)
(** * WebSocket routes and sessions (src/ws_session.cpp, WsRoute of r_bridge.h)

    One controller serves every WebSocket path.  Its three hooks run on the
    connection's I/O thread: for a native route they call the backend, for an R
    route they queue an event that the dispatcher hands to the R hooks.  Every
    use of a session goes through a lookup under [g_wsMutex], so the table maps
    an id to the session's state; a store through a pointer to an erased session
    has no effect.  The capacity protocol is interleaved at the granularity of
    its atomic operations in [Capacity]. *)

From stdpp Require Import base gmap strings list numbers.
From Stdlib Require Import ZArith Lia Ascii SpecFloat.
From S2P Require Import Prelude CDouble RValue HttpResponse RateLimiter StaticFiles Routes.

(** ** Data *)

(** The live counters are atomics shared by a route and its sessions; a counter
    is named by a [positive]. *)
Record WsRoute := {
  wr_path : string;
  wr_on_connect : SEXP;
  wr_on_message : SEXP;
  wr_on_close : SEXP;
  wr_cpp_fn : Z;
  wr_max_conns : Z;
  wr_idle_ms : Z;
  wr_lifetime_ms : Z;
  wr_live : positive;
}.

(** [ws_loop]: the loop pointer is not null. *)
Record WsSession := {
  ws_id : Z;
  ws_route_id : Z;
  ws_conn : positive;
  ws_loop : bool;
  ws_closing : bool;
  ws_cpp_fn : Z;
  ws_idle_ms : Z;
  ws_lifetime_ms : Z;
  ws_connect_ms : Z;
  ws_last_send_ms : Z;
  ws_live_counter : option positive;
  ws_counted : bool;
}.

Inductive WsEventType := Connect | Message | Close.
Record WsEvent := {
  ev_type : WsEventType; ev_conn_id : Z; ev_route_id : Z; ev_message : string; ev_binary : bool }.

(** A lambda queued on a connection's loop. *)
Inductive out_task := OutSend (data : string) (binary : bool) | OutShutdown (code : option Z).

(** What reached the user's code: an R hook called with arguments, or a native
    handler called with an event. *)
Inductive delivery :=
| HookCall (hook : SEXP) (args : list SEXP)
| CppCall (fn id : Z) (event : WsEventType) (msg : string) (binary : bool).

Record WsWorld := {
  g_wsRoutes : list WsRoute;
  ws_live : gmap positive Z;                  (** the live counters *)
  ws_next_counter : positive;
  g_wsSessions : gmap Z WsSession;
  g_wsEvents : list WsEvent;
  g_nextWsId : Z;
  g_wsRooms : gmap string (gset Z);
  ws_contexts : gmap positive Z;              (** [conn->setContext] *)
  ws_connected : gset positive;               (** connections that are up *)
  ws_out : list (positive * out_task);        (** tasks queued on the loops, in order *)
  ws_notified : nat;                          (** calls of [notifyDispatcher] *)
  g_wsReaperStop : bool;
  g_wsReaperArmed : bool;
  ws_reaper_interval : option double;         (** the timer registered with [runEvery] *)
  ws_precious : list SEXP;
  ws_log : list delivery;
}.

Definition upd_sessions (f : gmap Z WsSession → gmap Z WsSession) (w : WsWorld) : WsWorld :=
  {| g_wsRoutes := g_wsRoutes w; ws_live := ws_live w; ws_next_counter := ws_next_counter w;
     g_wsSessions := f (g_wsSessions w); g_wsEvents := g_wsEvents w; g_nextWsId := g_nextWsId w;
     g_wsRooms := g_wsRooms w; ws_contexts := ws_contexts w; ws_connected := ws_connected w;
     ws_out := ws_out w; ws_notified := ws_notified w; g_wsReaperStop := g_wsReaperStop w;
     g_wsReaperArmed := g_wsReaperArmed w; ws_reaper_interval := ws_reaper_interval w;
     ws_precious := ws_precious w; ws_log := ws_log w |}.
Definition upd_live (f : gmap positive Z → gmap positive Z) (w : WsWorld) : WsWorld :=
  {| g_wsRoutes := g_wsRoutes w; ws_live := f (ws_live w); ws_next_counter := ws_next_counter w;
     g_wsSessions := g_wsSessions w; g_wsEvents := g_wsEvents w; g_nextWsId := g_nextWsId w;
     g_wsRooms := g_wsRooms w; ws_contexts := ws_contexts w; ws_connected := ws_connected w;
     ws_out := ws_out w; ws_notified := ws_notified w; g_wsReaperStop := g_wsReaperStop w;
     g_wsReaperArmed := g_wsReaperArmed w; ws_reaper_interval := ws_reaper_interval w;
     ws_precious := ws_precious w; ws_log := ws_log w |}.
Definition upd_rooms (f : gmap string (gset Z) → gmap string (gset Z)) (w : WsWorld) : WsWorld :=
  {| g_wsRoutes := g_wsRoutes w; ws_live := ws_live w; ws_next_counter := ws_next_counter w;
     g_wsSessions := g_wsSessions w; g_wsEvents := g_wsEvents w; g_nextWsId := g_nextWsId w;
     g_wsRooms := f (g_wsRooms w); ws_contexts := ws_contexts w; ws_connected := ws_connected w;
     ws_out := ws_out w; ws_notified := ws_notified w; g_wsReaperStop := g_wsReaperStop w;
     g_wsReaperArmed := g_wsReaperArmed w; ws_reaper_interval := ws_reaper_interval w;
     ws_precious := ws_precious w; ws_log := ws_log w |}.
Definition upd_out (f : list (positive * out_task) → list (positive * out_task)) (w : WsWorld) : WsWorld :=
  {| g_wsRoutes := g_wsRoutes w; ws_live := ws_live w; ws_next_counter := ws_next_counter w;
     g_wsSessions := g_wsSessions w; g_wsEvents := g_wsEvents w; g_nextWsId := g_nextWsId w;
     g_wsRooms := g_wsRooms w; ws_contexts := ws_contexts w; ws_connected := ws_connected w;
     ws_out := f (ws_out w); ws_notified := ws_notified w; g_wsReaperStop := g_wsReaperStop w;
     g_wsReaperArmed := g_wsReaperArmed w; ws_reaper_interval := ws_reaper_interval w;
     ws_precious := ws_precious w; ws_log := ws_log w |}.
Definition upd_events (f : list WsEvent → list WsEvent) (notify : nat) (w : WsWorld) : WsWorld :=
  {| g_wsRoutes := g_wsRoutes w; ws_live := ws_live w; ws_next_counter := ws_next_counter w;
     g_wsSessions := g_wsSessions w; g_wsEvents := f (g_wsEvents w); g_nextWsId := g_nextWsId w;
     g_wsRooms := g_wsRooms w; ws_contexts := ws_contexts w; ws_connected := ws_connected w;
     ws_out := ws_out w; ws_notified := ws_notified w + notify; g_wsReaperStop := g_wsReaperStop w;
     g_wsReaperArmed := g_wsReaperArmed w; ws_reaper_interval := ws_reaper_interval w;
     ws_precious := ws_precious w; ws_log := ws_log w |}.
Definition upd_log (d : delivery) (w : WsWorld) : WsWorld :=
  {| g_wsRoutes := g_wsRoutes w; ws_live := ws_live w; ws_next_counter := ws_next_counter w;
     g_wsSessions := g_wsSessions w; g_wsEvents := g_wsEvents w; g_nextWsId := g_nextWsId w;
     g_wsRooms := g_wsRooms w; ws_contexts := ws_contexts w; ws_connected := ws_connected w;
     ws_out := ws_out w; ws_notified := ws_notified w; g_wsReaperStop := g_wsReaperStop w;
     g_wsReaperArmed := g_wsReaperArmed w; ws_reaper_interval := ws_reaper_interval w;
     ws_precious := ws_precious w; ws_log := ws_log w ++ [d] |}.
Definition upd_routes (rs : list WsRoute) (live : gmap positive Z) (next : positive) (p : list SEXP)
    (w : WsWorld) : WsWorld :=
  {| g_wsRoutes := rs; ws_live := live; ws_next_counter := next;
     g_wsSessions := g_wsSessions w; g_wsEvents := g_wsEvents w; g_nextWsId := g_nextWsId w;
     g_wsRooms := g_wsRooms w; ws_contexts := ws_contexts w; ws_connected := ws_connected w;
     ws_out := ws_out w; ws_notified := ws_notified w; g_wsReaperStop := g_wsReaperStop w;
     g_wsReaperArmed := g_wsReaperArmed w; ws_reaper_interval := ws_reaper_interval w;
     ws_precious := p; ws_log := ws_log w |}.
Definition upd_reaper (stop armed_ : bool) (t : option double) (w : WsWorld) : WsWorld :=
  {| g_wsRoutes := g_wsRoutes w; ws_live := ws_live w; ws_next_counter := ws_next_counter w;
     g_wsSessions := g_wsSessions w; g_wsEvents := g_wsEvents w; g_nextWsId := g_nextWsId w;
     g_wsRooms := g_wsRooms w; ws_contexts := ws_contexts w; ws_connected := ws_connected w;
     ws_out := ws_out w; ws_notified := ws_notified w; g_wsReaperStop := stop;
     g_wsReaperArmed := armed_; ws_reaper_interval := t;
     ws_precious := ws_precious w; ws_log := ws_log w |}.

Definition set_ws_closing (s : WsSession) : WsSession :=
  {| ws_id := ws_id s; ws_route_id := ws_route_id s; ws_conn := ws_conn s; ws_loop := ws_loop s;
     ws_closing := true; ws_cpp_fn := ws_cpp_fn s; ws_idle_ms := ws_idle_ms s;
     ws_lifetime_ms := ws_lifetime_ms s; ws_connect_ms := ws_connect_ms s;
     ws_last_send_ms := ws_last_send_ms s; ws_live_counter := ws_live_counter s; ws_counted := ws_counted s |}.
Definition set_last_send (t : Z) (s : WsSession) : WsSession :=
  {| ws_id := ws_id s; ws_route_id := ws_route_id s; ws_conn := ws_conn s; ws_loop := ws_loop s;
     ws_closing := ws_closing s; ws_cpp_fn := ws_cpp_fn s; ws_idle_ms := ws_idle_ms s;
     ws_lifetime_ms := ws_lifetime_ms s; ws_connect_ms := ws_connect_ms s;
     ws_last_send_ms := t; ws_live_counter := ws_live_counter s; ws_counted := ws_counted s |}.

(** ** Sessions *)

Definition findWsSession (id : Z) (w : WsWorld) : option WsSession := g_wsSessions w !! id.

Definition dropFromAllRooms (id : Z) : WsWorld → WsWorld :=
  upd_rooms (fmap (λ m : gset Z, m ∖ {[id]})).

(** The two halves of [eraseWsSession] before the rooms: the table entry, and
    the slot given back by whoever clears [counted]. *)
Definition unlink (id : Z) (w : WsWorld) : option WsSession * WsWorld :=
  (findWsSession id w, upd_sessions (delete id) w).

Definition give_back (sess : option WsSession) (w : WsWorld) : WsWorld :=
  match sess with
  | Some s =>
      match ws_live_counter s with
      | Some c => if ws_counted s then upd_live (alter (λ n, n - 1) c) w else w
      | None => w
      end
  | None => w
  end.

Definition eraseWsSession (id : Z) (w : WsWorld) : WsWorld :=
  let '(sess, w) := unlink id w in dropFromAllRooms id (give_back sess w).

Definition queue_out (conn : positive) (t : out_task) : WsWorld → WsWorld :=
  upd_out (λ l, l ++ [(conn, t)]).

Definition sendToConn (id : Z) (data : string) (binary : bool) (w : WsWorld) : WsWorld :=
  match findWsSession id w with
  | Some s => if ws_closing s || negb (ws_loop s) then w
              else queue_out (ws_conn s) (OutSend data binary) w
  | None => w
  end.

(** A queued lambda running on the loop: the frames that reach the socket. *)
Definition run_out (w : WsWorld) (p : positive * out_task) : list (positive * out_task) :=
  if decide (fst p ∈ ws_connected w) then [p] else [].

(** ** The native callbacks *)

Definition wsCppSend (now : Z) (id : Z) (data : string) (binary : bool) (w : WsWorld) : Z * WsWorld :=
  match findWsSession id w with
  | None => (-1, w)
  | Some s =>
      if ws_closing s || negb (ws_loop s) then (-1, w)
      else if decide (ws_conn s ∈ ws_connected w) then
        (0, upd_sessions (alter (set_last_send now) id) (queue_out (ws_conn s) (OutSend data binary) w))
      else (-1, w)
  end.

Definition wsCppClose (id : Z) (w : WsWorld) : WsWorld :=
  match findWsSession id w with
  | Some s => if ws_loop s then
                queue_out (ws_conn s) (OutShutdown None) (upd_sessions (alter set_ws_closing id) w)
              else w
  | None => w
  end.

Definition wsCppIsConnected (id : Z) (w : WsWorld) : Z :=
  match findWsSession id w with
  | Some s => if ws_closing s then 0 else if decide (ws_conn s ∈ ws_connected w) then 1 else 0
  | None => 0
  end.

(** [dispatchCpp]: the backend's own callbacks are separate operations. *)
Definition dispatchCpp (s : WsSession) (event : WsEventType) (msg : string) (binary : bool) (w : WsWorld) : WsWorld :=
  if ws_cpp_fn s =? 0 then w else upd_log (CppCall (ws_cpp_fn s) (ws_id s) event msg binary) w.

(** ** Routes at connect *)

Fixpoint route_index (path : string) (rs : list WsRoute) (i : Z) : Z :=
  match rs with
  | [] => -1
  | r :: rs' => if String.eqb (wr_path r) path then wrapI32 i else route_index path rs' (i + 1)
  end.
Definition routeIdForPath (path : string) (w : WsWorld) : Z := route_index path (g_wsRoutes w) 0.

Definition ws_route (route_id : Z) (w : WsWorld) : option WsRoute :=
  if (route_id <? 0) || (wrapI32 (Z.of_nat (length (g_wsRoutes w))) <=? route_id) then None
  else g_wsRoutes w !! Z.to_nat route_id.

Definition cppFnForRoute (route_id : Z) (w : WsWorld) : Z :=
  match ws_route route_id w with Some r => wr_cpp_fn r | None => 0 end.

Record WsGuards := { gd_max_conns : Z; gd_idle_ms : Z; gd_lifetime_ms : Z; gd_live : option positive }.
Definition no_guards : WsGuards := {| gd_max_conns := 0; gd_idle_ms := 0; gd_lifetime_ms := 0; gd_live := None |}.

Definition guardsForRoute (route_id : Z) (w : WsWorld) : WsGuards :=
  match ws_route route_id w with
  | Some r => {| gd_max_conns := wr_max_conns r; gd_idle_ms := wr_idle_ms r;
                 gd_lifetime_ms := wr_lifetime_ms r; gd_live := Some (wr_live r) |}
  | None => no_guards
  end.

Definition enqueueWsEvent (ev : WsEvent) : WsWorld → WsWorld := upd_events (λ l, l ++ [ev]) 1.

(** ** The controller *)

(** [fetch_add(1) + 1 <= max_conns]: the counter is incremented either way. *)
Definition reserve (c : positive) (max : Z) (w : WsWorld) : bool * WsWorld :=
  let after := default 0 (ws_live w !! c) + 1 in
  (after <=? max, upd_live (alter (λ n, n + 1) c) w).

Definition rollback (c : positive) : WsWorld → WsWorld := upd_live (alter (λ n, n - 1) c).

(** The session built after the capacity check, its id and its table entry. *)
Definition enrol (now : Z) (route_id : Z) (conn : positive) (cpp_fn : Z) (g : WsGuards) (w : WsWorld) : Z * WsWorld :=
  let id := g_nextWsId w in
  let counter := if negb (cpp_fn =? 0) && (0 <? gd_max_conns g) then gd_live g else None in
  let sess := {| ws_id := id; ws_route_id := route_id; ws_conn := conn; ws_loop := true;
                 ws_closing := false; ws_cpp_fn := cpp_fn;
                 ws_idle_ms := if cpp_fn =? 0 then 0 else gd_idle_ms g;
                 ws_lifetime_ms := if cpp_fn =? 0 then 0 else gd_lifetime_ms g;
                 ws_connect_ms := if cpp_fn =? 0 then 0 else now;
                 ws_last_send_ms := if cpp_fn =? 0 then 0 else now;
                 ws_live_counter := counter;
                 ws_counted := match counter with Some _ => true | None => false end |} in
  (id,
   {| g_wsRoutes := g_wsRoutes w; ws_live := ws_live w; ws_next_counter := ws_next_counter w;
      g_wsSessions := match g_wsSessions w !! id with
                      | Some _ => g_wsSessions w
                      | None => <[id := sess]> (g_wsSessions w)
                      end;
      g_wsEvents := g_wsEvents w; g_nextWsId := wrapU64 (id + 1); g_wsRooms := g_wsRooms w;
      ws_contexts := <[conn := id]> (ws_contexts w); ws_connected := ws_connected w; ws_out := ws_out w;
      ws_notified := ws_notified w; g_wsReaperStop := g_wsReaperStop w; g_wsReaperArmed := g_wsReaperArmed w;
      ws_reaper_interval := ws_reaper_interval w; ws_precious := ws_precious w; ws_log := ws_log w |}).

(** After the table entry: the backend's CONNECT, or a queued Connect event. *)
Definition announce (id route_id cpp_fn : Z) (w : WsWorld) : WsWorld :=
  if cpp_fn =? 0 then
    enqueueWsEvent {| ev_type := Connect; ev_conn_id := id; ev_route_id := route_id;
                      ev_message := EmptyString; ev_binary := false |} w
  else upd_log (CppCall cpp_fn id Connect EmptyString false) w.

Definition handleNewConnection (now : Z) (path : string) (conn : positive) (w : WsWorld) : WsWorld :=
  let route_id := routeIdForPath path w in
  let cpp_fn := cppFnForRoute route_id w in
  let guards := if cpp_fn =? 0 then no_guards else guardsForRoute route_id w in
  let proceed w := let '(id, w) := enrol now route_id conn cpp_fn guards w in announce id route_id cpp_fn w in
  match gd_live guards with
  | Some c =>
      if negb (cpp_fn =? 0) && (0 <? gd_max_conns guards) then
        let '(ok, w) := reserve c (gd_max_conns guards) w in
        if ok then proceed w else queue_out conn (OutShutdown (Some 1013)) (rollback c w)
      else proceed w
  | None => proceed w
  end.

Definition handleNewMessage (conn : positive) (message : string) (binary : bool) (w : WsWorld) : WsWorld :=
  match ws_contexts w !! conn with
  | None => w
  | Some id =>
      match findWsSession id w with
      | None => w
      | Some s =>
          if negb (ws_cpp_fn s =? 0) then dispatchCpp s Message message binary w
          else enqueueWsEvent {| ev_type := Message; ev_conn_id := id; ev_route_id := ws_route_id s;
                                 ev_message := message; ev_binary := binary |} w
      end
  end.

Definition handleConnectionClosed (conn : positive) (w : WsWorld) : WsWorld :=
  match ws_contexts w !! conn with
  | None => w
  | Some id =>
      match findWsSession id w with
      | None => w
      | Some s =>
          let w := upd_sessions (alter set_ws_closing id) w in
          if negb (ws_cpp_fn s =? 0) then eraseWsSession id (dispatchCpp s Close EmptyString false w)
          else enqueueWsEvent {| ev_type := Close; ev_conn_id := id; ev_route_id := ws_route_id s;
                                 ev_message := EmptyString; ev_binary := false |} w
      end
  end.

(** ** Rooms *)

Definition roomJoin (room : string) (id : Z) : WsWorld → WsWorld :=
  upd_rooms (λ rooms, <[room := default ∅ (rooms !! room) ∪ {[id]}]> rooms).

Definition roomLeave (room : string) (id : Z) : WsWorld → WsWorld :=
  upd_rooms (λ rooms,
    match rooms !! room with
    | Some m => let m' := m ∖ {[id]} in if decide (m' = ∅) then delete room rooms else <[room := m']> rooms
    | None => rooms
    end).

Fixpoint broadcast_loop (ids : list Z) (data : string) (binary : bool) (n : Z) (w : WsWorld) : Z * WsWorld :=
  match ids with
  | [] => (n, w)
  | id :: ids' => broadcast_loop ids' data binary (n + 1) (sendToConn id data binary w)
  end.

Definition roomBroadcast (room : string) (data : string) (binary : bool) (w : WsWorld) : Z * WsWorld :=
  match g_wsRooms w !! room with
  | None => (0, w)
  | Some m => broadcast_loop (elements m) data binary 0 w
  end.

(** [drogonR_ws_close] after its argument checks. *)
Definition ws_close (id : Z) (w : WsWorld) : WsWorld := wsCppClose id w.

(** ** The main-thread pump *)

Definition makeWsConn (id : Z) : SEXP :=
  REALSXP [Real (d_of_Z id)] (Rattr None (Some [Some "drogon_ws_conn"])).

(** What an R hook does to this component: the [.Call]s it makes. *)
Inductive ws_op :=
| OpSend (id : Z) (data : string) (binary : bool)
| OpClose (id : Z)
| OpJoin (room : string) (id : Z)
| OpLeave (room : string) (id : Z)
| OpBroadcast (room data : string) (binary : bool).

Definition run_op (w : WsWorld) (op : ws_op) : WsWorld :=
  match op with
  | OpSend id data binary => sendToConn id data binary w
  | OpClose id => ws_close id w
  | OpJoin room id => roomJoin room id w
  | OpLeave room id => roomLeave room id w
  | OpBroadcast room data binary => snd (roomBroadcast room data binary w)
  end.

(** The R code behind the hooks: the calls it makes when [hook] is called with
    [args] as the [n]-th delivery.  An error it raises is printed and ignored. *)
Abbreviation hook_code := (nat → SEXP → list SEXP → list ws_op).

Definition callHook (code : hook_code) (hook : SEXP) (args : list SEXP) (w : WsWorld) : WsWorld :=
  if is_closure hook then
    fold_left run_op (code (length (ws_log w)) hook args) (upd_log (HookCall hook args) w)
  else w.

Definition hooks_of (route_id : Z) (w : WsWorld) : SEXP * SEXP * SEXP :=
  match ws_route route_id w with
  | Some r => (wr_on_connect r, wr_on_message r, wr_on_close r)
  | None => (R_NilValue, R_NilValue, R_NilValue)
  end.

Definition handle_event (code : hook_code) (w : WsWorld) (ev : WsEvent) : WsWorld :=
  let '(on_connect, on_message, on_close) := hooks_of (ev_route_id ev) w in
  let conn := makeWsConn (ev_conn_id ev) in
  match ev_type ev with
  | Connect => callHook code on_connect [conn] w
  | Message => callHook code on_message [conn; mkString (ev_message ev); ScalarLogical (ev_binary ev)] w
  | Close => eraseWsSession (ev_conn_id ev) (callHook code on_close [conn] w)
  end.

Definition drainWsEvents (code : hook_code) (w : WsWorld) : WsWorld :=
  fold_left (handle_event code) (g_wsEvents w) (upd_events (λ _, []) 0 w).

(** ** Registration *)

Definition preserve_hook (h : SEXP) (p : list SEXP) : list SEXP :=
  if is_nil h then p else R_PreserveObject h p.
Definition release_hook (h : SEXP) (p : list SEXP) : list SEXP :=
  if is_nil h then p else R_ReleaseObject h p.

(** A route comes with a fresh live counter at 0. *)
Definition addWsRoute (path : string) (on_connect on_message on_close : SEXP) (cpp_fn max_conns idle_ms lifetime_ms : Z)
    (w : WsWorld) : Z * WsWorld :=
  let c := ws_next_counter w in
  let r := {| wr_path := path; wr_on_connect := on_connect; wr_on_message := on_message;
              wr_on_close := on_close; wr_cpp_fn := cpp_fn; wr_max_conns := max_conns;
              wr_idle_ms := idle_ms; wr_lifetime_ms := lifetime_ms; wr_live := c |} in
  (wrapI32 (Z.of_nat (length (g_wsRoutes w))),
   upd_routes (g_wsRoutes w ++ [r]) (<[c := 0]> (ws_live w)) (Pos.succ c)
     (preserve_hook on_close (preserve_hook on_message (preserve_hook on_connect (ws_precious w)))) w).

Definition wsRouteCount (w : WsWorld) : Z := Z.of_nat (length (g_wsRoutes w)).

(** ** The reaper *)

Definition expired (now : Z) (s : WsSession) : bool :=
  negb (ws_cpp_fn s =? 0) && negb (ws_closing s) &&
  (((0 <? ws_idle_ms s) && (ws_idle_ms s <? now - ws_last_send_ms s)) ||
   ((0 <? ws_lifetime_ms s) && (ws_lifetime_ms s <? now - ws_connect_ms s))).

Definition reap_one (w : WsWorld) (p : Z * WsSession) : WsWorld :=
  let '(id, s) := p in
  let w := upd_sessions (alter set_ws_closing id) w in
  if ws_loop s then queue_out (ws_conn s) (OutShutdown None) w else w.

Definition reapExpiredSessions (now : Z) (w : WsWorld) : WsWorld :=
  if g_wsReaperStop w then w else
  fold_left reap_one (filter (λ p, expired now (snd p) = true) (map_to_list (g_wsSessions w))) w.

Definition min_thresh_step (m v : Z) : Z := if (0 <? v) && ((m =? 0) || (v <? m)) then v else m.
Definition min_thresh (rs : list WsRoute) : Z :=
  fold_left (λ m r, if wr_cpp_fn r =? 0 then m
                    else min_thresh_step (min_thresh_step m (wr_idle_ms r)) (wr_lifetime_ms r)) rs 0.

(** The literal 0.05 *)
Definition d_005 : double := ddiv d_one (d_of_Z 20).

Definition reap_interval (minThresh : Z) : double :=
  let interval := ddiv (ddiv (d_of_Z minThresh) (d_of_Z 2)) (d_of_Z 1000) in
  let interval := if dlt interval d_005 then d_005 else interval in
  if dlt d_one interval then d_one else interval.

Definition armWsReaperLocked (w : WsWorld) : WsWorld :=
  let minThresh := min_thresh (g_wsRoutes w) in
  if minThresh =? 0 then w else upd_reaper false true (Some (reap_interval minThresh)) w.

(** The paths registered with Drogon, and the armed reaper. *)
Definition installWsRoutes (w : WsWorld) : list string * WsWorld :=
  match g_wsRoutes w with
  | [] => ([], w)
  | rs => (map wr_path rs, armWsReaperLocked w)
  end.

(** ** Teardown *)

Definition release_route (p : list SEXP) (r : WsRoute) : list SEXP :=
  release_hook (wr_on_close r) (release_hook (wr_on_message r) (release_hook (wr_on_connect r) p)).

Definition clearAllWsSessions (w : WsWorld) : WsWorld :=
  {| g_wsRoutes := []; ws_live := ws_live w; ws_next_counter := ws_next_counter w;
     g_wsSessions := ∅; g_wsEvents := []; g_nextWsId := g_nextWsId w; g_wsRooms := ∅;
     ws_contexts := ws_contexts w; ws_connected := ws_connected w; ws_out := ws_out w;
     ws_notified := ws_notified w; g_wsReaperStop := true; g_wsReaperArmed := false;
     ws_reaper_interval := None;
     ws_precious := fold_left release_route (g_wsRoutes w) (ws_precious w); ws_log := ws_log w |}.

(** ** Entry points *)

Definition closure_or_nil (x : SEXP) : SEXP := if is_closure x then x else R_NilValue.

Definition drogonR_register_ws (running : bool) (path_ on_connect_ on_message_ on_close_ : SEXP) : M WsWorld SEXP :=
  _ ← reject_if running "dr_ws: cannot register while the server is running. Stop it first with dr_stop().";
  path ← want_string path_ "path must be a single string";
  w ← get;
  let '(id, w') := addWsRoute (CHAR path) (closure_or_nil on_connect_) (closure_or_nil on_message_)
                     (closure_or_nil on_close_) 0 0 0 0 w in
  _ ← modify (λ _, w');
  mret (ScalarInteger id).

Definition reqNonNegNum (x : SEXP) (what : string) : M WsWorld double :=
  v ← match x with
      | INTSXP [z] _ => mret (d_of_Z z)
      | REALSXP [r] _ => mret (real_value r)
      | _ => raise (what +:+ " must be a single number")
      end;
  _ ← reject_if (d_isnan v || dlt v d_zero) (what +:+ " must be a non-negative number");
  mret v.

Definition d_half : double := ddiv d_one (d_of_Z 2).

Definition drogonR_register_ws_cpp `{Platform} (running : bool) (path_ ptr_ max_conns_ idle_timeout_ max_lifetime_ : SEXP)
    : M WsWorld SEXP :=
  _ ← reject_if running "dr_ws_cpp: cannot register while the server is running. Stop it first with dr_stop().";
  path ← want_string path_ "path must be a single string";
  fn ← want_extptr ptr_ "callable must be an external pointer (from dr_resolve_ccallable)";
  _ ← reject_if (fn =? 0) "callable resolved to a NULL pointer";
  max_conns ← reqNonNegNum max_conns_ "max_conns";
  idle_secs ← reqNonNegNum idle_timeout_ "idle_timeout";
  life_secs ← reqNonNegNum max_lifetime_ "max_lifetime";
  w ← get;
  let ms d := d_to_i64 (dadd (dmul d (d_of_Z 1000)) d_half) in
  let '(id, w') := addWsRoute (CHAR path) R_NilValue R_NilValue R_NilValue fn
                     (d_to_int (dadd max_conns d_half)) (ms idle_secs) (ms life_secs) w in
  _ ← modify (λ _, w');
  mret (ScalarInteger id).

(** [static_cast<uint64_t>(REAL(conn_id_)[0])] *)
Definition want_conn_id `{Platform} {S} (x : SEXP) : M S Z :=
  match x with
  | REALSXP [r] _ => mret (d_to_u64 (real_value r))
  | _ => raise "conn_id must be a single numeric"
  end.

Definition drogonR_ws_send `{Platform} (conn_id_ msg_ binary_ : SEXP) : M WsWorld SEXP :=
  id ← want_conn_id conn_id_;
  msg ← want_string msg_ "msg must be a single string";
  _ ← modify (sendToConn id (CHAR msg) (lgl_true binary_));
  mret R_NilValue.

Definition drogonR_ws_close `{Platform} (conn_id_ : SEXP) : M WsWorld SEXP :=
  id ← want_conn_id conn_id_;
  _ ← modify (ws_close id);
  mret R_NilValue.

Definition drogonR_ws_join `{Platform} (room_ conn_id_ : SEXP) : M WsWorld SEXP :=
  room ← want_string room_ "room must be a single string";
  id ← want_conn_id conn_id_;
  _ ← modify (roomJoin (CHAR room) id);
  mret R_NilValue.

Definition drogonR_ws_leave `{Platform} (room_ conn_id_ : SEXP) : M WsWorld SEXP :=
  room ← want_string room_ "room must be a single string";
  id ← want_conn_id conn_id_;
  _ ← modify (roomLeave (CHAR room) id);
  mret R_NilValue.

Definition drogonR_ws_broadcast (room_ msg_ binary_ : SEXP) : M WsWorld SEXP :=
  room ← want_string room_ "room must be a single string";
  msg ← want_string msg_ "msg must be a single string";
  w ← get;
  let '(n, w') := roomBroadcast (CHAR room) (CHAR msg) (lgl_true binary_) w in
  _ ← modify (λ _, w');
  mret (ScalarInteger n).

(** ** Lemmas on slots *)

(** The session occupies a slot of the counter [c]. *)
Definition holds (c : positive) (s : WsSession) : Prop := ws_live_counter s = Some c ∧ ws_counted s = true.
#[global] Instance holds_dec c s : Decision (holds c s).
Proof. unfold holds. apply _. Defined.

Definition slots (c : positive) (m : gmap Z WsSession) : Z :=
  Z.of_nat (size (filter (λ p : Z * WsSession, holds c (snd p)) m)).
#[global] Arguments slots : simpl never.

Definition one_if (P : Prop) `{Decision P} : Z := if decide P then 1 else 0.

Lemma slots_insert c id s m :
  m !! id = None → slots c (<[id := s]> m) = one_if (holds c s) + slots c m.
Proof.
  intros Hm. unfold slots, one_if. destruct (decide (holds c s)) as [Hs|Hs].
  - rewrite map_filter_insert_True by done. rewrite map_size_insert_None; [lia|].
    apply map_lookup_filter_None. by left.
  - rewrite map_filter_insert_not'; [done|done|]. intros y Hy. congruence.
Qed.

Lemma slots_delete c id s m :
  m !! id = Some s → slots c (delete id m) = slots c m - one_if (holds c s).
Proof.
  intros Hm. rewrite <- (insert_delete_id m id s Hm) at 2.
  rewrite slots_insert by apply lookup_delete_eq. lia.
Qed.

Lemma slots_alter c id f m :
  (∀ s, ws_live_counter (f s) = ws_live_counter s ∧ ws_counted (f s) = ws_counted s) →
  slots c (alter f id m) = slots c m.
Proof.
  intros Hf. destruct (m !! id) as [s|] eqn:Hm.
  - rewrite <- (insert_delete_id m id s Hm), alter_insert_eq, !slots_insert by apply lookup_delete_eq.
    assert (Hiff : holds c (f s) ↔ holds c s) by (unfold holds; destruct (Hf s) as [-> ->]; done).
    unfold one_if. destruct (decide (holds c (f s))), (decide (holds c s)); first [reflexivity|tauto].
  - rewrite (proj2 (map_eq_iff (alter f id m) m)); [done|]. intros i.
    destruct (decide (i = id)) as [->|]; [by rewrite lookup_alter_eq, Hm|by rewrite lookup_alter_ne].
Qed.

Lemma slots_empty c : slots c ∅ = 0.
Proof. unfold slots. by rewrite map_filter_empty. Qed.

Lemma slots_nonneg c m : 0 ≤ slots c m.
Proof. unfold slots. lia. Qed.

(** ** The capacity protocol, interleaved *)

Module Capacity.

(** Work between two atomic operations: a connect that got its slot and has
    not entered the table yet, one that was refused and has not rolled back,
    a session taken out of the table whose slot is not given back yet, and the
    cleaning of the rooms. *)
Inductive inflight :=
| Granted (r : WsRoute) (route_id : Z) (conn : positive)
| Refused (r : WsRoute) (conn : positive)
| Unlinked (id : Z) (sess : option WsSession)
| Dropping (id : Z).

Record state := { cw : WsWorld; pend : list inflight }.

(** The guards a connect reads for a guarded native route. *)
Definition guards_of (r : WsRoute) : WsGuards :=
  {| gd_max_conns := wr_max_conns r; gd_idle_ms := wr_idle_ms r;
     gd_lifetime_ms := wr_lifetime_ms r; gd_live := Some (wr_live r) |}.
Definition guarded (r : WsRoute) : Prop := wr_cpp_fn r ≠ 0 ∧ 0 < wr_max_conns r.

Inductive step : state → state → Prop :=
(** [handleNewConnection] on a guarded route: [fetch_add] and the check *)
| st_reserve r route_id conn w w' ps ok :
    ws_route route_id w = Some r → guarded r → reserve (wr_live r) (wr_max_conns r) w = (ok, w') →
    step {| cw := w; pend := ps |}
         {| cw := w'; pend := (if ok then Granted r route_id conn else Refused r conn) :: ps |}
| st_rollback r conn w ps1 ps2 :
    step {| cw := w; pend := ps1 ++ Refused r conn :: ps2 |}
         {| cw := queue_out conn (OutShutdown (Some 1013)) (rollback (wr_live r) w); pend := ps1 ++ ps2 |}
| st_admit now r route_id conn w ps1 ps2 :
    step {| cw := w; pend := ps1 ++ Granted r route_id conn :: ps2 |}
         {| cw := let '(id, w) := enrol now route_id conn (wr_cpp_fn r) (guards_of r) w in
                  announce id route_id (wr_cpp_fn r) w;
            pend := ps1 ++ ps2 |}
(** ... on any other route: no counter is involved *)
| st_connect now route_id conn cpp_fn g w ps :
    (cpp_fn = 0 ∨ gd_max_conns g ≤ 0) →
    step {| cw := w; pend := ps |}
         {| cw := let '(id, w) := enrol now route_id conn cpp_fn g w in announce id route_id cpp_fn w;
            pend := ps |}
(** [eraseWsSession], called by the close of a native session and by the pump *)
| st_unlink id w ps sess w' :
    unlink id w = (sess, w') → step {| cw := w; pend := ps |} {| cw := w'; pend := Unlinked id sess :: ps |}
| st_give_back id sess w ps1 ps2 :
    step {| cw := w; pend := ps1 ++ Unlinked id sess :: ps2 |}
         {| cw := give_back sess w; pend := Dropping id :: ps1 ++ ps2 |}
| st_drop id w ps1 ps2 :
    step {| cw := w; pend := ps1 ++ Dropping id :: ps2 |}
         {| cw := dropFromAllRooms id w; pend := ps1 ++ ps2 |}
(** every other operation: messages, sends, closes, rooms, the reaper *)
| st_other w w' ps :
    g_wsRoutes w' = g_wsRoutes w → ws_live w' = ws_live w → g_nextWsId w' = g_nextWsId w →
    dom (g_wsSessions w') = dom (g_wsSessions w) →
    (∀ c, slots c (g_wsSessions w') = slots c (g_wsSessions w)) →
    step {| cw := w; pend := ps |} {| cw := w'; pend := ps |}.

(** The share of [p] in the counter [c]: all of it, and the part that still
    counts as an occupied slot. *)
Definition share (c : positive) (p : inflight) : Z :=
  match p with
  | Granted r _ _ | Refused r _ => one_if (wr_live r = c)
  | Unlinked _ (Some s) => one_if (holds c s)
  | _ => 0
  end.
Definition occupies (c : positive) (p : inflight) : Z :=
  match p with Refused _ _ => 0 | _ => share c p end.

Definition total (f : inflight → Z) (ps : list inflight) : Z := foldr (λ p n, f p + n) 0 ps.

Lemma total_app f ps1 ps2 : total f (ps1 ++ ps2) = total f ps1 + total f ps2.
Proof. unfold total. induction ps1 as [|p ps IH]; cbn; lia. Qed.
Lemma total_mid f p ps1 ps2 : total f (ps1 ++ p :: ps2) = f p + total f (ps1 ++ ps2).
Proof. rewrite !total_app. unfold total. cbn. lia. Qed.

Lemma share_nonneg c p : 0 ≤ occupies c p ≤ share c p.
Proof. destruct p as [| |? [|]|]; cbn; unfold one_if; repeat case_decide; lia. Qed.

(** Every reservation in flight belongs to a guarded route of the table. *)
Definition pend_ok (rs : list WsRoute) (p : inflight) : Prop :=
  match p with Granted r _ _ | Refused r _ => r ∈ rs ∧ guarded r | _ => True end.

Record inv (rs : list WsRoute) (n : nat) (st : state) : Prop := {
  inv_routes : g_wsRoutes (cw st) = rs;
  inv_distinct : ∀ r1 r2, r1 ∈ rs → r2 ∈ rs → wr_live r1 = wr_live r2 → r1 = r2;
  inv_pend : Forall (pend_ok rs) (pend st);
  inv_fresh : ∀ id, id ∈ dom (g_wsSessions (cw st)) → id < g_nextWsId (cw st);
  inv_next : 0 ≤ g_nextWsId (cw st) ≤ Z.of_nat n + 1;
  inv_count : ∀ r, r ∈ rs →
    ws_live (cw st) !! wr_live r =
      Some (slots (wr_live r) (g_wsSessions (cw st)) + total (share (wr_live r)) (pend st));
  inv_cap : ∀ r, r ∈ rs → guarded r →
    slots (wr_live r) (g_wsSessions (cw st)) + total (occupies (wr_live r)) (pend st) ≤ wr_max_conns r;
}.

Lemma occupies_le c ps : total (occupies c) ps ≤ total (share c) ps.
Proof. unfold total. induction ps as [|p ps IH]; cbn; [lia|]. pose proof (share_nonneg c p). lia. Qed.

Lemma alter_live (live : gmap positive Z) c d f n :
  live !! d = Some n → alter f c live !! d = Some (if decide (c = d) then f n else n).
Proof.
  intros Hd. case_decide as E; [subst; by rewrite lookup_alter_eq, Hd|by rewrite lookup_alter_ne].
Qed.

Lemma announce_fields id route_id cpp_fn w :
  let w' := announce id route_id cpp_fn w in
  g_wsSessions w' = g_wsSessions w ∧ g_nextWsId w' = g_nextWsId w ∧
  g_wsRoutes w' = g_wsRoutes w ∧ ws_live w' = ws_live w.
Proof. unfold announce. by case_if. Qed.

(** What [enrol] does to the table of a world with fresh ids. *)
Lemma enrol_sessions now route_id conn cpp_fn g w :
  (∀ id, id ∈ dom (g_wsSessions w) → id < g_nextWsId w) → 0 ≤ g_nextWsId w < 2 ^ 64 - 1 →
  let w' := let '(id, w) := enrol now route_id conn cpp_fn g w in announce id route_id cpp_fn w in
  ∃ s, g_wsSessions w' = <[g_nextWsId w := s]> (g_wsSessions w) ∧ g_wsSessions w !! g_nextWsId w = None ∧
    g_nextWsId w' = g_nextWsId w + 1 ∧ g_wsRoutes w' = g_wsRoutes w ∧ ws_live w' = ws_live w ∧
    ∀ c, holds c s ↔ (cpp_fn ≠ 0 ∧ 0 < gd_max_conns g ∧ gd_live g = Some c).
Proof.
  intros Hfresh Hb. cbn.
  assert (Hn : g_wsSessions w !! g_nextWsId w = None).
  { apply not_elem_of_dom. intros Hin. apply Hfresh in Hin. lia. }
  destruct (announce_fields (g_nextWsId w) route_id cpp_fn
              (snd (enrol now route_id conn cpp_fn g w))) as (E1 & E2 & E3 & E4).
  cbn in E1, E2, E3, E4. rewrite E1, E2, E3, E4, Hn, wrapU64_small by lia. clear E1 E2 E3 E4.
  eexists. split; [reflexivity|]. split; [done|]. split; [done|]. split; [done|]. split; [done|].
  intros c. unfold holds. cbn. destruct (Z.eqb_spec cpp_fn 0) as [->|Hne]; cbn; [split; [by intros [? _]|by intros [? _]]|].
  destruct (Z.ltb_spec 0 (gd_max_conns g)); cbn; [|split; [by intros [? _]|intros (_ & ? & _); lia]].
  destruct (gd_live g); split; naive_solver.
Qed.

Lemma capacity_inv_step rs n st st' :
  Z.of_nat n + 2 < 2 ^ 64 → inv rs n st → step st st' → inv rs (S n) st'.
Proof.
  intros Hb Hinv Hstep. pose proof Hinv as [Hr Hd Hp Hf Hn Hc Hm]. destruct Hstep as
    [r rid conn w w' ps ok Hrt Hg Hres|r conn w ps1 ps2|now r rid conn w ps1 ps2|
     now rid conn fn g w ps Hfree|id w ps sess w' Hun|id sess w ps1 ps2|id w ps1 ps2|
     w w' ps H1 H2 H3 H4 H5]; cbn [cw pend] in *.
  - unfold reserve in Hres. injection Hres as <- <-.
    assert (Hin : r ∈ rs).
    { rewrite <- Hr. unfold ws_route in Hrt. case_if; [done|]. by apply list_elem_of_lookup_2 in Hrt. }
    pose proof (Hc r Hin) as Hlive. rewrite Hlive. cbn [default].
    set (ok := _ <=? _) in *. split; cbn [cw pend]; try done; [| |intros q Hq|intros q Hq Hgq].
    + constructor; [|done]. by destruct ok.
    + cbn. lia.
    + cbn. rewrite (alter_live _ _ _ _ _ (Hc q Hq)). f_equal.
      assert (Hone : share (wr_live q) (if ok then Granted r rid conn else Refused r conn) = one_if (wr_live r = wr_live q))
        by (by destruct ok).
      unfold total. cbn. fold (total (share (wr_live q)) ps). rewrite Hone. unfold one_if. destruct (decide (wr_live r = wr_live q)); lia.
    + cbn. unfold total. cbn. fold (total (occupies (wr_live q)) ps). specialize (Hm q Hq Hgq).
      destruct ok eqn:Eok; cbn; [|lia]. unfold one_if. destruct (decide (wr_live r = wr_live q)) as [Eq|]; [|lia].
      assert (r = q) as -> by (by apply Hd). unfold ok in Eok. bool_to_prop.
      pose proof (occupies_le (wr_live q) ps). cbv [id] in Eok. lia.
  - split; cbn [cw pend]; try done.
    + apply Forall_app in Hp as [? Hp]. inversion Hp; subst. by apply Forall_app.
    + cbn. lia.
    + intros q Hq. cbn. rewrite (alter_live _ _ _ _ _ (Hc q Hq)). f_equal. rewrite total_mid. cbn.
      unfold one_if. destruct (decide (wr_live r = wr_live q)); lia.
    + intros q Hq Hgq. specialize (Hm q Hq Hgq). rewrite total_mid in Hm. cbn in Hm |- *. lia.
  - assert (Hpr : r ∈ rs ∧ guarded r) by (apply Forall_app in Hp as [_ Hp]; by inversion Hp).
    destruct (enrol_sessions now rid conn (wr_cpp_fn r) (guards_of r) w Hf) as (s & E1 & E2 & E3 & E4 & E5 & Hh); [lia|].
    set (w2 := let '(_, _) := _ in _) in *.
    assert (Hs : ∀ q, slots (wr_live q) (g_wsSessions w2) = one_if (wr_live r = wr_live q) + slots (wr_live q) (g_wsSessions w)).
    { intros q. rewrite E1, slots_insert by done. f_equal. unfold one_if.
      assert (Hiff : holds (wr_live q) s ↔ wr_live r = wr_live q).
      { rewrite Hh. cbn. destruct Hpr as (_ & ? & ?). split; [by intros (_ & _ & [=])|by intros ->]. }
      destruct (decide (holds _ s)), (decide (wr_live r = wr_live q)); try done; tauto. }
    split; cbn [cw pend]; rewrite ?E4; try done.
    + apply Forall_app in Hp as [? Hp]. inversion Hp; subst. by apply Forall_app.
    + intros id. rewrite E1, E3, dom_insert. intros Hid. apply elem_of_union in Hid as [Hid|Hid].
      * apply elem_of_singleton in Hid. lia.
      * specialize (Hf id Hid). lia.
    + lia.
    + intros q Hq. rewrite E5, (Hc q Hq), Hs, total_mid. f_equal. cbn. lia.
    + intros q Hq Hgq. specialize (Hm q Hq Hgq). rewrite Hs. rewrite total_mid in Hm. cbn in Hm. lia.
  - destruct (enrol_sessions now rid conn fn g w Hf) as (s & E1 & E2 & E3 & E4 & E5 & Hh); [lia|].
    set (w2 := let '(_, _) := _ in _) in *.
    assert (Hs : ∀ c, slots c (g_wsSessions w2) = slots c (g_wsSessions w)).
    { intros c. rewrite E1, slots_insert by done. unfold one_if. rewrite decide_False; [lia|].
      rewrite Hh. intros (? & ? & _). destruct Hfree; lia. }
    split; cbn [cw pend]; rewrite ?E4; try done.
    + intros id. rewrite E1, E3, dom_insert. intros Hid. apply elem_of_union in Hid as [Hid|Hid].
      * apply elem_of_singleton in Hid. lia.
      * specialize (Hf id Hid). lia.
    + lia.
    + intros q Hq. by rewrite E5, (Hc q Hq), Hs.
    + intros q Hq Hgq. rewrite Hs. by apply Hm.
  - injection Hun as <- <-. unfold findWsSession.
    assert (Hs : ∀ c, slots c (delete id (g_wsSessions w)) + share c (Unlinked id (g_wsSessions w !! id)) =
                      slots c (g_wsSessions w)).
    { intros c. cbn. destruct (g_wsSessions w !! id) as [s|] eqn:E.
      - rewrite (slots_delete _ _ _ _ E). lia.
      - rewrite delete_id by done. lia. }
    split; cbn; try done.
    + by constructor.
    + intros i. rewrite dom_delete. intros Hi. apply Hf. set_solver.
    + lia.
    + intros q Hq. rewrite (Hc q Hq), <- Hs. f_equal. unfold total. cbn. lia.
    + intros q Hq Hgq. specialize (Hm q Hq Hgq). rewrite <- Hs in Hm. unfold total in *. cbn in *. lia.
  - assert (Hgb : ∀ q n, ws_live w !! wr_live q = Some n →
              ws_live (give_back sess w) !! wr_live q = Some (n - share (wr_live q) (Unlinked id sess))).
    { intros q m Hq. destruct sess as [s|]; cbn; [|by rewrite Z.sub_0_r].
      unfold one_if. destruct (decide (holds (wr_live q) s)) as [[E1 E2]|Hnot].
      - rewrite E1, E2. cbn. by rewrite (alter_live _ _ _ _ _ Hq), decide_True.
      - rewrite Z.sub_0_r. destruct (ws_live_counter s) as [c|] eqn:Ec; [|done].
        destruct (ws_counted s) eqn:Ect; [|done]. cbn.
        rewrite (alter_live _ _ _ _ _ Hq), decide_False; [done|]. intros ->. by apply Hnot. }
    assert (Hsame : g_wsSessions (give_back sess w) = g_wsSessions w ∧ g_nextWsId (give_back sess w) = g_nextWsId w ∧
                    g_wsRoutes (give_back sess w) = g_wsRoutes w).
    { destruct sess as [s|]; [|done]. cbn. destruct (ws_live_counter s); [|done]. by destruct (ws_counted s). }
    destruct Hsame as (S1 & S2 & S3).
    split; cbn [cw pend]; rewrite ?S1, ?S2, ?S3; try done.
    + apply Forall_app in Hp as [? Hp]. inversion Hp; subst. constructor; [done|]. by apply Forall_app.
    + lia.
    + intros q Hq. rewrite (Hgb q _ (Hc q Hq)), total_mid. f_equal. unfold total. cbn [foldr share].
      fold (total (share (wr_live q)) (ps1 ++ ps2)). lia.
    + intros q Hq Hgq. specialize (Hm q Hq Hgq). rewrite total_mid in Hm.
      pose proof (share_nonneg (wr_live q) (Unlinked id sess)). unfold total in *. cbn [foldr occupies share] in *. lia.
  - split; cbn; try done.
    + apply Forall_app in Hp as [? Hp]. inversion Hp; subst. by apply Forall_app.
    + lia.
    + intros q Hq. rewrite (Hc q Hq), total_mid. done.
    + intros q Hq Hgq. specialize (Hm q Hq Hgq). by rewrite total_mid in Hm.
  - split; cbn; try done; [congruence|rewrite H4, H3; done|lia|intros q Hq|intros q Hq Hgq].
    + by rewrite H2, (Hc q Hq), H5.
    + rewrite H5. by apply Hm.
Qed.

(** A server about to serve the routes [rs]: no session yet, every counter 0,
    no counter shared. *)
Record fresh (rs : list WsRoute) (w : WsWorld) : Prop := {
  fr_routes : g_wsRoutes w = rs;
  fr_distinct : ∀ r1 r2, r1 ∈ rs → r2 ∈ rs → wr_live r1 = wr_live r2 → r1 = r2;
  fr_sessions : g_wsSessions w = ∅;
  fr_next : g_nextWsId w = 1;
  fr_live : ∀ r, r ∈ rs → ws_live w !! wr_live r = Some 0;
}.

Lemma inv_init rs w : fresh rs w → inv rs 0 {| cw := w; pend := [] |}.
Proof.
  intros [Hr Hd Hs Hn Hl]. split; cbn [cw pend]; try done; rewrite ?Hn; try lia.
  - intros id. rewrite Hs, dom_empty. set_solver.
  - intros r Hin. rewrite Hs, slots_empty. by apply Hl.
  - intros r Hin [_ ?]. rewrite Hs, slots_empty. unfold total. cbn. lia.
Qed.

Lemma inv_reach rs w n st :
  fresh rs w → Z.of_nat n + 1 < 2 ^ 64 → steps step n {| cw := w; pend := [] |} st → inv rs n st.
Proof.
  intros Hw Hn Hs. remember {| cw := w; pend := [] |} as st0 eqn:E.
  induction Hs as [a|n a b c Hab IH Hbc]; subst; [by apply inv_init|].
  eapply capacity_inv_step; [|apply IH; [lia|done]|done]. lia.
Qed.

(** C13. The concurrency cap of a native WebSocket route holds under every
    interleaving of connects, refusals and closes at the granularity of the
    atomic operations: the sessions in the table, the admitted connects not
    yet in it and the closed ones whose slot is still out never exceed
    [max_conns] together; and the counter accounts for every slot exactly, so
    that when nothing is in flight it equals the number of live sessions. *)
Theorem capacity_respected rs w n st r :
  fresh rs w → Z.of_nat n + 1 < 2 ^ 64 → steps step n {| cw := w; pend := [] |} st →
  r ∈ rs → guarded r →
  slots (wr_live r) (g_wsSessions (cw st)) ≤ wr_max_conns r ∧
  slots (wr_live r) (g_wsSessions (cw st)) + total (occupies (wr_live r)) (pend st) ≤ wr_max_conns r ∧
  (pend st = [] → ws_live (cw st) !! wr_live r = Some (slots (wr_live r) (g_wsSessions (cw st)))).
Proof.
  intros Hw Hn Hs Hr Hg. pose proof (inv_reach _ _ _ _ Hw Hn Hs) as Hinv.
  pose proof (inv_cap _ _ _ Hinv r Hr Hg) as Hcap.
  assert (H0 : 0 ≤ total (occupies (wr_live r)) (pend st)).
  { clear Hinv Hcap Hs. unfold total. induction (pend st) as [|p ps IH]; cbn [foldr]; [lia|].
    pose proof (share_nonneg (wr_live r) p). lia. }
  split; [lia|]. split; [done|]. intros Hp. rewrite (inv_count _ _ _ Hinv r Hr), Hp. cbn. by rewrite Z.add_0_r.
Qed.

(** The operations of the component as runs of this system. *)
Definition runs (w w' : WsWorld) : Prop :=
  ∀ ps, ∃ n, (n ≤ 3)%nat ∧ steps step n {| cw := w; pend := ps |} {| cw := w'; pend := ps |}.

(** Same routes, counters, ids and slots. *)
Definition quiet (w w' : WsWorld) : Prop :=
  g_wsRoutes w' = g_wsRoutes w ∧ ws_live w' = ws_live w ∧ g_nextWsId w' = g_nextWsId w ∧
  dom (g_wsSessions w') = dom (g_wsSessions w) ∧
  ∀ c, slots c (g_wsSessions w') = slots c (g_wsSessions w).

Lemma quiet_refl w : quiet w w.
Proof. done. Qed.
Lemma quiet_trans w1 w2 w3 : quiet w1 w2 → quiet w2 w3 → quiet w1 w3.
Proof.
  intros (A1 & A2 & A3 & A4 & A5) (B1 & B2 & B3 & B4 & B5).
  repeat split; try congruence.
Qed.
#[local] Hint Resolve quiet_refl : core.

Lemma quiet_runs w w' : quiet w w' → runs w w'.
Proof. intros (H1 & H2 & H3 & H4 & H5) ps. exists 1%nat. split; [lia|]. apply steps_one. by apply st_other. Qed.

Lemma quiet_alter f id w :
  (∀ s, ws_live_counter (f s) = ws_live_counter s ∧ ws_counted (f s) = ws_counted s) →
  quiet w (upd_sessions (alter f id) w).
Proof. intros Hf. repeat split; cbn; [apply dom_alter_L|]. intros c. by apply slots_alter. Qed.

Lemma quiet_send id data b w : quiet w (sendToConn id data b w).
Proof. unfold sendToConn. case_match; [|done]. by case_if. Qed.

Lemma quiet_cpp_send now id data b w : quiet w (snd (wsCppSend now id data b w)).
Proof.
  unfold wsCppSend. case_match; [|done]. case_if; [done|]. case_decide; [|done]. cbn.
  eapply quiet_trans; [|by apply quiet_alter]. done.
Qed.

Lemma quiet_close id w : quiet w (wsCppClose id w).
Proof.
  unfold wsCppClose. case_match; [|done]. case_if; [|done].
  eapply quiet_trans; [by apply (quiet_alter set_ws_closing id)|]. done.
Qed.

Lemma quiet_op w op : quiet w (run_op w op).
Proof.
  destruct op; cbn; [apply quiet_send|apply quiet_close|done|done|].
  unfold roomBroadcast. destruct (g_wsRooms w !! room) as [m|]; [|done].
  generalize 0 as n, (elements m) as l. intros n l. revert n w.
  induction l as [|id l IH]; intros n w; cbn; [done|].
  eapply quiet_trans; [apply (quiet_send id data binary)|]. apply IH.
Qed.

Lemma quiet_reap now w : quiet w (reapExpiredSessions now w).
Proof.
  unfold reapExpiredSessions. case_if; [done|].
  generalize (filter (λ p, expired now (snd p) = true) (map_to_list (g_wsSessions w))) as l. intros l.
  clear. revert w. induction l as [|[id s] l IH]; intros w; cbn [fold_left]; [done|].
  eapply quiet_trans; [|apply IH]. unfold reap_one.
  eapply quiet_trans; [by apply (quiet_alter set_ws_closing id)|]. by case_if.
Qed.

Lemma erase_runs id w : runs w (eraseWsSession id w).
Proof.
  intros ps. exists 3%nat. split; [lia|]. unfold eraseWsSession. cbn [unlink].
  eapply steps_snoc; [eapply steps_snoc; [apply steps_one; by apply (st_unlink id w ps)|]|].
  - apply (st_give_back id _ _ [] ps).
  - apply (st_drop id _ [] ps).
Qed.

Lemma quiet_then_runs w w1 w2 : quiet w w1 → runs w1 w2 → ∀ ps, ∃ n, (n ≤ 4)%nat ∧
  steps step n {| cw := w; pend := ps |} {| cw := w2; pend := ps |}.
Proof.
  intros Hq Hr ps. destruct (Hr ps) as (n & Hn & Hs). exists (n + 1)%nat. split; [lia|].
  eapply steps_trans; [|exact Hs]. destruct Hq as (H1 & H2 & H3 & H4 & H5). apply steps_one. by apply st_other.
Qed.

Lemma controller_runs now path conn msg binary w ps :
  (∃ n, (n ≤ 4)%nat ∧ steps step n {| cw := w; pend := ps |} {| cw := handleNewConnection now path conn w; pend := ps |}) ∧
  (∃ n, (n ≤ 4)%nat ∧ steps step n {| cw := w; pend := ps |} {| cw := handleNewMessage conn msg binary w; pend := ps |}) ∧
  (∃ n, (n ≤ 4)%nat ∧ steps step n {| cw := w; pend := ps |} {| cw := handleConnectionClosed conn w; pend := ps |}).
Proof.
  assert (Hq : ∀ w', quiet w w' → ∃ n, (n ≤ 4)%nat ∧ steps step n {| cw := w; pend := ps |} {| cw := w'; pend := ps |}).
  { intros w' Hw. destruct (quiet_runs _ _ Hw ps) as (n & ? & ?). exists n. split; [lia|done]. }
  split; [|split].
  - unfold handleNewConnection. set (rid := routeIdForPath path w).
    destruct (Z.eqb_spec (cppFnForRoute rid w) 0) as [E|E]; cbn [gd_live no_guards].
    + exists 1%nat. split; [lia|]. apply steps_one. apply st_connect. by left.
    + unfold guardsForRoute, cppFnForRoute in *. destruct (ws_route rid w) as [r|] eqn:Er; [|done].
      cbn [gd_live gd_max_conns negb andb].
      destruct (Z.ltb_spec 0 (wr_max_conns r)).
      * destruct (reserve (wr_live r) (wr_max_conns r) w) as [ok w1] eqn:Eres.
        assert (Hres := st_reserve r rid conn w w1 ps ok Er (conj E H) Eres).
        exists 2%nat. split; [lia|]. eapply steps_snoc; [apply steps_one; exact Hres|].
        destruct ok; [apply (st_admit now r rid conn w1 [] ps)|apply (st_rollback r conn w1 [] ps)].
      * exists 1%nat. split; [lia|]. apply steps_one.
        apply (st_connect now rid conn (wr_cpp_fn r)). right. cbn. lia.
  - apply Hq. unfold handleNewMessage, dispatchCpp. repeat case_match; try done.
  - unfold handleConnectionClosed. destruct (ws_contexts w !! conn) as [id|]; [|by apply Hq].
    destruct (findWsSession id w) as [s|]; [|by apply Hq].
    assert (Hc : quiet w (upd_sessions (alter set_ws_closing id) w)) by (by apply quiet_alter).
    case_if.
    + eapply quiet_then_runs; [|apply erase_runs]. eapply quiet_trans; [exact Hc|].
      unfold dispatchCpp. by case_if.
    + apply Hq. eapply quiet_trans; [exact Hc|done].
Qed.

(** The three hooks of the WebSocket controller are runs of the capacity
    protocol: whatever path, connection and message they are called with, each
    takes the world through at most four of its steps, so what the protocol
    guarantees under interleaving holds of the code. *)
Theorem controller_refines_capacity now path conn msg binary w ps :
  (∃ n, (n ≤ 4)%nat ∧ steps step n {| cw := w; pend := ps |} {| cw := handleNewConnection now path conn w; pend := ps |}) ∧
  (∃ n, (n ≤ 4)%nat ∧ steps step n {| cw := w; pend := ps |} {| cw := handleNewMessage conn msg binary w; pend := ps |}) ∧
  (∃ n, (n ≤ 4)%nat ∧ steps step n {| cw := w; pend := ps |} {| cw := handleConnectionClosed conn w; pend := ps |}).
Proof. apply controller_runs. Qed.
End Capacity.

(** ** Delivery of events *)

(** The hook call an event leads to. *)
Definition expected_call (rs : list WsRoute) (ev : WsEvent) : option delivery :=
  let hooks := if (ev_route_id ev <? 0) || (wrapI32 (Z.of_nat (length rs)) <=? ev_route_id ev) then None
               else rs !! Z.to_nat (ev_route_id ev) in
  let conn := makeWsConn (ev_conn_id ev) in
  let call hook args := if is_closure hook then Some (HookCall hook args) else None in
  match hooks with
  | None => None
  | Some r =>
      match ev_type ev with
      | Connect => call (wr_on_connect r) [conn]
      | Message => call (wr_on_message r) [conn; mkString (ev_message ev); ScalarLogical (ev_binary ev)]
      | Close => call (wr_on_close r) [conn]
      end
  end.

(** What the R code's own calls leave alone. *)
Definition frame (w w' : WsWorld) : Prop :=
  g_wsRoutes w' = g_wsRoutes w ∧ ws_log w' = ws_log w ∧ g_wsEvents w' = g_wsEvents w ∧
  ∀ id, g_wsSessions w !! id = None → g_wsSessions w' !! id = None.

Lemma frame_trans w1 w2 w3 : frame w1 w2 → frame w2 w3 → frame w1 w3.
Proof. intros (A & B & C & D) (A' & B' & C' & D'). repeat split; try congruence. auto. Qed.

Lemma frame_op w op : frame w (run_op w op).
Proof.
  assert (Hsend : ∀ id data b w, frame w (sendToConn id data b w)).
  { intros. unfold sendToConn. case_match; [|done]. by case_if. }
  destruct op; cbn; [apply Hsend| |done|done|].
  - unfold ws_close, wsCppClose. case_match; [|done]. case_if; [|done]. repeat split; cbn. intros i Hi.
    destruct (decide (i = id)) as [->|]; [by rewrite lookup_alter_eq, Hi|by rewrite lookup_alter_ne].
  - unfold roomBroadcast. destruct (g_wsRooms w !! room) as [m|]; [|done].
    generalize 0 as n, (elements m) as l. intros n l. revert n w.
    induction l as [|id l IH]; intros n w; cbn; [done|].
    eapply frame_trans; [apply (Hsend id data binary)|]. apply IH.
Qed.

Lemma frame_ops ops w : frame w (fold_left run_op ops w).
Proof.
  revert w; induction ops as [|op ops IH]; intros w; cbn; [done|].
  eapply frame_trans; [apply frame_op|apply IH].
Qed.

Lemma callHook_spec code hook args w :
  let w' := callHook code hook args w in
  g_wsRoutes w' = g_wsRoutes w ∧ g_wsEvents w' = g_wsEvents w ∧
  (∀ id, g_wsSessions w !! id = None → g_wsSessions w' !! id = None) ∧
  ws_log w' = ws_log w ++ (if is_closure hook then [HookCall hook args] else []).
Proof.
  unfold callHook. destruct (is_closure hook); [|by rewrite app_nil_r].
  destruct (frame_ops (code (length (ws_log w)) hook args) (upd_log (HookCall hook args) w)) as (A & B & C & D).
  done.
Qed.

Lemma erase_spec id w :
  let w' := eraseWsSession id w in
  g_wsRoutes w' = g_wsRoutes w ∧ g_wsEvents w' = g_wsEvents w ∧ ws_log w' = ws_log w ∧ ws_out w' = ws_out w ∧
  g_wsSessions w' = delete id (g_wsSessions w) ∧
  g_wsRooms w' = (λ m : gset Z, m ∖ {[id]}) <$> g_wsRooms w.
Proof.
  unfold eraseWsSession, unlink, give_back. destruct (findWsSession id w) as [s|]; [|done].
  destruct (ws_live_counter s); [|done]. by destruct (ws_counted s).
Qed.

Definition call_list (rs : list WsRoute) (ev : WsEvent) : list delivery :=
  match expected_call rs ev with Some d => [d] | None => [] end.

Lemma handle_event_spec code w ev :
  let w' := handle_event code w ev in
  g_wsRoutes w' = g_wsRoutes w ∧ g_wsEvents w' = g_wsEvents w ∧
  (∀ id, g_wsSessions w !! id = None → g_wsSessions w' !! id = None) ∧
  ws_log w' = ws_log w ++ call_list (g_wsRoutes w) ev ∧
  (ev_type ev = Close → g_wsSessions w' !! ev_conn_id ev = None).
Proof.
  unfold handle_event, hooks_of, call_list, expected_call, ws_route.
  set (r := if _ || _ then None else _).
  set (conn := makeWsConn (ev_conn_id ev)).
  destruct (match r with Some r0 => (_, _, _) | None => _ end) as [[oc om] ocl] eqn:Eh.
  destruct (ev_type ev).
  - destruct (callHook_spec code oc [conn] w) as (A & B & C & D). cbn in *. rewrite D.
    destruct r as [r0|]; simplify_eq; [|done]. by destruct (is_closure (wr_on_connect r0)).
  - destruct (callHook_spec code om [conn; mkString (ev_message ev); ScalarLogical (ev_binary ev)] w) as (A & B & C & D).
    cbn in *. rewrite D. destruct r as [r0|]; simplify_eq; [|done]. by destruct (is_closure (wr_on_message r0)).
  - destruct (callHook_spec code ocl [conn] w) as (A & B & C & D).
    destruct (erase_spec (ev_conn_id ev) (callHook code ocl [conn] w)) as (A' & B' & C' & _ & D' & _).
    cbn in *. rewrite A', B', C', D', A, B, D. split; [done|]. split; [done|]. split; [|split].
    + intros id Hid. apply lookup_delete_None. right. by apply C.
    + destruct r as [r0|]; simplify_eq; [|done]. by destruct (is_closure (wr_on_close r0)).
    + intros _. apply lookup_delete_eq.
Qed.

(** Events reach R in order and once: a round of the pump empties the event
    queue and calls, for each queued event in queue order, exactly the hook its
    route has for it, with the connection object and (for messages) payload and
    frame type, whatever the hooks do; after a Close event its session is out of
    the table. *)
Theorem drainWsEvents_delivers code w :
  let w' := drainWsEvents code w in
  ws_log w' = ws_log w ++ flat_map (call_list (g_wsRoutes w)) (g_wsEvents w) ∧
  g_wsEvents w' = [] ∧ g_wsRoutes w' = g_wsRoutes w ∧
  ∀ ev, ev ∈ g_wsEvents w → ev_type ev = Close → findWsSession (ev_conn_id ev) w' = None.
Proof.
  unfold drainWsEvents. generalize (g_wsEvents w) as evs. intros evs.
  set (w0 := upd_events (λ _, []) 0 w).
  assert (Hgen : ∀ evs u, g_wsRoutes u = g_wsRoutes w → g_wsEvents u = [] →
    let u' := fold_left (handle_event code) evs u in
    g_wsRoutes u' = g_wsRoutes w ∧ g_wsEvents u' = [] ∧
    (∀ id, g_wsSessions u !! id = None → g_wsSessions u' !! id = None) ∧
    ws_log u' = ws_log u ++ flat_map (call_list (g_wsRoutes w)) evs ∧
    ∀ ev, ev ∈ evs → ev_type ev = Close → g_wsSessions u' !! ev_conn_id ev = None).
  { clear evs. induction evs as [|ev evs IH]; intros u Hr He; cbn.
    - rewrite app_nil_r. repeat split; try done. intros ev Hev. by apply not_elem_of_nil in Hev.
    - destruct (handle_event_spec code u ev) as (A & B & C & D & E).
      destruct (IH (handle_event code u ev)) as (A' & B' & C' & D' & E'); [congruence|congruence|].
      split; [done|]. split; [done|]. split; [auto|]. split; [rewrite D', D, Hr; by rewrite <- app_assoc|].
      intros ev' Hev Hcl. apply elem_of_cons in Hev as [->|Hev]; auto. }
  destruct (Hgen evs w0 eq_refl eq_refl) as (A & B & _ & D & E). done.
Qed.

(** A dead connection stays dead: once a session is erased its id is in no
    room, and whatever R code does afterwards (sends, closes, joins, leaves,
    broadcasts), a send or close through the stale id, from R or from a native
    backend's kept handle, finds nothing and changes nothing. *)
Theorem erased_session_is_inert id w ops :
  let w' := fold_left run_op ops (eraseWsSession id w) in
  (∀ room m, g_wsRooms (eraseWsSession id w) !! room = Some m → id ∉ m) ∧
  (∀ data b, sendToConn id data b w' = w') ∧ ws_close id w' = w' ∧
  (∀ now data b, wsCppSend now id data b w' = (-1, w')) ∧ wsCppIsConnected id w' = 0.
Proof.
  intros w'. destruct (erase_spec id w) as (_ & _ & _ & _ & Hs & Hr).
  assert (Hf : findWsSession id w' = None).
  { unfold w', findWsSession. apply (frame_ops ops (eraseWsSession id w)). rewrite Hs. apply lookup_delete_eq. }
  split.
  - intros room m. rewrite Hr, lookup_fmap. intros Hm. apply fmap_Some in Hm as (m0 & _ & ->). set_solver.
  - unfold sendToConn, ws_close, wsCppClose, wsCppSend, wsCppIsConnected. by rewrite Hf.
Qed.

(** ** Rooms *)

Definition reachable_member (w : WsWorld) (id : Z) : option positive :=
  match findWsSession id w with
  | Some s => if ws_closing s || negb (ws_loop s) then None else Some (ws_conn s)
  | None => None
  end.

Lemma broadcast_loop_spec ids data b n w :
  let '(n', w') := broadcast_loop ids data b n w in
  n' = n + Z.of_nat (length ids) ∧ g_wsSessions w' = g_wsSessions w ∧ g_wsRooms w' = g_wsRooms w ∧
  ws_out w' = ws_out w ++ map (λ c, (c, OutSend data b)) (omap (reachable_member w) ids).
Proof.
  revert n w. induction ids as [|id ids IH]; intros n w; cbn [broadcast_loop].
  { cbn. rewrite app_nil_r. split; [lia|done]. }
  assert (Hs : g_wsSessions (sendToConn id data b w) = g_wsSessions w ∧ g_wsRooms (sendToConn id data b w) = g_wsRooms w ∧
    ws_out (sendToConn id data b w) =
      ws_out w ++ map (λ c, (c, OutSend data b)) (match reachable_member w id with Some c => [c] | None => [] end)).
  { unfold sendToConn, reachable_member. destruct (findWsSession id w) as [s|]; [|by rewrite app_nil_r].
    case_if; [by rewrite app_nil_r|done]. }
  destruct Hs as (H1 & H2 & H3). specialize (IH (n + 1) (sendToConn id data b w)).
  destruct (broadcast_loop ids data b (n + 1) _) as [n' w']. destruct IH as (-> & G1 & G2 & G3).
  split; [cbn; lia|]. split; [congruence|]. split; [congruence|]. rewrite G3, H3.
  assert (Hr : ∀ i, reachable_member (sendToConn id data b w) i = reachable_member w i)
    by (intros i; unfold reachable_member, findWsSession; by rewrite H1).
  assert (He : omap (reachable_member (sendToConn id data b w)) ids = omap (reachable_member w) ids).
  { clear -Hr. induction ids as [|i l IH]; [done|]. cbn [omap list_omap]. rewrite Hr.
    destruct (reachable_member w i); [f_equal|]; exact IH. }
  rewrite He, <- app_assoc, <- map_app. cbn [omap list_omap].
  by destruct (reachable_member w id).
Qed.

(** A broadcast queues the message exactly once for every member of the room
    that is live and not closing, and for nobody else; the number it returns is
    the size of the room, stale and closing members included. *)
Theorem broadcast_spec room data b w m n w' :
  g_wsRooms w !! room = Some m → roomBroadcast room data b w = (n, w') →
  ws_out w' = ws_out w ++ map (λ c, (c, OutSend data b)) (omap (reachable_member w) (elements m)) ∧
  n = Z.of_nat (size m) ∧ g_wsSessions w' = g_wsSessions w ∧ g_wsRooms w' = g_wsRooms w.
Proof.
  intros Hm Hb. unfold roomBroadcast in Hb. rewrite Hm in Hb.
  pose proof (broadcast_loop_spec (elements m) data b 0 w) as Hs. rewrite Hb in Hs.
  destruct Hs as (-> & H1 & H2 & H3). done.
Qed.

(** ** The reaper *)

Lemma reap_fold l w :
  NoDup (map fst l) →
  let w' := fold_left reap_one l w in
  (∀ id, g_wsSessions w' !! id =
     (if decide (id ∈ map fst l) then set_ws_closing <$> (g_wsSessions w !! id) else g_wsSessions w !! id)) ∧
  ws_out w' = ws_out w ++ map (λ p, (ws_conn (snd p), OutShutdown None)) (filter (λ p, ws_loop (snd p) = true) l) ∧
  g_wsReaperStop w' = g_wsReaperStop w.
Proof.
  revert w. induction l as [|[i s] l IH]; intros w Hnd; cbn [map fold_left] in *.
  { cbn. rewrite app_nil_r. split; [|done]. intros id. rewrite decide_False; [done|set_solver]. }
  apply list.NoDup_cons in Hnd as [Hni Hnd].
  destruct (IH (reap_one w (i, s)) Hnd) as (H1 & H2 & H3). split; [|split].
  - intros id. rewrite H1.
    assert (Hl : g_wsSessions (reap_one w (i, s)) !! id = alter set_ws_closing i (g_wsSessions w) !! id)
      by (unfold reap_one; by case_if).
    rewrite Hl. destruct (decide (id = i)) as [->|Hne].
    + rewrite decide_False by done. rewrite decide_True by set_solver. by rewrite lookup_alter_eq.
    + rewrite lookup_alter_ne by done. destruct (decide (id ∈ map fst l)).
      * by rewrite decide_True by set_solver.
      * by rewrite decide_False by set_solver.
  - rewrite H2. unfold reap_one. rewrite filter_cons. cbn [snd]. destruct (ws_loop s); cbn.
    + by rewrite <- app_assoc.
    + done.
  - rewrite H3. unfold reap_one. by case_if.
Qed.

(** A tick of the reaper marks as closing exactly the native sessions that
    are past their idle or lifetime limit and not closing yet, queues one
    shutdown for each of them, and leaves every other session as it is; a
    second tick at the same time does nothing. *)
Theorem reaper_spec now w :
  g_wsReaperStop w = false →
  let w' := reapExpiredSessions now w in
  (∀ id, g_wsSessions w' !! id =
     (λ s, if expired now s then set_ws_closing s else s) <$> (g_wsSessions w !! id)) ∧
  ws_out w' = ws_out w ++ map (λ p, (ws_conn (snd p), OutShutdown None))
     (filter (λ p, ws_loop (snd p) = true)
        (filter (λ p, expired now (snd p) = true) (map_to_list (g_wsSessions w)))) ∧
  reapExpiredSessions now w' = w'.
Proof.
  intros Hstop. unfold reapExpiredSessions at 1 2. rewrite Hstop.
  set (l := filter (λ p, expired now (snd p) = true) (map_to_list (g_wsSessions w))).
  assert (Hin : ∀ id s, (id, s) ∈ l ↔ g_wsSessions w !! id = Some s ∧ expired now s = true).
  { intros id s. unfold l. rewrite list_elem_of_filter, elem_of_map_to_list. cbn. tauto. }
  assert (Hnd : NoDup (map fst l)).
  { apply NoDup_fmap_fst; [|apply list.NoDup_filter, NoDup_map_to_list].
    intros id s1 s2 E1 E2. apply Hin in E1, E2. destruct E1, E2. congruence. }
  destruct (reap_fold l w Hnd) as (H1 & H2 & H3).
  assert (Hsess : ∀ id, g_wsSessions (fold_left reap_one l w) !! id =
     (λ s, if expired now s then set_ws_closing s else s) <$> (g_wsSessions w !! id)).
  { intros id. rewrite H1. destruct (g_wsSessions w !! id) as [s|] eqn:Es; cbn; [|by case_decide].
    destruct (decide (id ∈ map fst l)) as [Hid|Hid].
    - apply list_elem_of_fmap in Hid as ([id' s'] & -> & Hs'). apply Hin in Hs' as [Hs' He]. cbn in Es.
      rewrite Hs' in Es. injection Es as <-. by rewrite He.
    - destruct (expired now s) eqn:He; [|done]. exfalso. apply Hid. apply list_elem_of_fmap.
      exists (id, s). split; [done|]. by apply Hin. }
  split; [exact Hsess|]. split; [exact H2|].
  unfold reapExpiredSessions. rewrite H3, Hstop.
  set (w' := fold_left reap_one l w) in *.
  replace (filter _ _) with (@nil (Z * WsSession)); [done|].
  symmetry. apply elem_of_nil_inv. intros [id s] Hids.
  apply list_elem_of_filter in Hids as [He Hids]. apply elem_of_map_to_list in Hids. cbn in He.
  rewrite Hsess in Hids. apply fmap_Some in Hids as (s0 & _ & ->).
  destruct (expired now s0) eqn:E0; [|congruence].
  unfold expired in He. cbn in He. by rewrite andb_false_r in He.
Qed.

(** ** The hooks' share of the precious list *)

Definition route_hooks (r : WsRoute) : list SEXP :=
  filter (λ h, is_nil h = false) [wr_on_connect r; wr_on_message r; wr_on_close r].

Lemma preserve_hook_perm h p : preserve_hook h p ≡ₚ filter (λ h, is_nil h = false) [h] ++ p.
Proof. unfold preserve_hook. rewrite filter_cons, filter_nil. by destruct (is_nil h). Qed.

Lemma release_hook_perm h p q : p ≡ₚ filter (λ h, is_nil h = false) [h] ++ q → release_hook h p ≡ₚ q.
Proof.
  unfold release_hook. rewrite filter_cons, filter_nil. destruct (is_nil h); cbn; [done|]. apply release_perm.
Qed.

Definition ws_balanced (base : list SEXP) (w : WsWorld) : Prop :=
  ws_precious w ≡ₚ base ++ concat (map route_hooks (g_wsRoutes w)).

Lemma release_route_perm r p q : p ≡ₚ route_hooks r ++ q → release_route p r ≡ₚ q.
Proof.
  intros Hp. unfold release_route. apply release_hook_perm, release_hook_perm, release_hook_perm. rewrite Hp.
  unfold route_hooks. rewrite !filter_cons, !filter_nil. repeat case_decide; cbn; solve_Permutation.
Qed.

Lemma release_routes_perm rs p base :
  p ≡ₚ base ++ concat (map route_hooks rs) → fold_left release_route rs p ≡ₚ base.
Proof.
  revert p. induction rs as [|r rs IH]; intros p Hp; cbn in *; [by rewrite app_nil_r in Hp|].
  apply IH. apply release_route_perm. rewrite Hp. solve_Permutation.
Qed.

Lemma addWsRoute_balanced base path oc om ocl fn mx idle life w :
  ws_balanced base w → ws_balanced base (snd (addWsRoute path oc om ocl fn mx idle life w)).
Proof.
  unfold ws_balanced. intros Hb. cbn [addWsRoute snd upd_routes ws_precious g_wsRoutes].
  rewrite map_app, concat_app. revert Hb. generalize (concat (map route_hooks (g_wsRoutes w))) as rest.
  intros rest Hb. cbn. unfold route_hooks. cbn. rewrite !preserve_hook_perm, Hb. rewrite !filter_cons, !filter_nil. repeat case_decide; cbn; solve_Permutation.
Qed.

(** ** Concrete worlds *)

Definition ws_init : WsWorld :=
  {| g_wsRoutes := []; ws_live := ∅; ws_next_counter := 1; g_wsSessions := ∅; g_wsEvents := [];
     g_nextWsId := 1; g_wsRooms := ∅; ws_contexts := ∅; ws_connected := {[1; 2; 3]}%positive; ws_out := [];
     ws_notified := 0; g_wsReaperStop := false; g_wsReaperArmed := false; ws_reaper_interval := None;
     ws_precious := []; ws_log := [] |}.

(** One native route of capacity 1, and one R route. *)
Definition ws_two_routes : WsWorld :=
  snd (addWsRoute "/chat" (CLOSXP 1) (CLOSXP 2) R_NilValue 0 0 0 0
        (snd (addWsRoute "/llm" R_NilValue R_NilValue R_NilValue 4096 1 5000 0 ws_init))).

(** The second connection to the native route is refused with 1013. *)
Definition ws_full : WsWorld :=
  handleNewConnection 10 "/llm" 2 (handleNewConnection 0 "/llm" 1 ws_two_routes).

Example ws_full_refuses : ws_out ws_full = [(2%positive, OutShutdown (Some 1013))].
Proof. vm_compute. reflexivity. Qed.
Example ws_full_live : ws_live ws_full !! 1%positive = Some 1.
Proof. vm_compute. reflexivity. Qed.

Definition llm_route : WsRoute :=
  {| wr_path := "/llm"; wr_on_connect := R_NilValue; wr_on_message := R_NilValue; wr_on_close := R_NilValue;
     wr_cpp_fn := 4096; wr_max_conns := 1; wr_idle_ms := 5000; wr_lifetime_ms := 0; wr_live := 1 |}.

Lemma two_routes_fresh : Capacity.fresh (g_wsRoutes ws_two_routes) ws_two_routes.
Proof.
  assert (Hin : ∀ r, r ∈ g_wsRoutes ws_two_routes → wr_live r = 1%positive ∧ r = llm_route ∨
            wr_live r = 2%positive ∧ r = {| wr_path := "/chat"; wr_on_connect := CLOSXP 1; wr_on_message := CLOSXP 2;
              wr_on_close := R_NilValue; wr_cpp_fn := 0; wr_max_conns := 0; wr_idle_ms := 0; wr_lifetime_ms := 0;
              wr_live := 2 |}).
  { intros r Hr. unfold ws_two_routes in Hr. cbn in Hr.
    apply elem_of_cons in Hr as [->|Hr]; [by left|]. apply list_elem_of_singleton in Hr as ->. by right. }
  split; [done| |done|done|].
  - intros r1 r2 H1 H2 He. apply Hin in H1 as [[E1 ->]|[E1 ->]], H2 as [[E2 ->]|[E2 ->]]; try done; congruence.
  - intros r Hr. apply Hin in Hr as [[-> _]|[-> _]]; reflexivity.
Qed.

Lemma capacity_respected_witness :
  slots 1 (g_wsSessions ws_full) ≤ 1 ∧
  slots 1 (g_wsSessions ws_full) + Capacity.total (Capacity.occupies 1) [] ≤ 1 ∧
  (@nil Capacity.inflight = [] → ws_live ws_full !! 1%positive = Some (slots 1 (g_wsSessions ws_full))).
Proof.
  destruct (proj1 (Capacity.controller_runs 0 "/llm" 1 "" false ws_two_routes [])) as (n1 & Hn1 & Hs1).
  destruct (proj1 (Capacity.controller_runs 10 "/llm" 2 "" false
             (handleNewConnection 0 "/llm" 1 ws_two_routes) [])) as (n2 & Hn2 & Hs2).
  pose proof (steps_trans _ _ _ _ _ _ Hs1 Hs2) as Hs.
  apply (Capacity.capacity_respected (g_wsRoutes ws_two_routes) ws_two_routes (n2 + n1)
           {| Capacity.cw := ws_full; Capacity.pend := [] |} llm_route);
    [apply two_routes_fresh|lia|exact Hs|vm_compute; left|split; vm_compute; congruence].
Defined.

Definition ws_room : WsWorld := roomJoin "r" 7 (roomJoin "r" 1 ws_full).

Lemma broadcast_spec_witness :
  ∃ n w', roomBroadcast "r" "hi" false ws_room = (n, w') ∧
  ws_out w' = ws_out ws_room ++ map (λ c, (c, OutSend "hi" false)) (omap (reachable_member ws_room) (elements ({[1; 7]} : gset Z))) ∧
  n = Z.of_nat (size ({[1; 7]} : gset Z)) ∧ g_wsSessions w' = g_wsSessions ws_room ∧ g_wsRooms w' = g_wsRooms ws_room.
Proof.
  eexists _, _. split; [reflexivity|].
  apply (broadcast_spec "r" "hi" false ws_room ({[1; 7]} : gset Z)); vm_compute; reflexivity.
Defined.

(** Member 7 has no session: the broadcast reports two members and queues one. *)
Example broadcast_counts_stale :
  fst (roomBroadcast "r" "hi" false ws_room) = 2 ∧
  ws_out (snd (roomBroadcast "r" "hi" false ws_room)) = ws_out ws_room ++ [(1%positive, OutSend "hi" false)].
Proof. vm_compute. split; reflexivity. Qed.

Lemma reaper_spec_witness :
  let w' := reapExpiredSessions 6000 ws_full in
  (∀ id, g_wsSessions w' !! id =
     (λ s, if expired 6000 s then set_ws_closing s else s) <$> (g_wsSessions ws_full !! id)) ∧
  ws_out w' = ws_out ws_full ++ map (λ p, (ws_conn (snd p), OutShutdown None))
     (filter (λ p, ws_loop (snd p) = true)
        (filter (λ p, expired 6000 (snd p) = true) (map_to_list (g_wsSessions ws_full)))) ∧
  reapExpiredSessions 6000 w' = w'.
Proof. apply (reaper_spec 6000 ws_full). reflexivity. Defined.

(** Drogon matches WebSocket paths without regard to case
    (HttpControllersRouter::routeWs), the controller with regard to it: a
    request for "/CHAT" reaches the controller of "/chat" and finds no route, so
    its session gets no hook. *)
Example ws_path_case :
  strcaseeq "/CHAT" "/chat" = true ∧ routeIdForPath "/chat" ws_two_routes = 1 ∧
  routeIdForPath "/CHAT" ws_two_routes = -1 ∧
  flat_map (call_list (g_wsRoutes ws_two_routes))
    (g_wsEvents (handleNewMessage 3 "hello" false (handleNewConnection 0 "/CHAT" 3 ws_two_routes))) = [].
Proof. vm_compute. repeat split; reflexivity. Qed.

(** A frame with a NUL byte reaches the R hook cut at that byte. *)
Example ws_message_truncated :
  let msg := "ab" +:+ String Ascii.zero "cd" in
  call_list (g_wsRoutes ws_two_routes) {| ev_type := Message; ev_conn_id := 1; ev_route_id := 1;
                                          ev_message := msg; ev_binary := true |} =
    [HookCall (CLOSXP 2) [makeWsConn 1; STRSXP [Some "ab"] no_attr; ScalarLogical true]].
Proof. vm_compute. reflexivity. Qed.
