(* ===== verification/MsgBuffer.v ===== *)
(** * The byte buffer of a connection

    [trantor::MsgBuffer] (src/src/drogon/trantor/utils/MsgBuffer.h and
    MsgBuffer.cc): a vector of bytes with a readable window between [head_]
    and [tail_], which every TCP connection reads into and every parser
    consumes from.  The operations are modelled with their writes into the
    vector ([splice], which fails when it would leave the vector), and shown
    to implement a plain queue of bytes without ever writing out of bounds.

    Sizes are natural numbers: they are lengths of objects that exist in
    memory, whose sums stay far below [2^64].  [htons] and the like are those
    of a little-endian machine, so an integer is stored most significant byte
    first. *)

From stdpp Require Import base list numbers.
From Stdlib Require Import ZArith Lia.
From S2P Require Import Prelude.

(** ** Windows into a list of bytes *)

Definition byte (z : Z) : Prop := 0 ≤ z < 256.

(** The [n] bytes from position [i]. *)
Definition slice (i n : nat) (l : list Z) : list Z := take n (drop i l).

#[global] Arguments slice : simpl never.

(** [memcpy(&l[i], bs, len)]: [None] when it would write past the end. *)
Definition splice (i : nat) (bs l : list Z) : option (list Z) :=
  if (i + length bs <=? length l)%nat
  then Some (take i l ++ bs ++ drop (i + length bs) l) else None.

(** ** The buffer and its operations *)

Record MsgBuffer := { head_ : nat; initCap_ : nat; buffer_ : list Z; tail_ : nat }.

Definition kBufferOffset : nat := 8.

Definition newMsgBuffer (len : nat) : MsgBuffer :=
  {| head_ := kBufferOffset; initCap_ := len; buffer_ := replicate (len + kBufferOffset) 0;
     tail_ := kBufferOffset |}.

Definition readableBytes (b : MsgBuffer) : nat := tail_ b - head_ b.
Definition writableBytes (b : MsgBuffer) : nat := length (buffer_ b) - tail_ b.

(** What is readable: [readableBytes()] bytes from [peek()]. *)
Definition contents (b : MsgBuffer) : list Z := slice (head_ b) (readableBytes b) (buffer_ b).

(** [operator[]], whose assertion lets the offset be the number of readable bytes. *)
Definition at_ (b : MsgBuffer) (offset : nat) : option Z :=
  if (offset <=? readableBytes b)%nat then buffer_ b !! (head_ b + offset)%nat else None.

(** What [append] does once there is room. *)
Definition put (bs : list Z) (b : MsgBuffer) : option MsgBuffer :=
  buf ← splice (tail_ b) bs (buffer_ b);
  Some {| head_ := head_ b; initCap_ := initCap_ b; buffer_ := buf; tail_ := tail_ b + length bs |}.

(** [ensureWritableBytes]; [grow] stands for its own call through [append] on the new buffer. *)
Definition ensure_with (grow : nat → MsgBuffer → option MsgBuffer) (len : nat) (b : MsgBuffer)
    : option MsgBuffer :=
  if (len <=? writableBytes b)%nat then Some b
  else if (len + kBufferOffset <=? head_ b + writableBytes b)%nat then
    buf ← splice kBufferOffset (contents b) (buffer_ b);
    Some {| head_ := kBufferOffset; initCap_ := initCap_ b; buffer_ := buf;
            tail_ := kBufferOffset + (tail_ b - head_ b) |}
  else
    let newLen := if (kBufferOffset + readableBytes b + len <? length (buffer_ b) * 2)%nat
                  then (length (buffer_ b) * 2)%nat else (readableBytes b + len)%nat in
    newbuffer ← grow (readableBytes b) (newMsgBuffer newLen);
    put (contents b) newbuffer.

(** The nested call finds room at once: it never grows again. *)
Definition ensureWritableBytes (len : nat) (b : MsgBuffer) : option MsgBuffer :=
  ensure_with (ensure_with (λ _ _, None)) len b.

Definition append (bs : list Z) (b : MsgBuffer) : option MsgBuffer :=
  b' ← ensureWritableBytes (length bs) b; put bs b'.

Definition retrieveAll (b : MsgBuffer) : MsgBuffer :=
  let buf := if (initCap_ b * 2 <? length (buffer_ b))%nat
             then resize (initCap_ b + kBufferOffset) 0 (buffer_ b) else buffer_ b in
  {| head_ := kBufferOffset; initCap_ := initCap_ b; buffer_ := buf; tail_ := kBufferOffset |}.

Definition retrieve (len : nat) (b : MsgBuffer) : MsgBuffer :=
  if (readableBytes b <=? len)%nat then retrieveAll b
  else {| head_ := head_ b + len; initCap_ := initCap_ b; buffer_ := buffer_ b; tail_ := tail_ b |}.

Definition read (len : nat) (b : MsgBuffer) : list Z * MsgBuffer :=
  let n := if (readableBytes b <? len)%nat then readableBytes b else len in
  (slice (head_ b) n (buffer_ b), retrieve n b).

Definition addInFront (bs : list Z) (b : MsgBuffer) : option MsgBuffer :=
  let len := length bs in
  if (len <=? head_ b)%nat then
    buf ← splice (head_ b - len) bs (buffer_ b);
    Some {| head_ := head_ b - len; initCap_ := initCap_ b; buffer_ := buf; tail_ := tail_ b |}
  else if (len <=? writableBytes b)%nat then
    buf1 ← splice (head_ b + len) (contents b) (buffer_ b);
    buf2 ← splice (head_ b) bs buf1;
    Some {| head_ := head_ b; initCap_ := initCap_ b; buffer_ := buf2; tail_ := tail_ b + len |}
  else
    let newLen := if (len + readableBytes b <? initCap_ b)%nat
                  then initCap_ b else (len + readableBytes b)%nat in
    b1 ← append bs (newMsgBuffer newLen);
    append (contents b) b1.

Definition hasWritten (len : nat) (b : MsgBuffer) : MsgBuffer :=
  {| head_ := head_ b; initCap_ := initCap_ b; buffer_ := buffer_ b; tail_ := tail_ b + len |}.

Definition unwrite (offset : nat) (b : MsgBuffer) : MsgBuffer :=
  {| head_ := head_ b; initCap_ := initCap_ b; buffer_ := buffer_ b; tail_ := tail_ b - offset |}.

(** [readFd]: [readv] fills the writable part and then, when that is short,
    8192 bytes on the stack.  [incoming] is what the socket holds, [None] when
    [readv] fails; the result is what was taken from it. *)
Definition EXT_BUFFER : nat := 8 * 1024.

Definition iov_capacity (b : MsgBuffer) : nat :=
  if (writableBytes b <? EXT_BUFFER)%nat then (writableBytes b + EXT_BUFFER)%nat else writableBytes b.

Definition readFd (incoming : option (list Z)) (b : MsgBuffer) : option (list Z * MsgBuffer) :=
  match incoming with None => Some ([], b) | Some incoming =>
  let got := take (iov_capacity b) incoming in
  let writable := writableBytes b in
  buf ← splice (tail_ b) (take writable got) (buffer_ b);
  let b1 := {| head_ := head_ b; initCap_ := initCap_ b; buffer_ := buf; tail_ := tail_ b |} in
  if (length got <=? writable)%nat then Some (got, hasWritten (length got) b1)
  else
    let b2 := {| head_ := head_ b; initCap_ := initCap_ b; buffer_ := buf; tail_ := length buf |} in
    b3 ← append (drop writable got) b2;
    Some (got, b3)
  end.

(** ** Integers in network order *)

(** The [n] low bytes of [z], most significant first. *)
Fixpoint be_bytes (n : nat) (z : Z) : list Z :=
  match n with
  | O => []
  | S m => Z.land (Z.shiftr z (8 * Z.of_nat m)) 255 :: be_bytes m z
  end.

(** The value of a big-endian sequence of bytes. *)
Definition be_value (l : list Z) : Z := fold_left (λ acc c, acc * 256 + c) l 0.

Definition appendInt (n : nat) (z : Z) (b : MsgBuffer) : option MsgBuffer := append (be_bytes n z) b.
Definition addInFrontInt (n : nat) (z : Z) (b : MsgBuffer) : option MsgBuffer := addInFront (be_bytes n z) b.

(** [peekInt8/16/32/64], asserting that [n] bytes are readable. *)
Definition peekInt (n : nat) (b : MsgBuffer) : option Z :=
  if (n <=? readableBytes b)%nat then Some (be_value (slice (head_ b) n (buffer_ b))) else None.
Definition readInt (n : nat) (b : MsgBuffer) : option (Z * MsgBuffer) :=
  z ← peekInt n b; Some (z, retrieve n b).

(** ** The abstract queue *)

Inductive bop :=
| OEnsure (len : nat)
| OAppend (bs : list Z)
| OAddInFront (bs : list Z)
| ORetrieve (len : nat)
| ORetrieveAll
| ORead (len : nat)
| OUnwrite (offset : nat)
| OReadFd (incoming : option (list Z)).

(** The operations, with the bytes they hand back. *)
Definition run_bop (o : bop) (b : MsgBuffer) : option (MsgBuffer * list Z) :=
  match o with
  | OEnsure len => b' ← ensureWritableBytes len b; Some (b', [])
  | OAppend bs => b' ← append bs b; Some (b', [])
  | OAddInFront bs => b' ← addInFront bs b; Some (b', [])
  | ORetrieve len => Some (retrieve len b, [])
  | ORetrieveAll => Some (retrieveAll b, [])
  | ORead len => let '(r, b') := read len b in Some (b', r)
  | OUnwrite offset => if (offset <=? readableBytes b)%nat then Some (unwrite offset b, []) else None
  | OReadFd incoming => '(r, b') ← readFd incoming b; Some (b', r)
  end.

(** What an operation does to the queue of readable bytes [c], and what it
    hands back; only [unwrite] has a precondition (its assertion). *)
Definition queue_op (o : bop) (c c' r : list Z) : Prop :=
  match o with
  | OEnsure _ => c' = c ∧ r = []
  | OAppend bs => c' = c ++ bs ∧ r = []
  | OAddInFront bs => c' = bs ++ c ∧ r = []
  | ORetrieve len => c' = drop len c ∧ r = []
  | ORetrieveAll => c' = [] ∧ r = []
  | ORead len => c' = drop len c ∧ r = take len c
  | OUnwrite offset => c' = take (length c - offset) c ∧ r = []
  | OReadFd None => c' = c ∧ r = []
  | OReadFd (Some incoming) => c' = c ++ r ∧ r `prefix_of` incoming ∧ (incoming ≠ [] → r ≠ [])
  end.

Definition allowed (o : bop) (c : list Z) : Prop :=
  match o with OUnwrite offset => (offset ≤ length c)%nat | _ => True end.

(** The window lies inside the vector. *)
Record ok (b : MsgBuffer) : Prop := {
  ok_window : (head_ b ≤ tail_ b)%nat;
  ok_inside : (tail_ b ≤ length (buffer_ b))%nat;
  ok_offset : (kBufferOffset ≤ length (buffer_ b))%nat
}.

(** ** Lemmas on windows *)

Lemma slice_length i n l : (i + n ≤ length l)%nat → length (slice i n l) = n.
Proof. intros. unfold slice. rewrite length_take, length_drop. lia. Qed.

Lemma slice_add i n m l : slice i (n + m) l = slice i n l ++ slice (i + n) m l.
Proof.
  unfold slice. rewrite <- drop_drop. generalize (drop i l). clear.
  induction n as [|n IH]; intros [|z l]; cbn; try done; [by rewrite take_nil|]. by rewrite IH.
Qed.

Lemma splice_some i bs l :
  (i + length bs ≤ length l)%nat →
  ∃ l', splice i bs l = Some l' ∧ length l' = length l ∧
    slice i (length bs) l' = bs ∧
    (∀ j n, (j + n ≤ i)%nat → slice j n l' = slice j n l) ∧
    (∀ j n, (i + length bs ≤ j)%nat → slice j n l' = slice j n l).
Proof.
  intros H. unfold splice. rewrite (proj2 (Nat.leb_le _ _)) by done.
  eexists; split_and!; [done| | | |].
  - rewrite !length_app, length_take, length_drop. lia.
  - unfold slice. rewrite drop_app_ge by (rewrite length_take; lia).
    rewrite length_take, Nat.min_l, Nat.sub_diag, drop_0 by lia. apply take_app_length.
  - intros j n Hj. unfold slice.
    rewrite drop_app_le by (rewrite length_take; lia).
    rewrite take_app_le by (rewrite length_drop, length_take; lia).
    rewrite !take_drop_commute, take_take. do 2 f_equal. lia.
  - intros j n Hj. unfold slice. f_equal.
    rewrite drop_app_ge by (rewrite length_take; lia). rewrite length_take, Nat.min_l by lia.
    rewrite drop_app_ge by lia. rewrite drop_drop. f_equal. lia.
Qed.

Lemma contents_length b : ok b → length (contents b) = readableBytes b.
Proof. intros [? ? ?]. apply slice_length. unfold readableBytes. lia. Qed.

Lemma put_ok bs b :
  ok b → (length bs ≤ writableBytes b)%nat →
  ∃ b', put bs b = Some b' ∧ ok b' ∧ contents b' = contents b ++ bs ∧
    writableBytes b' = (writableBytes b - length bs)%nat.
Proof.
  intros [H1 H2 H3] Hw. unfold writableBytes in *.
  destruct (splice_some (tail_ b) bs (buffer_ b)) as (l & E & El & Es & Eb & _); [lia|].
  unfold put. rewrite E. eexists; split; [done|]. unfold contents, readableBytes, writableBytes. cbn.
  split_and!; [split; cbn; lia| |lia].
  replace (tail_ b + length bs - head_ b)%nat with (tail_ b - head_ b + length bs)%nat by lia.
  rewrite slice_add, Eb by lia. f_equal.
  by replace (head_ b + (tail_ b - head_ b))%nat with (tail_ b) by lia.
Qed.

Lemma new_ok len :
  ok (newMsgBuffer len) ∧ contents (newMsgBuffer len) = [] ∧ writableBytes (newMsgBuffer len) = len.
Proof.
  unfold contents, readableBytes, writableBytes. cbn -[kBufferOffset].
  rewrite length_replicate, Nat.sub_diag. split_and!; [split; cbn -[kBufferOffset]|done|lia].
  - done.
  - rewrite length_replicate. lia.
  - rewrite length_replicate. lia.
Qed.

(** What [ensureWritableBytes] establishes. *)
Definition made_room (len : nat) (b b' : MsgBuffer) : Prop :=
  ok b' ∧ contents b' = contents b ∧ (len ≤ writableBytes b')%nat.

Lemma ensure_with_room grow len b :
  ok b →
  (∀ n, (readableBytes b + len ≤ n)%nat →
    grow (readableBytes b) (newMsgBuffer n) = Some (newMsgBuffer n)) →
  ∃ b', ensure_with grow len b = Some b' ∧ made_room len b b'.
Proof.
  intros Hok Hgrow. pose proof Hok as [H1 H2 H3]. unfold ensure_with.
  destruct (Nat.leb_spec len (writableBytes b)); [by exists b|].
  destruct (Nat.leb_spec (len + kBufferOffset) (head_ b + writableBytes b)).
  - unfold writableBytes in *.
    destruct (splice_some kBufferOffset (contents b) (buffer_ b)) as (l & E & El & Es & _);
      rewrite contents_length in * by done; unfold readableBytes in *; [lia|].
    rewrite E. eexists; split; [done|]. split_and!; [split; cbn -[kBufferOffset]; lia| |].
    + unfold contents at 1, readableBytes. cbn -[kBufferOffset].
      by replace (kBufferOffset + (tail_ b - head_ b) - kBufferOffset)%nat with (tail_ b - head_ b)%nat by lia.
    + unfold writableBytes. cbn -[kBufferOffset]. lia.
  - set (n := if (_ <? _)%nat then _ else _).
    assert (Hn : (readableBytes b + len ≤ n)%nat).
    { unfold n. case_match; [|lia]. match goal with H : (_ <? _)%nat = true |- _ => apply Nat.ltb_lt in H end. lia. }
    rewrite Hgrow by done. destruct (new_ok n) as (Hnew & Hc & Hw).
    destruct (put_ok (contents b) (newMsgBuffer n)) as (b' & E & Hb & Hb' & Hwb);
      [done|rewrite Hw, contents_length by done; lia|].
    exists b'. split; [exact E|]. split_and!; [done|by rewrite Hb', Hc|].
    rewrite Hwb, Hw, contents_length by done. lia.
Qed.

Lemma ensure_fits grow len b :
  (len ≤ writableBytes b)%nat → ensure_with grow len b = Some b.
Proof. intros. unfold ensure_with. by rewrite (proj2 (Nat.leb_le _ _)). Qed.

Lemma ensure_room len b :
  ok b → ∃ b', ensureWritableBytes len b = Some b' ∧ made_room len b b'.
Proof.
  intros Hb. apply ensure_with_room; [done|]. intros n Hn. apply ensure_fits.
  destruct (new_ok n) as (_ & _ & ->). lia.
Qed.

Lemma append_ok bs b :
  ok b → ∃ b', append bs b = Some b' ∧ ok b' ∧ contents b' = contents b ++ bs.
Proof.
  intros Hb. destruct (ensure_room (length bs) b Hb) as (b1 & E1 & Hb1 & Hc1 & Hw1).
  destruct (put_ok bs b1 Hb1 Hw1) as (b2 & E2 & Hb2 & Hc2 & _).
  exists b2. unfold append. rewrite E1. split_and!; [exact E2|done|]. by rewrite Hc2, Hc1.
Qed.

Lemma retrieveAll_ok b : ok b → ok (retrieveAll b) ∧ contents (retrieveAll b) = [].
Proof.
  intros [H1 H2 H3]. unfold retrieveAll, contents, readableBytes. cbn -[kBufferOffset].
  rewrite Nat.sub_diag. split; [|done]. split; cbn -[kBufferOffset]; [done| |];
    case_if; rewrite ?length_resize; lia.
Qed.

Lemma retrieve_ok len b : ok b → ok (retrieve len b) ∧ contents (retrieve len b) = drop len (contents b).
Proof.
  intros Hb. unfold retrieve. destruct (Nat.leb_spec (readableBytes b) len).
  - destruct (retrieveAll_ok b Hb) as [? ->]. split; [done|].
    by rewrite drop_ge by (rewrite contents_length; done).
  - pose proof Hb as [H1 H2 H3]. unfold readableBytes in *. split; [split; cbn; lia|].
    unfold contents, readableBytes, slice. cbn. rewrite <- drop_drop, skipn_firstn_comm. f_equal. lia.
Qed.

Lemma read_ok len b :
  ok b → (read len b).1 = take len (contents b) ∧ ok (read len b).2 ∧
    contents (read len b).2 = drop len (contents b).
Proof.
  intros Hb. unfold read. set (n := if (_ <? _)%nat then _ else _).
  assert (Hn : n = (len `min` readableBytes b)%nat).
  { unfold n. destruct (Nat.ltb_spec (readableBytes b) len); lia. }
  destruct (retrieve_ok n b Hb) as [H1 H2]. cbn. rewrite H2. split_and!; [|done|].
  - rewrite Hn. unfold contents, slice. by rewrite take_take.
  - rewrite Hn. destruct (decide (len ≤ readableBytes b)%nat); [by rewrite Nat.min_l|].
    rewrite Nat.min_r by lia. rewrite !drop_ge; rewrite ?contents_length; done || lia.
Qed.

Lemma addInFront_ok bs b :
  ok b → ∃ b', addInFront bs b = Some b' ∧ ok b' ∧ contents b' = bs ++ contents b.
Proof.
  intros Hb. pose proof Hb as [H1 H2 H3]. unfold addInFront.
  destruct (Nat.leb_spec (length bs) (head_ b)) as [Hh|Hh]; [|destruct (Nat.leb_spec (length bs) (writableBytes b)) as [Hw|Hw]].
  - destruct (splice_some (head_ b - length bs) bs (buffer_ b)) as (l & E & El & Es & _ & Er); [lia|].
    rewrite E. eexists; split; [done|]. split; [split; cbn; lia|].
    unfold contents, readableBytes. cbn.
    replace (tail_ b - (head_ b - length bs))%nat with (length bs + (tail_ b - head_ b))%nat by lia.
    rewrite slice_add, Es, Er by lia. do 2 f_equal. lia.
  - unfold writableBytes in Hw.
    destruct (splice_some (head_ b + length bs) (contents b) (buffer_ b)) as (l1 & E1 & El1 & Es1 & _);
      [rewrite contents_length by done; unfold readableBytes; lia|].
    destruct (splice_some (head_ b) bs l1) as (l2 & E2 & El2 & Es2 & _ & Er2); [lia|].
    rewrite E1. cbn. rewrite E2. eexists; split; [done|]. split; [split; cbn; lia|].
    unfold contents at 1. unfold readableBytes. cbn.
    replace (tail_ b + length bs - head_ b)%nat with (length bs + (tail_ b - head_ b))%nat by lia.
    rewrite slice_add, Es2, Er2 by lia. f_equal. by rewrite contents_length in Es1.
  - set (n := if (_ <? _)%nat then _ else _). destruct (new_ok n) as (Hn & Hc & _).
    destruct (append_ok bs _ Hn) as (b1 & E1 & Hb1 & Hc1). rewrite E1. cbn.
    destruct (append_ok (contents b) _ Hb1) as (b2 & E2 & Hb2 & Hc2). rewrite E2.
    exists b2. split_and!; [done|done|]. by rewrite Hc2, Hc1, Hc.
Qed.

Lemma unwrite_ok n b :
  ok b → (n ≤ readableBytes b)%nat →
  ok (unwrite n b) ∧ contents (unwrite n b) = take (length (contents b) - n) (contents b).
Proof.
  intros Hb Hn. pose proof Hb as [H1 H2 H3]. rewrite contents_length by done. unfold readableBytes in *.
  split; [split; cbn; lia|]. unfold contents, readableBytes, slice. cbn. rewrite take_take. f_equal. lia.
Qed.

Lemma readFd_ok incoming b :
  ok b → ∃ r b', readFd (Some incoming) b = Some (r, b') ∧ ok b' ∧ contents b' = contents b ++ r ∧
    r `prefix_of` incoming ∧ (incoming ≠ [] → r ≠ []).
Proof.
  intros Hb. pose proof Hb as [H1 H2 H3]. unfold readFd. set (got := take _ incoming).
  assert (Hgot : got `prefix_of` incoming ∧ (incoming ≠ [] → got ≠ [])).
  { assert (Hcap : (0 < iov_capacity b)%nat).
    { unfold iov_capacity. assert (0 < EXT_BUFFER)%nat by (unfold EXT_BUFFER; lia).
      destruct (Nat.ltb_spec (writableBytes b) EXT_BUFFER); lia. }
    split; [apply prefix_take|]. intros Hi Hg. unfold got in Hg.
    destruct (iov_capacity b); [lia|]. by destruct incoming. }
  clearbody got. destruct Hgot as [Hp Hne]. unfold writableBytes in *.
  destruct (splice_some (tail_ b) (take (length (buffer_ b) - tail_ b) got) (buffer_ b))
    as (l & E & El & Es & Eb & _); [rewrite length_take; lia|].
  rewrite E. cbn. rewrite length_take in Es.
  destruct (Nat.leb_spec (length got) (length (buffer_ b) - tail_ b)) as [Hs|Hs].
  - eexists _, _. split; [done|]. split_and!; [split; cbn; lia| |done|done].
    rewrite Nat.min_r, take_ge in Es by lia.
    unfold contents, readableBytes. cbn.
    replace (tail_ b + length got - head_ b)%nat with (tail_ b - head_ b + length got)%nat by lia.
    rewrite slice_add, Eb by lia. f_equal. by replace (head_ b + (tail_ b - head_ b))%nat with (tail_ b) by lia.
  - set (b2 := {| tail_ := _ |}).
    assert (Hb2 : ok b2) by (split; cbn; lia).
    destruct (append_ok (drop (length (buffer_ b) - tail_ b) got) b2 Hb2) as (b3 & E3 & Hb3 & Hc3).
    rewrite E3. eexists _, _. split; [done|]. split_and!; [done| |done|done].
    rewrite Hc3. replace (contents b2) with (contents b ++ take (length (buffer_ b) - tail_ b) got);
      [by rewrite <- app_assoc, take_drop|].
    rewrite Nat.min_l in Es by lia. unfold contents, readableBytes, b2. cbn.
    replace (length l - head_ b)%nat with (tail_ b - head_ b + (length (buffer_ b) - tail_ b))%nat by lia.
    rewrite slice_add, Eb by lia. f_equal.
    by replace (head_ b + (tail_ b - head_ b))%nat with (tail_ b) by lia.
Qed.

(** One operation: it stays in bounds and does to the queue what it should. *)
Lemma run_bop_ok o b :
  ok b → allowed o (contents b) →
  ∃ b' r, run_bop o b = Some (b', r) ∧ ok b' ∧ queue_op o (contents b) (contents b') r.
Proof.
  intros Hb Ha. destruct o as [len|bs|bs|len| |len|n|inc]; cbn [run_bop queue_op allowed] in *.
  - destruct (ensure_room len b Hb) as (b' & -> & ? & ? & _). by exists b', [].
  - destruct (append_ok bs b Hb) as (b' & -> & ? & ?). by exists b', [].
  - destruct (addInFront_ok bs b Hb) as (b' & -> & ? & ?). by exists b', [].
  - exists (retrieve len b), []. by destruct (retrieve_ok len b Hb).
  - exists (retrieveAll b), []. by destruct (retrieveAll_ok b Hb).
  - destruct (read_ok len b Hb) as (? & ? & ?). destruct (read len b) as [r b'].
    by exists b', r.
  - rewrite contents_length in Ha by done. rewrite (proj2 (Nat.leb_le _ _)) by done.
    exists (unwrite n b), []. by destruct (unwrite_ok n b Hb Ha).
  - destruct inc as [inc|]; [|by exists b, []].
    destruct (readFd_ok inc b Hb) as (r & b' & -> & ? & ? & ? & ?). by exists b', r.
Qed.

(** The states a buffer can be in. *)
Inductive buf_step : MsgBuffer → MsgBuffer → Prop :=
| buf_op o b b' r : allowed o (contents b) → run_bop o b = Some (b', r) → buf_step b b'.

Lemma buf_step_ok b b' : ok b → buf_step b b' → ok b'.
Proof.
  intros Hb Hs. destruct Hs as [o a a' r Ha Hr]. destruct (run_bop_ok o a Hb Ha) as (c & r' & Hc & Hok & _).
  by rewrite Hc in Hr; simplify_eq.
Qed.

Lemma buf_reachable_ok len b : reachable buf_step (newMsgBuffer len) b → ok b.
Proof. apply reachable_invariant; [apply new_ok|apply buf_step_ok]. Qed.

(** ** Integers *)

Lemma be_bytes_length n z : length (be_bytes n z) = n.
Proof. induction n as [|n IH]; cbn -[Z.mul Z.of_nat]; [done|]. by rewrite IH. Qed.

Lemma be_bytes_byte n z : Forall byte (be_bytes n z).
Proof.
  induction n as [|n IH]; cbn -[Z.mul Z.of_nat]; constructor; [|done].
  change 255 with (Z.ones 8). rewrite Z.land_ones by lia. unfold byte.
  apply Z.mod_pos_bound. done.
Qed.

Lemma be_fold n z acc :
  fold_left (λ acc c, acc * 256 + c) (be_bytes n z) acc =
    acc * 2 ^ (8 * Z.of_nat n) + z mod 2 ^ (8 * Z.of_nat n).
Proof.
  revert acc. induction n as [|n IH]; intros acc; [cbn; rewrite Z.mod_1_r; lia|].
  cbn -[Z.mul Z.of_nat Z.pow]. rewrite IH. change 255 with (Z.ones 8).
  rewrite Z.land_ones, Z.shiftr_div_pow2 by lia.
  replace (8 * Z.of_nat (S n)) with (8 * Z.of_nat n + 8) by lia.
  assert (H : 0 < 2 ^ (8 * Z.of_nat n)) by (apply Z.pow_pos_nonneg; lia).
  rewrite Z.pow_add_r, (Z.rem_mul_r z) by lia. change (2 ^ 8) with 256. lia.
Qed.

Lemma be_value_bytes n z : be_value (be_bytes n z) = z mod 2 ^ (8 * Z.of_nat n).
Proof. unfold be_value. by rewrite be_fold. Qed.

Lemma slice_contents n b : (n ≤ readableBytes b)%nat → slice (head_ b) n (buffer_ b) = take n (contents b).
Proof. intros. unfold contents, slice. by rewrite take_take, Nat.min_l. Qed.

Lemma readInt_ok n b :
  ok b → (n ≤ length (contents b))%nat →
  ∃ b', readInt n b = Some (be_value (take n (contents b)), b') ∧ ok b' ∧ contents b' = drop n (contents b).
Proof.
  intros Hb Hn. rewrite contents_length in Hn by done. exists (retrieve n b).
  unfold readInt, peekInt. rewrite (proj2 (Nat.leb_le _ _)) by done. cbn.
  rewrite slice_contents by done. destruct (retrieve_ok n b Hb). done.
Qed.

(** ** The interface a parser works against

    What a protocol parser may assume of its input buffer: a window of
    readable bytes, read by position and consumed from the front. *)

(** The [len] bytes from [peek() + off]; [None] when they are not all readable. *)
Definition window (off len : nat) (b : MsgBuffer) : option (list Z) :=
  if (off + len <=? readableBytes b)%nat then Some (slice (head_ b + off) len (buffer_ b)) else None.

Class ByteQueue (B : Type) := {
  bq_ok : B → Prop;
  bq_contents : B → list Z;
  bq_readable : B → nat;
  bq_at : B → nat → option Z;
  bq_window : nat → nat → B → option (list Z);
  bq_retrieve : nat → B → B;
  bq_retrieveAll : B → B;
  bq_append : list Z → B → option B;
  bq_readable_spec b : bq_ok b → bq_readable b = length (bq_contents b);
  bq_at_spec b i : bq_ok b → (i < length (bq_contents b))%nat → bq_at b i = bq_contents b !! i;
  bq_window_spec off len b : bq_ok b → (off + len ≤ length (bq_contents b))%nat →
    bq_window off len b = Some (slice off len (bq_contents b));
  bq_retrieve_spec n b : bq_ok b →
    bq_ok (bq_retrieve n b) ∧ bq_contents (bq_retrieve n b) = drop n (bq_contents b);
  bq_retrieveAll_spec b : bq_ok b → bq_ok (bq_retrieveAll b) ∧ bq_contents (bq_retrieveAll b) = [];
  bq_append_spec bs b : bq_ok b →
    ∃ b', bq_append bs b = Some b' ∧ bq_ok b' ∧ bq_contents b' = bq_contents b ++ bs;
  (* [*(peek() + off)] for an offset that may be negative *)
  bq_raw : B → Z → option Z;
  bq_raw_spec b i : bq_ok b → (i < length (bq_contents b))%nat →
    bq_raw b (Z.of_nat i) = bq_contents b !! i
}.

Lemma at_spec b i : ok b → (i < length (contents b))%nat → at_ b i = contents b !! i.
Proof.
  intros Hb Hi. rewrite contents_length in Hi by done. unfold at_.
  rewrite (proj2 (Nat.leb_le _ _)) by lia. unfold contents, slice.
  by rewrite lookup_take_lt, lookup_drop by done.
Qed.

Lemma window_spec off len b :
  ok b → (off + len ≤ length (contents b))%nat → window off len b = Some (slice off len (contents b)).
Proof.
  intros Hb Hi. rewrite contents_length in Hi by done. unfold window.
  rewrite (proj2 (Nat.leb_le _ _)) by lia. f_equal. unfold contents, slice.
  rewrite skipn_firstn_comm, drop_drop, take_take. f_equal. lia.
Qed.

(** [*(peek() + off)]: [None] outside the vector. *)
Definition raw (b : MsgBuffer) (off : Z) : option Z :=
  let i := Z.of_nat (head_ b) + off in
  if 0 <=? i then buffer_ b !! Z.to_nat i else None.

Lemma raw_spec b i : ok b → (i < length (contents b))%nat → raw b (Z.of_nat i) = contents b !! i.
Proof.
  intros Hb Hi. rewrite contents_length in Hi by done. unfold raw.
  rewrite (proj2 (Z.leb_le _ _)) by lia. unfold contents, slice.
  rewrite lookup_take_lt, lookup_drop by done. f_equal. lia.
Qed.

#[export] Instance MsgBuffer_queue : ByteQueue MsgBuffer := {
  bq_ok := ok; bq_contents := contents; bq_readable := readableBytes; bq_at := at_;
  bq_window := window; bq_retrieve := retrieve; bq_retrieveAll := retrieveAll; bq_append := append;
  bq_readable_spec b H := eq_sym (contents_length b H); bq_at_spec := at_spec;
  bq_window_spec := window_spec; bq_retrieve_spec := retrieve_ok;
  bq_retrieveAll_spec := retrieveAll_ok; bq_append_spec := append_ok;
  bq_raw := raw; bq_raw_spec := raw_spec }.

(** ** Properties *)


Definition used_buffer : MsgBuffer := Eval vm_compute in
  default (newMsgBuffer 0) (b ← append [1; 2; 3] (newMsgBuffer 4); addInFront [9] (retrieve 1 b)).


(** Integers survive the buffer in network order: an integer of [n]
    bytes appended behind whatever is readable, or put in front of it, is
    what [readInt] returns when its turn comes, and reading it consumes
    exactly its bytes. *)
Theorem int_roundtrip n z b :
  ok b → 0 ≤ z < 2 ^ (8 * Z.of_nat n) →
  (∃ b1 b2, appendInt n z b = Some b1 ∧
     readInt n (retrieve (readableBytes b) b1) = Some (z, b2) ∧ contents b2 = []) ∧
  (∃ b1 b2, addInFrontInt n z b = Some b1 ∧ readInt n b1 = Some (z, b2) ∧ contents b2 = contents b).
Proof.
  intros Hb Hz. assert (Hv : be_value (be_bytes n z) = z) by (rewrite be_value_bytes; by apply Z.mod_small).
  pose proof (be_bytes_length n z) as Hl. split.
  - destruct (append_ok (be_bytes n z) b Hb) as (b1 & E1 & Hb1 & Hc1).
    destruct (retrieve_ok (readableBytes b) b1 Hb1) as [Hr Hc].
    rewrite Hc1, drop_app_ge, contents_length, Nat.sub_diag, drop_0 in Hc by (rewrite ?contents_length; done).
    destruct (readInt_ok n _ Hr) as (b2 & E2 & _ & Hc2); [rewrite Hc; lia|].
    rewrite Hc in E2, Hc2. rewrite take_ge, Hv in E2 by lia. rewrite drop_ge in Hc2 by lia.
    by exists b1, b2.
  - destruct (addInFront_ok (be_bytes n z) b Hb) as (b1 & E1 & Hb1 & Hc1).
    destruct (readInt_ok n b1 Hb1) as (b2 & E2 & _ & Hc2); [rewrite Hc1, length_app; lia|].
    rewrite Hc1, take_app_le, take_ge, Hv in E2 by lia. rewrite Hc1, drop_app_ge, Hl, Nat.sub_diag in Hc2 by lia.
    by exists b1, b2.
Qed.

Lemma int_roundtrip_witness :
  (∃ b1 b2, appendInt 4 3735928559 (newMsgBuffer 2) = Some b1 ∧
     readInt 4 (retrieve (readableBytes (newMsgBuffer 2)) b1) = Some (3735928559, b2) ∧ contents b2 = []) ∧
  (∃ b1 b2, addInFrontInt 4 3735928559 (newMsgBuffer 2) = Some b1 ∧
     readInt 4 b1 = Some (3735928559, b2) ∧ contents b2 = contents (newMsgBuffer 2)).
Proof. apply (int_roundtrip 4 3735928559 (newMsgBuffer 2)); [apply new_ok|lia]. Defined.
