(* ===== verification/WsFrame.v ===== *)
(** * WebSocket frames

    The framing layer under dr_ws and dr_ws_connect:
    src/src/drogon/lib/src/WebSocketConnectionImpl.cc, [send], [sendWsData],
    [WebSocketMessageParser::parse] and [onNewMessage].  The parser works
    against the interface of the input buffer ([ByteQueue]); the theorems
    therefore hold of [trantor::MsgBuffer].

    Lengths are 64-bit words, with the wrap-around of the sums the parser
    compares written out.  Assertions are compiled out (R builds packages
    with NDEBUG).  [secureRandomBytes] is a parameter: its [i]-th call, for
    [n] bytes, either fails or gives bytes.  A [std::string] holds at most
    [string_max_size] bytes; beyond that [append] and [resize] throw. *)

From stdpp Require Import base list numbers.
From Stdlib Require Import ZArith Lia.
From S2P Require Import Prelude MsgBuffer.

(** ** Message types *)

(** [enum class WebSocketMessageType]; the constructor [Close] is called
    [CloseFrame], for the clients' events have a [Close] too. *)
Inductive WebSocketMessageType := Text | Binary | Ping | Pong | CloseFrame | Unknown.

#[export] Instance WebSocketMessageType_eq_dec : EqDecision WebSocketMessageType.
Proof. solve_decision. Defined.

Definition string_max_size : Z := 2 ^ 63 - 1.
Definition SIZE_MAX : Z := 2 ^ 64 - 1.

(** ** Sending *)

Inductive act :=
| Sent (bytes : list Z)                              (* [tcpConnectionPtr_->send(...)] *)
| Shutdown                                           (* [connPtr->shutdown()] *)
| Callback (msg : list Z) (type : WebSocketMessageType).  (* [messageCallback_(...)] *)

(** The sending side of a connection; [masks_] holds the cached random words
    as their four bytes in memory, [calls] counts the calls of
    [secureRandomBytes] and [acts] records what the connection did. *)
Record Sender := {
  isServer_ : bool; masks_ : list (list Z); usingMask_ : bool; calls : nat; acts : list act }.

Definition set_masks (ms : list (list Z)) (u : bool) (n : nat) (s : Sender) : Sender :=
  {| isServer_ := isServer_ s; masks_ := ms; usingMask_ := u; calls := n; acts := acts s |}.
Definition log (a : act) (s : Sender) : Sender :=
  {| isServer_ := isServer_ s; masks_ := masks_ s; usingMask_ := usingMask_ s; calls := calls s;
     acts := acts s ++ [a] |}.

Section Send.
Context (secureRandomBytes : nat → nat → option (list Z)).

(** The 16 words that fill [masks_]. *)
Definition words (l : list Z) : list (list Z) := (λ i, slice (4 * i) 4 l) <$> seq 0 16.

(** The mask of one frame: the last cached word, after refilling an empty
    cache, or a fresh word while another thread uses the cache.  [None]:
    [std::runtime_error] is thrown, with the state it leaves. *)
Definition take_mask (s : Sender) : Sender * option (list Z) :=
  if usingMask_ s then
    (set_masks (masks_ s) true (S (calls s)) s, secureRandomBytes (calls s) 4)
  else
    match masks_ s with
    | [] =>
        match secureRandomBytes (calls s) 64 with
        | None => (set_masks (replicate 16 (replicate 4 0)) true (S (calls s)) s, None)
        | Some l => (set_masks (removelast (words l)) false (S (calls s)) s, list.last (words l))
        end
    | ms => (set_masks (removelast ms) false (calls s) s, list.last ms)
    end.

(** [msg[i] ^ mask[i % 4]] *)
Definition mask_byte (mask : list Z) (i : nat) (c : Z) : Z :=
  Z.lxor c (nth (i mod 4) mask 0).
Definition apply_mask (mask msg : list Z) : list Z := imap (mask_byte mask) msg.

(** The bytes before the mask: [bytesFormatted[0..indexStartRawData)]. *)
Definition frame_header (len : Z) (opcode : Z) : list Z :=
  let b0 := Z.lor 128 (Z.land opcode 15) in
  if len <=? 125 then [b0; len]
  else if len <=? 65535 then
    [b0; 126; Z.land (Z.shiftr len 8) 255; Z.land len 255]
  else
    [b0; 127; Z.land (Z.shiftr len 56) 255; Z.land (Z.shiftr len 48) 255;
     Z.land (Z.shiftr len 40) 255; Z.land (Z.shiftr len 32) 255; Z.land (Z.shiftr len 24) 255;
     Z.land (Z.shiftr len 16) 255; Z.land (Z.shiftr len 8) 255; Z.land len 255].

(** [bytesFormatted[1] | 0x80] *)
Definition set_mask_bit (header : list Z) : list Z := alter (λ c, Z.lor c 128) 1%nat header.

(** [sendWsData]: [false] when it throws. *)
Definition sendWsData (msg : list Z) (opcode : Z) (s : Sender) : Sender * bool :=
  let header := frame_header (Z.of_nat (length msg)) opcode in
  if negb (isServer_ s) then
    match take_mask s with
    | (s', Some mask) => (log (Sent (set_mask_bit header ++ mask ++ apply_mask mask msg)) s', true)
    | (s', None) => (s', false)
    end
  else (log (Sent (header ++ msg)) s, true).

Definition opcode_of (type : WebSocketMessageType) : Z :=
  match type with
  | Text => 1 | Binary => 2 | CloseFrame => 8 | Ping => 9 | Pong => 10 | Unknown => 0
  end.

Definition send (msg : list Z) (type : WebSocketMessageType) (s : Sender) : Sender * bool :=
  sendWsData msg (opcode_of type) s.
End Send.

(** ** Parsing *)

Record Parser := { message_ : list Z; type_ : WebSocketMessageType; gotAll_ : bool }.

Definition set_type (t : WebSocketMessageType) (p : Parser) : Parser :=
  {| message_ := message_ p; type_ := t; gotAll_ := gotAll_ p |}.
Definition set_gotAll (g : bool) (p : Parser) : Parser :=
  {| message_ := message_ p; type_ := type_ p; gotAll_ := g |}.
Definition add_data (d : list Z) (p : Parser) : Parser :=
  {| message_ := message_ p ++ d; type_ := type_ p; gotAll_ := gotAll_ p |}.

(** The switch on the opcode: [None] for an unknown one, else what it does
    to [type_] and whether the frame is a control frame. *)
Definition opcode_case (opcode : Z) : option (option WebSocketMessageType * bool) :=
  match opcode with
  | 0 => Some (None, false)
  | 1 => Some (Some Text, false)
  | 2 => Some (Some Binary, false)
  | 8 => Some (Some CloseFrame, true)
  | 9 => Some (Some Ping, true)
  | 10 => Some (Some Pong, true)
  | _ => None
  end.

(** How one iteration of the loop of [parse] ends. *)
Inductive frame_result (B : Type) :=
| FNext (p : Parser) (b : B)                 (* the next iteration *)
| FReturn (success : bool) (p : Parser) (b : B)
| FThrow (p : Parser) (b : B)                (* [std::length_error] *)
| FOutOfBounds.                              (* a read outside the readable bytes *)
Arguments FNext {B}.
Arguments FReturn {B}.
Arguments FThrow {B}.
Arguments FOutOfBounds {B}.

Local Notation "'get' x ':=' e 'in' k" := (match e with Some x => k | None => FOutOfBounds end)
  (at level 200, x pattern, e at level 100, k at level 200, right associativity).

Section Parse.
Context {B : Type} `{ByteQueue B}.
(** [getClientMaxWebSocketMessageSize()] *)
Context (maxSize : Z).

(** The extended length in bytes 2..9, guarded against a shift that loses bits. *)
Fixpoint read_length (n i : nat) (length : Z) (b : B) : option (option Z) :=
  match n with
  | O => Some (Some length)
  | S m =>
      if length >? Z.shiftr SIZE_MAX 8 then Some None else
      c ← bq_at b i; read_length m (S i) (wrapU64 (Z.shiftl length 8 + c)) b
  end.

(** The payload length; [Some None] when parsing fails. *)
Definition payload_length (indexFirstMask : nat) (length : Z) (b : B) : option (option Z) :=
  match indexFirstMask with
  | 4%nat => c2 ← bq_at b 2; c3 ← bq_at b 3; Some (Some (wrapU64 (Z.shiftl c2 8 + c3)))
  | 10%nat => read_length 8 2 0 b
  | _ => Some (Some length)
  end.

(** [message_] grows by [length] bytes: throws past the maximal size. *)
Definition grown (p : Parser) (length : Z) : Z :=
  wrapU64 (Z.of_nat (List.length (message_ p)) + length).

(** The payload is complete: take it, drop the frame. *)
Definition accept (isFin : bool) (size : Z) (data : list Z) (p : Parser) (b : B) : frame_result B :=
  let p' := add_data data p in
  let b' := bq_retrieve (Z.to_nat size) b in
  if isFin then FReturn true (set_gotAll true p') b' else FNext p' b'.

Definition masked_payload (isFin : bool) (index : nat) (length : Z) (p : Parser) (b : B) : frame_result B :=
  if length >? maxSize then FReturn false p (bq_retrieveAll b)
  else
    let size := wrapU64 (Z.of_nat index + 4 + length) in
    if Z.of_nat (bq_readable b) >=? size then
      if grown p length >? string_max_size then FThrow p b
      else
        get mask := bq_window index 4 b in
        get data := bq_window (index + 4) (Z.to_nat length) b in
        accept isFin size (apply_mask mask data) p b
    else FReturn true p b.

Definition plain_payload (isFin : bool) (index : nat) (length : Z) (p : Parser) (b : B) : frame_result B :=
  let size := wrapU64 (Z.of_nat index + length) in
  if Z.of_nat (bq_readable b) >=? size then
    if Z.of_nat (List.length (message_ p)) + length >? string_max_size then FThrow p b
    else get data := bq_window index (Z.to_nat length) b in accept isFin size data p b
  else FReturn true p b.

(** One iteration of the loop of [parse]. *)
Definition parse_frame (p : Parser) (b : B) : frame_result B :=
  get b0 := bq_at b 0 in
  match opcode_case (Z.land b0 15) with
  | None => FReturn false p b
  | Some (t, isControlFrame) =>
      let p := match t with Some t => set_type t p | None => p end in
      let isFin := Z.land b0 128 =? 128 in
      if negb isFin && isControlFrame then FReturn false p b else
      get secondByte := bq_at b 1 in
      let length := Z.land secondByte 127 in
      let isMasked := negb (Z.land secondByte 128 =? 0) in
      let indexFirstMask := if length =? 126 then 4%nat else if length =? 127 then 10%nat else 2%nat in
      if (2 <? indexFirstMask)%nat && (bq_readable b <? indexFirstMask)%nat then FReturn true p b
      else if (2 <? indexFirstMask)%nat && isControlFrame then FReturn false p b
      else
        get len := payload_length indexFirstMask length b in
        match len with
        | None => FReturn false p b
        | Some length =>
            if isMasked then masked_payload isFin indexFirstMask length p b
            else plain_payload isFin indexFirstMask length p b
        end
  end.

Inductive parse_result :=
| PReturn (success : bool) (p : Parser) (b : B)
| PThrow (p : Parser) (b : B)
| POutOfBounds.

(** The loop of [parse]; [None] when the fuel runs out. *)
Fixpoint parse_loop (fuel : nat) (p : Parser) (b : B) : option parse_result :=
  match fuel with
  | O => None
  | S f =>
      if (2 <=? bq_readable b)%nat then
        match parse_frame p b with
        | FNext p' b' => parse_loop f p' b'
        | FReturn s p' b' => Some (PReturn s p' b')
        | FThrow p' b' => Some (PThrow p' b')
        | FOutOfBounds => Some POutOfBounds
        end
      else Some (PReturn true p b)
  end.

(** Every iteration that goes on consumes bytes, so this is fuel enough. *)
Definition parse (p : Parser) (b : B) : option parse_result :=
  parse_loop (S (bq_readable b)) (set_gotAll false p) b.

(** ** Receiving *)

Context (secureRandomBytes : nat → nat → option (list Z)).

(** What [onNewMessage] does with one message; [false] when [send] throws. *)
Definition handle_message (s : Sender) (m : list Z * WebSocketMessageType) : Sender * bool :=
  let '(msg, type) := m in
  match type with
  | Ping =>
      let '(s', ok) := send secureRandomBytes msg Pong s in
      if ok then (log (Callback msg type) s', true) else (s', false)
  | CloseFrame => (log (Callback msg type) (log Shutdown s), true)
  | _ => (log (Callback msg type) s, true)
  end.

Inductive event_end := Done | Threw | Outside.

Fixpoint receive_loop (fuel : nat) (p : Parser) (s : Sender) (b : B)
    : option (Parser * Sender * B * event_end) :=
  match fuel with
  | O => None
  | S f =>
      if (0 <? bq_readable b)%nat then
        r ← parse p b;
        match r with
        | PReturn true p' b' =>
            if gotAll_ p' then
              let msg := (message_ p', type_ p') in
              let p'' := {| message_ := []; type_ := type_ p'; gotAll_ := gotAll_ p' |} in
              if decide (type_ p' = Unknown) then Some (p'', s, b', Done) else
              let '(s', ok) := handle_message s msg in
              if ok then receive_loop f p'' s' b' else Some (p'', s', b', Threw)
            else Some (p', s, b', Done)
        | PReturn false p' b' => Some (p', log Shutdown s, b', Done)
        | PThrow p' b' => Some (p', s, b', Threw)
        | POutOfBounds => Some (p, s, b, Outside)
        end
      else Some (p, s, b, Done)
  end.

Definition onNewMessage (p : Parser) (s : Sender) (b : B) : option (Parser * Sender * B * event_end) :=
  receive_loop (S (bq_readable b)) p s b.

(** Bytes arrive in pieces: each is appended to the input buffer and then handled. *)
Fixpoint feed (segs : list (list Z)) (p : Parser) (s : Sender) (b : B)
    : option (Parser * Sender * B * event_end) :=
  match segs with
  | [] => Some (p, s, b, Done)
  | seg :: rest =>
      b1 ← bq_append seg b;
      r ← onNewMessage p s b1;
      match r with
      | (p', s', b', Done) => feed rest p' s' b'
      | r => Some r
      end
  end.
End Parse.

(** ** Frames and messages, abstractly

    A frame as RFC 6455 describes it and its encoding; and the machine that
    reassembles messages from frames, which is what the parser is to
    implement. *)

Record Frame := { f_fin : bool; f_op : Z; f_mask : option (list Z); f_data : list Z }.

Definition f_len (f : Frame) : Z := Z.of_nat (length (f_data f)).
Definition f_masked (f : Frame) : bool := if f_mask f then true else false.

Definition second_bytes (f : Frame) : list Z :=
  let m := if f_masked f then 128 else 0 in
  if f_len f <=? 125 then [Z.lor (f_len f) m]
  else if f_len f <=? 65535 then Z.lor 126 m :: be_bytes 2 (f_len f)
  else Z.lor 127 m :: be_bytes 8 (f_len f).

Definition body (f : Frame) : list Z :=
  match f_mask f with Some k => k ++ apply_mask k (f_data f) | None => f_data f end.

Definition encode (f : Frame) : list Z :=
  (Z.lor (if f_fin f then 128 else 0) (f_op f) :: second_bytes f) ++ body f.
Definition encode_all (fs : list Frame) : list Z := concat (encode <$> fs).

(** Opcodes of the RFC; control frames are short and not fragmented; a mask
    has four bytes and a masked payload respects the limit. *)
Record valid (maxSize : Z) (f : Frame) : Prop := {
  v_op : f_op f ∈ [0; 1; 2; 8; 9; 10];
  v_control : 8 ≤ f_op f → f_fin f = true ∧ f_len f ≤ 125;
  v_mask : ∀ k, f_mask f = Some k → length k = 4%nat ∧ f_len f ≤ maxSize
}.

Definition type_of (f : Frame) (t : WebSocketMessageType) : WebSocketMessageType :=
  match opcode_case (f_op f) with Some (Some t', _) => t' | _ => t end.

(** A state of the machine: the payload so far and the type of the message. *)
Definition message : Type := list Z * WebSocketMessageType.

Fixpoint reassemble (st : message) (fs : list Frame) : message * list message :=
  match fs with
  | [] => (st, [])
  | f :: fs =>
      let t := type_of f (snd st) in
      let acc := fst st ++ f_data f in
      if f_fin f then let '(st', ms) := reassemble ([], t) fs in (st', (acc, t) :: ms)
      else reassemble (acc, t) fs
  end.

Definition total (fs : list Frame) : nat := sum_list_with (λ f, length (f_data f)) fs.

Definition retype (f : Frame) (p : Parser) : Parser := set_type (type_of f (type_ p)) p.

(** ** Bits and masks *)

Lemma second_byte n m :
  0 ≤ n < 128 →
  Z.land (Z.lor n (if m : bool then 128 else 0)) 127 = n ∧
  negb (Z.land (Z.lor n (if m then 128 else 0)) 128 =? 0) = m.
Proof.
  intros Hn.
  assert (Hall : forallb (λ k, let c := Z.lor (Z.of_nat k) (if m then 128 else 0) in
    (Z.land c 127 =? Z.of_nat k) && eqb (negb (Z.land c 128 =? 0)) m) (seq 0 128) = true)
    by (destruct m; vm_compute; reflexivity).
  rewrite forallb_forall in Hall. specialize (Hall (Z.to_nat n)).
  rewrite Z2Nat.id in Hall by lia. apply andb_true_iff in Hall as [H1 H2]; [|apply in_seq; lia].
  split; [by apply Z.eqb_eq|by apply eqb_prop].
Qed.

Lemma first_byte op (fin : bool) :
  op ∈ [0; 1; 2; 8; 9; 10] →
  let c := Z.lor (if fin then 128 else 0) op in
  Z.land c 15 = op ∧ (Z.land c 128 =? 128) = fin ∧
  ∃ t, opcode_case op = Some (t, 8 <=? op).
Proof.
  intros Hop. repeat (apply elem_of_cons in Hop as [->|Hop];
    [destruct fin; cbn; split_and!; try done; by eexists|]).
  by apply not_elem_of_nil in Hop.
Qed.

Lemma apply_mask_involutive k l : apply_mask k (apply_mask k l) = l.
Proof.
  unfold apply_mask. apply list_eq. intros i. rewrite !list_lookup_imap. destruct (l !! i); cbn; [|done].
  unfold mask_byte. by rewrite Z.lxor_assoc, Z.lxor_nilpotent, Z.lxor_0_r.
Qed.

Lemma apply_mask_length k l : length (apply_mask k l) = length l.
Proof. apply length_imap. Qed.

Definition header_size (f : Frame) : nat :=
  if f_len f <=? 125 then 2 else if f_len f <=? 65535 then 4 else 10.

Lemma second_bytes_length f : length (second_bytes f) = (header_size f - 1)%nat.
Proof. unfold second_bytes, header_size. repeat case_if; cbn -[be_bytes]; rewrite ?be_bytes_length; lia. Qed.

Lemma body_length maxSize f :
  valid maxSize f → length (body f) = ((if f_masked f then 4 else 0) + length (f_data f))%nat.
Proof.
  intros Hv. unfold body, f_masked. destruct (f_mask f) as [k|] eqn:E; [|done].
  rewrite length_app, apply_mask_length. by destruct (v_mask _ _ Hv k E) as [-> _].
Qed.

Lemma encode_length maxSize f :
  valid maxSize f →
  length (encode f) = (header_size f + (if f_masked f then 4 else 0) + length (f_data f))%nat.
Proof.
  intros Hv. unfold encode. cbn -[body]. rewrite length_app, second_bytes_length, (body_length maxSize) by done.
  assert (2 ≤ header_size f)%nat by (unfold header_size; repeat case_if; lia). lia.
Qed.

Section ParseLemmas.
Context {B : Type} `{ByteQueue B} (maxSize : Z).
Implicit Types (b : B) (p : Parser) (f : Frame).

Lemma read_length_spec l i acc b :
  (∀ k c, l !! k = Some c → bq_at b (i + k) = Some c) → Forall byte l → 0 ≤ acc →
  (acc + 1) * 2 ^ (8 * Z.of_nat (length l)) ≤ 2 ^ 64 →
  read_length (length l) i acc b = Some (Some (fold_left (λ a c, a * 256 + c) l acc)).
Proof.
  revert i acc. induction l as [|c l IH]; intros i acc Hat Hb H0 Hbound; [done|].
  apply Forall_cons_1 in Hb as [Hc Hb]. unfold byte in Hc.
  cbn [length] in Hbound. replace (8 * Z.of_nat (S (length l))) with (8 * Z.of_nat (length l) + 8) in Hbound by lia.
  rewrite Z.pow_add_r in Hbound by lia. change (2 ^ 8) with 256 in Hbound.
  assert (Hpos : 1 ≤ 2 ^ (8 * Z.of_nat (length l))) by (apply Z.pow_le_mono_r with (b := 0); lia).
  cbn [read_length length fold_left]. change (Z.shiftr SIZE_MAX 8) with (2 ^ 56 - 1).
  assert (acc + 1 ≤ 2 ^ 56) by nia.
  destruct (Z.gtb_spec acc (2 ^ 56 - 1)); [lia|].
  rewrite <- (Nat.add_0_r i) at 1. rewrite (Hat 0%nat c) by done. cbn [mbind option_bind].
  rewrite Z.shiftl_mul_pow2 by lia. change (2 ^ 8) with 256.
  rewrite wrapU64_small by (change (2 ^ 64) with (2 ^ 56 * 256); lia).
  apply IH; [|done|lia|nia].
  intros k c' Hk. rewrite <- (Hat (S k) c') by done. f_equal. lia.
Qed.

(** A frame at the front of the buffer, possibly cut off. *)
Definition at_front f b : Prop :=
  bq_ok b ∧ ∃ rest, bq_contents b `prefix_of` encode f ++ rest.

Lemma front_at f b i c :
  at_front f b → (i < length (bq_contents b))%nat → encode f !! i = Some c → bq_at b i = Some c.
Proof.
  intros [Hb [rest Hp]] Hi Hc. rewrite bq_at_spec by done.
  rewrite (prefix_lookup_lt _ _ _ Hi Hp), lookup_app_l; [done|]. by eapply lookup_lt_Some.
Qed.

Lemma front_length f b :
  valid maxSize f → at_front f b → (header_size f ≤ length (bq_contents b))%nat →
  f_len f < 2 ^ 64 →
  payload_length (header_size f) (Z.land (nth 1 (encode f) 0) 127) b = Some (Some (f_len f)).
Proof.
  intros Hv Hf Hh Hlt. unfold payload_length, header_size in *.
  assert (H0 : 0 ≤ f_len f) by (unfold f_len; lia).
  assert (Hat : ∀ i c, (i < length (bq_contents b))%nat → encode f !! i = Some c → bq_at b i = Some c)
    by (intros; by eapply front_at).
  unfold encode, second_bytes in *.
  destruct (Z.leb_spec (f_len f) 125) as [H1|H1]; [|destruct (Z.leb_spec (f_len f) 65535) as [H2|H2]].
  - cbn. by destruct (second_byte (f_len f) (f_masked f)) as [-> _]; [lia|].
  - rewrite (Hat 2%nat (Z.land (Z.shiftr (f_len f) (8 * Z.of_nat 1)) 255)) by (done || lia).
    rewrite (Hat 3%nat (Z.land (Z.shiftr (f_len f) (8 * Z.of_nat 0)) 255)) by (done || lia).
    pose proof (be_value_bytes 2 (f_len f)) as Hbv. rewrite Z.mod_small in Hbv by (cbn; lia).
    unfold be_value in Hbv. cbn [be_bytes fold_left] in Hbv. cbn [mbind option_bind].
    rewrite Z.shiftl_mul_pow2 by lia. change (2 ^ 8) with 256.
    rewrite Z.mul_0_l, Z.add_0_l in Hbv. rewrite Hbv. by rewrite wrapU64_small by lia.
  - rewrite <- (be_bytes_length 8 (f_len f)) at 1. rewrite read_length_spec.
    + rewrite be_fold, Z.mul_0_l, Z.add_0_l. by rewrite Z.mod_small by (cbn; lia).
    + intros k c Hk. apply Hat; [apply lookup_lt_Some in Hk; rewrite be_bytes_length in Hk; lia|].
      rewrite lookup_app_l; [exact Hk|]. apply lookup_lt_Some in Hk. cbn [length]. lia.
    + apply be_bytes_byte.
    + lia.
    + by rewrite be_bytes_length.
Qed.

(** What is left of an iteration once the header is read. *)
Definition frame_payload f p b : frame_result B :=
  if f_masked f then masked_payload maxSize (f_fin f) (header_size f) (f_len f) p b
  else plain_payload (f_fin f) (header_size f) (f_len f) p b.

(** The second byte gives the length class and the mask flag. *)
Lemma front_second f :
  let c := nth 1 (encode f) 0 in
  (if Z.land c 127 =? 126 then 4%nat else if Z.land c 127 =? 127 then 10%nat else 2%nat) = header_size f ∧
  negb (Z.land c 128 =? 0) = f_masked f.
Proof.
  unfold header_size, encode, second_bytes. assert (0 ≤ f_len f) by (unfold f_len; lia).
  destruct (Z.leb_spec (f_len f) 125); [|destruct (Z.leb_spec (f_len f) 65535)]; cbn [app nth].
  - destruct (second_byte (f_len f) (f_masked f)) as [-> ->]; [lia|].
    destruct (Z.eqb_spec (f_len f) 126); [lia|]. by destruct (Z.eqb_spec (f_len f) 127); [lia|].
  - by destruct (second_byte 126 (f_masked f)) as [-> ->].
  - by destruct (second_byte 127 (f_masked f)) as [-> ->].
Qed.

Lemma retype_case f p t (control : bool) :
  opcode_case (f_op f) = Some (t, control) → match t with Some t => set_type t p | None => p end = retype f p.
Proof. intros E. unfold retype, type_of. rewrite E. by destruct t, p. Qed.

Lemma parse_frame_front f p b :
  valid maxSize f → at_front f b → (2 ≤ length (bq_contents b))%nat → f_len f < 2 ^ 64 →
  parse_frame maxSize p b =
    if (length (bq_contents b) <? header_size f)%nat then FReturn true (retype f p) b
    else frame_payload f (retype f p) b.
Proof.
  intros Hv Hf H2 Hlt. pose proof Hf as [Hok _].
  destruct (first_byte (f_op f) (f_fin f) (v_op _ _ Hv)) as (Hop & Hfin & t & Ht).
  destruct (front_second f) as [Hidx Hmask].
  unfold parse_frame.
  rewrite (front_at f b 0 (Z.lor (if f_fin f then 128 else 0) (f_op f))) by (done || lia).
  rewrite Hop, Ht, Hfin, (retype_case f p t _ Ht).
  assert (Hc : negb (f_fin f) && (8 <=? f_op f) = false).
  { destruct (Z.leb_spec 8 (f_op f)); [|by rewrite andb_false_r]. by destruct (v_control _ _ Hv) as [-> _]. }
  rewrite Hc.
  assert (Hsec : encode f !! 1%nat = Some (nth 1 (encode f) 0)).
  { unfold encode, second_bytes. by repeat case_if. }
  rewrite (front_at f b 1 (nth 1 (encode f) 0)) by (done || lia).
  cbv zeta. rewrite Hidx, Hmask, bq_readable_spec by done.
  assert (Hctl : (2 <? header_size f)%nat && (8 <=? f_op f) = false).
  { destruct (Z.leb_spec 8 (f_op f)); [|by rewrite andb_false_r].
    destruct (v_control _ _ Hv) as [_ Hl]; [lia|]. unfold header_size.
    by destruct (Z.leb_spec (f_len f) 125); [|lia]. }
  rewrite Hctl. destruct (Nat.ltb_spec (length (bq_contents b)) (header_size f)) as [Hs|Hs].
  - by rewrite (proj2 (Nat.ltb_lt _ _)) by lia.
  - rewrite andb_false_r, front_length by done. done.
Qed.

(** A frame that is there completely is taken from the buffer. *)
Definition after_frame f p : Parser :=
  {| message_ := message_ p ++ f_data f; type_ := type_of f (type_ p);
     gotAll_ := f_fin f || gotAll_ p |}.

Lemma accept_frame f p b n rest :
  bq_ok b → bq_contents b = encode f ++ rest → n = Z.of_nat (length (encode f)) →
  ∃ b', bq_ok b' ∧ bq_contents b' = rest ∧
    accept (f_fin f) n (f_data f) (retype f p) b =
      if f_fin f then FReturn true (after_frame f p) b' else FNext (after_frame f p) b'.
Proof.
  intros Hok Hc ->. exists (bq_retrieve (length (encode f)) b).
  destruct (bq_retrieve_spec (length (encode f)) b Hok) as [Hok' Hc'].
  split; [done|]. split; [by rewrite Hc', Hc, drop_app_length|].
  unfold accept. rewrite Nat2Z.id. unfold after_frame. by destruct (f_fin f).
Qed.

Lemma slice_body maxSz f :
  valid maxSz f → ∀ rest,
  slice (header_size f) (length (body f)) (encode f ++ rest) = body f.
Proof.
  intros Hv rest. unfold slice, encode. rewrite <- app_assoc.
  assert (Hl : header_size f = length (Z.lor (if f_fin f then 128 else 0) (f_op f) :: second_bytes f)).
  { cbn. rewrite second_bytes_length. unfold header_size. repeat case_if; lia. }
  rewrite Hl, drop_app_length. apply take_app_length.
Qed.

Lemma header_bound f : (2 ≤ header_size f ≤ 10)%nat.
Proof. unfold header_size. repeat case_if; lia. Qed.

Lemma payload_complete f p b rest :
  valid maxSize f → bq_ok b → bq_contents b = encode f ++ rest →
  Z.of_nat (length (message_ p)) + f_len f ≤ string_max_size →
  ∃ b', bq_ok b' ∧ bq_contents b' = rest ∧
    frame_payload f (retype f p) b =
      if f_fin f then FReturn true (after_frame f p) b' else FNext (after_frame f p) b'.
Proof.
  intros Hv Hok Hc Hm. pose proof (encode_length _ _ Hv) as Hlen. pose proof (header_bound f).
  pose proof (slice_body _ _ Hv rest) as Hbody. unfold string_max_size in Hm.
  assert (Hl : f_len f = Z.of_nat (length (f_data f))) by done.
  destruct (accept_frame f p b (Z.of_nat (length (encode f))) rest Hok Hc eq_refl) as (b' & Hok' & Hc' & Ha).
  exists b'. split_and!; [done..|]. rewrite <- Ha. clear Ha.
  unfold frame_payload, f_masked in *. destruct (f_mask f) as [k|] eqn:Ek.
  - destruct (v_mask _ _ Hv k Ek) as [Hk Hmax]. unfold masked_payload, grown. cbv zeta.
    destruct (Z.gtb_spec (f_len f) maxSize); [lia|].
    rewrite !wrapU64_small by (cbn [message_ retype set_type]; lia).
    rewrite bq_readable_spec, Hc, length_app by done.
    destruct (Z.geb_spec (Z.of_nat (length (encode f) + length rest)) (Z.of_nat (header_size f) + 4 + f_len f)); [|lia].
    cbn [message_ retype set_type].
    destruct (Z.gtb_spec (Z.of_nat (length (message_ p)) + f_len f) string_max_size); [unfold string_max_size in *; lia|].
    unfold body in Hbody. rewrite Ek, length_app, apply_mask_length, Hk, slice_add in Hbody.
    apply app_inj_1 in Hbody as [Hb1 Hb2];
      [|rewrite slice_length; [done|rewrite length_app; lia]].
    rewrite !bq_window_spec by (rewrite ?Hc, ?length_app; lia || done).
    rewrite Hc, Hl, Nat2Z.id, Hb1, Hb2, apply_mask_involutive. f_equal. lia.
  - unfold plain_payload. cbv zeta. cbn [message_ retype set_type].
    rewrite wrapU64_small by lia. rewrite bq_readable_spec, Hc, length_app by done.
    destruct (Z.geb_spec (Z.of_nat (length (encode f) + length rest)) (Z.of_nat (header_size f) + f_len f)); [|lia].
    destruct (Z.gtb_spec (Z.of_nat (length (message_ p)) + f_len f) string_max_size); [unfold string_max_size in *; lia|].
    unfold body in Hbody. rewrite Ek in Hbody.
    rewrite bq_window_spec by (rewrite ?Hc, ?length_app; lia || done).
    rewrite Hc, Hl, Nat2Z.id, Hbody. f_equal. lia.
Qed.

Lemma payload_partial f p b :
  valid maxSize f → bq_ok b → (length (bq_contents b) < length (encode f))%nat →
  f_len f ≤ string_max_size → frame_payload f p b = FReturn true p b.
Proof.
  intros Hv Hok Hs Hm. pose proof (encode_length _ _ Hv) as Hlen. pose proof (header_bound f).
  unfold string_max_size in Hm. assert (Hl : f_len f = Z.of_nat (length (f_data f))) by done.
  unfold frame_payload, f_masked in *. destruct (f_mask f) as [k|] eqn:Ek.
  - destruct (v_mask _ _ Hv k Ek) as [_ Hmax]. unfold masked_payload. cbv zeta.
    destruct (Z.gtb_spec (f_len f) maxSize); [lia|].
    rewrite wrapU64_small, bq_readable_spec by (done || lia).
    by destruct (Z.geb_spec (Z.of_nat (length (bq_contents b))) (Z.of_nat (header_size f) + 4 + f_len f)); [lia|].
  - unfold plain_payload. cbv zeta. rewrite wrapU64_small, bq_readable_spec by (done || lia).
    by destruct (Z.geb_spec (Z.of_nat (length (bq_contents b))) (Z.of_nat (header_size f) + f_len f)); [lia|].
Qed.

(** ** The loop on a stream of frames *)

Definition waiting (fs : list Frame) (w : list Z) : Prop :=
  match fs with [] => w = [] | f :: _ => (length w < length (encode f))%nat end.

(** The type of the next message is known, or the next frame sets it. *)
Definition typed (fs : list Frame) (t : WebSocketMessageType) : Prop :=
  t ≠ Unknown ∨ match fs with [] => True | f :: _ => f_op f ≠ 0 end.

Lemma type_of_known f t fs : f_op f ∈ [0; 1; 2; 8; 9; 10] → typed (f :: fs) t → type_of f t ≠ Unknown.
Proof.
  unfold type_of, typed. destruct f as [fin op m d]. cbn [f_op]. intros Hop [Ht|Ht];
    repeat (apply elem_of_cons in Hop as [->|Hop]; [done|]); by apply not_elem_of_nil in Hop.
Qed.

Lemma type_of_twice f t : type_of f (type_of f t) = type_of f t.
Proof. unfold type_of. by destruct (opcode_case (f_op f)) as [[[]]|]. Qed.

(** The state of the parser in front of the frames [fs], of which [b] holds
    a part and [rest] is still to come. *)
Record stream_at (fs : list Frame) (rest : list Z) (p : Parser) b : Prop := {
  sa_ok : bq_ok b;
  sa_valid : Forall (valid maxSize) fs;
  sa_bytes : bq_contents b ++ rest = encode_all fs;
  sa_size : Z.of_nat (length (message_ p) + total fs) ≤ string_max_size;
  sa_typed : typed fs (type_ p)
}.

(** What the loop reaches from [p] on the frames [fs]: it either waits for
    the rest of a frame or has a message. *)
Definition parsed (p : Parser) (fs : list Frame) (w : list Z) (p' : Parser) (fs' : list Frame) (w' : list Z) : Prop :=
  (gotAll_ p' = gotAll_ p ∧ waiting fs' w' ∧
   reassemble (message_ p, type_ p) fs = reassemble (message_ p', type_ p') fs') ∨
  (gotAll_ p' = true ∧ (length w' < length w)%nat ∧ type_ p' ≠ Unknown ∧
   reassemble (message_ p, type_ p) fs =
     let '(st, ms) := reassemble ([], type_ p') fs' in (st, (message_ p', type_ p') :: ms)).

Lemma parse_loop_frames fs rest p b fuel :
  stream_at fs rest p b → (length (bq_contents b) < fuel)%nat →
  ∃ p' b' fs', parse_loop maxSize fuel p b = Some (PReturn true p' b') ∧ stream_at fs' rest p' b' ∧
    (length (bq_contents b') ≤ length (bq_contents b))%nat ∧ parsed p fs (bq_contents b) p' fs' (bq_contents b').
Proof.
  revert p b fuel. induction fs as [|f fs IH]; intros p b fuel Hs Hfuel;
    (destruct fuel as [|fuel]; [lia|]); pose proof Hs as [Hok Hv Hc Hz Ht].
  - exists p, b, []. cbn in Hc. apply app_eq_nil in Hc as [Hc _]. cbn [parse_loop].
    rewrite bq_readable_spec, Hc by done. split_and!; [done|done|done|by left].
  - pose proof (Forall_inv Hv) as Hvf. pose proof (Forall_inv_tail Hv) as Hvs. pose proof (header_bound f).
    pose proof (encode_length _ _ Hvf) as Hlen. cbn [total sum_list_with] in Hz. fold (total fs) in Hz.
    assert (Hsz : f_len f ≤ string_max_size) by (unfold f_len; lia).
    assert (Hlt : f_len f < 2 ^ 64) by (unfold string_max_size in Hsz; lia).
    cbn [parse_loop]. rewrite bq_readable_spec by done.
    destruct (Nat.leb_spec 2 (length (bq_contents b))) as [H2|H2].
    2: { exists p, b, (f :: fs). split_and!; [done|done|done|]. left. cbn [waiting]. split_and!; [done|lia|done]. }
    assert (Hfr : at_front f b).
    { split; [done|]. exists (encode_all fs). exists rest. cbn in Hc. by rewrite Hc. }
    rewrite (parse_frame_front f p b) by done.
    destruct (Nat.ltb_spec (length (bq_contents b)) (length (encode f))) as [Hcut|Hall].
    + assert (Hret : stream_at (f :: fs) rest (retype f p) b ∧ parsed p (f :: fs) (bq_contents b) (retype f p) (f :: fs) (bq_contents b)).
      { split; [|left; cbn -[encode]; by rewrite type_of_twice]. split; try done.
        left. cbn. by apply (type_of_known f (type_ p) fs); [apply Hvf|]. }
      exists (retype f p), b, (f :: fs). split_and!; [|apply Hret|done|apply Hret].
      case_if; [done|]. by rewrite payload_partial.
    + rewrite (proj2 (Nat.ltb_ge _ _)) by lia.
      assert (∃ r, bq_contents b = encode f ++ r ∧ r ++ rest = encode_all fs) as (r & Hr & Hrest).
      { change (encode_all (f :: fs)) with (encode f ++ encode_all fs) in Hc.
        apply app_eq_inv in Hc as [(k & E1 & E2)|(k & E1 & E2)]; [by exists k|].
        assert (k = []) as -> by (apply length_zero_iff_nil; apply (f_equal length) in E1; rewrite length_app in E1; lia).
        exists []. rewrite app_nil_r in *. by cbn in *. }
      destruct (payload_complete f p b r) as (b' & Hok' & Hc' & ->); [done..|unfold f_len; lia|].
      assert (Hk : type_of f (type_ p) ≠ Unknown) by (apply (type_of_known f _ fs); [apply Hvf|done]).
      assert (Hs' : stream_at fs rest (after_frame f p) b').
      { split; [done|done|by rewrite Hc'| |by left]. cbn. rewrite length_app. lia. }
      assert (Hle : (length (bq_contents b') ≤ length (bq_contents b))%nat) by (rewrite Hr, Hc', length_app; lia).
      destruct (f_fin f) eqn:Efin.
      * exists (after_frame f p), b', fs. split_and!; [done|done|done|]. right. cbn. rewrite Efin.
        split_and!; [done|rewrite Hr, Hc', length_app; lia|done|done].
      * destruct (IH (after_frame f p) b' fuel Hs') as (p' & b2 & fs' & E & Hs2 & Hle2 & Hp).
        { rewrite Hr, length_app in Hfuel. rewrite Hc'. lia. }
        exists p', b2, fs'. split_and!; [done|done|lia|].
        unfold parsed in *. cbn [reassemble fst snd]. rewrite Efin. cbn in Hp. rewrite Efin in Hp. cbn in Hp.
        destruct Hp as [?|(? & ? & ? & ?)]; [by left|right]. split_and!; [done|lia|done|done].
Qed.

Context (secureRandomBytes : nat → nat → option (list Z)).

(** Sending works: a server sends unmasked, a client has randomness. *)
Definition can_send (s : Sender) : Prop :=
  isServer_ s = true ∨ ∀ i n, is_Some (secureRandomBytes i n).

Lemma take_mask_server s : isServer_ (take_mask secureRandomBytes s).1 = isServer_ s.
Proof. unfold take_mask. by repeat case_match. Qed.

Lemma take_mask_some s :
  (∀ i n, is_Some (secureRandomBytes i n)) → is_Some (take_mask secureRandomBytes s).2.
Proof.
  intros Hr. unfold take_mask. case_if; [apply Hr|].
  destruct (masks_ s) as [|m ms]; cbn [snd].
  - destruct (Hr (calls s) 64%nat) as [l ->]. done.
  - apply last_is_Some. done.
Qed.

Lemma send_ok msg t s :
  can_send s → ∃ s', send secureRandomBytes msg t s = (s', true) ∧ can_send s'.
Proof.
  intros Hs. unfold send, sendWsData, can_send in *. destruct (isServer_ s) eqn:E; cbn [negb].
  - eexists; split; [done|]. by left.
  - destruct Hs as [|Hr]; [done|]. pose proof (take_mask_some s Hr) as [m Hm].
    destruct (take_mask secureRandomBytes s) as [s' o]. cbn in Hm. subst o. eexists; split; [done|]. by right.
Qed.

Definition handle_all (s : Sender) (ms : list message) : Sender :=
  fold_left (λ s m, (handle_message secureRandomBytes s m).1) ms s.

Lemma handle_message_ok s m :
  can_send s → ∃ s', handle_message secureRandomBytes s m = (s', true) ∧ can_send s'.
Proof.
  intros Hs. destruct m as [msg t]. unfold handle_message.
  destruct t; try by (eexists; split; [done|]; destruct Hs; [by left|by right]).
  destruct (send_ok msg Pong s Hs) as (s' & -> & Hs'). eexists; split; [done|].
  destruct Hs'; [by left|by right].
Qed.

Lemma receive_frames fuel fs rest p s b :
  stream_at fs rest p b → can_send s → (length (bq_contents b) < fuel)%nat →
  ∃ p' b' fs' ms, receive_loop maxSize secureRandomBytes fuel p s b = Some (p', handle_all s ms, b', Done) ∧
    stream_at fs' rest p' b' ∧ can_send (handle_all s ms) ∧ waiting fs' (bq_contents b') ∧
    reassemble (message_ p, type_ p) fs =
      let '(st, ms') := reassemble (message_ p', type_ p') fs' in (st, ms ++ ms').
Proof.
  revert fs p s b. induction fuel as [|fuel IH]; intros fs p s b Hs Hcan Hfuel; [lia|].
  pose proof (sa_ok _ _ _ _ Hs) as Hok. cbn [receive_loop]. rewrite bq_readable_spec by done.
  destruct (Nat.ltb_spec 0 (length (bq_contents b))) as [Hpos|Hzero].
  2: { exists p, b, fs, []. split_and!; [done|done|done| |by destruct (reassemble (message_ p, type_ p) fs)].
       assert (E : bq_contents b = []) by (apply length_zero_iff_nil; lia). rewrite E.
       destruct fs as [|f fs]; [done|]. cbn [waiting length].
       pose proof (Forall_inv (sa_valid _ _ _ _ Hs)) as Hv. rewrite (encode_length _ _ Hv).
       pose proof (header_bound f). lia. }
  unfold parse. rewrite bq_readable_spec by done.
  destruct (parse_loop_frames fs rest (set_gotAll false p) b (S (length (bq_contents b))))
    as (p' & b' & fs' & -> & Hs' & Hle & Hp); [by destruct Hs; split|lia|].
  cbn [mbind option_bind]. destruct Hp as [(Hg & Hw & Hr)|(Hg & Hlt & Hty & Hr)]; rewrite Hg; cbn [set_gotAll message_ type_ gotAll_] in Hr |- *; cbv zeta.
  - exists p', b', fs', []. split_and!; [done|done|done|done|]. rewrite Hr. by destruct (reassemble (message_ p', type_ p') fs').
  - rewrite decide_False by done.
    destruct (handle_message_ok s (message_ p', type_ p') Hcan) as (s' & Hm & Hcan').
    rewrite Hm. set (p2 := {| message_ := []; type_ := type_ p'; gotAll_ := true |}).
    destruct (IH fs' p2 s' b') as (p3 & b3 & fs3 & ms & E & Hs3 & Hc3 & Hw3 & Hr3); [|done|lia|].
    { destruct Hs' as [? ? ? Hz Ht]. split; [done|done|done| |done]. cbn. lia. }
    exists p3, b3, fs3, ((message_ p', type_ p') :: ms).
    unfold handle_all in *. cbn [fold_left]. rewrite Hm. cbn [fst].
    split_and!; [exact E|done|done|done|]. rewrite Hr. cbn in Hr3. rewrite Hr3. by destruct (reassemble (message_ p3, type_ p3) fs3).
Qed.

Lemma feed_frames segs fs p s b :
  stream_at fs (concat segs) p b → can_send s → waiting fs (bq_contents b) →
  ∃ p' b' fs' ms, feed maxSize secureRandomBytes segs p s b = Some (p', handle_all s ms, b', Done) ∧
    stream_at fs' [] p' b' ∧ waiting fs' (bq_contents b') ∧
    reassemble (message_ p, type_ p) fs =
      let '(st, ms') := reassemble (message_ p', type_ p') fs' in (st, ms ++ ms').
Proof.
  revert fs p s b. induction segs as [|seg segs IH]; intros fs p s b Hs Hcan Hw; cbn [feed concat] in *.
  { exists p, b, fs, []. split_and!; [done|done|done|]. by destruct (reassemble (message_ p, type_ p) fs). }
  destruct Hs as [Hok Hv Hc Hz Ht].
  destruct (bq_append_spec seg b Hok) as (b1 & -> & Hok1 & Hc1). cbn [mbind option_bind].
  destruct (receive_frames (S (bq_readable b1)) fs (concat segs) p s b1)
    as (p2 & b2 & fs2 & ms2 & E & Hs2 & Hcan2 & Hw2 & Hr2).
  { split; [done|done| |done|done]. by rewrite Hc1, <- app_assoc. }
  { done. } { rewrite bq_readable_spec by done. lia. }
  unfold onNewMessage. rewrite E. cbn [mbind option_bind].
  destruct (IH fs2 p2 (handle_all s ms2) b2 Hs2 Hcan2 Hw2) as (p3 & b3 & fs3 & ms3 & E3 & Hs3 & Hw3 & Hr3).
  exists p3, b3, fs3, (ms2 ++ ms3). unfold handle_all in *. rewrite fold_left_app.
  split_and!; [done|done|done|]. rewrite Hr2, Hr3.
  destruct (reassemble (message_ p3, type_ p3) fs3) as [st ms]. by rewrite app_assoc.
Qed.

(** A stream that has arrived completely leaves nothing to wait for. *)
Lemma nothing_left fs p b : stream_at fs [] p b → waiting fs (bq_contents b) → fs = [].
Proof.
  intros [_ _ Hc _ _] Hw. destruct fs as [|f fs]; [done|]. rewrite app_nil_r in Hc.
  cbn [waiting] in Hw. rewrite Hc in Hw. change (encode_all (f :: fs)) with (encode f ++ encode_all fs) in Hw.
  rewrite length_app in Hw. lia.
Qed.

(** ** Any bytes at all *)

Lemma read_length_total n i acc b :
  bq_ok b → (i + n ≤ length (bq_contents b))%nat → 0 ≤ acc < 2 ^ 64 →
  ∃ o, read_length n i acc b = Some o ∧ ∀ len, o = Some len → 0 ≤ len < 2 ^ 64.
Proof.
  intros Hok. revert i acc. induction n as [|n IH]; intros i acc Hi Hacc; cbn [read_length].
  { exists (Some acc). split; [done|]. intros len [= <-]. done. }
  case_if; [by exists None|].
  destruct (lookup_lt_is_Some_2 (bq_contents b) i) as [c Hc]; [lia|].
  rewrite bq_at_spec, Hc by (done || lia). cbn [mbind option_bind]. apply IH; [lia|].
  unfold wrapU64. apply Z.mod_pos_bound. done.
Qed.

Lemma payload_length_total idx l b :
  bq_ok b → (idx ≤ length (bq_contents b))%nat → idx ∈ [2; 4; 10]%nat → 0 ≤ l < 2 ^ 64 →
  ∃ o, payload_length idx l b = Some o ∧ ∀ len, o = Some len → 0 ≤ len < 2 ^ 64.
Proof.
  intros Hok Hi Hidx Hl. unfold payload_length.
  apply elem_of_cons in Hidx as [->|Hidx]; [|apply elem_of_cons in Hidx as [->|Hidx]].
  - exists (Some l). split; [done|]. intros len [= <-]. done.
  - destruct (lookup_lt_is_Some_2 (bq_contents b) 2) as [c2 H2]; [lia|].
    destruct (lookup_lt_is_Some_2 (bq_contents b) 3) as [c3 H3]; [lia|].
    rewrite !bq_at_spec, H2, H3 by (done || lia). eexists; split; [done|]. intros len [= <-].
    unfold wrapU64. apply Z.mod_pos_bound. done.
  - apply list_elem_of_singleton in Hidx as ->. apply read_length_total; [done|lia|lia].
Qed.

(** Bytes held: the message so far and what is still unparsed. *)
Definition held p b : nat := (length (message_ p) + length (bq_contents b))%nat.

Definition frame_safe p b (r : frame_result B) : Prop :=
  match r with
  | FOutOfBounds => False
  | FNext p' b' => bq_ok b' ∧ gotAll_ p' = gotAll_ p ∧ (held p' b' ≤ held p b)%nat ∧
      (length (bq_contents b') < length (bq_contents b))%nat
  | FReturn _ p' b' => bq_ok b' ∧ (held p' b' ≤ held p b)%nat ∧
      (gotAll_ p' = gotAll_ p ∨ (length (bq_contents b') < length (bq_contents b))%nat)
  | FThrow p' b' => b' = b ∧ message_ p' = message_ p
  end.

Lemma accept_safe fin n data p b :
  bq_ok b → 2 ≤ n → Z.of_nat (length data) ≤ n ≤ Z.of_nat (length (bq_contents b)) →
  frame_safe p b (accept fin n data p b).
Proof.
  intros Hok H2 Hn. unfold accept. destruct (bq_retrieve_spec (Z.to_nat n) b Hok) as [Hok' Hc].
  assert (length (bq_contents (bq_retrieve (Z.to_nat n) b)) = (length (bq_contents b) - Z.to_nat n)%nat)
    by (rewrite Hc; apply length_drop).
  destruct fin; cbn; unfold held; cbn [message_ set_gotAll add_data]; rewrite length_app; split_and!; lia || done || (right; lia).
Qed.

Lemma plain_safe fin idx len p b :
  bq_ok b → (2 ≤ idx ≤ 10)%nat → 0 ≤ len < 2 ^ 64 → frame_safe p b (plain_payload fin idx len p b).
Proof.
  intros Hok Hidx Hlen. unfold plain_payload. cbv zeta. rewrite bq_readable_spec by done.
  destruct (Z.geb_spec (Z.of_nat (length (bq_contents b))) (wrapU64 (Z.of_nat idx + len))) as [Hr|]; [|cbn; split_and!; by try left].
  destruct (Z.gtb_spec (Z.of_nat (length (message_ p)) + len) string_max_size) as [|Hsm]; [done|].
  unfold string_max_size in Hsm. rewrite wrapU64_small in * by lia.
  rewrite bq_window_spec by (done || lia). apply accept_safe; [done|lia|]. rewrite slice_length; lia.
Qed.

Lemma masked_safe fin idx len p b :
  maxSize < 2 ^ 62 → bq_ok b → (2 ≤ idx ≤ 10)%nat → 0 ≤ len < 2 ^ 64 →
  frame_safe p b (masked_payload maxSize fin idx len p b).
Proof.
  intros Hmax Hok Hidx Hlen. unfold masked_payload. cbv zeta.
  destruct (Z.gtb_spec len maxSize).
  { destruct (bq_retrieveAll_spec b Hok) as [Hok' Hc]. cbn. unfold held. rewrite Hc. cbn. split_and!; [done|lia|by left]. }
  rewrite bq_readable_spec, wrapU64_small by (done || lia).
  destruct (Z.geb_spec (Z.of_nat (length (bq_contents b))) (Z.of_nat idx + 4 + len)) as [Hr|]; [|cbn; split_and!; by try left].
  case_if; [done|]. rewrite !bq_window_spec by (done || lia). apply accept_safe; [done|lia|].
  rewrite apply_mask_length, slice_length; lia.
Qed.

Lemma frame_safe_retype p p' b r :
  message_ p' = message_ p → gotAll_ p' = gotAll_ p → frame_safe p' b r → frame_safe p b r.
Proof. unfold frame_safe, held. intros -> ->. done. Qed.

Lemma parse_frame_safe p b :
  maxSize < 2 ^ 62 → bq_ok b → (2 ≤ length (bq_contents b))%nat →
  frame_safe p b (parse_frame maxSize p b).
Proof.
  intros Hmax Hok H2. unfold parse_frame.
  destruct (lookup_lt_is_Some_2 (bq_contents b) 0) as [c0 E0]; [lia|].
  destruct (lookup_lt_is_Some_2 (bq_contents b) 1) as [c1 E1]; [lia|].
  rewrite !bq_at_spec, E0, E1 by (done || lia).
  assert (Hret : ∀ s p', message_ p' = message_ p → gotAll_ p' = gotAll_ p → frame_safe p b (FReturn s p' b)).
  { intros s p' Hm Hg. apply (frame_safe_retype p p'); [done..|]. cbn. split_and!; [done|done|by left]. }
  destruct (opcode_case (Z.land c0 15)) as [[t ctl]|]; [|by apply Hret].
  set (p1 := match t with Some t => set_type t p | None => p end).
  assert (Hp1 : message_ p1 = message_ p ∧ gotAll_ p1 = gotAll_ p) by (unfold p1; by destruct t).
  destruct Hp1 as [Hm1 Hg1]. clearbody p1. case_if; [by apply Hret|]. cbv zeta.
  set (idx := if _ =? 126 then _ else _).
  assert (Hidx : idx ∈ [2; 4; 10]%nat) by (unfold idx; rewrite !elem_of_cons; repeat case_if; auto).
  assert (Hrange : (2 ≤ idx ≤ 10)%nat) by (unfold idx; repeat case_if; lia). clearbody idx.
  rewrite bq_readable_spec by done.
  destruct (Nat.ltb_spec 2 idx), (Nat.ltb_spec (length (bq_contents b)) idx); cbn [andb]; try by apply Hret.
  2: lia.
  1: case_if; [by apply Hret|].
  all: destruct (payload_length_total idx (Z.land c1 127) b) as (o & -> & Ho);
    [done|lia|done|change 127 with (Z.ones 7); rewrite Z.land_ones by lia; pose proof (Z.mod_pos_bound c1 (2 ^ 7)); lia|];
    destruct o as [len|]; [specialize (Ho len eq_refl)|by apply Hret];
    apply (frame_safe_retype p p1); [done..|]; case_if; [by apply masked_safe|by apply plain_safe].
Qed.

Lemma parse_loop_safe fuel p b :
  maxSize < 2 ^ 62 → bq_ok b → (length (bq_contents b) < fuel)%nat →
  ∃ r, parse_loop maxSize fuel p b = Some r ∧
    match r with
    | POutOfBounds => False
    | PThrow p' b' => bq_ok b' ∧ (held p' b' ≤ held p b)%nat
    | PReturn _ p' b' => bq_ok b' ∧ (held p' b' ≤ held p b)%nat ∧
        (gotAll_ p' = gotAll_ p ∨ (length (bq_contents b') < length (bq_contents b))%nat)
    end.
Proof.
  intros Hmax. revert p b. induction fuel as [|fuel IH]; intros p b Hok Hfuel; [lia|].
  cbn [parse_loop]. rewrite bq_readable_spec by done.
  destruct (Nat.leb_spec 2 (length (bq_contents b))) as [H2|]; [|eexists; split; [done|]; cbn; split_and!; by try left].
  pose proof (parse_frame_safe p b Hmax Hok H2) as Hsafe.
  destruct (parse_frame maxSize p b) as [p' b'|r p' b'|p' b'|]; cbn in Hsafe; [|by eexists|..].
  - destruct Hsafe as (Hok' & Hg & Hh & Hl). destruct (IH p' b' Hok') as (r & -> & Hr); [lia|].
    eexists; split; [done|]. destruct r as [s2 p2 b2|p2 b2|]; [|destruct Hr; split; [done|lia]|done].
    destruct Hr as (? & ? & [Hg2|?]); split_and!; [done|lia|left; congruence|done|lia|right; lia].
  - destruct Hsafe as [-> Hm]. eexists; split; [done|]. cbn. unfold held. by rewrite Hm.
  - done.
Qed.

Lemma receive_loop_safe fuel p s b :
  maxSize < 2 ^ 62 → bq_ok b → (length (bq_contents b) < fuel)%nat →
  ∃ p' s' b' e, receive_loop maxSize secureRandomBytes fuel p s b = Some (p', s', b', e) ∧
    e ≠ Outside ∧ bq_ok b' ∧ (held p' b' ≤ held p b)%nat.
Proof.
  intros Hmax. revert p s b. induction fuel as [|fuel IH]; intros p s b Hok Hfuel; [lia|].
  cbn [receive_loop]. rewrite bq_readable_spec by done.
  destruct (Nat.ltb_spec 0 (length (bq_contents b))) as [Hpos|]; [|by eexists _, _, _, _].
  unfold parse. rewrite bq_readable_spec by done.
  destruct (parse_loop_safe (S (length (bq_contents b))) (set_gotAll false p) b) as (r & -> & Hr); [done|done|lia|].
  cbn [mbind option_bind]. assert (Hset : held (set_gotAll false p) b = held p b) by done.
  destruct r as [ok p' b'|p' b'|]; [|destruct Hr; by eexists _, _, _, _|done].
  destruct Hr as (Hok' & Hh & Hg). rewrite Hset in Hh.
  destruct ok; [|by eexists _, _, _, _].
  destruct (gotAll_ p') eqn:Eg; [|by eexists _, _, _, _].
  assert (Hlt : (length (bq_contents b') < length (bq_contents b))%nat) by (by destruct Hg).
  set (p2 := {| message_ := []; type_ := type_ p'; gotAll_ := true |}).
  assert (Hh2 : (held p2 b' ≤ held p b)%nat) by (unfold held in *; cbn in *; lia).
  case_decide; [by eexists _, _, _, _|].
  destruct (handle_message secureRandomBytes s (message_ p', type_ p')) as [s2 ok]. destruct ok; [|by eexists _, _, _, _].
  destruct (IH p2 s2 b' Hok') as (p3 & s3 & b3 & e & -> & He & Hok3 & Hh3); [lia|].
  eexists _, _, _, _. split_and!; [done|done|done|lia].
Qed.
End ParseLemmas.

(** ** What [send] puts on the wire *)

Definition sent_frame (mask : option (list Z)) (m : message) : Frame :=
  {| f_fin := true; f_op := opcode_of (snd m); f_mask := mask; f_data := fst m |}.

Definition is_control (t : WebSocketMessageType) : bool :=
  match t with Ping | Pong | CloseFrame => true | _ => false end.

Lemma opcode_of_case t :
  t ≠ Unknown → opcode_of t ∈ [0; 1; 2; 8; 9; 10] ∧ opcode_of t ≠ 0 ∧
    Z.lor 128 (Z.land (opcode_of t) 15) = Z.lor 128 (opcode_of t) ∧
    opcode_case (opcode_of t) = Some (Some t, is_control t) ∧ (8 ≤ opcode_of t ↔ is_control t = true).
Proof. rewrite !elem_of_cons. intros. destruct t; cbn; split_and!; try lia; try tauto; done. Qed.

Lemma header_second n op :
  frame_header n op =
    Z.lor 128 (Z.land op 15) ::
      (if n <=? 125 then [n] else if n <=? 65535 then 126 :: be_bytes 2 n else 127 :: be_bytes 8 n).
Proof. unfold frame_header. repeat case_if; cbn -[Z.land Z.shiftr Z.lor]; by rewrite ?Z.shiftr_0_r. Qed.

Lemma encode_sent mask m :
  snd m ≠ Unknown →
  encode (sent_frame mask m) =
    let header := frame_header (Z.of_nat (length (fst m))) (opcode_of (snd m)) in
    match mask with
    | None => header ++ fst m
    | Some k => set_mask_bit header ++ k ++ apply_mask k (fst m)
    end.
Proof.
  intros Hm. destruct (opcode_of_case _ Hm) as (_ & _ & Hb & _). cbv zeta. rewrite header_second, Hb.
  unfold encode, second_bytes, body, f_masked, f_len. cbn -[Z.lor Z.land Z.of_nat be_bytes].
  destruct mask as [k|]; repeat case_if; cbn -[Z.lor Z.land Z.of_nat be_bytes]; by rewrite ?Z.lor_0_r.
Qed.

Section SendLemmas.
Context (secureRandomBytes : nat → nat → option (list Z)).
(** [secureRandomBytes(p, n)] fills exactly [n] bytes. *)
Hypothesis random_length : ∀ i n l, secureRandomBytes i n = Some l → length l = n.

Definition masks_ok (s : Sender) : Prop := Forall (λ k, length k = 4%nat) (masks_ s).

Lemma words_ok l : length l = 64%nat → Forall (λ k, length k = 4%nat) (words l).
Proof.
  intros Hl. unfold words. apply Forall_fmap, Forall_forall. intros i Hi. cbn.
  apply in_seq in Hi. apply slice_length. lia.
Qed.

Lemma Forall_removelast {A} (P : A → Prop) (l : list A) : Forall P l → Forall P (removelast l).
Proof. intros Hl. induction Hl as [|x l Hx Hl IH]; cbn; [done|]. destruct l; by constructor. Qed.

Lemma take_mask_ok s s' k :
  masks_ok s → take_mask secureRandomBytes s = (s', Some k) → masks_ok s' ∧ length k = 4%nat ∧
    isServer_ s' = isServer_ s ∧ acts s' = acts s.
Proof.
  intros Hm. unfold take_mask, masks_ok in *. destruct (usingMask_ s).
  { intros [= <- Hk]. split_and!; [done|by eapply random_length|done..]. }
  destruct (masks_ s) as [|m ms] eqn:E.
  - destruct (secureRandomBytes (calls s) 64) as [l|] eqn:El; [|done].
    apply random_length, words_ok in El. revert El. generalize (words l). intros ws Hws Heq. injection Heq as <- Hk.
    split_and!; [by apply Forall_removelast| |done..].
    rewrite last_lookup in Hk. by apply (Forall_lookup_1 _ _ _ _ Hws) in Hk.
  - intros Heq. injection Heq as <- Hk. split_and!; [by apply (Forall_removelast _ (m :: ms))| |done..].
    rewrite last_lookup in Hk. by apply (Forall_lookup_1 _ _ _ _ Hm) in Hk.
Qed.

(** A sent message is one final frame, masked exactly when a client sends it. *)
Lemma send_one_frame s s' m :
  masks_ok s → snd m ≠ Unknown → send secureRandomBytes (fst m) (snd m) s = (s', true) →
  ∃ mask, acts s' = acts s ++ [Sent (encode (sent_frame mask m))] ∧ masks_ok s' ∧
    isServer_ s' = isServer_ s ∧ (∀ k, mask = Some k → length k = 4%nat ∧ isServer_ s = false).
Proof.
  intros Hm Ht. unfold send, sendWsData. destruct (isServer_ s) eqn:Es; cbn [negb].
  - intros [= <-]. exists None. rewrite encode_sent by done. cbn. split_and!; [done|done|done|done].
  - destruct (take_mask secureRandomBytes s) as [s1 [k|]] eqn:Ek; [|done]. intros [= <-].
    destruct (take_mask_ok _ _ _ Hm Ek) as (Hm1 & Hk & Hs1 & Ha). exists (Some k).
    rewrite encode_sent by done. cbn. rewrite Ha. split_and!; [done|done|congruence|]. by intros k' [= <-].
Qed.

Definition send_all (s : Sender) (ms : list message) : Sender :=
  fold_left (λ s m, (send secureRandomBytes (fst m) (snd m) s).1) ms s.

(** What the peer accepts: a known type, short control messages, and for
    messages from a client at most the server's limit. *)
Definition sendable (maxSize : Z) (server : bool) (m : message) : Prop :=
  snd m ≠ Unknown ∧ (is_control (snd m) = true → (length (fst m) ≤ 125)%nat) ∧
  (server = false → Z.of_nat (length (fst m)) ≤ maxSize).

Lemma sent_valid maxSize server mask m :
  sendable maxSize server m → (∀ k, mask = Some k → length k = 4%nat ∧ server = false) →
  valid maxSize (sent_frame mask m).
Proof.
  intros (Ht & Hctl & Hmax) Hmask. destruct (opcode_of_case _ Ht) as (Hop & _ & _ & _ & Hc).
  split; cbn; [done| |].
  - intros H8. apply Hc, Hctl in H8. unfold f_len. cbn. split; [done|lia].
  - intros k Hk. destruct (Hmask k Hk) as [? ?]. unfold f_len. cbn. auto.
Qed.

Lemma send_all_frames maxSize ms s :
  can_send secureRandomBytes s → masks_ok s → Forall (sendable maxSize (isServer_ s)) ms →
  ∃ fs, acts (send_all s ms) = acts s ++ (Sent ∘ encode <$> fs) ∧ Forall (valid maxSize) fs ∧
    Forall2 (λ f m, f = sent_frame (f_mask f) m) fs ms.
Proof.
  revert s. induction ms as [|m ms IH]; intros s Hcan Hm Hs.
  { exists []. cbn. by rewrite app_nil_r. }
  apply Forall_cons_1 in Hs as [Hs1 Hs].
  destruct (send_ok secureRandomBytes (fst m) (snd m) s Hcan) as (s1 & E & Hcan1).
  destruct (send_one_frame s s1 m) as (mask & Ha & Hm1 & Hsv & Hmask); [done|apply Hs1|done|].
  destruct (IH s1 Hcan1 Hm1) as (fs & Hfs & Hv & H2); [by rewrite Hsv|].
  exists (sent_frame mask m :: fs). unfold send_all in *. cbn [fold_left]. rewrite E. cbn [fst].
  rewrite Hfs, Ha, <- app_assoc. split_and!; [done| |by constructor].
  constructor; [|done]. by apply (sent_valid maxSize (isServer_ s)).
Qed.

Lemma reassemble_sent fs ms t :
  Forall2 (λ f m, f = sent_frame (f_mask f) m) fs ms → Forall (λ m, snd m ≠ Unknown) ms →
  ∃ t', reassemble ([], t) fs = (([], t'), ms).
Proof.
  intros H2. revert t. induction H2 as [|f [d ty] fs ms Hf _ IH]; intros t Ht; [by exists t|].
  apply Forall_cons_1 in Ht as [Ht1 Ht]. cbn in Ht1. destruct (IH ty Ht) as [t' E]. exists t'.
  rewrite Hf. cbn [reassemble f_fin f_data sent_frame fst snd]. unfold type_of. cbn [f_op sent_frame snd].
  destruct (opcode_of_case _ Ht1) as (_ & _ & _ & -> & _). by rewrite E.
Qed.

(** The messages the connection has handed to its callback. *)
Definition callbacks (l : list act) : list message :=
  omap (λ a, match a with Callback m t => Some (m, t) | _ => None end) l.

Lemma callbacks_app l1 l2 : callbacks (l1 ++ l2) = callbacks l1 ++ callbacks l2.
Proof. apply omap_app. Qed.

Lemma sender_callbacks msg t s : callbacks (acts (send secureRandomBytes msg t s).1) = callbacks (acts s).
Proof.
  unfold send, sendWsData. destruct (isServer_ s); cbn [negb fst].
  - cbn [acts log]. by rewrite callbacks_app, app_nil_r.
  - unfold take_mask. repeat case_match; simplify_eq; cbn; rewrite ?callbacks_app, ?app_nil_r; done.
Qed.

Lemma handle_all_callbacks ms s :
  can_send secureRandomBytes s →
  callbacks (acts (handle_all secureRandomBytes s ms)) = callbacks (acts s) ++ ms.
Proof.
  revert s. induction ms as [|[d t] ms IH]; intros s Hs; [by rewrite app_nil_r|].
  destruct (handle_message_ok secureRandomBytes s (d, t) Hs) as (s' & E & Hs').
  unfold handle_all in *. cbn [fold_left]. rewrite E. cbn [fst]. rewrite IH by done.
  assert (Hc : callbacks (acts s') = callbacks (acts s) ++ [(d, t)]); [|by rewrite Hc, <- app_assoc].
  unfold handle_message in E.
  destruct t; try (injection E as <-; cbn [acts log]; by rewrite ?callbacks_app, ?app_nil_r).
  pose proof (sender_callbacks d Pong s) as Hp. destruct (send secureRandomBytes d Pong s) as [s1 []]; [|done].
  injection E as <-. cbn [acts log]. rewrite callbacks_app. by f_equal.
Qed.
End SendLemmas.

(** ** Properties *)

(** A parser as constructed; [type_] is not initialised, it holds some value [t]. *)
Definition new_parser (t : WebSocketMessageType) : Parser :=
  {| message_ := []; type_ := t; gotAll_ := false |}.

Lemma feed_stream {B} `{ByteQueue B} maxSize rnd fs segs t s (b : B) :
  bq_ok b → bq_contents b = [] → Forall (valid maxSize) fs → concat segs = encode_all fs →
  Z.of_nat (total fs) ≤ string_max_size → typed fs t → can_send rnd s →
  ∃ p' b', feed maxSize rnd segs (new_parser t) s b =
      Some (p', handle_all rnd s (reassemble ([], t) fs).2, b', Done) ∧
    bq_contents b' = [] ∧ message_ p' = (reassemble ([], t) fs).1.1.
Proof.
  intros Hok Hc Hv Hsegs Hz Ht Hcan.
  destruct (feed_frames maxSize rnd segs fs (new_parser t) s b) as (p' & b' & fs' & ms & E & Hs & Hw & Hr).
  { split; [done|done|by rewrite Hc|done|done]. }
  { done. }
  { rewrite Hc. destruct fs as [|f fs]; [done|]. cbn [waiting length].
    rewrite (encode_length _ _ (Forall_inv Hv)). pose proof (header_bound f). lia. }
  pose proof (nothing_left _ _ _ _ Hs Hw) as ->. cbn in Hr. rewrite Hr. exists p', b'.
  cbn. rewrite app_nil_r in *. split_and!; [done| |done].
  destruct Hs as [_ _ Hb _ _]. by rewrite app_nil_r in Hb.
Qed.


(** The bytes a connection has sent. *)
Definition wire (l : list act) : list Z :=
  concat (omap (λ a, match a with Sent bs => Some bs | _ => None end) l).

Lemma wire_frames fs : wire (Sent ∘ encode <$> fs) = encode_all fs.
Proof. unfold wire, encode_all. induction fs as [|f fs IH]; cbn -[encode]; [done|]. by rewrite IH. Qed.

Lemma total_sent fs ms :
  Forall2 (λ f m, f = sent_frame (f_mask f) m) fs ms → total fs = sum_list_with (λ m, length (fst m)) ms.
Proof. intros Hfs. induction Hfs as [|f m fs ms Hf _ IH]; [done|]. unfold total in *. cbn. rewrite IH, Hf. done. Qed.

(** C10. Messages survive the trip: whatever a connection sends (text, binary,
    ping, pong and close messages of any length the peer accepts, masked with
    whatever random words when it is a client's), once all of its bytes have
    reached the other side, in pieces of any size, the other side's message
    callback has been called with exactly these messages, of these types, in
    this order, and its buffer is empty. *)
Theorem messages_delivered {B} `{ByteQueue B} maxSize rndA rndB ms segs s r t (b : B) :
  (∀ i n l, rndA i n = Some l → length l = n) →
  can_send rndA s → masks_ok s → acts s = [] → Forall (sendable maxSize (isServer_ s)) ms →
  Z.of_nat (sum_list_with (λ m, length (fst m)) ms) ≤ string_max_size →
  can_send rndB r → bq_ok b → bq_contents b = [] →
  concat segs = wire (acts (send_all rndA s ms)) →
  ∃ p' r' b', feed maxSize rndB segs (new_parser t) r b = Some (p', r', b', Done) ∧
    callbacks (acts r') = callbacks (acts r) ++ ms ∧ bq_contents b' = [].
Proof.
  intros Hrnd Hs Hm Ha Hms Hz Hr Hok Hc Hsegs.
  destruct (send_all_frames rndA Hrnd maxSize ms s Hs Hm Hms) as (fs & Hfs & Hv & H2).
  rewrite Hfs, Ha in Hsegs. cbn [app] in Hsegs. rewrite wire_frames in Hsegs.
  assert (Hknown : Forall (λ m, snd m ≠ Unknown) ms) by (eapply Forall_impl; [|exact Hms]; by intros m [? _]).
  destruct (reassemble_sent fs ms t H2 Hknown) as [t' Ere].
  destruct (feed_stream maxSize rndB fs segs t r b) as (p' & b' & E & Hb & _); try done.
  - by rewrite (total_sent _ _ H2).
  - destruct H2 as [|f m fs' ms' Hf _]; [by right|]. right. rewrite Hf.
    apply Forall_cons_1 in Hknown as [Hk _]. by destruct (opcode_of_case _ Hk) as (_ & ? & _).
  - rewrite Ere in E. cbn in E. exists p', (handle_all rndB r ms), b'.
    split_and!; [done|by apply handle_all_callbacks|done].
Qed.


(** *** Witnesses *)

Definition rnd165 (i n : nat) : option (list Z) := Some (replicate n 165).
Definition server_end : Sender := {| isServer_ := true; masks_ := []; usingMask_ := false; calls := 0; acts := [] |}.
Definition client_end : Sender := {| isServer_ := false; masks_ := []; usingMask_ := false; calls := 0; acts := [] |}.

(** A text in two fragments (the second masked), then a ping. *)
Definition three_frames : list Frame :=
  [{| f_fin := false; f_op := 1; f_mask := None; f_data := [72] |};
   {| f_fin := true; f_op := 0; f_mask := Some [1; 2; 3; 4]; f_data := [105; 33] |};
   {| f_fin := true; f_op := 9; f_mask := None; f_data := [7] |}].
Definition three_frames_cut : list (list Z) := Eval vm_compute in
  let w := encode_all three_frames in [take 4 w; slice 4 7 w; drop 11 w].

Lemma three_frames_valid : Forall (valid 131072) three_frames.
Proof.
  constructor; [split|constructor; [split|constructor; [split|constructor]]]; unfold f_len; cbn;
    first [by rewrite !elem_of_cons; tauto | lia | by intros k [= <-] | done | intros; split; [done|lia]].
Qed.


Definition greeting : list message := [([104; 105], Text); ([], Pong); ([1; 2; 3; 4; 5], Binary)].
Definition greeting_cut : list (list Z) := Eval vm_compute in
  let w := wire (acts (send_all rnd165 client_end greeting)) in [take 1 w; slice 1 11 w; drop 12 w].

Lemma messages_delivered_witness :
  ∃ p' r' b', feed 131072 rnd165 greeting_cut (new_parser Unknown) server_end (newMsgBuffer 4) = Some (p', r', b', Done) ∧
    callbacks (acts r') = callbacks (acts server_end) ++ greeting ∧ bq_contents b' = [].
Proof.
  apply (messages_delivered 131072 rnd165 rnd165 greeting greeting_cut client_end server_end Unknown (newMsgBuffer 4)).
  - intros i n l [= <-]. apply length_replicate.
  - right. intros i n. by eexists.
  - constructor.
  - reflexivity.
  - repeat constructor; cbn; intros; done || lia.
  - vm_compute. discriminate.
  - left. reflexivity.
  - apply new_ok.
  - apply new_ok.
  - vm_compute. reflexivity.
Defined.


(** *** Behaviour worth knowing *)

Definition buffer_of (bs : list Z) : MsgBuffer := default (newMsgBuffer 0) (append bs (newMsgBuffer 64)).

(** A control frame between the fragments of a message, which RFC 6455
    allows, is joined with them: the text "ab" + "c" with a ping "x" in
    between arrives as two pings, "abx" and "c". *)
Example interleaved_control_frame :
  (λ r, callbacks (acts r.1.1.2)) <$>
    onNewMessage 131072 rnd165 (new_parser Unknown) server_end
      (buffer_of (encode_all
        [{| f_fin := false; f_op := 1; f_mask := None; f_data := [97; 98] |};
         {| f_fin := true; f_op := 9; f_mask := None; f_data := [120] |};
         {| f_fin := true; f_op := 0; f_mask := None; f_data := [99] |}])) =
  Some [([97; 98; 120], Ping); ([99], Ping)].
Proof. vm_compute. reflexivity. Qed.

(** An unmasked frame that announces a length just below [2^64] passes the
    completeness test by wrap-around, and [std::string::append] throws. *)
Example length_wraps_and_throws :
  match parse 131072 (new_parser Unknown) (buffer_of [129; 127; 255; 255; 255; 255; 255; 255; 255; 246]) with
  | Some (PThrow _ _) => True
  | _ => False
  end.
Proof. vm_compute. exact I. Qed.

(** The limit on the size of messages holds per frame and only for masked
    frames: with a limit of 4, two masked fragments of 4 bytes give a message
    of 8, and an unmasked frame of 6 passes. *)
Example limit_is_per_masked_frame :
  (λ r, callbacks (acts r.1.1.2)) <$>
    onNewMessage 4 rnd165 (new_parser Unknown) server_end
      (buffer_of (encode_all
        [{| f_fin := false; f_op := 1; f_mask := Some [0; 0; 0; 0]; f_data := [1; 2; 3; 4] |};
         {| f_fin := true; f_op := 0; f_mask := Some [0; 0; 0; 0]; f_data := [5; 6; 7; 8] |};
         {| f_fin := true; f_op := 2; f_mask := None; f_data := [1; 2; 3; 4; 5; 6] |}])) =
  Some [([1; 2; 3; 4; 5; 6; 7; 8], Text); ([1; 2; 3; 4; 5; 6], Binary)].
Proof. vm_compute. reflexivity. Qed.
