(* ===== verification/HttpRequest.v ===== *)
(** * The request object

    What the parser builds from the bytes of one request:
    src/src/drogon/lib/src/HttpRequestImpl.h and HttpRequestImpl.cc (method,
    path, query, headers, cookies, body), with the URL encoding of
    src/src/drogon/lib/src/Utilities.cc.

    Strings are lists of bytes.  The character classes are those of the C and
    UTF-8 locales, in which bytes above 127 belong to no class.  A body past
    [maxMemoryBodySize] goes to a temporary file, which here keeps what is
    appended to it (the file system does not fail).  Stream mode, off unless
    an application asks for it, is left out: drogonR does not. *)

From stdpp Require Import base gmap list strings numbers.
From Stdlib Require Import ZArith Lia.
From Stdlib Require String.
From S2P Require Import Prelude StaticFiles MsgBuffer WsFrame.

(** The bytes of a literal. *)
Definition str (s : string) : list Z := code <$> Stdlib.Strings.String.list_ascii_of_string s.

(** ** Character classes and searches *)

Definition isspace (c : Z) : bool := ((9 <=? c) && (c <=? 13)) || (c =? 32).
Definition tolower (c : Z) : Z := if (65 <=? c) && (c <=? 90) then c + 32 else c.
Definition isdigit (c : Z) : bool := (48 <=? c) && (c <=? 57).

(** The value of a hexadecimal digit, [None] when [isxdigit] is false. *)
Definition xdigit (c : Z) : option Z :=
  if (48 <=? c) && (c <=? 57) then Some (c - 48)
  else if (97 <=? c) && (c <=? 102) then Some (c - 97 + 10)
  else if (65 <=? c) && (c <=? 70) then Some (c - 65 + 10)
  else None.

(** [std::find]: the index of the first [c], the length when there is none. *)
Fixpoint find (c : Z) (l : list Z) : nat :=
  match l with
  | [] => 0
  | x :: l' => if x =? c then 0 else S (find c l')
  end.

(** [std::search] for CR LF. *)
Fixpoint findCRLF (l : list Z) : option nat :=
  match l with
  | [] => None
  | c :: l' =>
      match l' with
      | d :: _ => if (c =? 13) && (d =? 10) then Some 0%nat else S <$> findCRLF l'
      | [] => None
      end
  end.

Fixpoint drop_space (l : list Z) : list Z :=
  match l with
  | c :: l' => if isspace c then drop_space l' else l
  | [] => []
  end.

(** [while (!value.empty() && isspace(value[value.size() - 1])) value.resize(value.size() - 1);] *)
Definition trim_end (l : list Z) : list Z := reverse (drop_space (reverse l)).

(** ** URL encoding *)

Definition needUrlDecoding (l : list Z) : bool := existsb (λ c, (c =? 43) || (c =? 37)) l.

Fixpoint urlDecode (l : list Z) : list Z :=
  match l with
  | [] => []
  | c :: l' =>
      if c =? 43 then 32 :: urlDecode l'
      else if c =? 37 then
        match l' with
        | a :: b :: l'' =>
            match xdigit a, xdigit b with
            | Some x1, Some x2 => x1 * 16 + x2 :: urlDecode l''
            | _, _ => 37 :: urlDecode l'
            end
        | _ => 37 :: urlDecode l'
        end
      else c :: urlDecode l'
  end.

Definition hex_char (n : Z) : Z := if 9 <? n then n + (65 - 10) else n + 48.
Definition charToHex (c : Z) : list Z := [hex_char (Z.land c 240 / 16); hex_char (Z.land c 15)].

Definition alnum (c : Z) : bool :=
  ((65 <=? c) && (c <=? 90)) || ((97 <=? c) && (c <=? 122)) || isdigit c.

(** The marks both encoders keep, and those only [urlEncode] keeps. *)
Definition marks : list Z := str "-_.!~*()".
Definition url_marks : list Z := str "'&=/\?".
Definition listed (c : Z) (l : list Z) : bool := existsb (Z.eqb c) l.

Definition urlEncodeComponent (l : list Z) : list Z :=
  l ≫= λ c, if c =? 32 then [43] else if alnum c || listed c marks then [c] else 37 :: charToHex c.

Definition urlEncode (l : list Z) : list Z :=
  l ≫= λ c, if c =? 32 then [43]
            else if alnum c || listed c marks || listed c url_marks then [c] else 37 :: charToHex c.

(** ** The request *)

Inductive Version := kUnknown | kHttp10 | kHttp11.

Record HttpRequestImpl := {
  method_ : HttpMethod;
  version_ : Version;
  headers_ : gmap (list Z) (list Z);
  cookies_ : gmap (list Z) (list Z);
  contentLengthHeaderValue_ : option Z;
  realContentLength_ : Z;
  path_ : list Z;
  originalPath_ : list Z;
  query_ : list Z;
  cacheFilePtr_ : option (list Z);
  expectPtr_ : option (list Z);
  content_ : list Z;
  keepAlive_ : bool
}.

Definition new_request : HttpRequestImpl :=
  {| method_ := Invalid; version_ := kUnknown; headers_ := ∅; cookies_ := ∅;
     contentLengthHeaderValue_ := None; realContentLength_ := 0; path_ := []; originalPath_ := [];
     query_ := []; cacheFilePtr_ := None; expectPtr_ := None; content_ := []; keepAlive_ := true |}.

(** ** Writing the request's fields *)

Definition set_method (m : HttpMethod) (r : HttpRequestImpl) : HttpRequestImpl :=
  {| method_ := m; version_ := version_ r; headers_ := headers_ r; cookies_ := cookies_ r;
     contentLengthHeaderValue_ := contentLengthHeaderValue_ r; realContentLength_ := realContentLength_ r;
     path_ := path_ r; originalPath_ := originalPath_ r; query_ := query_ r;
     cacheFilePtr_ := cacheFilePtr_ r; expectPtr_ := expectPtr_ r; content_ := content_ r;
     keepAlive_ := keepAlive_ r |}.
Definition set_version (v : Version) (k : bool) (r : HttpRequestImpl) : HttpRequestImpl :=
  {| method_ := method_ r; version_ := v; headers_ := headers_ r; cookies_ := cookies_ r;
     contentLengthHeaderValue_ := contentLengthHeaderValue_ r; realContentLength_ := realContentLength_ r;
     path_ := path_ r; originalPath_ := originalPath_ r; query_ := query_ r;
     cacheFilePtr_ := cacheFilePtr_ r; expectPtr_ := expectPtr_ r; content_ := content_ r;
     keepAlive_ := k |}.
Definition set_target (p o q : list Z) (r : HttpRequestImpl) : HttpRequestImpl :=
  {| method_ := method_ r; version_ := version_ r; headers_ := headers_ r; cookies_ := cookies_ r;
     contentLengthHeaderValue_ := contentLengthHeaderValue_ r; realContentLength_ := realContentLength_ r;
     path_ := p; originalPath_ := o; query_ := q;
     cacheFilePtr_ := cacheFilePtr_ r; expectPtr_ := expectPtr_ r; content_ := content_ r;
     keepAlive_ := keepAlive_ r |}.
Definition set_fields (h c : gmap (list Z) (list Z)) (e : option (list Z)) (k : bool) (r : HttpRequestImpl)
    : HttpRequestImpl :=
  {| method_ := method_ r; version_ := version_ r; headers_ := h; cookies_ := c;
     contentLengthHeaderValue_ := contentLengthHeaderValue_ r; realContentLength_ := realContentLength_ r;
     path_ := path_ r; originalPath_ := originalPath_ r; query_ := query_ r;
     cacheFilePtr_ := cacheFilePtr_ r; expectPtr_ := e; content_ := content_ r; keepAlive_ := k |}.
Definition set_lengths (l : option Z) (n : Z) (r : HttpRequestImpl) : HttpRequestImpl :=
  {| method_ := method_ r; version_ := version_ r; headers_ := headers_ r; cookies_ := cookies_ r;
     contentLengthHeaderValue_ := l; realContentLength_ := n;
     path_ := path_ r; originalPath_ := originalPath_ r; query_ := query_ r;
     cacheFilePtr_ := cacheFilePtr_ r; expectPtr_ := expectPtr_ r; content_ := content_ r;
     keepAlive_ := keepAlive_ r |}.
Definition set_content (c : list Z) (f : option (list Z)) (r : HttpRequestImpl) : HttpRequestImpl :=
  {| method_ := method_ r; version_ := version_ r; headers_ := headers_ r; cookies_ := cookies_ r;
     contentLengthHeaderValue_ := contentLengthHeaderValue_ r; realContentLength_ := realContentLength_ r;
     path_ := path_ r; originalPath_ := originalPath_ r; query_ := query_ r;
     cacheFilePtr_ := f; expectPtr_ := expectPtr_ r; content_ := c; keepAlive_ := keepAlive_ r |}.

(** [HttpRequestImpl::reset], before a request object is used again. *)
Definition reset_request (r : HttpRequestImpl) : HttpRequestImpl :=
  set_method Invalid (set_version kUnknown true (set_target [] [] []
    (set_fields ∅ ∅ None true (set_lengths None 0 (set_content [] None r))))).

Lemma reset_request_new r : reset_request r = new_request.
Proof. done. Qed.

(** ** Method, version, path, query *)

(** The switch on [m.length()] and the comparisons of each case. *)
Definition method_of (m : list Z) : HttpMethod :=
  match length m with
  | 3%nat => if decide (m = str "GET") then Get else if decide (m = str "PUT") then Put else Invalid
  | 4%nat => if decide (m = str "POST") then Post else if decide (m = str "HEAD") then Head else Invalid
  | 5%nat => if decide (m = str "PATCH") then Patch else Invalid
  | 6%nat => if decide (m = str "DELETE") then Delete else Invalid
  | 7%nat => if decide (m = str "OPTIONS") then Options else Invalid
  | _ => Invalid
  end.

Definition setMethod (m : list Z) (r : HttpRequestImpl) : HttpRequestImpl * bool :=
  (set_method (method_of m) r, match method_of m with Invalid => false | _ => true end).

Definition setVersion (v : Version) (r : HttpRequestImpl) : HttpRequestImpl :=
  set_version v (match v with kHttp10 => false | _ => keepAlive_ r end) r.

Definition setPath (p : list Z) (r : HttpRequestImpl) : HttpRequestImpl :=
  if needUrlDecoding p then set_target (urlDecode p) (originalPath_ r ++ p) (query_ r) r
  else set_target (path_ r ++ p) (originalPath_ r) (query_ r) r.

(** The overload for a string. *)
Definition setPath_string (p : list Z) (r : HttpRequestImpl) : HttpRequestImpl :=
  set_target p (originalPath_ r) (query_ r) r.

Definition setQuery (q : list Z) (r : HttpRequestImpl) : HttpRequestImpl :=
  set_target (path_ r) (originalPath_ r) q r.

(** ** Headers and cookies *)

Definition getHeaderBy (k : list Z) (r : HttpRequestImpl) : list Z := default [] (headers_ r !! k).
Definition expect (r : HttpRequestImpl) : list Z := default [] (expectPtr_ r).

Definition removeHeaderBy (k : list Z) (r : HttpRequestImpl) : HttpRequestImpl :=
  set_fields (delete k (headers_ r)) (cookies_ r) (expectPtr_ r) (keepAlive_ r) r.

(** The overload that replaces the value of a field. *)
Definition addHeader_string (field value : list Z) (r : HttpRequestImpl) : HttpRequestImpl :=
  set_fields (<[tolower <$> field := value]> (headers_ r)) (cookies_ r) (expectPtr_ r) (keepAlive_ r) r.

(** One [name=value] of a cookie header. *)
Definition add_cookie (coo : list Z) (m : gmap (list Z) (list Z)) : gmap (list Z) (list Z) :=
  let epos := find 61 coo in
  if (epos <? length coo)%nat
  then <[drop_space (take epos coo) := drop_space (drop (epos + 1) coo)]> m
  else m.

(** The loop over [;]; each round shortens [value], so its length is fuel enough. *)
Fixpoint add_cookies (fuel : nat) (value : list Z) (m : gmap (list Z) (list Z)) : gmap (list Z) (list Z) :=
  match fuel with
  | O => m
  | S f =>
      let pos := find 59 value in
      if (pos <? length value)%nat
      then add_cookies f (drop (pos + 1) value) (add_cookie (take pos value) m)
      else if (0 <? length value)%nat then add_cookie value m else m
  end.

(** [keepAlive_] after a [connection] field. *)
Definition connection_field (value : list Z) (v : Version) (k : bool) : bool :=
  match v with
  | kHttp11 => if decide (value = str "close") then false else k
  | _ => if decide (value = str "Keep-Alive" ∨ value = str "keep-alive") then true else k
  end.

(** [headers_.emplace]: a field that is already there keeps its value. *)
Definition emplace (k v : list Z) (m : gmap (list Z) (list Z)) : gmap (list Z) (list Z) :=
  match m !! k with Some _ => m | None => <[k := v]> m end.

(** [addHeader(start, colon, end)]: a line and the position of its colon. *)
Definition addHeader (line : list Z) (colon : nat) (r : HttpRequestImpl) : HttpRequestImpl :=
  let field := tolower <$> take colon line in
  let value := trim_end (drop_space (drop (colon + 1) line)) in
  if decide (field = str "cookie") then
    set_fields (headers_ r) (add_cookies (S (length value)) value (cookies_ r)) (expectPtr_ r) (keepAlive_ r) r
  else
    set_fields (emplace field value (headers_ r)) (cookies_ r)
      (if decide (field = str "expect") then Some value else expectPtr_ r)
      (if decide (field = str "connection") then connection_field value (version_ r) (keepAlive_ r)
       else keepAlive_ r) r.

(** ** The body *)

(** How [appendToBody] ends: [std::length_error] leaves the request with what
    was already written; [BOutside] is a copy from outside the input buffer. *)
Inductive body_result :=
| BOk (r : HttpRequestImpl)
| BThrow (r : HttpRequestImpl)
| BOutside.

Section Body.
(** [getClientMaxMemoryBodySize()] *)
Context (maxMemoryBodySize : Z).

Definition body_with (data : option (list Z)) (k : list Z → HttpRequestImpl) : body_result :=
  match data with Some d => BOk (k d) | None => BOutside end.

(** [data] is [None] when the [length] bytes are not all in the input buffer. *)
Definition appendToBody (data : option (list Z)) (length : Z) (r : HttpRequestImpl) : body_result :=
  let r := set_lengths (contentLengthHeaderValue_ r) (wrapU64 (realContentLength_ r + length)) r in
  let size := Z.of_nat (List.length (content_ r)) in
  match cacheFilePtr_ r with
  | Some f => body_with data (λ d, set_content (content_ r) (Some (f ++ d)) r)
  | None =>
      if wrapU64 (size + length) <=? maxMemoryBodySize then
        if length >? string_max_size - size then BThrow r
        else body_with data (λ d, set_content (content_ r ++ d) None r)
      else body_with data (λ d, set_content [] (Some (content_ r ++ d)) r)
  end.

(** [content_.reserve(length)] changes no contents. *)
Definition reserveBodySize (length : Z) (r : HttpRequestImpl) : HttpRequestImpl :=
  match cacheFilePtr_ r with
  | Some _ => r
  | None => if length <=? maxMemoryBodySize then r else set_content [] (Some (content_ r)) r
  end.
End Body.

Definition bodyView (r : HttpRequestImpl) : list Z := default (content_ r) (cacheFilePtr_ r).

(** ** Searches *)

Lemma find_le c l : (find c l ≤ length l)%nat.
Proof. induction l as [|x l IH]; cbn; [lia|]. case_if; lia. Qed.

Lemma find_app c l t : c ∉ l → find c (l ++ c :: t) = length l.
Proof.
  induction l as [|x l IH]; cbn; intros Hc; [by rewrite Z.eqb_refl|].
  apply not_elem_of_cons in Hc as [? ?]. rewrite (proj2 (Z.eqb_neq _ _)) by done. by rewrite IH.
Qed.

Lemma find_none c l : c ∉ l → find c l = length l.
Proof.
  induction l as [|x l IH]; cbn; intros Hc; [done|].
  apply not_elem_of_cons in Hc as [? ?]. rewrite (proj2 (Z.eqb_neq _ _)) by done. by rewrite IH.
Qed.

Lemma findCRLF_app l t : 10 ∉ l → findCRLF (l ++ 13 :: 10 :: t) = Some (length l).
Proof.
  induction l as [|x l IH]; intros Hc; [done|].
  apply not_elem_of_cons in Hc as [? Hl]. cbn [app findCRLF length]. rewrite (IH Hl).
  destruct l as [|y l]; cbn [app].
  - by rewrite andb_false_r.
  - apply not_elem_of_cons in Hl as [? ?].
    by rewrite (proj2 (Z.eqb_neq y 10)), andb_false_r by congruence.
Qed.

(** A line that has not arrived with its CR LF is not found. *)
Lemma findCRLF_partial l p q : 10 ∉ l → q ≠ [] → p ++ q = l ++ [13; 10] → findCRLF p = None.
Proof.
  revert p. induction l as [|x l IH]; intros p Hc Hq E.
  - destruct p as [|a [|b p]]; [done|done|]. injection E as _ _ E. by apply app_eq_nil in E as [_ ?].
  - apply not_elem_of_cons in Hc as [? Hl]. destruct p as [|a p]; [done|].
    cbn [app] in E. injection E as -> E. cbn [findCRLF]. rewrite (IH p Hl Hq E).
    destruct p as [|b p]; [done|]. destruct l as [|y l].
    + cbn [app] in E. injection E as -> E. by rewrite andb_false_r.
    + cbn [app] in E. injection E as -> E. apply not_elem_of_cons in Hl as [? ?].
      by rewrite (proj2 (Z.eqb_neq y 10)), andb_false_r by congruence.
Qed.

Lemma findCRLF_bound l n : findCRLF l = Some n → (n + 2 ≤ length l)%nat.
Proof.
  revert n. induction l as [|x l IH]; intros n; [done|]. cbn [findCRLF].
  destruct l as [|y l]; [done|]. destruct (_ && _).
  - intros [= <-]. cbn. lia.
  - destruct (findCRLF (y :: l)) eqn:E; [|done]. intros [= <-]. specialize (IH _ eq_refl). cbn in *. lia.
Qed.

(** ** White space *)

Definition blank (l : list Z) : Prop := Forall (λ c, isspace c = true) l.
(** No white space at either end. *)
Definition trimmed (l : list Z) : Prop := drop_space l = l ∧ trim_end l = l.

Lemma drop_space_blank l t : blank l → drop_space (l ++ t) = drop_space t.
Proof. induction 1 as [|c l Hc _ IH]; [done|]. cbn. by rewrite Hc. Qed.

Lemma blank_nil_space l : blank l → drop_space l = [].
Proof. intros Hl. by rewrite <- (app_nil_r l), drop_space_blank. Qed.

Lemma trim_end_blank l t : blank t → trim_end (l ++ t) = trim_end l.
Proof.
  intros Ht. unfold trim_end. rewrite reverse_app, drop_space_blank; [done|].
  unfold blank. by rewrite Forall_reverse.
Qed.

Lemma drop_space_app v t : drop_space v = v → v ≠ [] → drop_space (v ++ t) = v ++ t.
Proof.
  destruct v as [|c v]; [done|]. cbn. destruct (isspace c); [|done].
  intros E _. exfalso. apply (f_equal length) in E. cbn in E.
  assert (length (drop_space v) ≤ length v)%nat; [|lia].
  clear. induction v as [|d v IH]; cbn; [done|]. destruct (isspace d); cbn; lia.
Qed.

(** The value of a header line, between optional white space. *)
Lemma trim_value pre v post :
  blank pre → blank post → trimmed v → trim_end (drop_space (pre ++ v ++ post)) = v.
Proof.
  intros Hpre Hpost [Hl Hr]. rewrite drop_space_blank by done. destruct (decide (v = [])) as [->|Hv].
  - rewrite app_nil_l. by rewrite blank_nil_space.
  - by rewrite drop_space_app, trim_end_blank.
Qed.

(** ** URL encoding: what a spelling means *)

Inductive spells : list Z → list Z → Prop :=
| spells_nil : spells [] []
| spells_char c e d : c ≠ 43 → c ≠ 37 → spells e d → spells (c :: e) (c :: d)
| spells_plus e d : spells e d → spells (43 :: e) (32 :: d)
| spells_hex a b x1 x2 e d :
    xdigit a = Some x1 → xdigit b = Some x2 → spells e d →
    spells (37 :: a :: b :: e) (x1 * 16 + x2 :: d).

Lemma urlDecode_spells e d : spells e d → urlDecode e = d.
Proof.
  induction 1 as [|c e d H1 H2 _ IH|e d _ IH|a b x1 x2 e d H1 H2 _ IH]; cbn [urlDecode]; [done| | |].
  - by rewrite !(proj2 (Z.eqb_neq _ _)), IH by done.
  - by rewrite IH.
  - cbn. by rewrite H1, H2, IH.
Qed.

Lemma spells_app e1 d1 e2 d2 : spells e1 d1 → spells e2 d2 → spells (e1 ++ e2) (d1 ++ d2).
Proof. induction 1; intros; cbn; auto using spells. Qed.

Lemma spells_plain e d : spells e d → needUrlDecoding e = false → d = e.
Proof.
  induction 1 as [|c e d H1 H2 _ IH| |]; cbn; intros E; [done| |done|done].
  apply orb_false_iff in E as [_ E]. f_equal. auto.
Qed.

Lemma charToHex_spells c : byte c → spells (37 :: charToHex c) [c].
Proof.
  intros Hc. unfold byte in Hc.
  assert (Hn : c = Z.land c 240 / 16 * 16 + Z.land c 15 ∧ 0 ≤ Z.land c 240 / 16 < 16 ∧ 0 ≤ Z.land c 15 < 16).
  { assert (E : Z.land c 240 / 16 = c / 16).
    { change 240 with (Z.shiftl (Z.ones 4) 4). change 16 with (2 ^ 4) at 1.
      rewrite <- Z.shiftr_div_pow2, Z.shiftr_land, Z.shiftr_shiftl_l by lia.
      change (Z.shiftl (Z.ones 4) (4 - 4)) with (Z.ones 4).
      rewrite Z.land_ones, Z.shiftr_div_pow2 by lia. change (2 ^ 4) with 16. apply Z.mod_small.
      Z.to_euclidean_division_equations. lia. }
    rewrite E. change 15 with (Z.ones 4). rewrite Z.land_ones by lia. change (2 ^ 4) with 16.
    Z.to_euclidean_division_equations. lia. }
  destruct Hn as (Hn & H1 & H2). rewrite Hn at 2. unfold charToHex.
  apply spells_hex; [| |constructor].
  - revert H1. generalize (Z.land c 240 / 16). intros n ?. unfold hex_char, xdigit. repeat case_if; f_equal; lia.
  - revert H2. generalize (Z.land c 15). intros n ?. unfold hex_char, xdigit. repeat case_if; f_equal; lia.
Qed.

(** An encoder that turns blanks into [+] and keeps only some characters. *)
Lemma encoder_spells (keep : Z → bool) l :
  keep 43 = false → keep 37 = false → Forall byte l →
  spells (l ≫= λ c, if c =? 32 then [43] else if keep c then [c] else 37 :: charToHex c) l.
Proof.
  intros H43 H37. induction 1 as [|c l Hc _ IH]; cbn; [constructor|].
  apply (spells_app _ [c]); [|done]. destruct (Z.eqb_spec c 32) as [->|]; [by repeat constructor|].
  destruct (keep c) eqn:E; [|by apply charToHex_spells].
  constructor; [congruence|congruence|constructor].
Qed.

Lemma urlEncode_spells l : Forall byte l → spells (urlEncode l) l.
Proof. by apply encoder_spells. Qed.

Lemma urlEncodeComponent_spells l : Forall byte l → spells (urlEncodeComponent l) l.
Proof. by apply encoder_spells. Qed.

(** Decoding undoes both encoders. *)
Lemma url_roundtrip l : Forall byte l → urlDecode (urlEncode l) = l ∧ urlDecode (urlEncodeComponent l) = l.
Proof.
  intros Hl. split; apply urlDecode_spells; [by apply urlEncode_spells|by apply urlEncodeComponent_spells].
Qed.

(** ** Cookies *)

(** The pairs of one cookie header: white space, name, value. *)
Definition cookie : Type := list Z * list Z * list Z.
Definition cookie_text (c : cookie) : list Z := let '(ws, n, v) := c in ws ++ n ++ 61 :: v.
Definition cookie_pair (c : cookie) : list Z * list Z := let '(_, n, v) := c in (n, v).
Definition cookie_ok (c : cookie) : Prop :=
  let '(ws, n, v) := c in
  blank ws ∧ drop_space n = n ∧ drop_space v = v ∧ 61 ∉ n ∧ 59 ∉ n ∧ 59 ∉ v ∧ 61 ∉ ws ∧ 59 ∉ ws.

Fixpoint cookies_text (cs : list cookie) : list Z :=
  match cs with
  | [] => []
  | [c] => cookie_text c
  | c :: cs' => cookie_text c ++ 59 :: cookies_text cs'
  end.

Lemma drop_space_idem_blank ws n : blank ws → drop_space n = n → drop_space (ws ++ n) = n.
Proof. intros. by rewrite drop_space_blank. Qed.

Lemma add_cookie_text c m :
  cookie_ok c → add_cookie (cookie_text c) m = <[(cookie_pair c).1 := (cookie_pair c).2]> m.
Proof.
  destruct c as [[ws n] v]. intros (Hws & Hn & Hv & H1 & H2 & H3 & H4 & H5). unfold add_cookie, cookie_text.
  rewrite (app_assoc ws), find_app by (rewrite elem_of_app; tauto).
  rewrite (proj2 (Nat.ltb_lt _ _)) by (rewrite (length_app (ws ++ n)); cbn [length]; lia).
  rewrite take_app_length, (drop_app_ge (ws ++ n)) by lia.
  replace (length (ws ++ n) + 1 - length (ws ++ n))%nat with 1%nat by lia.
  cbn [drop cookie_pair fst snd]. by rewrite drop_space_idem_blank, drop_0, Hv.
Qed.

Lemma cookie_text_no_semi c : cookie_ok c → 59 ∉ cookie_text c.
Proof.
  destruct c as [[ws n] v]. intros (_ & _ & _ & _ & H2 & H3 & _ & H5). unfold cookie_text.
  rewrite !elem_of_app, elem_of_cons. intros [?|[?|[?|?]]]; done.
Qed.

Lemma cookie_text_length c : (0 < length (cookie_text c))%nat.
Proof. destruct c as [[ws n] v]. unfold cookie_text. rewrite !length_app. cbn. lia. Qed.

Lemma add_cookies_text cs fuel m :
  Forall cookie_ok cs → (length (cookies_text cs) < fuel)%nat →
  add_cookies fuel (cookies_text cs) m =
  fold_left (λ m c, <[(cookie_pair c).1 := (cookie_pair c).2]> m) cs m.
Proof.
  intros Hcs. revert fuel m. induction Hcs as [|c cs Hc Hcs IH]; intros [|f] m Hf; [cbn in Hf; lia|done|cbn in Hf; lia|].
  cbn [add_cookies]. pose proof (cookie_text_no_semi _ Hc) as Hs. pose proof (cookie_text_length c) as Hl.
  destruct cs as [|c' cs].
  - cbn [cookies_text fold_left] in *. rewrite (find_none _ _ Hs), Nat.ltb_irrefl.
    rewrite (proj2 (Nat.ltb_lt _ _)) by done. by apply add_cookie_text.
  - set (cs1 := c' :: cs) in *. assert (E : cookies_text (c :: cs1) = cookie_text c ++ 59 :: cookies_text cs1) by done.
    rewrite E in *. rewrite find_app by done. rewrite length_app in *. cbn [length] in *.
    rewrite (proj2 (Nat.ltb_lt _ _)) by lia. rewrite take_app_length, (drop_app_ge (cookie_text c)) by lia.
    replace (length (cookie_text c) + 1 - length (cookie_text c))%nat with 1%nat by lia.
    cbn [drop fold_left]. rewrite IH by lia. f_equal. by apply add_cookie_text.
Qed.

Lemma fold_insert_reverse {A} (f : A → list Z * list Z) (l : list A) (m : gmap (list Z) (list Z)) :
  fold_left (λ m x, <[(f x).1 := (f x).2]> m) l m = list_to_map (reverse (f <$> l)) ∪ m.
Proof.
  revert m. induction l as [|x l IH]; intros m; cbn [fold_left fmap list_fmap];
    [by rewrite reverse_nil, list_to_map_nil, map_empty_union|].
  rewrite IH, reverse_cons, list_to_map_app. cbn. destruct (f x) as [k v]. cbn.
  by rewrite <- (map_union_assoc (M := gmap (list Z))), insert_empty, <- insert_union_singleton_l.
Qed.

(** ** Header lines *)

(** A header as the client writes it: the field's name, white space around
    the value, and the value; a cookie header has a list of cookies. *)
Inductive wire_header :=
| WField (name pre value post : list Z)
| WCookies (name pre : list Z) (cs : list cookie) (post : list Z).

Definition header_name (h : wire_header) : list Z :=
  match h with WField n _ _ _ => n | WCookies n _ _ _ => n end.
Definition header_text (h : wire_header) : list Z :=
  match h with
  | WField n pre v post => pre ++ v ++ post
  | WCookies n pre cs post => pre ++ cookies_text cs ++ post
  end.
Definition header_line (h : wire_header) : list Z := header_name h ++ 58 :: header_text h.

Definition header_ok (h : wire_header) : Prop :=
  58 ∉ header_name h ∧
  match h with
  | WField n pre v post => blank pre ∧ blank post ∧ trimmed v ∧ tolower <$> n ≠ str "cookie"
  | WCookies n pre cs post =>
      blank pre ∧ blank post ∧ trimmed (cookies_text cs) ∧ tolower <$> n = str "cookie" ∧ Forall cookie_ok cs
  end.

(** The fields and the cookies of a list of headers, in order. *)
Definition fields (hs : list wire_header) : list (list Z * list Z) :=
  omap (λ h, match h with WField n _ v _ => Some (tolower <$> n, v) | _ => None end) hs.
Definition cookie_pairs (hs : list wire_header) : list (list Z * list Z) :=
  hs ≫= λ h, match h with WCookies _ _ cs _ => cookie_pair <$> cs | _ => [] end.

(** The last value of [expect], and what [connection] asks for. *)
Definition last_expect (fs : list (list Z * list Z)) : option (list Z) :=
  list.last (snd <$> filter (λ f, f.1 = str "expect") fs).
Definition asks_close (f : list Z * list Z) : bool := bool_decide (f = (str "connection", str "close")).
Definition asks_keep (f : list Z * list Z) : bool :=
  bool_decide (f = (str "connection", str "Keep-Alive")) || bool_decide (f = (str "connection", str "keep-alive")).
Definition kept_alive (v : Version) (fs : list (list Z * list Z)) (k : bool) : bool :=
  match v with
  | kHttp11 => k && negb (existsb asks_close fs)
  | _ => k || existsb asks_keep fs
  end.

(** All headers of a request, taken together: the first value of a field and
    the last value of a cookie count. *)
Definition add_all (hs : list wire_header) (r : HttpRequestImpl) : HttpRequestImpl :=
  set_fields (headers_ r ∪ list_to_map (fields hs)) (list_to_map (reverse (cookie_pairs hs)) ∪ cookies_ r)
    (match last_expect (fields hs) with Some e => Some e | None => expectPtr_ r end)
    (kept_alive (version_ r) (fields hs) (keepAlive_ r)) r.

Lemma emplace_union (k v : list Z) (m : gmap (list Z) (list Z)) : emplace k v m = m ∪ {[k := v]}.
Proof.
  unfold emplace. apply map_eq. intros i. rewrite lookup_union. destruct (decide (i = k)) as [->|Hi].
  - rewrite lookup_singleton_eq. destruct (m !! k) eqn:E; [by rewrite E|]. by rewrite lookup_insert_eq.
  - rewrite lookup_singleton_ne by done. destruct (m !! k); [|rewrite lookup_insert_ne by done];
      by destruct (m !! i).
Qed.

Lemma connection_kept n v ver k :
  (if decide (n = str "connection") then connection_field v ver k else k) = kept_alive ver [(n, v)] k.
Proof.
  unfold kept_alive, asks_close, asks_keep. cbn. rewrite !orb_false_r. unfold connection_field.
  destruct ver; repeat case_decide; repeat case_bool_decide; destruct k; naive_solver.
Qed.

Lemma kept_alive_app ver fs fs' k : kept_alive ver (fs ++ fs') k = kept_alive ver fs' (kept_alive ver fs k).
Proof. unfold kept_alive. rewrite !existsb_app. by destruct ver, k, (existsb _ fs), (existsb _ fs'). Qed.

Lemma addHeader_all h r : header_ok h → addHeader (header_line h) (length (header_name h)) r = add_all [h] r.
Proof.
  intros [_ Hh]. unfold addHeader, header_line.
  rewrite take_app_length, (drop_app_ge (header_name h)) by lia.
  replace (length (header_name h) + 1 - length (header_name h))%nat with 1%nat by lia.
  cbn [drop]. rewrite drop_0. destruct h as [n pre v post|n pre cs post]; cbn [header_name header_text].
  - destruct Hh as (Hpre & Hpost & Hv & Hn). rewrite trim_value by done. rewrite decide_False by done.
    unfold add_all. cbn [fields omap list_omap cookie_pairs mbind list_bind app].
    rewrite reverse_nil, emplace_union, connection_kept. cbn. unfold last_expect.
    rewrite insert_empty, (left_id_L ∅ (∪)). cbn. by case_decide.
  - destruct Hh as (Hpre & Hpost & Hv & Hn & Hcs). rewrite trim_value by done. rewrite decide_True by done.
    rewrite add_cookies_text by (done || lia). rewrite fold_insert_reverse. unfold add_all.
    cbn [fields omap list_omap cookie_pairs mbind list_bind]. rewrite app_nil_r. cbn.
    rewrite (right_id_L ∅ (∪)). f_equal. by destruct (version_ r), (keepAlive_ r).
Qed.

Lemma add_all_app hs hs' r : add_all hs' (add_all hs r) = add_all (hs ++ hs') r.
Proof.
  unfold add_all, fields, cookie_pairs. rewrite omap_app, bind_app. cbn. unfold set_fields. cbn.
  rewrite list_to_map_app, reverse_app, list_to_map_app, kept_alive_app.
  rewrite !(assoc_L (∪)). f_equal.
  unfold last_expect. rewrite list.filter_app, fmap_app, last_app.
  repeat case_match; simplify_eq; done.
Qed.

Lemma add_all_nil r : add_all [] r = r.
Proof.
  unfold add_all, set_fields, last_expect, kept_alive. cbn.
  rewrite (right_id_L ∅ (∪)), (left_id_L ∅ (∪)). destruct r as [? [] ? ? ? ? ? ? ? ? ? ? []]; done.
Qed.

(** ** The body, wherever it is kept *)

(** The request with its body in memory. *)
Definition flat (r : HttpRequestImpl) : HttpRequestImpl := set_content (bodyView r) None r.

(** The body grows by [d]. *)
Definition grow (d : list Z) (r : HttpRequestImpl) : HttpRequestImpl :=
  set_content (content_ r ++ d) None
    (set_lengths (contentLengthHeaderValue_ r) (realContentLength_ r + Z.of_nat (length d)) r).

Lemma flat_add_all hs r : flat (add_all hs r) = add_all hs (flat r).
Proof. done. Qed.

Lemma content_flat r : content_ (flat r) = bodyView r.
Proof. done. Qed.

Lemma flat_reserve m n r : flat (reserveBodySize m n r) = flat r.
Proof. unfold reserveBodySize. destruct (cacheFilePtr_ r) eqn:E; [done|]. case_if; [done|]. unfold flat, bodyView. cbn. by rewrite E. Qed.

Lemma grow_app d d' r : grow d' (grow d r) = grow (d ++ d') r.
Proof.
  unfold grow, set_content, set_lengths. cbn. f_equal; [rewrite length_app; lia|by rewrite (assoc_L (++))].
Qed.

(** What the parser keeps true of a request whose body has [n] bytes so far:
    no more than [m] of them are in memory. *)
Record body_ok (m n : Z) (r : HttpRequestImpl) : Prop := {
  bo_body : Z.of_nat (length (bodyView r)) = n;
  bo_real : realContentLength_ r = n;
  bo_memory : Z.of_nat (length (content_ r)) ≤ m;
  bo_file : cacheFilePtr_ r = None ∨ content_ r = []
}.

Lemma new_body_ok m : 0 ≤ m → body_ok m 0 new_request.
Proof. split; cbn; auto; lia. Qed.

Lemma reserve_body_ok m n k r : 0 ≤ m → body_ok m n r → body_ok m n (reserveBodySize m k r).
Proof.
  intros Hm [H1 H2 H3 H4]. unfold reserveBodySize. destruct (cacheFilePtr_ r) eqn:E; [by split; rewrite ?E|].
  case_if; [by split; rewrite ?E|]. split; cbn; auto; unfold bodyView in H1; rewrite E in H1; done.
Qed.

Lemma append_body_ok m n d r :
  0 ≤ m ≤ string_max_size → body_ok m n r → n + Z.of_nat (length d) < 2 ^ 64 →
  ∃ r', appendToBody m (Some d) (Z.of_nat (length d)) r = BOk r' ∧
    body_ok m (n + Z.of_nat (length d)) r' ∧ flat r' = grow d (flat r).
Proof.
  intros Hm [H1 H2 H3 H4] Hn. unfold appendToBody.
  assert (Hreal : wrapU64 (realContentLength_ r + Z.of_nat (length d)) = n + Z.of_nat (length d))
    by (rewrite wrapU64_small; lia).
  unfold bodyView in H1. destruct (cacheFilePtr_ r) as [f|] eqn:E; cbn in H1 |- *; rewrite E.
  - eexists. split; [done|]. destruct H4 as [?|H4]; [done|]. split.
    + split; unfold bodyView; cbn; rewrite ?length_app; auto; lia.
    + unfold flat, grow, bodyView, set_content, set_lengths. cbn. rewrite E, Hreal, H2. done.
  - rewrite wrapU64_small by lia. destruct (Z.leb_spec (Z.of_nat (length (content_ r)) + Z.of_nat (length d)) m).
    + assert (G : (Z.of_nat (length d) >? string_max_size - Z.of_nat (length (content_ r))) = false) by lia.
      rewrite G. eexists. split; [done|]. split.
      * split; unfold bodyView; cbn; rewrite ?length_app; auto; lia.
      * unfold flat, grow, bodyView, set_content, set_lengths. cbn. rewrite E, Hreal, H2. done.
    + eexists. split; [done|]. split.
      * split; unfold bodyView; cbn; rewrite ?length_app; auto; lia.
      * unfold flat, grow, bodyView, set_content, set_lengths. cbn. rewrite E, Hreal, H2. done.
Qed.

Lemma body_ok_add_all m n hs r : body_ok m n r → body_ok m n (add_all hs r).
Proof. intros [? ? ? ?]. by split. Qed.
