(* ===== verification/Base64.v ===== *)
(** * Base64 and hexadecimal text

    [base64Encode], [base64Decode], [isBase64], [binaryStringToHex] and
    [hexToBinaryString] of src/src/drogon/lib/src/Utilities.cc, over bytes as
    [Z] below 256; [isalnum] is that of the C locale.  [base64DecodeToVector]
    and [hexToBinaryVector] are the same loops over another container. *)

From stdpp Require Import base list numbers option strings.
From Stdlib Require Import ZArith Lia.
From S2P Require Import Prelude HttpRequest.

(** ** Encoding *)

Definition base64Chars : list Z := str "ABCDEFGHIJKLMNOPQRSTUVWXYZabcdefghijklmnopqrstuvwxyz0123456789+/".
Definition urlBase64Chars : list Z := str "ABCDEFGHIJKLMNOPQRSTUVWXYZabcdefghijklmnopqrstuvwxyz0123456789-_".

Definition charset (urlSafe : bool) : list Z := if urlSafe then urlBase64Chars else base64Chars.
Definition char_at (urlSafe : bool) (i : Z) : Z := nth (Z.to_nat i) (charset urlSafe) 0.

(** [charArray4] from [charArray3]. *)
Definition sextets (a b c : Z) : list Z :=
  [Z.shiftr (Z.land a 252) 2;
   Z.shiftl (Z.land a 3) 4 + Z.shiftr (Z.land b 240) 4;
   Z.shiftl (Z.land b 15) 2 + Z.shiftr (Z.land c 192) 6;
   Z.land c 63].

(** The loop: [pending] are the bytes in [charArray3]. *)
Fixpoint encode_loop (urlSafe padded : bool) (pending bytes : list Z) : list Z :=
  match bytes with
  | x :: bytes =>
      match pending with
      | [a; b] => (char_at urlSafe <$> sextets a b x) ++ encode_loop urlSafe padded [] bytes
      | _ => encode_loop urlSafe padded (pending ++ [x]) bytes
      end
  | [] =>
      match pending with
      | [] => []
      | _ =>
          let i := length pending in
          let get k := nth k pending 0 in
          (char_at urlSafe <$> take (S i) (sextets (get 0%nat) (get 1%nat) (get 2%nat))) ++
          (if padded then repeat 61 (3 - i) else [])
      end
  end.

Definition base64Encode (urlSafe padded : bool) (bytes : list Z) : list Z := encode_loop urlSafe padded [] bytes.

Definition base64EncodedLength (n : nat) (padded : bool) : nat :=
  if padded then (n + 3 - 1) / 3 * 4 else (n * 8 + 6 - 1) / 6.

(** ** Decoding *)

Definition isalnum (c : Z) : bool :=
  ((48 <=? c) && (c <=? 57)) || ((65 <=? c) && (c <=? 90)) || ((97 <=? c) && (c <=? 122)).

Definition isBase64_char (c : Z) : bool := isalnum c || (c =? 43) || (c =? 47) || (c =? 45) || (c =? 95).

(** [Base64CharMap::getIndex] *)
Definition getIndex (c : Z) : Z :=
  if (65 <=? c) && (c <=? 90) then c - 65
  else if (97 <=? c) && (c <=? 122) then c - 97 + 26
  else if (48 <=? c) && (c <=? 57) then c - 48 + 52
  else if (c =? 43) || (c =? 45) then 62
  else if (c =? 47) || (c =? 95) then 63
  else if c =? 0 then 255 else 0.

(** [charArray3] from [charArray4], as [unsigned char]. *)
Definition octets (w x y z : Z) : list Z :=
  [(Z.shiftl w 2 + Z.shiftr (Z.land x 48) 4) mod 256;
   (Z.shiftl (Z.land x 15) 4 + Z.shiftr (Z.land y 60) 2) mod 256;
   (Z.shiftl (Z.land y 3) 6 + z) mod 256].

Fixpoint decode_loop (pending s : list Z) : list Z :=
  let rest :=
    match pending with
    | [] => []
    | _ => let get k := getIndex (nth k pending 0) in
           take (length pending - 1) (octets (get 0%nat) (get 1%nat) (get 2%nat) (get 3%nat))
    end in
  match s with
  | [] => rest
  | c :: s =>
      if c =? 61 then rest
      else if negb (isBase64_char c) then decode_loop pending s
      else match pending with
           | [w; x; y] => octets (getIndex w) (getIndex x) (getIndex y) (getIndex c) ++ decode_loop [] s
           | _ => decode_loop (pending ++ [c]) s
           end
  end.

Definition base64Decode (s : list Z) : list Z := decode_loop [] s.

(** [isBase64] of a string *)
Definition isBase64 (s : list Z) : bool :=
  match s with
  | [] => false
  | _ =>
      let n := length s in
      let last := nth (n - 1) s 0 =? 61 in
      let before := (1 <? n)%nat && (nth (n - 2) s 0 =? 61) in
      let padding := ((if last then 1 else 0) + (if before then 1 else 0))%nat in
      forallb isBase64_char (take (n - padding) s) && negb ((0 <? padding)%nat && negb (n mod 4 =? 0)%nat)
  end.

(** ** Hexadecimal *)

Definition hex_of (lowerCase : bool) (v : Z) : Z :=
  if v <? 10 then v + 48 else if negb lowerCase then v + 55 else v + 87.

Definition binaryStringToHex (lowerCase : bool) (bytes : list Z) : list Z :=
  bytes ≫= λ b, [hex_of lowerCase (Z.shiftr (Z.land b 240) 4); hex_of lowerCase (Z.land b 15)].

Definition hex_value (c : Z) : option Z :=
  if (48 <=? c) && (c <=? 57) then Some (c - 48)
  else if (97 <=? c) && (c <=? 102) then Some (c - 97 + 10)
  else if (65 <=? c) && (c <=? 70) then Some (c - 65 + 10)
  else None.

(** The loop with what it has written; a character that is no digit empties the result. *)
Fixpoint hex_loop (done s : list Z) : list Z :=
  match s with
  | c1 :: c2 :: s =>
      match hex_value c1, hex_value c2 with
      | Some v1, Some v2 => hex_loop (done ++ [(v1 * 16 + v2) mod 256]) s
      | _, _ => []
      end
  | _ => done
  end.

Definition hexToBinaryString (s : list Z) : list Z := hex_loop [] s.

Example encode_man : base64Encode false true (str "Man") = str "TWFu". Proof. done. Qed.
Example encode_ma : base64Encode false true (str "Ma") = str "TWE=". Proof. done. Qed.
Example decode_lines : base64Decode [84; 10; 87; 69; 61] = str "Ma". Proof. done. Qed.

(** ** Arithmetic of the sextets *)

Lemma all_bytes (P : Z → bool) : forallb P (seqZ 0 256) = true → ∀ z, is_byte z → P z = true.
Proof.
  intros Hf z Hz. rewrite forallb_forall in Hf. apply Hf, list_elem_of_In, elem_of_seqZ. unfold is_byte in Hz. lia.
Qed.

(** The six-bit pieces of a byte, by division. *)
Lemma byte_pieces a : is_byte a →
  Z.shiftr (Z.land a 252) 2 = a / 4 ∧ Z.land a 3 = a mod 4 ∧ Z.shiftr (Z.land a 240) 4 = a / 16 ∧
  Z.land a 15 = a mod 16 ∧ Z.shiftr (Z.land a 192) 6 = a / 64 ∧ Z.land a 63 = a mod 64.
Proof.
  intros Ha.
  pose proof (all_bytes (λ a, (Z.shiftr (Z.land a 252) 2 =? a / 4) && (Z.land a 3 =? a mod 4) &&
    (Z.shiftr (Z.land a 240) 4 =? a / 16) && (Z.land a 15 =? a mod 16) &&
    (Z.shiftr (Z.land a 192) 6 =? a / 64) && (Z.land a 63 =? a mod 64)) ltac:(by vm_compute) a Ha) as H.
  rewrite !andb_true_iff, !Z.eqb_eq in H. tauto.
Qed.

Lemma sextet_pieces x : is_byte x →
  Z.shiftr (Z.land x 48) 4 = x / 16 mod 4 ∧ Z.land x 15 = x mod 16 ∧ Z.shiftr (Z.land x 60) 2 = x / 4 mod 16 ∧
  Z.land x 3 = x mod 4.
Proof.
  intros Hx.
  pose proof (all_bytes (λ x, (Z.shiftr (Z.land x 48) 4 =? x / 16 mod 4) && (Z.land x 15 =? x mod 16) &&
    (Z.shiftr (Z.land x 60) 2 =? x / 4 mod 16) && (Z.land x 3 =? x mod 4)) ltac:(by vm_compute) x Hx) as H.
  rewrite !andb_true_iff, !Z.eqb_eq in H. tauto.
Qed.

Lemma sextets_arith a b c : is_byte a → is_byte b → is_byte c →
  sextets a b c = [a / 4; a mod 4 * 16 + b / 16; b mod 16 * 4 + c / 64; c mod 64].
Proof.
  intros Ha Hb Hc. unfold sextets. destruct (byte_pieces a Ha) as (-> & -> & _ & _ & _ & _).
  destruct (byte_pieces b Hb) as (_ & _ & -> & -> & _ & _). destruct (byte_pieces c Hc) as (_ & _ & _ & _ & -> & ->).
  by rewrite !Z.shiftl_mul_pow2 by lia.
Qed.

Lemma octets_arith w x y z : is_byte x → is_byte y →
  octets w x y z = [(w * 4 + x / 16 mod 4) mod 256; (x mod 16 * 16 + y / 4 mod 16) mod 256; (y mod 4 * 64 + z) mod 256].
Proof.
  intros Hx Hy. unfold octets. destruct (sextet_pieces x Hx) as (-> & -> & _ & _).
  destruct (sextet_pieces y Hy) as (_ & _ & -> & ->). by rewrite !Z.shiftl_mul_pow2 by lia.
Qed.

(** A sextet is turned into a character of the alphabet and back. *)
Lemma char_index u i : 0 ≤ i < 64 → getIndex (char_at u i) = i ∧ isBase64_char (char_at u i) = true ∧ char_at u i ≠ 61.
Proof.
  intros Hi.
  assert (H : forallb (λ i, (getIndex (char_at u i) =? i) && isBase64_char (char_at u i) && negb (char_at u i =? 61)) (seqZ 0 64) = true)
    by (destruct u; by vm_compute).
  assert (Hin : In i (seqZ 0 64)) by (apply list_elem_of_In, elem_of_seqZ; lia).
  rewrite forallb_forall in H. specialize (H i Hin).
  rewrite !andb_true_iff, negb_true_iff, Z.eqb_eq, Z.eqb_neq in H. tauto.
Qed.

Lemma sextets_range a b c : is_byte a → is_byte b → is_byte c → Forall (λ i, 0 ≤ i < 64) (sextets a b c).
Proof.
  intros Ha Hb Hc. rewrite sextets_arith by done. unfold is_byte in *.
  repeat constructor; Z.to_euclidean_division_equations; lia.
Qed.

Lemma octets_sextets a b c : is_byte a → is_byte b → is_byte c →
  match sextets a b c with [w; x; y; z] => octets w x y z = [a; b; c] | _ => False end.
Proof.
  intros Ha Hb Hc. rewrite sextets_arith by done. rewrite octets_arith; unfold is_byte in *.
  - repeat f_equal; Z.to_euclidean_division_equations; lia.
  - Z.to_euclidean_division_equations; lia.
  - Z.to_euclidean_division_equations; lia.
Qed.

(** ** Round trips *)

Lemma encode_triple u p a b c l :
  base64Encode u p (a :: b :: c :: l) = (char_at u <$> sextets a b c) ++ base64Encode u p l.
Proof. done. Qed.

Lemma triples (P : list Z → Prop) :
  P [] → (∀ a, P [a]) → (∀ a b, P [a; b]) → (∀ a b c l, P l → P (a :: b :: c :: l)) → ∀ l, P l.
Proof.
  intros H0 H1 H2 H3. fix IH 1. intros [|a [|b [|c l]]]; [apply H0 | apply H1 | apply H2 | apply H3, IH].
Qed.

Lemma decode_char pending c s :
  isBase64_char c = true → c ≠ 61 →
  decode_loop pending (c :: s) =
    match pending with
    | [w; x; y] => octets (getIndex w) (getIndex x) (getIndex y) (getIndex c) ++ decode_loop [] s
    | _ => decode_loop (pending ++ [c]) s
    end.
Proof. intros Hc Hne. cbn [decode_loop]. by rewrite (proj2 (Z.eqb_neq _ _) Hne), Hc. Qed.

Lemma decode_four u w x y z s :
  Forall (λ i, 0 ≤ i < 64) [w; x; y; z] →
  decode_loop [] ((char_at u <$> [w; x; y; z]) ++ s) = octets w x y z ++ decode_loop [] s.
Proof.
  rewrite !List.Forall_cons_iff. intros (Hw & Hx & Hy & Hz & _).
  destruct (char_index u w Hw) as (E1 & ? & ?), (char_index u x Hx) as (E2 & ? & ?),
    (char_index u y Hy) as (E3 & ? & ?), (char_index u z Hz) as (E4 & ? & ?).
  cbn [fmap list_fmap app]. rewrite !decode_char by done. cbn [app]. by rewrite E1, E2, E3, E4.
Qed.

(** The rest of one or two bytes. *)
Lemma decode_tail u p l : (l = [] ∨ ∃ a, l = [a] ∧ is_byte a) ∨ (∃ a b, l = [a; b] ∧ is_byte a ∧ is_byte b) →
  base64Decode (base64Encode u p l) = l.
Proof.
  assert (H0 : is_byte 0) by (unfold is_byte; lia).
  intros [[->|(a & -> & Ha)]|(a & b & -> & Ha & Hb)]; [done | |].
  - unfold base64Encode, base64Decode. cbn [encode_loop app length nth take].
    pose proof (sextets_range a 0 0 Ha H0 H0) as Hr. pose proof (octets_sextets a 0 0 Ha H0 H0) as Ho.
    destruct (sextets a 0 0) as [|w [|x [|y [|z []]]]]; try done. rewrite !List.Forall_cons_iff in Hr.
    destruct Hr as (Hw & Hx & _). destruct (char_index u w Hw) as (E1 & ? & ?), (char_index u x Hx) as (E2 & ? & ?).
    assert (Ho1 : ∀ c d, take 1 (octets w x c d) = [a]).
    { intros c d. injection Ho as E _ _. unfold octets. cbn [take]. by rewrite E. }
    destruct p; cbn [fmap list_fmap app repeat Nat.sub take]; rewrite !decode_char by done; cbn [app decode_loop Z.eqb length Nat.sub nth];
      [change (61 =? 61) with true; cbn iota|]; by rewrite E1, E2, Ho1.
  - unfold base64Encode, base64Decode. cbn [encode_loop app length nth take].
    pose proof (sextets_range a b 0 Ha Hb H0) as Hr. pose proof (octets_sextets a b 0 Ha Hb H0) as Ho.
    destruct (sextets a b 0) as [|w [|x [|y [|z []]]]]; try done. rewrite !List.Forall_cons_iff in Hr.
    destruct Hr as (Hw & Hx & Hy & _).
    destruct (char_index u w Hw) as (E1 & ? & ?), (char_index u x Hx) as (E2 & ? & ?), (char_index u y Hy) as (E3 & ? & ?).
    assert (Ho1 : ∀ d, take 2 (octets w x y d) = [a; b]).
    { intros d. injection Ho as Ea Eb _. unfold octets. cbn [take]. by rewrite Ea, Eb. }
    destruct p; cbn [fmap list_fmap app repeat Nat.sub take]; rewrite !decode_char by done; cbn [app decode_loop Z.eqb length Nat.sub nth];
      [change (61 =? 61) with true; cbn iota|]; by rewrite E1, E2, E3, Ho1.
Qed.

Lemma decode_encode u p l : Forall is_byte l → base64Decode (base64Encode u p l) = l.
Proof.
  induction l as [|a|a b|a b c l IH] using triples; intros Hl; rewrite ?List.Forall_cons_iff in Hl.
  - done.
  - apply decode_tail. left. right. exists a. tauto.
  - apply decode_tail. right. exists a, b. tauto.
  - destruct Hl as (Ha & Hb & Hc & Hl). rewrite encode_triple. unfold base64Decode.
    pose proof (sextets_range a b c Ha Hb Hc) as Hr. pose proof (octets_sextets a b c Ha Hb Hc) as Ho.
    destruct (sextets a b c) as [|w [|x [|y [|z []]]]]; try done. rewrite decode_four by done. rewrite Ho.
    cbn [app]. by rewrite (IH Hl : decode_loop [] (base64Encode u p l) = l).
Qed.

(** What is written: characters of the alphabet, then the padding. *)
Lemma encode_shape u p l : Forall is_byte l →
  ∃ body k, base64Encode u p l = body ++ repeat 61 k ∧ Forall (λ c, isBase64_char c = true ∧ c ≠ 61) body ∧
    (k ≤ 2)%nat ∧ (l ≠ [] → (2 ≤ length body)%nat) ∧ (k ≠ 0 → (length body + k) mod 4 = 0)%nat ∧
    (length body + k)%nat = base64EncodedLength (length l) p.
Proof.
  assert (H0 : is_byte 0) by (unfold is_byte; lia).
  assert (Hchars : ∀ l, Forall (λ i, 0 ≤ i < 64) l → Forall (λ c, isBase64_char c = true ∧ c ≠ 61) (char_at u <$> l)).
  { intros xs Hxs. induction Hxs as [|i xs Hi _ IH]; [constructor|]. constructor; [|done]. by destruct (char_index u i Hi) as (_ & ? & ?). }
  induction l as [|a|a b|a b c l IH] using triples; intros Hl; rewrite ?List.Forall_cons_iff in Hl.
  - exists [], 0%nat. destruct p; split_and!; (done || lia || constructor).
  - destruct Hl as [Ha _]. exists (char_at u <$> take 2 (sextets a 0 0)), (if p then 2 else 0)%nat. split_and!.
    + by destruct p.
    + by apply Hchars, Forall_take, sextets_range.
    + destruct p; lia.
    + cbn. lia.
    + by destruct p.
    + by destruct p.
  - destruct Hl as (Ha & Hb & _). exists (char_at u <$> take 3 (sextets a b 0)), (if p then 1 else 0)%nat. split_and!.
    + by destruct p.
    + by apply Hchars, Forall_take, sextets_range.
    + destruct p; lia.
    + cbn. lia.
    + by destruct p.
    + by destruct p.
  - destruct Hl as (Ha & Hb & Hc & Hl). destruct (IH Hl) as (body & k & E & Hbody & Hk & H2 & H4 & Hlen).
    exists ((char_at u <$> sextets a b c) ++ body), k. rewrite encode_triple, E, length_app, length_fmap. cbn [length sextets].
    split_and!.
    + by rewrite app_assoc.
    + apply Forall_app_2; [by apply Hchars, sextets_range | done].
    + done.
    + lia.
    + intros Hk0. replace (4 + length body + k)%nat with (length body + k + 1 * 4)%nat by lia. rewrite Nat.Div0.mod_add. by apply H4.
    + replace (4 + length body + k)%nat with (4 + (length body + k))%nat by lia. rewrite Hlen. unfold base64EncodedLength.
      destruct p.
      * replace (S (S (S (length l))) + 3 - 1)%nat with (length l + 3 - 1 + 1 * 3)%nat by lia. rewrite Nat.div_add by lia. lia.
      * replace (S (S (S (length l))) * 8 + 6 - 1)%nat with (length l * 8 + 6 - 1 + 4 * 6)%nat by lia. rewrite Nat.div_add by lia. lia.
Qed.

Lemma nth_repeat_end body k d : (0 < k)%nat → nth (length (body ++ repeat 61 k) - d) (body ++ repeat 61 k) 0 = 61 ∨ (d = 0 ∨ k < d)%nat.
Proof.
  intros Hk. destruct (decide (d = 0 ∨ k < d)%nat) as [|Hd]; [by right|]. left.
  rewrite length_app, repeat_length, app_nth2 by lia. apply nth_repeat_lt. lia.
Qed.

Lemma isBase64_nonempty s : s ≠ [] →
  isBase64 s =
    let n := length s in
    let last := nth (n - 1) s 0 =? 61 in
    let before := (1 <? n)%nat && (nth (n - 2) s 0 =? 61) in
    let padding := ((if last then 1 else 0) + (if before then 1 else 0))%nat in
    forallb isBase64_char (take (n - padding) s) && negb ((0 <? padding)%nat && negb (n mod 4 =? 0)%nat).
Proof. by destruct s. Qed.

Lemma isBase64_shape body k :
  Forall (λ c, isBase64_char c = true ∧ c ≠ 61) body → (k ≤ 2)%nat → (2 ≤ length body)%nat →
  (k ≠ 0 → (length body + k) mod 4 = 0)%nat → isBase64 (body ++ repeat 61 k) = true.
Proof.
  intros Hb Hk H2 H4. set (s := body ++ repeat 61 k).
  assert (Hn : length s = (length body + k)%nat) by (unfold s; by rewrite length_app, repeat_length).
  assert (Hin : ∀ d, (k < d ≤ length s)%nat → (nth (length s - d) s 0 =? 61) = false).
  { intros d Hd. apply Z.eqb_neq. unfold s. rewrite app_nth1 by (fold s; lia).
    rewrite List.Forall_forall in Hb. apply Hb, nth_In. fold s. lia. }
  assert (Hpad : ∀ d, (0 < d ≤ k)%nat → (nth (length s - d) s 0 =? 61) = true).
  { intros d Hd. apply Z.eqb_eq. destruct (nth_repeat_end body k d) as [?|?]; [lia | done | lia]. }
  set (last := nth (length s - 1) s 0 =? 61) in *. set (before := nth (length s - 2) s 0 =? 61) in *.
  assert (Hp : ((if last then 1 else 0) + (if (1 <? length s)%nat && before then 1 else 0))%nat = k).
  { rewrite (proj2 (Nat.ltb_lt 1 (length s))) by lia. cbn [andb].
    destruct k as [|[|[|k]]]; 
      [unfold last, before; rewrite !Hin by lia | unfold last, before; rewrite (Hpad 1%nat), (Hin 2%nat) by lia |
       unfold last, before; rewrite !Hpad by lia | lia]; done. }
  unfold last, before in Hp. clear last before Hin Hpad.
  rewrite isBase64_nonempty by (intros E; rewrite E in Hn; cbn in Hn; lia). cbv zeta. rewrite Hp, Hn.
  replace (length body + k - k)%nat with (length body) by lia.
  apply andb_true_iff. split.
  - unfold s. rewrite take_app_length. apply forallb_forall. intros x Hx. rewrite List.Forall_forall in Hb. by apply Hb.
  - destruct k as [|k]; [done|]. rewrite (proj2 (Nat.eqb_eq _ _)) by (by apply H4). done.
Qed.

(** Whatever bytes are encoded, in either alphabet, with padding or without,
    decoding gives them back; the text has the length that is announced for
    it, so that the buffer sized by [base64EncodedLength] is filled exactly, and
    [isBase64] accepts it. *)
Theorem base64_roundtrip urlSafe padded bytes :
  Forall is_byte bytes →
  base64Decode (base64Encode urlSafe padded bytes) = bytes ∧
  length (base64Encode urlSafe padded bytes) = base64EncodedLength (length bytes) padded ∧
  (bytes ≠ [] → isBase64 (base64Encode urlSafe padded bytes) = true).
Proof.
  intros Hb. split; [by apply decode_encode|].
  destruct (encode_shape urlSafe padded bytes Hb) as (body & k & -> & Hbody & Hk & H2 & H4 & Hlen).
  rewrite length_app, repeat_length. split; [done|]. intros Hne. apply isBase64_shape; auto.
Qed.

Lemma base64_roundtrip_witness : base64Decode (base64Encode true false [0; 255; 16; 77]) = [0; 255; 16; 77].
Proof.
  apply (base64_roundtrip true false [0; 255; 16; 77]).
  repeat (apply List.Forall_cons; [unfold is_byte; lia|]). apply List.Forall_nil.
Defined.

Lemma hex_digit l v : 0 ≤ v < 16 → hex_value (hex_of l v) = Some v.
Proof.
  intros Hv. assert (H : forallb (λ v, bool_decide (hex_value (hex_of l v) = Some v)) (seqZ 0 16) = true) by (destruct l; by vm_compute).
  rewrite forallb_forall in H. specialize (H v). rewrite bool_decide_eq_true in H. apply H.
  apply list_elem_of_In, elem_of_seqZ. lia.
Qed.

(** Hexadecimal text of either case reads back. *)
Lemma hex_roundtrip lowerCase bytes :
  Forall is_byte bytes → hexToBinaryString (binaryStringToHex lowerCase bytes) = bytes.
Proof.
  unfold hexToBinaryString. intros Hb. enough (H : ∀ d, hex_loop d (binaryStringToHex lowerCase bytes) = d ++ bytes) by apply (H []).
  induction Hb as [|b bytes Hb _ IH]; intros d; [by rewrite app_nil_r|].
  destruct (byte_pieces b Hb) as (_ & _ & E1 & E2 & _ & _). unfold is_byte in Hb.
  change (binaryStringToHex lowerCase (b :: bytes)) with
    (hex_of lowerCase (Z.shiftr (Z.land b 240) 4) :: hex_of lowerCase (Z.land b 15) :: binaryStringToHex lowerCase bytes).
  cbn [hex_loop]. rewrite E1, E2, !hex_digit by (Z.to_euclidean_division_equations; lia). rewrite IH, <- app_assoc.
  cbn [app]. do 2 f_equal. Z.to_euclidean_division_equations; lia.
Qed.
