(* ===== verification/Sha1.v ===== *)
(** * SHA-1

    [trantor_sha1_init], [_update], [_final] and [_transform]
    (src/src/drogon/trantor/utils/crypto/sha1.cc) and [trantor::utils::sha1]
    (Utilities.cc), which the WebSocket handshake uses, for a little-endian
    machine with a 64-bit [size_t], against FIPS 180-1.

    A byte is a [Z] below 256 and a word a [Z] below 2^32.  The unrolled rounds,
    whose macro arguments rotate, are a loop over a rotating tuple. *)

From stdpp Require Import base list numbers option.
From Stdlib Require Import ZArith Lia.
From S2P Require Import Prelude.

(** ** The code *)

Definition word (z : Z) : Z := z mod 2 ^ 32.

(** [rol(value, bits)] *)
Definition rol (value bits : Z) : Z := Z.lor (word (Z.shiftl value bits)) (Z.shiftr value (32 - bits)).

Definition at_word (l : list Z) (i : nat) : Z := default 0 (l !! i).

(** The union of 64 bytes and 16 words on a little-endian machine. *)
Definition load_le (b : list Z) : Z :=
  Z.lor (at_word b 0) (Z.lor (Z.shiftl (at_word b 1) 8) (Z.lor (Z.shiftl (at_word b 2) 16) (Z.shiftl (at_word b 3) 24))).

Definition load_block (buffer : list Z) : list Z := (λ i, load_le (take 4 (drop (4 * i) buffer))) <$> seq 0 16.

Definition blk0 (i : nat) (block : list Z) : Z * list Z :=
  let v := Z.lor (Z.land (rol (at_word block i) 24) 4278255360) (Z.land (rol (at_word block i) 8) 16711935) in
  (v, <[i := v]> block).

Definition blk_word (i : nat) (block : list Z) : Z * list Z :=
  let at_ (k : nat) := at_word block ((i + k) mod 16)%nat in
  let v := rol (Z.lxor (Z.lxor (Z.lxor (at_ 13%nat) (at_ 8%nat)) (at_ 2%nat)) (at_ 0%nat)) 1 in
  (v, <[(i mod 16)%nat := v]> block).

Definition regs : Type := Z * Z * Z * Z * Z.

(** [R0] to [R4]: the function of the middle registers and the constant. *)
Definition mix (i : nat) (w x y : Z) : Z :=
  if (i <? 20)%nat then word (Z.lxor (Z.land w (Z.lxor x y)) y + 1518500249)
  else if (i <? 40)%nat then word (Z.lxor (Z.lxor w x) y + 1859775393)
  else if (i <? 60)%nat then word (Z.lor (Z.land (Z.lor w x) y) (Z.land w x) + 2400959708)
  else word (Z.lxor (Z.lxor w x) y + 3395469782).

(** One macro call; the names rotate. *)
Definition sha1_round (s : regs * list Z) (i : nat) : regs * list Z :=
  let '((v, w, x, y, z), block) := s in
  let '(b, block') := if (i <? 16)%nat then blk0 i block else blk_word i block in
  ((word (z + word (word (mix i w x y + b) + rol v 5)), v, rol w 30, x, y), block').

Definition trantor_sha1_transform (state : regs) (buffer : list Z) : regs :=
  let '((a, b, c, d, e), _) := fold_left sha1_round (seq 0 80) (state, load_block buffer) in
  let '(s0, s1, s2, s3, s4) := state in
  (word (s0 + a), word (s1 + b), word (s2 + c), word (s3 + d), word (s4 + e)).

Record SHA1_CTX := { state : regs; count0 : Z; count1 : Z; buffer : list Z }.

Definition H0 : regs := (1732584193, 4023233417, 2562383102, 271733878, 3285377520).

(** [buffer] is uninitialised: any 64 bytes. *)
Definition trantor_sha1_init (garbage : list Z) : SHA1_CTX := {| state := H0; count0 := 0; count1 := 0; buffer := garbage |}.

(** [memcpy(&buffer[j], data, length)] *)
Definition copy_at (j : nat) (data buf : list Z) : list Z := take j buf ++ data ++ drop (j + length data) buf.

(** The loop over whole blocks of the input; [fuel] is its length. *)
Fixpoint whole_blocks (fuel : nat) (st : regs) (data : list Z) : regs * list Z :=
  match fuel with
  | O => (st, data)
  | S fuel => if (63 <? length data)%nat
              then whole_blocks fuel (trantor_sha1_transform st (take 64 data)) (drop 64 data) else (st, data)
  end.

Definition trantor_sha1_update (c : SHA1_CTX) (data : list Z) : SHA1_CTX :=
  let len := Z.of_nat (length data) in
  let n0 := wrapU64 (count0 c + wrapU64 (Z.shiftl len 3)) in
  let n1 := wrapU64 ((if n0 <? count0 c then wrapU64 (count1 c + 1) else count1 c) + Z.shiftr len 29) in
  let j := Z.to_nat (Z.land (Z.shiftr (count0 c) 3) 63) in
  if (63 <? j + length data)%nat then
    let i := (64 - j)%nat in
    let first := copy_at j (take i data) (buffer c) in
    let '(st, rest) := whole_blocks (length data) (trantor_sha1_transform (state c) first) (drop i data) in
    {| state := st; count0 := n0; count1 := n1; buffer := copy_at 0 rest first |}
  else {| state := state c; count0 := n0; count1 := n1; buffer := copy_at j data (buffer c) |}.

(** Byte [k] of a word, counted from the low end. *)
Definition byte_at (z : Z) (k : Z) : Z := Z.land (Z.shiftr z (k * 8)) 255.

Definition be_bytes32 (z : Z) : list Z := byte_at z <$> [3; 2; 1; 0].

(** The padding loop; 64 turns reach the condition. *)
Fixpoint pad_loop (fuel : nat) (c : SHA1_CTX) : SHA1_CTX :=
  match fuel with
  | O => c
  | S fuel => if Z.land (count0 c) 504 =? 448 then c else pad_loop fuel (trantor_sha1_update c [0])
  end.

Definition digest_of (s : regs) : list Z :=
  let '(a, b, c, d, e) := s in be_bytes32 a ++ be_bytes32 b ++ be_bytes32 c ++ be_bytes32 d ++ be_bytes32 e.

Definition trantor_sha1_final (c : SHA1_CTX) : list Z :=
  let finalcount := be_bytes32 (count1 c) ++ be_bytes32 (count0 c) in
  digest_of (state (trantor_sha1_update (pad_loop 64 (trantor_sha1_update c [128])) finalcount)).

(** [trantor::utils::sha1] *)
Definition sha1 (garbage data : list Z) : list Z :=
  trantor_sha1_final (trantor_sha1_update (trantor_sha1_init garbage) data).

(** The blocks of a message, one after the other. *)
Fixpoint absorb (T : regs → list Z → regs) (blocks : nat) (h : regs) (msg : list Z) : regs :=
  match blocks with
  | O => h
  | S blocks => absorb T blocks (T h (take 64 msg)) (drop 64 msg)
  end.

(** ** The standard *)

Module Fips.

Definition load_be (b : list Z) : Z :=
  Z.lor (Z.shiftl (at_word b 0) 24) (Z.lor (Z.shiftl (at_word b 1) 16) (Z.lor (Z.shiftl (at_word b 2) 8) (at_word b 3))).

(** The schedule of 80 words. *)
Definition schedule_step (block : list Z) (w : list Z) (t : nat) : list Z :=
  w ++ [if (t <? 16)%nat then load_be (take 4 (drop (4 * t) block))
        else rol (Z.lxor (Z.lxor (Z.lxor (at_word w (t - 3)) (at_word w (t - 8))) (at_word w (t - 14))) (at_word w (t - 16))) 1].

Definition schedule (block : list Z) (n : nat) : list Z := fold_left (schedule_step block) (seq 0 n) [].

Definition f (t : nat) (b c d : Z) : Z :=
  if (t <? 20)%nat then Z.lor (Z.land b c) (Z.land (Z.lxor b (2 ^ 32 - 1)) d)
  else if (t <? 40)%nat then Z.lxor b (Z.lxor c d)
  else if (t <? 60)%nat then Z.lor (Z.land b c) (Z.lor (Z.land b d) (Z.land c d))
  else Z.lxor b (Z.lxor c d).

Definition K (t : nat) : Z :=
  if (t <? 20)%nat then 1518500249 else if (t <? 40)%nat then 1859775393
  else if (t <? 60)%nat then 2400959708 else 3395469782.

Definition round (ws : list Z) (r : regs) (t : nat) : regs :=
  let '(a, b, c, d, e) := r in
  (word (rol a 5 + f t b c d + e + at_word ws t + K t), a, rol b 30, c, d).

Definition compress (h : regs) (block : list Z) : regs :=
  let '(a, b, c, d, e) := fold_left (round (schedule block 80)) (seq 0 80) h in
  let '(h0, h1, h2, h3, h4) := h in (word (h0 + a), word (h1 + b), word (h2 + c), word (h3 + d), word (h4 + e)).

(** A one bit, zeros up to 56 bytes modulo 64, the length in bits as 64 bits. *)
Definition pad (msg : list Z) : list Z :=
  let n := length msg in
  msg ++ [128] ++ repeat 0 (Z.to_nat ((55 - Z.of_nat n) mod 64))
      ++ be_bytes32 (Z.of_nat n * 8 / 2 ^ 32) ++ be_bytes32 (Z.of_nat n * 8 mod 2 ^ 32).

Definition sha1 (msg : list Z) : list Z :=
  let m := pad msg in digest_of (absorb compress (length m / 64) H0 m).

End Fips.

(** The test vector of FIPS 180-1. *)
Example sha1_abc :
  sha1 (repeat 0 64) [97; 98; 99] =
  [169; 153; 62; 54; 71; 6; 129; 106; 186; 62; 37; 113; 120; 80; 194; 108; 156; 208; 216; 157].
Proof. by vm_compute. Qed.
Example fips_abc : Fips.sha1 [97; 98; 99] = sha1 (repeat 0 64) [97; 98; 99].
Proof. by vm_compute. Qed.

(** ** One block *)

Definition is_word (z : Z) : Prop := 0 ≤ z < 2 ^ 32.
Definition regs_ok (r : regs) : Prop :=
  let '(a, b, c, d, e) := r in is_word a ∧ is_word b ∧ is_word c ∧ is_word d ∧ is_word e.

Lemma word_ok z : is_word (word z).
Proof. apply Z.mod_pos_bound. lia. Qed.

Lemma word_add_l a b : word (word a + b) = word (a + b).
Proof. unfold word. by rewrite Z.add_mod_idemp_l by lia. Qed.

Lemma word_add_r a b : word (a + word b) = word (a + b).
Proof. unfold word. by rewrite Z.add_mod_idemp_r by lia. Qed.

Lemma high_bit k z n : 0 ≤ z < 2 ^ k → 0 ≤ k ≤ n → Z.testbit z n = false.
Proof.
  intros Hz Hn. destruct (decide (z = 0)) as [->|]; [apply Z.bits_0|].
  apply Z.bits_above_log2; [lia|]. apply Z.log2_lt_pow2; [lia|].
  eapply Z.lt_le_trans; [apply Hz|]. apply Z.pow_le_mono_r; lia.
Qed.

Lemma bits_is_word z : 0 ≤ z → (∀ n, 32 ≤ n → Z.testbit z n = false) → is_word z.
Proof.
  intros H0 Hb. split; [done|]. destruct (decide (z = 0)) as [->|]; [lia|].
  apply Z.log2_lt_pow2; [lia|]. apply Z.nle_gt. intros Hle.
  pose proof (Hb _ Hle) as Hx. rewrite Z.bit_log2 in Hx by lia. done.
Qed.

Lemma lor_word x y : is_word x → is_word y → is_word (Z.lor x y).
Proof.
  intros Hx Hy. apply bits_is_word; [apply Z.lor_nonneg; unfold is_word in *; lia|].
  intros n Hn. by rewrite Z.lor_spec, (high_bit 32 x), (high_bit 32 y) by (done || lia).
Qed.

Lemma rol_ok x k : is_word x → 0 ≤ k ≤ 32 → is_word (rol x k).
Proof.
  intros Hx Hk. apply lor_word; [apply word_ok|]. rewrite Z.shiftr_div_pow2 by lia.
  assert (0 < 2 ^ (32 - k)) by (apply Z.pow_pos_nonneg; lia). unfold is_word in *.
  split; [apply Z.div_pos; lia|]. eapply Z.le_lt_trans; [apply Z.div_le_upper_bound|]; [lia | | apply Hx]. nia.
Qed.

Lemma bit_positions n : 0 ≤ n < 32 →
  n = 0 ∨ n = 1 ∨ n = 2 ∨ n = 3 ∨ n = 4 ∨ n = 5 ∨ n = 6 ∨ n = 7 ∨ n = 8 ∨ n = 9 ∨ n = 10 ∨ n = 11 ∨ n = 12 ∨ n =
  13 ∨ n = 14 ∨ n = 15 ∨ n = 16 ∨ n = 17 ∨ n = 18 ∨ n = 19 ∨ n = 20 ∨ n = 21 ∨ n = 22 ∨ n = 23 ∨ n = 24 ∨ n = 25
  ∨ n = 26 ∨ n = 27 ∨ n = 28 ∨ n = 29 ∨ n = 30 ∨ n = 31.
Proof. lia. Qed.

(** Swapping the bytes of a word loaded low byte first gives the word of the standard. *)
Lemma swap_bytes a b c d :
  is_byte a → is_byte b → is_byte c → is_byte d →
  let v := load_le [a; b; c; d] in
  Z.lor (Z.land (rol v 24) 4278255360) (Z.land (rol v 8) 16711935) = Fips.load_be [a; b; c; d].
Proof.
  intros Ha Hb Hc Hd v. unfold v, load_le, Fips.load_be, rol, word. cbn [at_word lookup list_lookup default].
  apply Z.bits_inj'. intros n Hn.
  assert (Hhi : ∀ z k, is_byte z → 8 ≤ k → Z.testbit z k = false) by (intros; by apply (high_bit 8); [|lia]).
  assert (Hneg : ∀ z k, k < 0 → Z.testbit z k = false) by (intros; by apply Z.testbit_neg_r).
  unfold at_word. cbn [lookup list_lookup default from_option id].
  repeat (rewrite ?Z.lor_spec, ?Z.land_spec, ?Z.shiftr_spec, ?Z.shiftl_spec, ?Z.mod_pow2_bits_high by lia).
  destruct (decide (n < 32)) as [Hlt|Hge].
  - rewrite !Z.mod_pow2_bits_low by lia. repeat (rewrite ?Z.lor_spec, ?Z.shiftl_spec by lia).
    pose proof (bit_positions n ltac:(lia)) as Hcases. clear v.
    destruct_or! Hcases; subst n; cbn -[Z.testbit];
      repeat match goal with |- context [Z.testbit (Zpos ?p) ?k] => let b := eval vm_compute in (Z.testbit (Zpos p) k) in change (Z.testbit (Zpos p) k) with b end;
      repeat match goal with |- context [Z.testbit ?z ?k] => first
        [rewrite (Hneg z k) by lia | rewrite (Hhi z k) by (done || lia) |
         match z with Z.shiftl ?x ?m => rewrite (Z.shiftl_spec x m k) by lia end] end;
      by rewrite ?andb_false_r, ?orb_false_r, ?andb_true_r.
  - rewrite !Z.mod_pow2_bits_high by lia.
    rewrite (high_bit 32 4278255360), (high_bit 32 16711935) by lia.
    rewrite !andb_false_r. cbn [orb].
    repeat match goal with |- context [Z.testbit ?z ?k] => rewrite (Hhi z k) by (done || lia) end. done.
Qed.

Lemma mix_spec i w x y : is_word w → is_word x → is_word y → mix i w x y = word (Fips.f i w x y + Fips.K i).
Proof.
  intros Hw Hx Hy. unfold mix, Fips.f, Fips.K.
  assert (Hhi : ∀ z n, is_word z → 32 ≤ n → Z.testbit z n = false) by (intros; by apply (high_bit 32); [|lia]).
  destruct (i <? 20)%nat; [|destruct (i <? 40)%nat; [|destruct (i <? 60)%nat]]; do 2 f_equal.
  - apply Z.bits_inj'. intros n Hn. change (2 ^ 32 - 1) with (Z.ones 32).
    rewrite Z.lxor_spec, Z.lor_spec, !Z.land_spec, !Z.lxor_spec, Z.testbit_ones_nonneg by lia.
    destruct (Z.ltb_spec n 32); [by destruct (Z.testbit w n), (Z.testbit x n), (Z.testbit y n)|].
    by rewrite (Hhi w), (Hhi x), (Hhi y) by (done || lia).
  - by rewrite Z.lxor_assoc.
  - apply Z.bits_inj'. intros n Hn. rewrite !Z.lor_spec, !Z.land_spec, Z.lor_spec.
    by destruct (Z.testbit w n), (Z.testbit x n), (Z.testbit y n).
  - by rewrite Z.lxor_assoc.
Qed.

Section Block.
Context (block : list Z) (Hlen : length block = 64%nat) (Hbytes : Forall is_byte block).

Notation W t := (at_word (Fips.schedule block 80) t).

Lemma schedule_S n : Fips.schedule block (S n) = Fips.schedule_step block (Fips.schedule block n) n.
Proof. unfold Fips.schedule. by rewrite seq_S, fold_left_app. Qed.

Lemma words_length n : length (Fips.schedule block n) = n.
Proof.
  induction n as [|n IH]; [done|]. rewrite schedule_S. unfold Fips.schedule_step. rewrite length_app, IH.
  cbn [length]. lia.
Qed.

Lemma schedule_prefix n t m : (t < n)%nat → Fips.schedule block (n + m) !! t = Fips.schedule block n !! t.
Proof.
  intros Ht. induction m as [|m IH]; [by rewrite Nat.add_0_r|]. rewrite Nat.add_succ_r, schedule_S.
  unfold Fips.schedule_step. rewrite lookup_app_l; [done|]. rewrite words_length. lia.
Qed.

Lemma W_spec t : (t < 80)%nat →
  W t = if (t <? 16)%nat then Fips.load_be (take 4 (drop (4 * t) block))
        else rol (Z.lxor (Z.lxor (Z.lxor (W (t - 3)) (W (t - 8))) (W (t - 14))) (W (t - 16))) 1.
Proof.
  intros Ht.
  assert (Hpre : ∀ n u, (u < n)%nat → (n ≤ 80)%nat → W u = at_word (Fips.schedule block n) u).
  { intros n u Hu Hn. unfold at_word. replace 80%nat with (n + (80 - n))%nat by lia. by rewrite schedule_prefix. }
  rewrite (Hpre (S t)) by lia. rewrite schedule_S. unfold Fips.schedule_step, at_word at 1.
  rewrite lookup_app_r by (by rewrite words_length). rewrite words_length, Nat.sub_diag.
  cbn [lookup list_lookup default from_option id]. destruct (Nat.ltb_spec t 16); [done|].
  by rewrite !(Hpre t) by lia.
Qed.

Lemma load_slot j : (j < 16)%nat → at_word (load_block block) j = load_le (take 4 (drop (4 * j) block)).
Proof.
  intros Hj. unfold at_word, load_block. by rewrite list_lookup_fmap, lookup_seq_lt by done.
Qed.

Lemma four_bytes j : (j < 16)%nat →
  ∃ a b c d, take 4 (drop (4 * j) block) = [a; b; c; d] ∧ is_byte a ∧ is_byte b ∧ is_byte c ∧ is_byte d.
Proof.
  intros Hj. assert (Hl : length (take 4 (drop (4 * j) block)) = 4%nat) by (rewrite length_take, length_drop; lia).
  assert (Hf : Forall is_byte (take 4 (drop (4 * j) block))) by (by apply Forall_take, Forall_drop).
  destruct (take 4 (drop (4 * j) block)) as [|a [|b [|c [|d [|]]]]]; try done.
  rewrite !List.Forall_cons_iff in Hf. exists a, b, c, d. tauto.
Qed.

(** The sixteen slots hold the last sixteen words of the schedule. *)
Record rolling (i : nat) (blk : list Z) : Prop := {
  rl_length : length blk = 16%nat;
  rl_done : ∀ t, (t < i)%nat → (i ≤ t + 16)%nat → at_word blk (t mod 16) = W t;
  rl_raw : ∀ j, (i ≤ j < 16)%nat → at_word blk j = load_le (take 4 (drop (4 * j) block))
}.

Lemma at_insert l i j v : (j < length l)%nat → at_word (<[j := v]> l) i = if decide (i = j) then v else at_word l i.
Proof.
  intros Hj. unfold at_word. destruct (decide (i = j)) as [->|]; [by rewrite list_lookup_insert_eq|].
  by rewrite list_lookup_insert_ne.
Qed.

Lemma mod_differs t i : (t < i)%nat → (i < t + 16)%nat → (t mod 16 ≠ i mod 16)%nat.
Proof.
  intros H1 H2 Heq. pose proof (Nat.div_mod_eq t 16). pose proof (Nat.div_mod_eq i 16). lia.
Qed.

Lemma rolling_step i blk b blk' :
  (i < 80)%nat → rolling i blk → (if (i <? 16)%nat then blk0 i blk else blk_word i blk) = (b, blk') →
  b = W i ∧ rolling (S i) blk'.
Proof.
  intros Hi [Hl Hd Hr] Heq.
  assert (Hb : b = W i ∧ blk' = <[(i mod 16)%nat := b]> blk).
  { rewrite W_spec by done. destruct (Nat.ltb_spec i 16) as [Hlt|Hge].
    - unfold blk0 in Heq. injection Heq as <- <-. rewrite Nat.mod_small by done. split; [|done].
      rewrite Hr by lia. destruct (four_bytes i Hlt) as (x & y & z & u & -> & ? & ? & ? & ?). by apply swap_bytes.
    - unfold blk_word in Heq. cbv zeta in Heq. apply pair_equal_spec in Heq as [<- <-]. rewrite Nat.add_0_r. split; [|done].
      assert (Hk : ∀ k m, (k + m = 16)%nat → (0 < m)%nat → at_word blk ((i + k) mod 16)%nat = W (i - m)).
      { intros k m Hkm Hm. rewrite <- (Hd (i - m)%nat) by lia. f_equal.
        replace (i + k)%nat with (i - m + 1 * 16)%nat by lia. apply Nat.Div0.mod_add. }
      rewrite (Hk 13%nat 3%nat), (Hk 8%nat 8%nat), (Hk 2%nat 14%nat) by lia.
      pose proof (Hk 0%nat 16%nat ltac:(lia) ltac:(lia)) as H0. rewrite Nat.add_0_r in H0. by rewrite H0. }
  destruct Hb as [Hb ->]. split; [done|].
  assert (Hm : (i mod 16 < length blk)%nat) by (rewrite Hl; apply Nat.mod_upper_bound; lia).
  constructor.
  - by rewrite length_insert.
  - intros t Ht1 Ht2. rewrite at_insert by done. destruct (decide (t = i)) as [->|Hne]; [by rewrite decide_True|].
    rewrite decide_False by (apply mod_differs; lia). apply Hd; lia.
  - intros j Hj. rewrite at_insert by done. rewrite decide_False; [apply Hr; lia|].
    rewrite Nat.mod_small by lia. lia.
Qed.

Lemma round_ok r t : regs_ok r → regs_ok (Fips.round (Fips.schedule block 80) r t).
Proof.
  destruct r as [[[[a b] c] d] e]. intros (Ha & Hb & Hc & Hd & He). cbn [Fips.round regs_ok].
  split_and!; [apply word_ok | exact Ha | apply rol_ok; [exact Hb | lia] | exact Hc | exact Hd].
Qed.

Lemma sha1_round_spec i r blk :
  (i < 80)%nat → regs_ok r → rolling i blk →
  ∃ blk', sha1_round (r, blk) i = (Fips.round (Fips.schedule block 80) r i, blk') ∧ rolling (S i) blk'.
Proof.
  intros Hi Hr Hroll. destruct r as [[[[v w] x] y] z]. destruct Hr as (Hv & Hw & Hx & Hy & Hz).
  unfold sha1_round. destruct (if (i <? 16)%nat then blk0 i blk else blk_word i blk) as [b blk'] eqn:Hb.
  apply rolling_step in Hb as [-> Hroll']; [|done..]. exists blk'. split; [|done].
  unfold Fips.round. do 4 f_equal. f_equal. rewrite mix_spec by done. rewrite word_add_r.
  set (g := Fips.f i w x y). set (k := Fips.K i). set (r5 := rol v 5). set (wi := at_word _ i).
  replace (z + (word (word (g + k) + wi) + r5)) with (word (word (g + k) + wi) + (z + r5)) by lia.
  rewrite word_add_l. replace (word (g + k) + wi + (z + r5)) with (word (g + k) + (wi + (z + r5))) by lia.
  rewrite word_add_l. f_equal. lia.
Qed.

Lemma transform_fips h : regs_ok h → trantor_sha1_transform h block = Fips.compress h block ∧ regs_ok (Fips.compress h block).
Proof.
  intros Hh.
  assert (Hloop : ∀ n, (n ≤ 80)%nat → ∃ blk,
    fold_left sha1_round (seq 0 n) (h, load_block block) = (fold_left (Fips.round (Fips.schedule block 80)) (seq 0 n) h, blk) ∧
    rolling n blk ∧ regs_ok (fold_left (Fips.round (Fips.schedule block 80)) (seq 0 n) h)).
  { induction n as [|n IH]; intros Hn.
    - exists (load_block block). split_and!; [done | | done]. constructor; [done | lia|].
      intros j Hj. apply load_slot. lia.
    - destruct IH as (blk & Hf & Hroll & Hok); [lia|]. rewrite seq_S, !fold_left_app, Hf. cbn [fold_left Nat.add].
      destruct (sha1_round_spec n _ blk ltac:(lia) Hok Hroll) as (blk' & -> & Hroll'). exists blk'.
      split_and!; [done | done | by apply round_ok]. }
  destruct (Hloop 80%nat ltac:(lia)) as (blk & Hf & _ & _).
  unfold trantor_sha1_transform, Fips.compress. rewrite Hf.
  destruct (fold_left _ _ h) as [[[[a b] c] d] e]. destruct h as [[[[h0 h1] h2] h3] h4].
  split; [done|]. split_and!; apply word_ok.
Qed.
End Block.

(** ** Streaming *)

Lemma absorb_app T m n h l : absorb T (m + n) h l = absorb T n (absorb T m h l) (drop (64 * m) l).
Proof.
  revert h l. induction m as [|m IH]; intros h l; cbn [absorb Nat.add]; [done|].
  rewrite IH, drop_drop. f_equal. f_equal. lia.
Qed.

Lemma absorb_prefix T n h l1 l2 : (64 * n ≤ length l1)%nat → absorb T n h (l1 ++ l2) = absorb T n h l1.
Proof.
  revert h l1. induction n as [|n IH]; intros h l1 Hn; cbn [absorb]; [done|].
  rewrite take_app_le, drop_app_le by lia. apply IH. rewrite length_drop. lia.
Qed.

(** On bytes the code's block function is the standard's. *)
Lemma absorb_fips n : ∀ h l,
  regs_ok h → Forall is_byte l → (64 * n ≤ length l)%nat →
  absorb trantor_sha1_transform n h l = absorb Fips.compress n h l.
Proof.
  induction n as [|n IH]; intros h l Hh Hl Hn; cbn [absorb]; [done|].
  destruct (transform_fips (take 64 l)) with (h := h) as [-> Hok]; [rewrite length_take; lia | by apply Forall_take | done|].
  apply IH; [done | by apply Forall_drop | rewrite length_drop; lia].
Qed.

Lemma whole_blocks_spec fuel : ∀ st data,
  (length data ≤ fuel)%nat →
  whole_blocks fuel st data = (absorb trantor_sha1_transform (length data / 64) st data, drop (64 * (length data / 64)) data).
Proof.
  induction fuel as [|fuel IH]; intros st data Hf; cbn [whole_blocks].
  - by destruct data; cbn in *; [|lia].
  - destruct (Nat.ltb_spec 63 (length data)) as [Hlt|Hge].
    + rewrite IH by (rewrite length_drop; lia). rewrite length_drop.
      assert (Hd : (length data / 64 = S ((length data - 64) / 64))%nat).
      { replace (length data) with (length data - 64 + 1 * 64)%nat at 1 by lia. rewrite Nat.div_add by lia. lia. }
      rewrite Hd. cbn [absorb]. rewrite drop_drop. f_equal. f_equal. lia.
    + by rewrite (Nat.div_small (length data) 64) by lia.
Qed.

(** The context has taken in [msg]. *)
Record took (msg : list Z) (c : SHA1_CTX) : Prop := {
  tk_buffer : length (buffer c) = 64%nat;
  tk_state : state c = absorb trantor_sha1_transform (length msg / 64) H0 msg;
  tk_rest : take (length msg mod 64) (buffer c) = drop (64 * (length msg / 64)) msg;
  tk_count : count0 c = 8 * Z.of_nat (length msg)
}.

Lemma length_copy j data buf :
  length buf = 64%nat → (j + length data ≤ 64)%nat → length (copy_at j data buf) = 64%nat.
Proof. intros Hb Hj. unfold copy_at. rewrite !length_app, length_take, length_drop. lia. Qed.

Lemma take_copy j data buf :
  length buf = 64%nat → (j + length data ≤ 64)%nat → take (j + length data) (copy_at j data buf) = take j buf ++ data.
Proof.
  intros Hb Hj. unfold copy_at. rewrite app_assoc. apply take_app_length'. rewrite length_app, length_take. lia.
Qed.

Lemma offset_spec n : Z.to_nat (Z.land (Z.shiftr (8 * Z.of_nat n) 3) 63) = (n mod 64)%nat.
Proof.
  rewrite Z.shiftr_div_pow2 by lia. change (2 ^ 3) with 8. rewrite Z.mul_comm, Z.div_mul by lia.
  change 63 with (Z.ones 6). rewrite Z.land_ones by lia. change (2 ^ 6) with (Z.of_nat 64).
  by rewrite <- Nat2Z.inj_mod, Nat2Z.id.
Qed.

Lemma update_count msg c data :
  took msg c → Z.of_nat (length msg + length data) < 2 ^ 61 →
  count0 (trantor_sha1_update c data) = 8 * Z.of_nat (length (msg ++ data)) ∧
  count1 (trantor_sha1_update c data) = wrapU64 (count1 c + Z.of_nat (length data) / 2 ^ 29).
Proof.
  intros Ht Hlen. rewrite length_app. unfold trantor_sha1_update. rewrite (tk_count _ _ Ht).
  assert (Hn0 : wrapU64 (8 * Z.of_nat (length msg) + wrapU64 (Z.shiftl (Z.of_nat (length data)) 3)) =
                8 * Z.of_nat (length msg + length data)).
  { rewrite Z.shiftl_mul_pow2 by lia. rewrite (wrapU64_small (_ * _)) by lia. rewrite wrapU64_small by lia. lia. }
  rewrite Hn0. assert (Hlt : (8 * Z.of_nat (length msg + length data) <? 8 * Z.of_nat (length msg)) = false) by (apply Z.ltb_ge; lia).
  rewrite Hlt, (Z.shiftr_div_pow2 (Z.of_nat (length data)) 29) by lia. destruct (63 <? _)%nat; [|done].
  destruct (whole_blocks _ _ _). done.
Qed.

Lemma div_mod_64 n : (n = 64 * (n / 64) + n mod 64 ∧ n mod 64 < 64)%nat.
Proof. split; [apply Nat.div_mod_eq | apply Nat.mod_upper_bound; lia]. Qed.

(** Taking in more bytes, however they fall on the blocks. *)
Lemma update_took msg c data :
  took msg c → Z.of_nat (length msg + length data) < 2 ^ 61 → took (msg ++ data) (trantor_sha1_update c data).
Proof.
  intros Ht Hlen. pose proof (proj1 (update_count msg c data Ht Hlen)) as Hcount.
  destruct (div_mod_64 (length msg)) as [Hq Hj]. set (q := (length msg / 64)%nat) in *. set (j := (length msg mod 64)%nat) in *.
  pose proof (tk_rest _ _ Ht) as Hrest. pose proof (tk_state _ _ Ht) as Hstate0. fold q j in Hrest, Hstate0.
  assert (Hsplit : ∀ m k, length (msg ++ data) = (64 * m + k)%nat → (k < 64)%nat →
    (length (msg ++ data) / 64 = m ∧ length (msg ++ data) mod 64 = k)%nat).
  { intros m k -> Hk. rewrite (Nat.mul_comm 64 m), Nat.add_comm. split.
    - rewrite Nat.div_add by lia. rewrite Nat.div_small; lia.
    - rewrite Nat.Div0.mod_add. by apply Nat.mod_small. }
  revert Hcount. unfold trantor_sha1_update. rewrite (tk_count _ _ Ht), offset_spec. fold j.
  destruct (Nat.ltb_spec 63 (j + length data)) as [Hbig|Hsmall].
  - set (i := (64 - j)%nat). assert (Hti : length (take i data) = i) by (rewrite length_take; lia).
    rewrite whole_blocks_spec by (rewrite length_drop; lia). cbn [count0]. intros Hcount.
    set (r := (length (drop i data) / 64)%nat).
    destruct (div_mod_64 (length (drop i data))) as [Hr Hk]. fold r in Hr.
    set (k := (length (drop i data) mod 64)%nat) in *.
    destruct (Hsplit (S q + r)%nat k) as [Hdiv Hmod]; [rewrite length_app; rewrite length_drop in Hr; lia | done|].
    set (first := copy_at j (take i data) (buffer c)).
    assert (Hfl : length first = 64%nat) by (apply length_copy; [apply Ht | lia]).
    assert (Hfirst : first = drop (64 * q) msg ++ take i data).
    { rewrite <- Hrest, <- (take_copy j) by (apply Ht || lia).
      rewrite Hti. symmetry. apply take_ge. fold first. lia. }
    assert (Hstate : absorb trantor_sha1_transform r (trantor_sha1_transform (state c) first) (drop i data) =
                     absorb trantor_sha1_transform (S q + r) H0 (msg ++ data)).
    { rewrite absorb_app. f_equal.
      - replace (S q) with (q + 1)%nat by lia. rewrite absorb_app. cbn [absorb].
        rewrite (absorb_prefix _ q) by lia. rewrite <- Hstate0. f_equal.
        rewrite drop_app_le, take_app by lia. rewrite (take_ge (drop (64 * q) msg)) by (rewrite length_drop; lia).
        rewrite Hfirst. f_equal. f_equal. rewrite length_drop. lia.
      - rewrite drop_app. rewrite (drop_ge msg) by lia. cbn [app]. f_equal. lia. }
    constructor; cbn [buffer state count0]; rewrite ?Hdiv, ?Hmod.
    + apply length_copy; [done | rewrite length_drop; lia].
    + done.
    + rewrite drop_app, (drop_ge msg) by lia. cbn [app].
      replace k with (0 + length (drop (64 * r) (drop i data)))%nat by (rewrite length_drop; lia).
      rewrite take_copy by (done || rewrite length_drop; lia). rewrite take_0. cbn [app]. rewrite drop_drop. f_equal. lia.
    + done.
  - cbn [count0]. intros Hcount. destruct (Hsplit q (j + length data)%nat) as [Hdiv Hmod]; [rewrite length_app; lia | lia|].
    constructor; cbn [buffer state count0]; rewrite ?Hdiv, ?Hmod.
    + apply length_copy; [apply Ht | lia].
    + by rewrite absorb_prefix by lia.
    + rewrite take_copy by (apply Ht || lia). rewrite drop_app_le by lia. by f_equal.
    + done.
Qed.

Lemma init_took garbage : length garbage = 64%nat → took [] (trantor_sha1_init garbage).
Proof. intros Hg. by constructor. Qed.

(** The padding loop ends at 56 bytes modulo 64. *)
Lemma pad_condition n : (Z.land (8 * Z.of_nat n) 504 =? 448) = (n mod 64 =? 56)%nat.
Proof.
  change 504 with (Z.shiftl 63 3). rewrite (Z.mul_comm 8). change 8 with (2 ^ 3). rewrite <- Z.shiftl_mul_pow2 by lia.
  rewrite <- Z.shiftl_land. change 63 with (Z.ones 6). rewrite Z.land_ones by lia. rewrite Z.shiftl_mul_pow2 by lia.
  change (2 ^ 6) with (Z.of_nat 64). rewrite <- Nat2Z.inj_mod.
  destruct (Nat.eqb_spec (n mod 64) 56) as [->|Hne]; [done|]. apply Z.eqb_neq. lia.
Qed.

Lemma pad_loop_spec fuel : ∀ msg c k,
  took msg c → (k < fuel)%nat → ((length msg + k) mod 64 = 56)%nat → (k < 64)%nat →
  Z.of_nat (length msg + k) < 2 ^ 61 →
  took (msg ++ repeat 0 k) (pad_loop fuel c).
Proof.
  induction fuel as [|fuel IH]; intros msg c k Ht Hk Hmod H64 Hlen; [lia|]. cbn [pad_loop].
  rewrite (tk_count _ _ Ht), pad_condition. destruct k as [|k].
  - rewrite Nat.add_0_r in Hmod. rewrite Hmod. cbn. by rewrite app_nil_r.
  - destruct (Nat.eqb_spec (length msg mod 64) 56) as [Heq|Hne].
    + exfalso. pose proof (Nat.div_mod_eq (length msg) 64). pose proof (Nat.div_mod_eq (length msg + S k) 64). lia.
    + cbn [repeat]. replace (msg ++ 0 :: repeat 0 k) with ((msg ++ [0]) ++ repeat 0 k) by (by rewrite <- app_assoc).
      apply IH; [apply update_took; [done | cbn; lia] | lia | | lia | rewrite length_app; cbn; lia].
      rewrite length_app. cbn [length]. by replace (length msg + 1 + k)%nat with (length msg + S k)%nat by lia.
Qed.

(** ** The digest *)

Lemma byte_at_word z k : 0 ≤ k ≤ 3 → byte_at z k = byte_at (z mod 2 ^ 32) k.
Proof.
  intros Hk. unfold byte_at. apply Z.bits_inj'. intros n Hn. rewrite !Z.land_spec, !Z.shiftr_spec by lia.
  destruct (decide (n < 8)).
  - by rewrite Z.mod_pow2_bits_low by lia.
  - by rewrite (high_bit 8 255), !andb_false_r by lia.
Qed.

Lemma be_bytes32_word z : be_bytes32 z = be_bytes32 (z mod 2 ^ 32).
Proof. unfold be_bytes32. cbn [fmap list_fmap]. by rewrite !(byte_at_word z) by lia. Qed.

Lemma be_bytes32_ok z : Forall is_byte (be_bytes32 z).
Proof.
  unfold be_bytes32. repeat constructor; unfold byte_at; change 255 with (Z.ones 8); rewrite Z.land_ones by lia;
    apply Z.mod_pos_bound; lia.
Qed.

Lemma pad_length msg : (length (Fips.pad msg) mod 64 = 0)%nat.
Proof.
  unfold Fips.pad. rewrite !length_app, repeat_length. unfold be_bytes32. rewrite !length_fmap. cbn [length].
  set (n := length msg). pose proof (Z.mod_pos_bound (55 - Z.of_nat n) 64 ltac:(lia)) as Hb.
  pose proof (Z.div_mod (55 - Z.of_nat n) 64 ltac:(lia)) as Hd.
  apply Nat2Z.inj. rewrite Nat2Z.inj_mod. change (Z.of_nat 64) with 64.
  replace (Z.of_nat (n + (1 + (Z.to_nat ((55 - Z.of_nat n) mod 64) + (4 + 4))))) with ((1 - (55 - Z.of_nat n) / 64) * 64) by lia.
  by apply Z.mod_mul.
Qed.

Lemma final_spec msg c :
  took msg c → Forall is_byte msg → Z.of_nat (length msg) < 2 ^ 61 - 128 →
  be_bytes32 (count1 c) = be_bytes32 (Z.of_nat (length msg) * 8 / 2 ^ 32) →
  trantor_sha1_final c = Fips.sha1 msg.
Proof.
  intros Ht Hb Hlen Hc1. unfold trantor_sha1_final, Fips.sha1.
  set (n := length msg). set (k := Z.to_nat ((55 - Z.of_nat n) mod 64)).
  pose proof (Z.mod_pos_bound (55 - Z.of_nat n) 64 ltac:(lia)) as Hk.
  assert (Ht1 : took (msg ++ [128]) (trantor_sha1_update c [128])) by (apply update_took; [done | cbn; lia]).
  assert (Ht2 : took ((msg ++ [128]) ++ repeat 0 k) (pad_loop 64 (trantor_sha1_update c [128]))).
  { apply pad_loop_spec; [done | lia | | lia | rewrite length_app; cbn; lia].
    rewrite length_app. cbn [length]. fold n. apply Nat2Z.inj. rewrite Nat2Z.inj_mod. change (Z.of_nat 64) with 64.
    pose proof (Z.div_mod (55 - Z.of_nat n) 64 ltac:(lia)) as Hd.
    replace (Z.of_nat (n + 1 + k)) with (56 + (- ((55 - Z.of_nat n) / 64)) * 64) by lia. by rewrite Z.mod_add. }
  assert (Hpad : ((msg ++ [128]) ++ repeat 0 k) ++ be_bytes32 (count1 c) ++ be_bytes32 (count0 c) = Fips.pad msg).
  { unfold Fips.pad. rewrite <- !app_assoc, Hc1. fold n k. do 4 f_equal.
    rewrite (tk_count _ _ Ht), be_bytes32_word. fold n. by rewrite Z.mul_comm. }
  pose proof (update_took _ _ (be_bytes32 (count1 c) ++ be_bytes32 (count0 c)) Ht2) as Ht3.
  rewrite Hpad in Ht3. f_equal. rewrite (tk_state (Fips.pad msg)) by (apply Ht3; rewrite !length_app, repeat_length; cbn; lia).
  pose proof (pad_length msg) as Hm. pose proof (Nat.div_mod_eq (length (Fips.pad msg)) 64) as Hd.
  apply absorb_fips; [done | | lia].
  unfold Fips.pad. rewrite !Forall_app. split_and!; [done | by repeat constructor | | apply be_bytes32_ok | apply be_bytes32_ok].
  apply List.Forall_forall. intros x Hx. by apply repeat_spec in Hx as ->.
Qed.

Lemma fold_update segs : ∀ msg c,
  took msg c → Z.of_nat (length msg + length (concat segs)) < 2 ^ 29 → count1 c = 0 →
  took (msg ++ concat segs) (fold_left trantor_sha1_update segs c) ∧ count1 (fold_left trantor_sha1_update segs c) = 0.
Proof.
  induction segs as [|d segs IH]; intros msg c Ht Hlen Hc; cbn [concat fold_left] in *; [by rewrite app_nil_r|].
  rewrite length_app in Hlen. rewrite app_assoc. apply IH.
  - apply update_took; [done | lia].
  - rewrite length_app. lia.
  - rewrite (proj2 (update_count msg c d Ht ltac:(lia))), Hc, Z.div_small by lia. done.
Qed.

(** In one call, whatever the buffer held. *)
Lemma sha1_fips garbage data :
  length garbage = 64%nat → Forall is_byte data → Z.of_nat (length data) < 2 ^ 61 - 128 →
  sha1 garbage data = Fips.sha1 data.
Proof.
  intros Hg Hb Hlen. apply final_spec; [apply (update_took []); [by apply init_took | cbn [length]; lia] | done | done|].
  rewrite (proj2 (update_count [] _ data (init_took _ Hg) ltac:(cbn; lia))). cbn [count1 trantor_sha1_init].
  rewrite wrapU64_small.
  - f_equal. change (2 ^ 32) with (8 * 2 ^ 29). rewrite (Z.mul_comm _ 8), Z.div_mul_cancel_l by lia. lia.
  - split; [apply Z.add_nonneg_nonneg; [lia | apply Z.div_pos; lia]|].
    apply Z.le_lt_trans with (Z.of_nat (length data)); [apply Z.div_le_upper_bound; lia | lia].
Qed.

(** C36. The code computes SHA-1 as FIPS 180-1 defines it: the rolling block of
    sixteen words is the standard's schedule of eighty, the byte swaps its
    big-endian words, the macros its functions; and a message taken in one
    call, or in any pieces up to 512 MiB in all, is padded and cut into blocks
    as the standard says, whatever the uninitialised buffer held. *)
Theorem sha1_is_fips_180 garbage segs :
  length garbage = 64%nat → Forall is_byte (concat segs) →
  (∃ data, segs = [data] ∧ Z.of_nat (length data) < 2 ^ 61 - 128) ∨ Z.of_nat (length (concat segs)) < 2 ^ 29 →
  trantor_sha1_final (fold_left trantor_sha1_update segs (trantor_sha1_init garbage)) = Fips.sha1 (concat segs).
Proof.
  intros Hg Hb [(data & -> & Hlen)|Hlen].
  - cbn [concat fold_left] in *. rewrite app_nil_r in *. fold (sha1 garbage data). by apply sha1_fips.
  - destruct (fold_update segs [] _ (init_took _ Hg) ltac:(cbn; lia) eq_refl) as [Ht Hc].
    cbn [app] in Ht. apply final_spec; [done | done | lia|]. by rewrite Hc, Z.div_small by lia.
Qed.

Lemma sha1_is_fips_180_witness : sha1 (repeat 7 64) [97; 98; 99] = Fips.sha1 [97; 98; 99].
Proof.
  apply (sha1_is_fips_180 (repeat 7 64) [[97; 98; 99]]); [done | | by left; exists [97; 98; 99]].
  repeat (apply List.Forall_cons; [unfold is_byte; lia|]). apply List.Forall_nil.
Defined.

(** The carry into the second counter is tested at the width of [size_t]: after
    two pieces of 256 MiB the length that is hashed lacks its 33rd bit. *)
Lemma long_stream_length_lost garbage a b :
  length garbage = 64%nat → Z.of_nat (length a) = 2 ^ 28 → Z.of_nat (length b) = 2 ^ 28 →
  let c := trantor_sha1_update (trantor_sha1_update (trantor_sha1_init garbage) a) b in
  count1 c = 0 ∧ Z.of_nat (length (a ++ b)) * 8 / 2 ^ 32 = 1.
Proof.
  intros Hg Ha Hb c. assert (Ht : took a (trantor_sha1_update (trantor_sha1_init garbage) a)).
  { apply (update_took []); [by apply init_took | cbn [length]; lia]. }
  unfold c. rewrite (proj2 (update_count a _ b Ht ltac:(lia))).
  rewrite (proj2 (update_count [] _ a (init_took _ Hg) ltac:(cbn [length]; lia))).
  rewrite length_app, Nat2Z.inj_add, Ha, Hb. done.
Qed.
