(* ===== verification/HttpParser.v ===== *)
(** * Parsing the requests of a connection

    src/src/drogon/lib/src/HttpRequestParser.cc, [parseRequest] and the
    request line, and the receive loop [onMessage] of
    src/src/drogon/lib/src/HttpServer.cc.  The parser works against the
    interface of the input buffer ([ByteQueue]).

    Sizes are 64-bit words with their wrap-around written out.  [strtol] and
    [std::stoull] are written out for the base the code passes.  Assertions
    are compiled out and stream mode is off. *)

From stdpp Require Import base gmap list strings numbers.
From Stdlib Require Import ZArith Lia.
From S2P Require Import Prelude StaticFiles MsgBuffer WsFrame CDouble HttpRequest.

(** ** Numbers in the text *)

(** The digits at the front of a text, and whether there was one. *)
Fixpoint digits (base : Z) (acc : Z) (l : list Z) : Z :=
  match l with
  | c :: l' =>
      match xdigit c with
      | Some d => if d <? base then digits base (acc * base + d) l' else acc
      | None => acc
      end
  | [] => acc
  end.

Definition starts_with_digit (base : Z) (l : list Z) : bool :=
  match l with
  | c :: _ => match xdigit c with Some d => d <? base | None => false end
  | [] => false
  end.

(** The optional sign. *)
Definition sign (l : list Z) : bool * list Z :=
  match l with
  | c :: l' => if c =? 43 then (false, l') else if c =? 45 then (true, l') else (false, l)
  | [] => (false, [])
  end.

(** [std::stoull(len)]: [None] when it throws.  A negative number is taken
    modulo [2^64]. *)
Definition stoull (l : list Z) : option Z :=
  let '(neg, l) := sign (drop_space l) in
  if starts_with_digit 10 l then
    let n := digits 10 0 l in
    if n <? 2 ^ 64 then Some (wrapU64 (if neg : bool then - n else n)) else None
  else None.

(** The prefix [0x] is skipped when a digit follows. *)
Definition skip_0x (l : list Z) : list Z :=
  match l with
  | z :: x :: l' =>
      if (z =? 48) && ((x =? 120) || (x =? 88)) && starts_with_digit 16 l' then l' else l
  | _ => l
  end.

(** [strtol(len, &end, 16)]: clamped to the range of [long]. *)
Definition strtol16 (l : list Z) : Z :=
  let '(neg, l) := sign (drop_space l) in
  let n := digits 16 0 (skip_0x l) in
  if neg : bool then Z.max (- 2 ^ 63) (- n) else Z.min (2 ^ 63 - 1) n.

(** [std::to_string] *)
Definition to_string (n : Z) : list Z := str (dec n).

(** ** The parser *)

Inductive HttpRequestParseStatus :=
| kExpectMethod | kExpectRequestLine | kExpectHeaders | kExpectBody
| kExpectChunkLen | kExpectChunkBody | kExpectLastEmptyChunk | kGotAll.

(** What goes out on the connection. *)
Inductive wire_act :=
| Continue100                                  (* the interim response *)
| ErrorResponse (code : Z)                     (* [HTTP/1.1 code ... Connection: close] *)
| ShutdownConn.

Record HttpRequestParser := {
  status_ : HttpRequestParseStatus;
  request_ : HttpRequestImpl;
  requestsPool_ : list HttpRequestImpl;
  requestsCounter_ : Z;
  currentChunkLength_ : Z;
  remainContentLength_ : Z;
  stopWorking_ : bool;
  wire : list wire_act
}.

Definition set_parse (st : HttpRequestParseStatus) (r : HttpRequestImpl) (p : HttpRequestParser) : HttpRequestParser :=
  {| status_ := st; request_ := r; requestsPool_ := requestsPool_ p; requestsCounter_ := requestsCounter_ p;
     currentChunkLength_ := currentChunkLength_ p; remainContentLength_ := remainContentLength_ p;
     stopWorking_ := stopWorking_ p; wire := wire p |}.
Definition set_status (st : HttpRequestParseStatus) (p : HttpRequestParser) : HttpRequestParser :=
  set_parse st (request_ p) p.
Definition set_request (r : HttpRequestImpl) (p : HttpRequestParser) : HttpRequestParser :=
  set_parse (status_ p) r p.
Definition set_chunk (cur remain : Z) (p : HttpRequestParser) : HttpRequestParser :=
  {| status_ := status_ p; request_ := request_ p; requestsPool_ := requestsPool_ p;
     requestsCounter_ := requestsCounter_ p; currentChunkLength_ := cur; remainContentLength_ := remain;
     stopWorking_ := stopWorking_ p; wire := wire p |}.
Definition count_request (p : HttpRequestParser) : HttpRequestParser :=
  {| status_ := status_ p; request_ := request_ p; requestsPool_ := requestsPool_ p;
     requestsCounter_ := wrapU64 (requestsCounter_ p + 1); currentChunkLength_ := currentChunkLength_ p;
     remainContentLength_ := remainContentLength_ p; stopWorking_ := stopWorking_ p; wire := wire p |}.
Definition emit (a : wire_act) (p : HttpRequestParser) : HttpRequestParser :=
  {| status_ := status_ p; request_ := request_ p; requestsPool_ := requestsPool_ p;
     requestsCounter_ := requestsCounter_ p; currentChunkLength_ := currentChunkLength_ p;
     remainContentLength_ := remainContentLength_ p; stopWorking_ := stopWorking_ p; wire := wire p ++ [a] |}.
Definition stop (p : HttpRequestParser) : HttpRequestParser :=
  {| status_ := status_ p; request_ := request_ p; requestsPool_ := requestsPool_ p;
     requestsCounter_ := requestsCounter_ p; currentChunkLength_ := currentChunkLength_ p;
     remainContentLength_ := remainContentLength_ p; stopWorking_ := true; wire := wire p |}.

(** [reset]: a fresh request, or the one that went back to the pool last. *)
Definition reset (p : HttpRequestParser) : HttpRequestParser :=
  {| status_ := kExpectMethod;
     request_ := default new_request (list.last (requestsPool_ p));
     requestsPool_ := removelast (requestsPool_ p);
     requestsCounter_ := requestsCounter_ p; currentChunkLength_ := currentChunkLength_ p;
     remainContentLength_ := 0; stopWorking_ := stopWorking_ p; wire := wire p |}.

(** The deleter of [makeRequestForPool]: a request nobody uses goes back to the pool. *)
Definition recycle (r : HttpRequestImpl) (p : HttpRequestParser) : HttpRequestParser :=
  {| status_ := status_ p; request_ := request_ p; requestsPool_ := requestsPool_ p ++ [reset_request r];
     requestsCounter_ := requestsCounter_ p; currentChunkLength_ := currentChunkLength_ p;
     remainContentLength_ := remainContentLength_ p; stopWorking_ := stopWorking_ p; wire := wire p |}.

(** The parser of a new connection, after the [reset] of [onConnection]. *)
Definition new_parser : HttpRequestParser :=
  {| status_ := kExpectMethod; request_ := new_request; requestsPool_ := []; requestsCounter_ := 0;
     currentChunkLength_ := 0; remainContentLength_ := 0; stopWorking_ := false; wire := [] |}.

(** ** The request line *)

(** Where the path starts in the request target. *)
Definition path_start (target : list Z) : nat :=
  let slash := find 47 target in
  if (0 <? slash)%nat && (slash + 1 <? length target)%nat && (nth (slash + 1) target 0 =? 47)
  then slash + 2 + find 47 (drop (slash + 2) target)
  else slash.

Definition processRequestLine (line : list Z) (r : HttpRequestImpl) : HttpRequestImpl * bool :=
  let space := find 32 line in
  if (space =? length line)%nat then (r, false) else
  let target := take space line in
  let slash := path_start target in
  let question := (slash + find 63 (drop slash target))%nat in
  let r := if (slash =? space)%nat then setPath_string (str "/") r
           else setPath (slice slash (question - slash) target) r in
  let r := if (question =? space)%nat then r else setQuery (drop (question + 1) target) r in
  let rest := drop (space + 1) line in
  if (length rest =? 8)%nat && bool_decide (take 7 rest = str "HTTP/1.") then
    let digit := nth 7 rest 0 in
    if digit =? 49 then (setVersion kHttp11 r, true)
    else if digit =? 48 then (setVersion kHttp10 r, true)
    else (r, false)
  else (r, false).

(** ** [parseRequest] *)

(** How one round of the loop ends: the next round, a return, an exception,
    or an access outside the input buffer. *)
Inductive round (B : Type) :=
| HContinue (p : HttpRequestParser) (b : B)
| HReturn (res : Z) (p : HttpRequestParser) (b : B)
| HThrow (p : HttpRequestParser) (b : B)
| HOutside (p : HttpRequestParser).
Arguments HContinue {B}.
Arguments HReturn {B}.
Arguments HThrow {B}.
Arguments HOutside {B}.

(** The signed offset that adding a [size_t] to a pointer amounts to. *)
Definition offset (z : Z) : Z := let w := wrapU64 z in if w <? 2 ^ 63 then w else w - 2 ^ 64.

Definition LINE_MAX : nat := 64 * 1024.
#[global] Opaque LINE_MAX.

Section Parse.
Context {B : Type} `{ByteQueue B}.
(** [getClientMaxBodySize()] and [getClientMaxMemoryBodySize()] *)
Context (maxBodySize maxMemoryBodySize : Z).

(** The bytes between [peek()] and [beginWrite()]. *)
Definition readable_text (b : B) : list Z := bq_contents b.

Definition expect_method (p : HttpRequestParser) (b : B) : round B :=
  let text := readable_text b in
  let space := find 32 text in
  if (space =? length text)%nat then
    if (7 <? bq_readable b)%nat then HReturn (-400) p b else HReturn 0 p b
  else
    let '(r, ok) := setMethod (take space text) (request_ p) in
    if negb ok then HReturn (-405) (set_request r p) b
    else HContinue (set_parse kExpectRequestLine r p) (bq_retrieve (space + 1) b).

Definition expect_request_line (p : HttpRequestParser) (b : B) : round B :=
  match findCRLF (readable_text b) with
  | None => if (LINE_MAX <=? bq_readable b)%nat then HReturn (-414) p b else HReturn 0 p b
  | Some crlf =>
      let '(r, ok) := processRequestLine (take crlf (readable_text b)) (request_ p) in
      if negb ok then HReturn (-400) (set_request r p) b
      else HContinue (set_parse kExpectHeaders r p) (bq_retrieve (crlf + 2) b)
  end.

(** The framing of the body, from the headers; [inl] is an error. *)
Definition framing (p : HttpRequestParser) : Z + HttpRequestParser :=
  let r := request_ p in
  let len := getHeaderBy (str "content-length") r in
  if bool_decide (len ≠ []) then
    match stoull len with
    | None => inl (-400)
    | Some n =>
        let p := set_chunk (currentChunkLength_ p) n (set_request (set_lengths (Some n) (realContentLength_ r) r) p) in
        inr (set_status (if n =? 0 then kGotAll else kExpectBody) p)
    end
  else
    let encode := getHeaderBy (str "transfer-encoding") r in
    if bool_decide (encode = []) then inr (set_status kGotAll p)
    else if bool_decide (encode = str "chunked") then inr (set_status kExpectChunkLen p)
    else inl (-501).

(** [expect: 100-continue] asks for an interim response. *)
Definition check_expect (p : HttpRequestParser) : Z + HttpRequestParser :=
  let e := expect (request_ p) in
  if bool_decide (e = str "100-continue") && match version_ (request_ p) with kHttp11 => true | _ => false end then
    if remainContentLength_ p =? 0 then inl (-400) else inr (emit Continue100 p)
  else if bool_decide (e ≠ []) then inl (-417)
  else inr p.

(** The empty line after the headers. *)
Definition end_of_headers (p : HttpRequestParser) (b : B) : round B :=
  match framing p with
  | inl e => HReturn e p b
  | inr p =>
      if remainContentLength_ p >? maxBodySize then HReturn (-413) p b
      else
        match check_expect p with
        | inl e => HReturn e p b
        | inr p =>
            if remainContentLength_ p =? 0 then HContinue p b
            else HContinue (set_request (reserveBodySize maxMemoryBodySize (remainContentLength_ p) (request_ p)) p) b
        end
  end.

Definition expect_headers (p : HttpRequestParser) (b : B) : round B :=
  match findCRLF (readable_text b) with
  | None => if (LINE_MAX <=? bq_readable b)%nat then HReturn (-400) p b else HReturn 0 p b
  | Some crlf =>
      let line := take crlf (readable_text b) in
      let colon := find 58 line in
      let b := bq_retrieve (crlf + 2) b in
      if (colon =? crlf)%nat then end_of_headers p b
      else HContinue (set_request (addHeader line colon (request_ p)) p) b
  end.

(** The [len] bytes at [peek()], [None] when they are not all readable. *)
Definition peek_bytes (len : Z) (b : B) : option (list Z) :=
  if len <=? Z.of_nat (bq_readable b) then bq_window 0 (Z.to_nat len) b else None.

(** [request_->appendToBody(buf->peek(), len)], and what follows it. *)
Definition append_body (len : Z) (p : HttpRequestParser) (b : B) (k : HttpRequestParser → round B) : round B :=
  match appendToBody maxMemoryBodySize (peek_bytes len b) len (request_ p) with
  | BOk r => k (set_request r p)
  | BThrow r => HThrow (set_request r p) b
  | BOutside => HOutside p
  end.

Definition expect_body (p : HttpRequestParser) (b : B) : round B :=
  let remain := remainContentLength_ p in
  let n := if remain <=? Z.of_nat (bq_readable b) then remain else Z.of_nat (bq_readable b) in
  let finish (p : HttpRequestParser) (b : B) :=
    if remainContentLength_ p =? 0 then HReturn 1 (count_request (set_status kGotAll p)) b else HReturn 0 p b in
  if n =? 0 then finish p b
  else append_body n p b (λ p,
    finish (set_chunk (currentChunkLength_ p) (wrapU64 (remainContentLength_ p - n)) p) (bq_retrieve (Z.to_nat n) b)).

Definition expect_chunk_len (p : HttpRequestParser) (b : B) : round B :=
  match findCRLF (readable_text b) with
  | None => if (16 + 2 <? bq_readable b)%nat then HReturn (-400) p b else HReturn 0 p b
  | Some crlf =>
      let cur := wrapU64 (strtol16 (take crlf (readable_text b))) in
      let p := set_chunk cur (remainContentLength_ p) p in
      if negb (cur =? 0) && (wrapU64 (cur + remainContentLength_ p) >? maxBodySize) then HReturn (-413) p b
      else HContinue (set_status (if cur =? 0 then kExpectLastEmptyChunk else kExpectChunkBody) p)
             (bq_retrieve (crlf + 2) b)
  end.

(** [*(peek() + off) == c], [None] outside the buffer's memory. *)
Definition byte_is (off c : Z) (b : B) : option bool := (λ x, x =? c) <$> bq_raw b (offset off).

(** [*(peek() + off) == '\r' && *(peek() + off + 1) == '\n'] *)
Definition crlf_at (off : Z) (b : B) : option bool :=
  match byte_is off 13 b with
  | Some true => byte_is (off + 1) 10 b
  | r => r
  end.

Definition expect_chunk_body (p : HttpRequestParser) (b : B) : round B :=
  let cur := currentChunkLength_ p in
  if Z.of_nat (bq_readable b) <? wrapU64 (cur + 2) then HReturn 0 p b else
  match crlf_at cur b with
  | None => HOutside p
  | Some false => HReturn (-400) p b
  | Some true =>
      append_body cur p b (λ p,
        HContinue (set_status kExpectChunkLen (set_chunk 0 (wrapU64 (remainContentLength_ p + cur)) p))
          (bq_retrieve (Z.to_nat (wrapU64 (cur + 2))) b))
  end.

Definition expect_last_chunk (p : HttpRequestParser) (b : B) : round B :=
  if (bq_readable b <? 2)%nat then HReturn 0 p b else
  match crlf_at 0 b with
  | None => HOutside p
  | Some false => HReturn (-400) p b
  | Some true =>
      let r := addHeader_string (str "content-length") (to_string (realContentLength_ (request_ p))) (request_ p) in
      let r := removeHeaderBy (str "transfer-encoding") r in
      HReturn 1 (count_request (set_parse kGotAll r p)) (bq_retrieve 2 b)
  end.

(** One round of the loop. *)
Definition parse_round (p : HttpRequestParser) (b : B) : round B :=
  match status_ p with
  | kExpectMethod => expect_method p b
  | kExpectRequestLine => expect_request_line p b
  | kExpectHeaders => expect_headers p b
  | kExpectBody => expect_body p b
  | kExpectChunkLen => expect_chunk_len p b
  | kExpectChunkBody => expect_chunk_body p b
  | kExpectLastEmptyChunk => expect_last_chunk p b
  | kGotAll => HReturn 1 (count_request p) b
  end.

(** How [parseRequest] ends; the result is [-code], 0 (not ready) or 1 (ready). *)
Inductive parsed :=
| PReturned (res : Z) (p : HttpRequestParser) (b : B)
| PThrew (p : HttpRequestParser) (b : B)
| POutside (p : HttpRequestParser).

(** [None]: the fuel ran out. *)
Fixpoint parse_rounds (fuel : nat) (p : HttpRequestParser) (b : B) : option parsed :=
  match fuel with
  | O => None
  | S f =>
      match parse_round p b with
      | HContinue p' b' => parse_rounds f p' b'
      | HReturn res p' b' => Some (PReturned res p' b')
      | HThrow p' b' => Some (PThrew p' b')
      | HOutside p' => Some (POutside p')
      end
  end.

(** A round that goes on consumes bytes, so this is fuel enough. *)
Definition parseRequest (p : HttpRequestParser) (b : B) : option parsed :=
  parse_rounds (S (bq_readable b)) p b.

(** ** [onMessage] *)

(** How [onMessage] leaves the parser and the buffer, with the requests it
    passed to [onRequests]. *)
Inductive received :=
| Received (requests : list HttpRequestImpl) (p : HttpRequestParser) (b : B)
| ReceiveThrew (p : HttpRequestParser) (b : B)
| ReceiveOutside (p : HttpRequestParser).

(** The loop; [requests] has been parsed in earlier rounds. *)
Fixpoint message_loop (fuel : nat) (requests : list HttpRequestImpl) (p : HttpRequestParser) (b : B) : option received :=
  match fuel with
  | O => None
  | S f =>
      if (bq_readable b =? 0)%nat then Some (Received requests p b)
      else if stopWorking_ p then Some (Received [] p (bq_retrieveAll b))
      else
        match parseRequest p b with
        | None => None
        | Some (PThrew p' b') => Some (ReceiveThrew p' b')
        | Some (POutside p') => Some (ReceiveOutside p')
        | Some (PReturned res p' b') =>
            if res <? 0 then
              Some (Received [] (emit ShutdownConn (stop (emit (ErrorResponse (- res)) p'))) (bq_retrieveAll b'))
            else if res =? 0 then Some (Received requests p' b')
            else message_loop f (requests ++ [request_ p']) (reset p') b'
        end
  end.

(** A request takes at least one byte. *)
Definition onMessage (p : HttpRequestParser) (b : B) : option received :=
  message_loop (S (bq_readable b)) [] p b.

(** A segment arrives: the connection appends it to its input buffer and
    calls [onMessage]. *)
Definition on_segment (seg : list Z) (p : HttpRequestParser) (b : B) : option received :=
  match bq_append seg b with Some b' => onMessage p b' | None => None end.

(** All segments in turn, with everything passed to [onRequests]. *)
Fixpoint on_segments (segs : list (list Z)) (p : HttpRequestParser) (b : B)
    : option (list HttpRequestImpl * HttpRequestParser * B) :=
  match segs with
  | [] => Some ([], p, b)
  | seg :: segs' =>
      match on_segment seg p b with
      | Some (Received rs p' b') =>
          match on_segments segs' p' b' with
          | Some (rs', p'', b'') => Some (rs ++ rs', p'', b'')
          | None => None
          end
      | _ => None
      end
  end.
End Parse.

(** ** Reading the buffer *)

Section Facts.
Context {B : Type} `{ByteQueue B}.

Lemma peek_bytes_some len b :
  bq_ok b → 0 ≤ len ≤ Z.of_nat (bq_readable b) →
  peek_bytes len b = Some (take (Z.to_nat len) (bq_contents b)).
Proof.
  intros Hb Hl. unfold peek_bytes. rewrite (proj2 (Z.leb_le _ _)) by lia.
  rewrite bq_readable_spec in Hl by done. by rewrite bq_window_spec by (done || lia).
Qed.

Lemma offset_small z : 0 ≤ z < 2 ^ 63 → offset z = z.
Proof. intros. unfold offset. rewrite wrapU64_small by lia. by rewrite (proj2 (Z.ltb_lt _ _)) by lia. Qed.

Lemma byte_is_some n c b :
  bq_ok b → (n < length (bq_contents b))%nat → Z.of_nat n < 2 ^ 63 →
  byte_is (Z.of_nat n) c b = Some (nth n (bq_contents b) 0 =? c).
Proof.
  intros Hb Hn Hs. unfold byte_is. rewrite offset_small by lia. rewrite bq_raw_spec by done.
  destruct (lookup_lt_is_Some_2 _ _ Hn) as [x Hx]. rewrite Hx. cbn. by erewrite nth_lookup_Some.
Qed.

Lemma crlf_at_some n b :
  bq_ok b → (n + 2 ≤ length (bq_contents b))%nat → Z.of_nat n + 1 < 2 ^ 63 →
  crlf_at (Z.of_nat n) b =
  Some ((nth n (bq_contents b) 0 =? 13) && (nth (S n) (bq_contents b) 0 =? 10)).
Proof.
  intros Hb Hn Hs. unfold crlf_at. rewrite byte_is_some by (done || lia).
  destruct (_ =? 13); [|done]. replace (Z.of_nat n + 1) with (Z.of_nat (S n)) by lia.
  by rewrite byte_is_some by (done || lia).
Qed.

Lemma retrieve_readable n b :
  bq_ok b → bq_ok (bq_retrieve n b) ∧ bq_readable (bq_retrieve n b) = (bq_readable b - n)%nat.
Proof.
  intros Hb. destruct (bq_retrieve_spec n b Hb) as [Hb' E]. split; [done|].
  by rewrite !bq_readable_spec, E, length_drop by done.
Qed.
End Facts.

(** ** What the parser keeps true *)

Section Safety.
Context {B : Type} `{ByteQueue B}.
Context (maxBodySize maxMemoryBodySize : Z).
Context (Hbody : 0 ≤ maxBodySize < 2 ^ 62) (Hmem : 0 ≤ maxMemoryBodySize < 2 ^ 62).

Local Notation body_ok' := (body_ok maxMemoryBodySize).

(** What has been read of the body, per status. *)
Definition body_stage (p : HttpRequestParser) : Prop :=
  let r := request_ p in
  let remain := remainContentLength_ p in
  match status_ p with
  | kExpectMethod | kExpectRequestLine | kExpectHeaders => body_ok' 0 r ∧ remain = 0
  | kExpectBody => ∃ n, body_ok' n r ∧ 0 < remain ∧ n + remain ≤ maxBodySize
  | kExpectChunkLen | kExpectLastEmptyChunk => body_ok' remain r ∧ remain ≤ maxBodySize
  | kExpectChunkBody =>
      body_ok' remain r ∧ remain ≤ maxBodySize ∧
      0 < currentChunkLength_ p < 2 ^ 64 ∧ wrapU64 (currentChunkLength_ p + remain) ≤ maxBodySize
  | kGotAll => ∃ n, body_ok' n r ∧ n ≤ maxBodySize
  end.

(** Method and version are known once their line has been read. *)
Definition line_stage (p : HttpRequestParser) : Prop :=
  match status_ p with
  | kExpectMethod => True
  | kExpectRequestLine => method_ (request_ p) ≠ Invalid
  | _ => method_ (request_ p) ≠ Invalid ∧ version_ (request_ p) ≠ kUnknown
  end.

Definition pool_ok (p : HttpRequestParser) : Prop := Forall (eq new_request) (requestsPool_ p).

Record parser_ok (p : HttpRequestParser) : Prop := {
  po_body : body_stage p; po_line : line_stage p; po_pool : pool_ok p }.

(** A request fit for the handlers. *)
Definition request_ok (r : HttpRequestImpl) : Prop :=
  method_ r ≠ Invalid ∧ version_ r ≠ kUnknown ∧
  realContentLength_ r = Z.of_nat (length (bodyView r)) ∧
  Z.of_nat (length (bodyView r)) ≤ maxBodySize ∧ Z.of_nat (length (content_ r)) ≤ maxMemoryBodySize.

(** The statuses of error responses. *)
Definition error_codes : list Z := [400; 405; 413; 414; 417; 501].

(** The result of a round or of [parseRequest]: an error, not ready (and the
    parser goes on from here), or ready, with a request. *)
Definition result_ok (res : Z) (p : HttpRequestParser) : Prop :=
  (∃ c, c ∈ error_codes ∧ res = - c) ∨
  (res = 0 ∧ parser_ok p ∧ status_ p ≠ kGotAll) ∨
  (res = 1 ∧ request_ok (request_ p) ∧ pool_ok p).

(** The chunk sizes [-1] and [-2], the only ones that can go wrong. *)
Definition negative_chunk (p : HttpRequestParser) : Prop := 2 ^ 64 - 2 ≤ currentChunkLength_ p.

Definition round_ok (p : HttpRequestParser) (b : B) (o : round B) : Prop :=
  match o with
  | HContinue p' b' => parser_ok p' ∧ bq_ok b' ∧ (bq_readable b' < bq_readable b)%nat
  | HReturn res p' b' =>
      result_ok res p' ∧ bq_ok b' ∧ (bq_readable b' ≤ bq_readable b)%nat ∧
      (res = 1 → status_ p = kGotAll ∨ (bq_readable b' < bq_readable b)%nat)
  | HThrow p' _ | HOutside p' => negative_chunk p'
  end.

Lemma return_error c p p' (b : B) :
  c ∈ error_codes → bq_ok b → round_ok p b (HReturn (- c) p' b).
Proof.
  intros Hc Hb. cbn. split_and!; [left; by exists c|done|done|]. intros E. exfalso.
  revert Hc E. unfold error_codes. rewrite !elem_of_cons, elem_of_nil. lia.
Qed.

Lemma return_wait p (b : B) :
  parser_ok p → status_ p ≠ kGotAll → bq_ok b → round_ok p b (HReturn 0 p b).
Proof. intros. cbn. split_and!; [|done|done|done]. right. left. done. Qed.

Lemma body_ok_addHeader n line colon r : body_ok' n r → body_ok' n (addHeader line colon r).
Proof. intros [? ? ? ?]. unfold addHeader. case_decide; by split. Qed.

Lemma processRequestLine_spec line r :
  let '(r', ok) := processRequestLine line r in
  method_ r' = method_ r ∧ (∀ n, body_ok' n r → body_ok' n r') ∧ (ok = true → version_ r' ≠ kUnknown).
Proof.
  unfold processRequestLine, setPath, setPath_string, setQuery, setVersion.
  repeat case_if; cbn; (split; [done|]); (split; [by intros n [? ? ? ?]|]); congruence.
Qed.

Ltac fails c := apply (return_error c); [by apply (bool_decide_unpack _)|done].

Lemma setMethod_spec m r :
  let '(r', ok) := setMethod m r in
  (∀ n, body_ok' n r → body_ok' n r') ∧ (ok = true → method_ r' ≠ Invalid).
Proof. split; [by intros n [? ? ? ?]|]. cbn. by destruct (method_of m). Qed.

Lemma expect_method_ok p b :
  parser_ok p → status_ p = kExpectMethod → bq_ok b → round_ok p b (expect_method p b).
Proof.
  intros Hok Hs Hb. unfold expect_method, readable_text. case_if; [case_if; [fails 400|]|].
  { apply return_wait; [done|by rewrite Hs|done]. }
  destruct Hok as [Hp Hl Hpool]. unfold body_stage in Hp. rewrite Hs in Hp. destruct Hp as [Hbody0 Hr].
  pose proof (setMethod_spec (take (find 32 (bq_contents b)) (bq_contents b)) (request_ p)) as Hm.
  destruct (setMethod _ _) as [r []]; [|fails 405]. destruct Hm as [Hbo Hm].
  destruct (retrieve_readable (find 32 (bq_contents b) + 1) b Hb) as [Hb' E]. cbn. split_and!; [|done|].
  - split; cbn; auto.
  - rewrite E. pose proof (find_le 32 (bq_contents b)). rewrite bq_readable_spec by done. apply Nat.eqb_neq in Heqb0. lia.
Qed.

Lemma expect_request_line_ok p b :
  parser_ok p → status_ p = kExpectRequestLine → bq_ok b → round_ok p b (expect_request_line p b).
Proof.
  intros Hok Hs Hb. unfold expect_request_line, readable_text. destruct (findCRLF _) as [n|] eqn:En; [|case_if; [fails 414|]].
  2: { apply return_wait; [done|by rewrite Hs|done]. }
  destruct Hok as [Hp Hl Hpool]. unfold body_stage in Hp. unfold line_stage in Hl. rewrite Hs in Hp, Hl.
  destruct Hp as [Hbody0 Hr].
  pose proof (processRequestLine_spec (take n (bq_contents b)) (request_ p)) as Hline.
  destruct (processRequestLine _ _) as [r []]; [|fails 400]. destruct Hline as (Hm & Hbo & Hv).
  apply findCRLF_bound in En. rewrite <- bq_readable_spec in En by done.
  destruct (retrieve_readable (n + 2) b Hb) as [Hb' E]. cbn. split_and!; [|done|lia].
  split; cbn; [by auto|split; [congruence|auto]|done].
Qed.

Lemma stoull_range l n : stoull l = Some n → 0 ≤ n < 2 ^ 64.
Proof.
  unfold stoull. destruct (sign _) as [[] l']; repeat case_if; intros [= <-]; apply Z.mod_pos_bound; lia.
Qed.

(** [framing] fails, or knows the length, or leaves an empty or a chunked body. *)
Lemma framing_spec p :
  match framing p with
  | inl e => e = -400 ∨ e = -501
  | inr p' =>
      (∃ n, 0 ≤ n < 2 ^ 64 ∧
         p' = set_status (if n =? 0 then kGotAll else kExpectBody)
                (set_chunk (currentChunkLength_ p) n
                   (set_request (set_lengths (Some n) (realContentLength_ (request_ p)) (request_ p)) p))) ∨
      p' = set_status kGotAll p ∨ p' = set_status kExpectChunkLen p
  end.
Proof.
  unfold framing. case_if.
  - destruct (stoull _) as [n|] eqn:E; [|auto]. left. exists n. split; [by eapply stoull_range|done].
  - repeat case_if; auto.
Qed.

Lemma check_expect_spec p :
  match check_expect p with
  | inl e => e = -400 ∨ e = -417
  | inr p' => p' = p ∨ p' = emit Continue100 p
  end.
Proof. unfold check_expect. repeat case_if; auto. Qed.

(** The framing leaves the parser ready to read a body within the limit. *)
Lemma framing_ok p p' :
  parser_ok p → status_ p = kExpectHeaders → framing p = inr p' → remainContentLength_ p' ≤ maxBodySize →
  parser_ok p' ∧ (remainContentLength_ p' = 0 ∨ status_ p' = kExpectBody).
Proof.
  intros [Hp Hl Hpool] Hs E Hn. pose proof (framing_spec p) as Hf. rewrite E in Hf.
  unfold body_stage in Hp. unfold line_stage in Hl. rewrite Hs in Hp, Hl. destruct Hp as [Hb Hr].
  destruct Hf as [(n & Hrange & ->)|[->| ->]]; cbn in Hn.
  - destruct (Z.eqb_spec n 0) as [->|Hn0].
    + split; [|by left]. split; [|done|done]. exists 0. split; [by destruct Hb|lia].
    + split; [|by right]. split; [|done|done]. exists 0. cbn. split; [by destruct Hb|lia].
  - split; [|by left]. split; [|done|done]. exists 0. split; [done|lia].
  - split; [|by left]. split; [|done|done]. cbn. rewrite Hr. split; [done|lia].
Qed.

Lemma parser_ok_emit a p : parser_ok p → parser_ok (emit a p).
Proof. intros [? ? ?]. by split. Qed.

Lemma parser_ok_reserve n p :
  parser_ok p → status_ p = kExpectBody → parser_ok (set_request (reserveBodySize maxMemoryBodySize n (request_ p)) p).
Proof.
  intros [Hp Hl Hpool] Hs. unfold body_stage in Hp. unfold line_stage in Hl. rewrite Hs in Hp, Hl.
  destruct Hp as (k & Hb & Hr). split; [|unfold line_stage; cbn; rewrite Hs|done].
  - unfold body_stage. cbn. rewrite Hs. exists k. split; [|done]. apply reserve_body_ok; [lia|done].
  - unfold reserveBodySize. repeat case_match; done.
Qed.

Lemma end_of_headers_ok p b b' :
  parser_ok p → status_ p = kExpectHeaders → bq_ok b' → (bq_readable b' < bq_readable b)%nat →
  round_ok p b (end_of_headers maxBodySize maxMemoryBodySize p b').
Proof.
  intros Hok Hs Hb Hlt. unfold end_of_headers.
  assert (Herr : ∀ c q, c ∈ error_codes → round_ok p b (HReturn (- c) q b')).
  { intros c q Hc. destruct (return_error c p q b' Hc Hb) as (? & ? & ? & ?). cbn. split_and!; auto; lia. }
  pose proof (framing_spec p) as Hf. destruct (framing p) as [e|p1] eqn:E1.
  { destruct Hf as [->| ->]; [apply (Herr 400)|apply (Herr 501)]; by apply (bool_decide_unpack _). }
  case_if; [apply (Herr 413); by apply (bool_decide_unpack _)|].
  destruct (framing_ok p p1) as [Hok1 Hst]; [done|done|done|lia|].
  pose proof (check_expect_spec p1) as Hc. destruct (check_expect p1) as [e|p2] eqn:E2.
  { destruct Hc as [->| ->]; [apply (Herr 400)|apply (Herr 417)]; by apply (bool_decide_unpack _). }
  assert (parser_ok p2 ∧ (remainContentLength_ p2 = 0 ∨ status_ p2 = kExpectBody)) as [Hok2 Hst2].
  { destruct Hc as [->| ->]; [done|]. split; [by apply parser_ok_emit|done]. }
  destruct (Z.eqb_spec (remainContentLength_ p2) 0); cbn; (split_and!; [|done|done]); [done|].
  apply parser_ok_reserve; [done|tauto].
Qed.

Lemma expect_headers_ok p b :
  parser_ok p → status_ p = kExpectHeaders → bq_ok b →
  round_ok p b (expect_headers maxBodySize maxMemoryBodySize p b).
Proof.
  intros Hok Hs Hb. unfold expect_headers, readable_text. destruct (findCRLF _) as [n|] eqn:En; [|case_if; [fails 400|]].
  2: { apply return_wait; [done|by rewrite Hs|done]. }
  apply findCRLF_bound in En. rewrite <- bq_readable_spec in En by done.
  destruct (retrieve_readable (n + 2) b Hb) as [Hb' E]. case_if.
  - apply end_of_headers_ok; [done|done|done|lia].
  - destruct Hok as [Hp Hl Hpool]. unfold body_stage in Hp. unfold line_stage in Hl. rewrite Hs in Hp, Hl.
    destruct Hp as [Hb0 Hr]. cbn. split_and!; [|done|lia].
    split; [unfold body_stage; cbn; rewrite Hs; split; [by apply body_ok_addHeader|done]
           |unfold line_stage; cbn; rewrite Hs; unfold addHeader; by case_decide|done].
Qed.

(** Appending bytes that are in the buffer succeeds. *)
Lemma append_body_spec p b n len (k : HttpRequestParser → round B) :
  body_ok' n (request_ p) → bq_ok b → 0 ≤ len ≤ Z.of_nat (bq_readable b) → n + len < 2 ^ 64 →
  ∃ r, append_body maxMemoryBodySize len p b k = k (set_request r p) ∧ body_ok' (n + len) r ∧
    flat r = grow (take (Z.to_nat len) (bq_contents b)) (flat (request_ p)) ∧
    method_ r = method_ (request_ p) ∧ version_ r = version_ (request_ p).
Proof.
  intros Hbo Hb Hl Hn. unfold append_body. rewrite peek_bytes_some by done.
  set (d := take (Z.to_nat len) (bq_contents b)).
  assert (Hd : len = Z.of_nat (length d)).
  { unfold d. rewrite length_take, <- bq_readable_spec by done. lia. }
  destruct (append_body_ok maxMemoryBodySize n d (request_ p)) as (r & E & Hr & Hf).
  { unfold string_max_size. lia. } { done. } { lia. }
  rewrite Hd, E. exists r. split_and!; [done|done|done| |].
  - apply (f_equal method_) in Hf. done.
  - apply (f_equal version_) in Hf. done.
Qed.

Lemma request_ok_body n r :
  method_ r ≠ Invalid → version_ r ≠ kUnknown → body_ok' n r → n ≤ maxBodySize → request_ok r.
Proof. intros ? ? [? ? ? ?] ?. unfold request_ok. split_and!; [done|done|lia|lia|done]. Qed.

Lemma expect_body_ok p b :
  parser_ok p → status_ p = kExpectBody → bq_ok b →
  round_ok p b (expect_body maxMemoryBodySize p b).
Proof.
  intros Hok Hs Hb. pose proof Hok as [Hp Hl Hpool]. unfold body_stage in Hp. unfold line_stage in Hl. rewrite Hs in Hp, Hl.
  destruct Hp as (n & Hbo & Hr & Hn). unfold expect_body.
  set (len := if _ <=? _ then _ else _). assert (Hlen : 0 ≤ len ≤ Z.of_nat (bq_readable b) ∧ len ≤ remainContentLength_ p).
  { unfold len. destruct (Z.leb_spec (remainContentLength_ p) (Z.of_nat (bq_readable b))); lia. }
  destruct (Z.eqb_spec len 0) as [E0|].
  { rewrite (proj2 (Z.eqb_neq _ _)) by lia. apply return_wait; [done|by rewrite Hs|done]. }
  assert (0 ≤ n) by (destruct Hbo; lia).
  edestruct (append_body_spec p b n len) as (r & -> & Hbo' & _ & Hm & Hv); [done|done|lia|lia|].
  cbn [remainContentLength_ currentChunkLength_ set_chunk set_request set_parse].
  rewrite wrapU64_small by lia. destruct (retrieve_readable (Z.to_nat len) b Hb) as [Hb' E].
  destruct (Z.eqb_spec (remainContentLength_ p - len) 0); cbn; (split_and!; [|done|lia|lia]).
  - right. right. split_and!; [done| |done]. eapply (request_ok_body (n + len)); [cbn; rewrite Hm; tauto|cbn; rewrite Hv; tauto|done|lia].
  - right. left. split_and!; [done| |cbn; by rewrite Hs]. split; [|unfold line_stage; cbn; rewrite Hs, Hm, Hv; done|done].
    unfold body_stage. cbn. rewrite Hs. exists (n + len). split; [done|lia].
Qed.

Lemma expect_chunk_len_ok p b :
  parser_ok p → status_ p = kExpectChunkLen → bq_ok b → round_ok p b (expect_chunk_len maxBodySize p b).
Proof.
  intros Hok Hs Hb. unfold expect_chunk_len, readable_text. destruct (findCRLF _) as [n|] eqn:En; [|case_if; [fails 400|]].
  2: { apply return_wait; [done|by rewrite Hs|done]. }
  destruct Hok as [Hp Hl Hpool]. unfold body_stage in Hp. unfold line_stage in Hl. rewrite Hs in Hp, Hl.
  destruct Hp as [Hbo Hr]. apply findCRLF_bound in En. rewrite <- bq_readable_spec in En by done.
  destruct (retrieve_readable (n + 2) b Hb) as [Hb' E].
  set (cur := wrapU64 (strtol16 (take n (bq_contents b)))).
  assert (Hcur : 0 ≤ cur < 2 ^ 64) by (apply Z.mod_pos_bound; lia).
  destruct (Z.eqb_spec cur 0) as [->|Hne]; cbn [negb andb].
  - cbn. split_and!; [by split|done|lia].
  - case_if; [fails 413|]. cbn. split_and!; [|done|lia]. split; [|done|done]. cbn.
    split_and!; [done|done|lia|lia|]. cbn in Heqb0. lia.
Qed.

Lemma expect_chunk_body_ok p b :
  parser_ok p → status_ p = kExpectChunkBody → bq_ok b → Z.of_nat (bq_readable b) < 2 ^ 62 →
  round_ok p b (expect_chunk_body maxMemoryBodySize p b).
Proof.
  intros Hok Hs Hb Hlim. pose proof Hok as [Hp Hl Hpool]. unfold body_stage in Hp. unfold line_stage in Hl. rewrite Hs in Hp, Hl.
  destruct Hp as (Hbo & Hr & Hcur & Hsum). unfold expect_chunk_body.
  set (cur := currentChunkLength_ p) in *. case_if; [apply return_wait; [done|by rewrite Hs|done]|].
  apply Z.ltb_ge in Heqb0. destruct (Z.le_gt_cases (2 ^ 64 - 2) cur) as [Hneg|Hpos].
  { destruct (crlf_at cur b) as [[]|]; [|fails 400|done]. unfold append_body, peek_bytes.
    rewrite (proj2 (Z.leb_gt _ _)) by lia. unfold appendToBody. repeat case_match; done. }
  rewrite wrapU64_small in * by lia.
  assert (Hc : crlf_at cur b = Some ((nth (Z.to_nat cur) (bq_contents b) 0 =? 13)
    && (nth (S (Z.to_nat cur)) (bq_contents b) 0 =? 10))).
  { rewrite <- crlf_at_some by (rewrite <- ?bq_readable_spec by done; done || lia). by rewrite Z2Nat.id by lia. }
  rewrite Hc. case_if; [|fails 400]. assert (0 ≤ remainContentLength_ p) by (destruct Hbo; lia).
  edestruct (append_body_spec p b (remainContentLength_ p) cur) as (r & -> & Hbo' & _ & Hm & Hv); [done|done|lia|lia|].
  destruct (retrieve_readable (Z.to_nat (cur + 2)) b Hb) as [Hb' E]. cbn. split_and!; [|done|lia].
  split; [|unfold line_stage; cbn; rewrite Hm, Hv; done|done].
  cbn. rewrite wrapU64_small in * by lia. split; [done|lia].
Qed.

Lemma expect_last_chunk_ok p b :
  parser_ok p → status_ p = kExpectLastEmptyChunk → bq_ok b → round_ok p b (expect_last_chunk p b).
Proof.
  intros Hok Hs Hb. pose proof Hok as [Hp Hl Hpool]. unfold body_stage in Hp. unfold line_stage in Hl. rewrite Hs in Hp, Hl.
  destruct Hp as (Hbo & Hr). unfold expect_last_chunk. case_if; [apply return_wait; [done|by rewrite Hs|done]|].
  apply Nat.ltb_ge in Heqb0. rewrite (crlf_at_some 0) by (rewrite <- ?bq_readable_spec by done; done || lia).
  case_if; [|fails 400]. destruct (retrieve_readable 2 b Hb) as [Hb' E]. cbn. split_and!; [|done|lia|lia].
  right. right. split_and!; [done| |done].
  eapply (request_ok_body (remainContentLength_ p)); [cbn; tauto|cbn; tauto|by destruct Hbo|lia].
Qed.

Lemma parse_round_ok p b :
  parser_ok p → bq_ok b → Z.of_nat (bq_readable b) < 2 ^ 62 →
  round_ok p b (parse_round maxBodySize maxMemoryBodySize p b).
Proof.
  intros Hok Hb Hlim. unfold parse_round. destruct (status_ p) eqn:Hs.
  - by apply expect_method_ok.
  - by apply expect_request_line_ok.
  - by apply expect_headers_ok.
  - by apply expect_body_ok.
  - by apply expect_chunk_len_ok.
  - by apply expect_chunk_body_ok.
  - by apply expect_last_chunk_ok.
  - destruct Hok as [Hp Hl Hpool]. unfold body_stage in Hp. unfold line_stage in Hl. rewrite Hs in Hp, Hl.
    destruct Hp as (n & Hbo & Hn). cbn. split_and!; [|done|done|by left].
    right. right. split_and!; [done| |done]. by eapply (request_ok_body n); try tauto.
Qed.

(** [parseRequest] always ends, with a result its callers expect. *)
Lemma parse_rounds_ok fuel p b :
  parser_ok p → bq_ok b → Z.of_nat (bq_readable b) < 2 ^ 62 → (bq_readable b < fuel)%nat →
  match parse_rounds maxBodySize maxMemoryBodySize fuel p b with
  | Some (PReturned res p' b') =>
      result_ok res p' ∧ bq_ok b' ∧ (bq_readable b' ≤ bq_readable b)%nat ∧
      (res = 1 → status_ p = kGotAll ∨ (bq_readable b' < bq_readable b)%nat)
  | Some (PThrew p' _) | Some (POutside p') => negative_chunk p'
  | None => False
  end.
Proof.
  revert p b. induction fuel as [|f IH]; intros p b Hok Hb Hlim Hf; [lia|]. cbn [parse_rounds].
  pose proof (parse_round_ok p b Hok Hb Hlim) as Hr. destruct (parse_round _ _ p b) as [p1 b1|res p1 b1|p1 b1|p1]; [|done..].
  destruct Hr as (Hok1 & Hb1 & Hlt). specialize (IH p1 b1 Hok1 Hb1 ltac:(lia) ltac:(lia)).
  destruct (parse_rounds _ _ f p1 b1) as [[res p2 b2| |]|]; [|done..].
  destruct IH as (? & ? & ? & ?). split_and!; [done|done|lia|]. intros _. right. lia.
Qed.

Lemma reset_new p : pool_ok p → request_ (reset p) = new_request.
Proof.
  intros Hpool. cbn. destruct (list.last (requestsPool_ p)) eqn:E; [|done]. apply last_Some_elem_of in E.
  symmetry. by apply (proj1 (List.Forall_forall _ _) Hpool), list_elem_of_In.
Qed.

Lemma reset_pool p : pool_ok p → pool_ok (reset p).
Proof.
  unfold pool_ok. cbn. induction 1 as [|x l Hx Hl IH]; [done|]. cbn. destruct l; [done|by constructor].
Qed.

Lemma reset_ok p : pool_ok p → parser_ok (reset p).
Proof.
  intros Hpool. split; [|done|by apply reset_pool]. unfold body_stage. rewrite reset_new by done.
  split; [apply new_body_ok; lia|done].
Qed.

(** What [onMessage] leaves behind. *)
Definition received_ok (o : option (received (B := B))) : Prop :=
  match o with
  | Some (Received rs p b) =>
      Forall request_ok rs ∧ bq_ok b ∧ (stopWorking_ p = false → parser_ok p ∧ status_ p ≠ kGotAll)
  | Some (ReceiveThrew p _) | Some (ReceiveOutside p) => negative_chunk p
  | None => False
  end.

Lemma message_loop_ok fuel rs p b :
  Forall request_ok rs → (stopWorking_ p = false → parser_ok p ∧ status_ p ≠ kGotAll) → bq_ok b →
  Z.of_nat (bq_readable b) < 2 ^ 62 → (bq_readable b < fuel)%nat →
  received_ok (message_loop maxBodySize maxMemoryBodySize fuel rs p b).
Proof.
  revert rs p b. induction fuel as [|f IH]; intros rs p b Hrs Hp Hb Hlim Hf; [lia|]. cbn [message_loop].
  destruct (Nat.eqb_spec (bq_readable b) 0); [by cbn|].
  destruct (bq_retrieveAll_spec b Hb) as [Hall _].
  destruct (stopWorking_ p) eqn:Est; [cbn; split_and!; [done|done|congruence]|].
  destruct (Hp eq_refl) as [Hok Hgot].
  pose proof (parse_rounds_ok (S (bq_readable b)) p b Hok Hb Hlim ltac:(lia)) as Hr. unfold parseRequest.
  destruct (parse_rounds _ _ _ p b) as [[res p1 b1|p1 b1|p1]|]; [|done..]. destruct Hr as (Hres & Hb1 & Hle & Hlt).
  destruct Hres as [(c & Hc & ->)|[(-> & Hok1 & Hst)|(-> & Hreq & Hpool)]].
  - assert ((- c <? 0) = true) as ->.
    { revert Hc. unfold error_codes. rewrite !elem_of_cons, elem_of_nil. intros. lia. }
    destruct (bq_retrieveAll_spec b1 Hb1) as [? _]. cbn. by split_and!.
  - by cbn.
  - cbn [Z.ltb Z.compare Z.eqb]. apply IH; [|by intros _; split; [apply reset_ok|]|done|lia|destruct (Hlt eq_refl); [done|lia]].
    apply Forall_app_2; [done|by constructor].
Qed.
End Safety.

(** ** The parser of a connection *)

Lemma new_parser_ok maxBodySize maxMemoryBodySize :
  0 ≤ maxMemoryBodySize → parser_ok maxBodySize maxMemoryBodySize new_parser.
Proof. intros. split; [|done|by constructor]. split; [by apply new_body_ok|done]. Qed.

Section Connection.
Context {B : Type} `{ByteQueue B}.
Context (maxBodySize maxMemoryBodySize : Z).

(** The states of a connection before an upgrade, with the requests passed
    to [onRequests] so far: segments arrive, and requests that were answered
    go back to the pool. *)
Inductive connection : HttpRequestParser → B → list HttpRequestImpl → Prop :=
| conn_new b : bq_ok b → bq_contents b = [] → connection new_parser b []
| conn_segment seg p b rs rs' p' b' :
    connection p b rs → Z.of_nat (bq_readable b + length seg) < 2 ^ 62 →
    on_segment maxBodySize maxMemoryBodySize seg p b = Some (Received rs' p' b') →
    connection p' b' (rs ++ rs')
| conn_recycle r p b rs : connection p b rs → connection (recycle r p) b rs.

Context (Hbody : 0 ≤ maxBodySize < 2 ^ 62) (Hmem : 0 ≤ maxMemoryBodySize < 2 ^ 62).

Definition connection_ok (p : HttpRequestParser) (b : B) (rs : list HttpRequestImpl) : Prop :=
  Forall (request_ok maxBodySize maxMemoryBodySize) rs ∧ bq_ok b ∧
  (stopWorking_ p = false → parser_ok maxBodySize maxMemoryBodySize p ∧ status_ p ≠ kGotAll).

Lemma on_segment_ok seg p b rs :
  connection_ok p b rs → Z.of_nat (bq_readable b + length seg) < 2 ^ 62 →
  received_ok maxBodySize maxMemoryBodySize (on_segment maxBodySize maxMemoryBodySize seg p b).
Proof.
  intros (_ & Hb & Hp) Hlim. unfold on_segment. destruct (bq_append_spec seg b Hb) as (b1 & -> & Hb1 & E).
  assert (bq_readable b1 = bq_readable b + length seg)%nat as E1.
  { by rewrite !bq_readable_spec, E, length_app by done. }
  apply message_loop_ok; [done|done|by constructor|done|done|lia|lia].
Qed.

Lemma connection_invariant p b rs : connection p b rs → connection_ok p b rs.
Proof.
  induction 1 as [b Hb E|seg p b rs rs' p' b' _ IH Hlim E|r p b rs _ IH].
  - split_and!; [by constructor|done|]. intros _. split; [|done]. apply new_parser_ok. lia.
  - pose proof (on_segment_ok _ _ _ _ IH Hlim) as Hr. rewrite E in Hr. destruct IH as (Hrs & _ & _), Hr as (? & ? & ?).
    split_and!; [by apply Forall_app_2|done|done].
  - destruct IH as (? & ? & Hp). split_and!; [done|done|]. intros Hst. destruct (Hp Hst) as [[Hb Hl Hpool] ?].
    split; [|done]. split; [done|done|]. apply Forall_app_2; [done|by repeat constructor].
Qed.
End Connection.

(** C7. The parser of a connection is total and safe: in every state the
    connection can get into, for every segment of bytes that arrives next,
    [onMessage] ends; the requests it has passed on have a known method and
    version, a body within the configured limit of which at most the
    configured amount is in memory, and a length that is the body's; and the
    only way to an exception or to an access outside the input buffer is the
    chunk size -1 or -2. *)
Theorem parser_safe {B} `{ByteQueue B} maxBodySize maxMemoryBodySize p (b : B) rs seg :
  0 ≤ maxBodySize < 2 ^ 62 → 0 ≤ maxMemoryBodySize < 2 ^ 62 →
  connection maxBodySize maxMemoryBodySize p b rs →
  Z.of_nat (bq_readable b + length seg) < 2 ^ 62 →
  match on_segment maxBodySize maxMemoryBodySize seg p b with
  | Some (Received rs' p' b') =>
      connection maxBodySize maxMemoryBodySize p' b' (rs ++ rs') ∧
      Forall (request_ok maxBodySize maxMemoryBodySize) (rs ++ rs')
  | Some (ReceiveThrew p' _) | Some (ReceiveOutside p') => negative_chunk p'
  | None => False
  end.
Proof.
  intros Hbody Hmem Hc Hlim. pose proof (connection_invariant _ _ Hbody Hmem _ _ _ Hc) as Hok.
  pose proof (on_segment_ok _ _ Hbody Hmem seg p b rs Hok Hlim) as Hr.
  destruct (on_segment _ _ seg p b) as [[rs' p' b'| |]|] eqn:E; [|done..].
  assert (Hc' : connection maxBodySize maxMemoryBodySize p' b' (rs ++ rs')) by (by econstructor).
  split; [done|]. by apply (connection_invariant _ _ Hbody Hmem _ _ _ Hc').
Qed.

Lemma parser_safe_witness :
  let b := newMsgBuffer 2048 in
  let seg := str "GET / HTTP/1.1" ++ [13; 10; 13; 10] ++ str "PO" in
  match on_segment (2 ^ 20) (2 ^ 16) seg new_parser b with
  | Some (Received rs' p' b') =>
      connection (2 ^ 20) (2 ^ 16) p' b' ([] ++ rs') ∧ Forall (request_ok (2 ^ 20) (2 ^ 16)) ([] ++ rs')
  | Some (ReceiveThrew p' _) | Some (ReceiveOutside p') => negative_chunk p'
  | None => False
  end.
Proof.
  apply (parser_safe (2 ^ 20) (2 ^ 16) new_parser (newMsgBuffer 2048) []).
  - lia.
  - lia.
  - constructor; apply new_ok.
  - vm_compute. reflexivity.
Defined.
