(* ===== verification/HttpDelivery.v ===== *)
(** * Requests arrive as they were sent

    What a client writes (request line, headers, cookies, a body with a
    length or in chunks) and what the parser of HttpParser makes of it, when
    the network cuts the bytes into segments in any way and when requests
    follow each other on the connection.  The proof is against the interface
    of the input buffer. *)

From stdpp Require Import base gmap list strings numbers.
From Stdlib Require Import ZArith Lia.
From S2P Require Import Prelude StaticFiles MsgBuffer WsFrame CDouble HttpRequest HttpParser.

(** ** What a client writes *)

Definition CRLF : list Z := [13; 10].

Definition method_text (m : HttpMethod) : list Z :=
  match m with
  | Get => str "GET" | Post => str "POST" | Head => str "HEAD" | Put => str "PUT"
  | Delete => str "DELETE" | Options => str "OPTIONS" | Patch => str "PATCH" | Invalid => []
  end.

Definition version_text (v : Version) : list Z :=
  match v with kHttp10 => str "HTTP/1.0" | _ => str "HTTP/1.1" end.

(** A chunk: its size in hexadecimal, an extension, the data. *)
Record chunk := { c_size : list Z; c_ext : list Z; c_data : list Z }.

Inductive wire_body :=
| NoBody
| Sized (data : list Z)
| Chunked (cs : list chunk) (last : chunk).

Record wire_request := {
  w_method : HttpMethod;
  w_spelling : list Z;              (* the path, percent-encoded *)
  w_path : list Z;                  (* the path it spells *)
  w_query : option (list Z);
  w_version : Version;
  w_headers : list wire_header;
  w_body : wire_body
}.

Definition target (w : wire_request) : list Z :=
  w_spelling w ++ match w_query w with Some q => 63 :: q | None => [] end.
Definition request_line (w : wire_request) : list Z := target w ++ 32 :: version_text (w_version w).

Definition size_line (c : chunk) : list Z := c_size c ++ c_ext c.
Definition chunk_bytes (c : chunk) : list Z := (size_line c ++ CRLF) ++ (c_data c ++ CRLF).
Definition body_bytes (b : wire_body) : list Z :=
  match b with
  | NoBody => []
  | Sized d => d
  | Chunked cs last => (cs ≫= chunk_bytes) ++ (size_line last ++ CRLF) ++ CRLF
  end.
Definition payload (b : wire_body) : list Z :=
  match b with NoBody => [] | Sized d => d | Chunked cs _ => cs ≫= c_data end.

Definition encode (w : wire_request) : list Z :=
  (method_text (w_method w) ++ [32]) ++ (request_line w ++ CRLF) ++
  (w_headers w ≫= λ h, header_line h ++ CRLF) ++ CRLF ++ body_bytes (w_body w).

(** ** Well-formed requests *)

(** A numeral in a base, and its value. *)
Definition numeral (base : Z) (l : list Z) : Prop :=
  l ≠ [] ∧ Forall (λ c, ∃ d, xdigit c = Some d ∧ d < base) l.
Definition value (base : Z) (l : list Z) : Z :=
  fold_left (λ acc c, acc * base + default 0 (xdigit c)) l 0.

Definition line_ok (l : list Z) : Prop := 10 ∉ l ∧ (length l + 2 ≤ LINE_MAX)%nat.

Definition size_ok (c : chunk) : Prop :=
  numeral 16 (c_size c) ∧ (c_ext c = [] ∨ ∃ e, c_ext c = 59 :: e) ∧ 10 ∉ c_ext c ∧
  (length (size_line c) ≤ 16)%nat ∧ value 16 (c_size c) = Z.of_nat (length (c_data c)).

Definition header_map (w : wire_request) : gmap (list Z) (list Z) := list_to_map (fields (w_headers w)).

(** The headers announce the body that follows. *)
Definition announced (w : wire_request) : Prop :=
  let content_length := header_map w !! str "content-length" in
  let transfer_encoding := header_map w !! str "transfer-encoding" in
  match w_body w with
  | NoBody => content_length = None ∧ transfer_encoding = None
  | Sized d => ∃ n, content_length = Some n ∧ numeral 10 n ∧ value 10 n = Z.of_nat (length d)
  | Chunked cs last =>
      content_length = None ∧ transfer_encoding = Some (str "chunked") ∧
      Forall (λ c, size_ok c ∧ c_data c ≠ []) cs ∧ size_ok last ∧ c_data last = []
  end.

(** No expectation, or one that the server can meet. *)
Definition expectation_ok (w : wire_request) : Prop :=
  last_expect (fields (w_headers w)) = None ∨
  (last_expect (fields (w_headers w)) = Some (str "100-continue") ∧ w_version w = kHttp11 ∧
   ∃ d, w_body w = Sized d ∧ d ≠ []).

Record well_formed (maxBodySize : Z) (w : wire_request) : Prop := {
  wf_method : w_method w ≠ Invalid;
  wf_version : w_version w ≠ kUnknown;
  wf_path : spells (w_spelling w) (w_path w) ∧ ∃ p, w_spelling w = 47 :: p;
  wf_target : 63 ∉ w_spelling w ∧ 32 ∉ target w;
  wf_line : line_ok (request_line w);
  wf_headers : Forall (λ h, header_ok h ∧ line_ok (header_line h)) (w_headers w);
  wf_body : announced w;
  wf_size : Z.of_nat (length (payload (w_body w))) ≤ maxBodySize;
  wf_expect : expectation_ok w
}.

(** ** What the handlers get *)

(** A chunked request looks as if it had a content length. *)
Definition final_headers (w : wire_request) : gmap (list Z) (list Z) :=
  match w_body w with
  | Chunked _ _ =>
      delete (str "transfer-encoding")
        (<[str "content-length" := to_string (Z.of_nat (length (payload (w_body w))))]> (header_map w))
  | _ => header_map w
  end.

Definition expected (w : wire_request) : HttpRequestImpl :=
  {| method_ := w_method w;
     version_ := w_version w;
     headers_ := final_headers w;
     cookies_ := list_to_map (reverse (cookie_pairs (w_headers w)));
     contentLengthHeaderValue_ := match w_body w with Sized d => Some (Z.of_nat (length d)) | _ => None end;
     realContentLength_ := Z.of_nat (length (payload (w_body w)));
     path_ := w_path w;
     originalPath_ := if needUrlDecoding (w_spelling w) then w_spelling w else [];
     query_ := default [] (w_query w);
     cacheFilePtr_ := None;
     expectPtr_ := last_expect (fields (w_headers w));
     content_ := payload (w_body w);
     keepAlive_ := kept_alive (w_version w) (fields (w_headers w))
                     (match w_version w with kHttp10 => false | _ => true end) |}.

(** ** Numerals *)

Lemma digits_numeral base l t acc :
  Forall (λ c, ∃ d, xdigit c = Some d ∧ d < base) l → starts_with_digit base t = false →
  digits base acc (l ++ t) = fold_left (λ acc c, acc * base + default 0 (xdigit c)) l acc.
Proof.
  intros Hl Ht. revert acc. induction Hl as [|c l (d & E & Hd) _ IH]; intros acc; cbn.
  - destruct t as [|c t]; [done|]. cbn in *. destruct (xdigit c); [by rewrite Ht|done].
  - rewrite E. cbn. rewrite (proj2 (Z.ltb_lt _ _)) by done. apply IH.
Qed.

Lemma xdigit_class c d : xdigit c = Some d → isspace c = false ∧ c ≠ 43 ∧ c ≠ 45 ∧ c ≠ 120 ∧ c ≠ 88.
Proof. unfold xdigit, isspace. repeat case_if; intros [=]; lia. Qed.

Lemma numeral_head base l t :
  numeral base l → drop_space (l ++ t) = l ++ t ∧ sign (l ++ t) = (false, l ++ t) ∧ starts_with_digit base (l ++ t) = true.
Proof.
  intros [Hne Hl]. destruct l as [|c l]; [done|]. apply Forall_cons_1 in Hl as [(d & E & Hd) _].
  destruct (xdigit_class _ _ E) as (H1 & H2 & H3 & _). cbn. rewrite H1, E.
  rewrite !(proj2 (Z.eqb_neq _ _)) by done. split_and!; [done|done|]. by apply Z.ltb_lt.
Qed.

Lemma stoull_numeral l : numeral 10 l → 0 ≤ value 10 l < 2 ^ 64 → stoull l = Some (value 10 l).
Proof.
  intros Hl Hv. unfold stoull. destruct (numeral_head 10 l [] Hl) as (H1 & H2 & H3). rewrite app_nil_r in *.
  rewrite H1, H2, H3. destruct Hl as [_ Hl]. pose proof (digits_numeral 10 l [] 0 Hl eq_refl) as E.
  rewrite app_nil_r in E. fold (value 10 l) in E. rewrite E.
  rewrite (proj2 (Z.ltb_lt _ _)) by lia. by rewrite wrapU64_small.
Qed.

Lemma skip_0x_size c : size_ok c → skip_0x (size_line c) = size_line c.
Proof.
  intros ([Hne Hl] & Hext & _). unfold size_line, skip_0x.
  destruct (c_size c) as [|z l]; [done|]. cbn [app]. destruct (l ++ c_ext c) as [|x t] eqn:E; [done|].
  assert (x ≠ 120 ∧ x ≠ 88) as [H1 H2].
  { destruct l as [|x' l]; cbn in E.
    - destruct Hext as [Hx|(e & Hx)]; rewrite Hx in E; [done|]. injection E as <- _. lia.
    - injection E as -> _. apply Forall_cons_1 in Hl as [_ Hl]. apply Forall_cons_1 in Hl as [(d & Hd & _) _].
      by apply xdigit_class in Hd as (_ & _ & _ & ? & ?). }
  by rewrite !(proj2 (Z.eqb_neq x _)), andb_false_r by done.
Qed.

(** The size line of a chunk gives the length of its data. *)
Lemma strtol16_size c :
  size_ok c → Z.of_nat (length (c_data c)) < 2 ^ 62 → strtol16 (size_line c) = Z.of_nat (length (c_data c)).
Proof.
  intros Hc Hlt. pose proof (skip_0x_size c Hc) as Hskip. destruct Hc as (Hnum & Hext & _ & _ & Hv).
  unfold strtol16. destruct (numeral_head 16 _ (c_ext c) Hnum) as (H1 & H2 & _).
  fold (size_line c) in H1, H2. rewrite H1, H2, Hskip. unfold size_line.
  rewrite digits_numeral; [|apply Hnum|by destruct Hext as [->|(e & ->)]].
  fold (value 16 (c_size c)). rewrite Hv. lia.
Qed.

Lemma numeral_no_lf base l : numeral base l → 10 ∉ l.
Proof.
  intros [_ Hl] Hin. apply list_elem_of_In in Hin.
  by apply (proj1 (List.Forall_forall _ _) Hl) in Hin as (d & E & _).
Qed.

Lemma size_line_no_lf c : size_ok c → 10 ∉ size_line c.
Proof.
  intros (Hn & _ & He & _). unfold size_line. rewrite elem_of_app. intros [?|?]; [|done].
  by eapply numeral_no_lf.
Qed.

(** ** One item of the input

    [eats p bs p']: the parser in state [p] takes the bytes [bs] in one
    round, leaving [p'], and waits while they are incomplete. *)

(** What parsing does not touch. *)
Definition same_connection (p p' : HttpRequestParser) : Prop :=
  stopWorking_ p' = stopWorking_ p ∧ requestsPool_ p' = requestsPool_ p ∧
  ∃ k, wire p' = wire p ++ replicate k Continue100.

(** The connection's fields are the same, field by field. *)
Ltac same := split_and!; [done|done|exists 0%nat; symmetry; apply app_nil_r].

Lemma same_connection_refl p : same_connection p p.
Proof. same. Qed.

Lemma same_connection_trans p q r : same_connection p q → same_connection q r → same_connection p r.
Proof.
  intros (? & ? & k & E) (? & ? & k' & E'). split_and!; [congruence|congruence|]. exists (k + k')%nat.
  by rewrite E', E, <- app_assoc, replicate_add.
Qed.

Section Delivery.
Context {B : Type} `{ByteQueue B}.
Context (maxBodySize maxMemoryBodySize : Z).
Context (Hbody : 0 ≤ maxBodySize < 2 ^ 62) (Hmem : 0 ≤ maxMemoryBodySize < 2 ^ 62).

Local Notation round1 := (parse_round (B := B) maxBodySize maxMemoryBodySize).
Local Notation body_ok' := (body_ok maxMemoryBodySize).

Record eats (p : HttpRequestParser) (bs : list Z) (p' : HttpRequestParser) : Prop := {
  eats_some : bs ≠ [];
  eats_same : same_connection p p';
  eats_full b more : bq_ok b → bq_contents b = bs ++ more →
    ∃ b', round1 p b = HContinue p' b' ∧ bq_ok b' ∧ bq_contents b' = more;
  eats_part b rest : bq_ok b → rest ≠ [] → bq_contents b ++ rest = bs → round1 p b = HReturn 0 p b
}.

Lemma retrieve_app (b : B) bs more n :
  bq_ok b → bq_contents b = bs ++ more → n = length bs →
  bq_ok (bq_retrieve n b) ∧ bq_contents (bq_retrieve n b) = more.
Proof.
  intros Hb E ->. destruct (bq_retrieve_spec (length bs) b Hb) as [? E']. split; [done|].
  by rewrite E', E, drop_app_length.
Qed.

Lemma part_length (b : B) rest bs :
  bq_ok b → rest ≠ [] → bq_contents b ++ rest = bs → (bq_readable b < length bs)%nat.
Proof.
  intros Hb Hr <-. rewrite length_app, bq_readable_spec by done. destruct rest; [done|]. cbn. lia.
Qed.

(** Lines: what the parser reads is found with its CR LF, or not at all. *)
Lemma line_found (b : B) l more :
  10 ∉ l → bq_contents b = (l ++ CRLF) ++ more →
  findCRLF (bq_contents b) = Some (length l) ∧ take (length l) (bq_contents b) = l.
Proof.
  intros Hl E. rewrite <- app_assoc in E. rewrite E. split; [by apply findCRLF_app|by rewrite take_app_length].
Qed.

Lemma line_missing (b : B) l rest :
  10 ∉ l → rest ≠ [] → bq_contents b ++ rest = l ++ CRLF → findCRLF (bq_contents b) = None.
Proof. apply findCRLF_partial. Qed.

Lemma method_of_text m : m ≠ Invalid → method_of (method_text m) = m.
Proof. by destruct m. Qed.

Lemma method_text_no_space m : 32 ∉ method_text m.
Proof. apply (bool_decide_unpack _). by destruct m. Qed.

Lemma method_text_length m : (length (method_text m) ≤ 7)%nat.
Proof. destruct m; cbn; lia. Qed.

Lemma eats_method p m :
  status_ p = kExpectMethod → m ≠ Invalid →
  eats p (method_text m ++ [32]) (set_parse kExpectRequestLine (set_method m (request_ p)) p).
Proof.
  intros Hs Hm. split.
  - by destruct m.
  - same.
  - intros b more Hb E. unfold parse_round. rewrite Hs. unfold expect_method, readable_text.
    destruct (retrieve_app b _ more (length (method_text m) + 1) Hb E) as [Hb' E']; [by rewrite length_app|].
    rewrite <- app_assoc in E. rewrite E. cbn [app]. rewrite find_app by apply method_text_no_space.
    rewrite (proj2 (Nat.eqb_neq _ _)) by (rewrite length_app; cbn; lia).
    rewrite take_app_length. unfold setMethod. rewrite method_of_text by done.
    eexists. destruct m; done.
  - intros b rest Hb Hrest E. unfold parse_round. rewrite Hs. unfold expect_method, readable_text.
    pose proof (part_length b rest _ Hb Hrest E) as Hlen. pose proof (method_text_length m) as Hm7.
    rewrite length_app in Hlen. cbn in Hlen.
    assert (Hn : 32 ∉ bq_contents b).
    { destruct (exists_last Hrest) as (rest' & x & ->). rewrite app_assoc in E. apply app_inj_tail in E as [E _].
      intros Hin. apply (method_text_no_space m). rewrite <- E. apply elem_of_app. by left. }
    rewrite find_none, Nat.eqb_refl by done. by rewrite (proj2 (Nat.ltb_ge _ _)) by lia.
Qed.

(** A status that reads one line. *)
Lemma eats_line p l p' :
  10 ∉ l → same_connection p p' →
  (∀ b, findCRLF (bq_contents b) = Some (length l) → take (length l) (bq_contents b) = l →
     round1 p b = HContinue p' (bq_retrieve (length l + 2) b)) →
  (∀ b, findCRLF (bq_contents b) = None → (bq_readable b < length l + 2)%nat → round1 p b = HReturn 0 p b) →
  eats p (l ++ CRLF) p'.
Proof.
  intros Hl Hsame Hfull Hpart. split; [by destruct l|done| |].
  - intros b more Hb E. destruct (line_found b l more Hl E) as [Hf Ht]. rewrite (Hfull b Hf Ht).
    eexists. split; [done|]. apply (retrieve_app b (l ++ CRLF)); [done|done|]. rewrite length_app. cbn. lia.
  - intros b rest Hb Hrest E. apply Hpart; [by eapply line_missing|].
    pose proof (part_length b rest _ Hb Hrest E) as Hlen. rewrite length_app in Hlen. cbn in Hlen. lia.
Qed.

Lemma processRequestLine_ok w r :
  well_formed maxBodySize w → path_ r = [] → originalPath_ r = [] → query_ r = [] →
  processRequestLine (request_line w) r =
  (setVersion (w_version w) (set_target (w_path w)
     (if needUrlDecoding (w_spelling w) then w_spelling w else []) (default [] (w_query w)) r), true).
Proof.
  intros Hw Hp Ho Hq. destruct (wf_path _ _ Hw) as [Hsp (pt & Hsl)], (wf_target _ _ Hw) as [Hqm Hspace].
  pose proof (wf_version _ _ Hw) as Hv. unfold processRequestLine, request_line.
  rewrite find_app by done. rewrite (proj2 (Nat.eqb_neq _ _)) by (rewrite length_app; cbn; lia).
  rewrite take_app_length. assert (Hst : path_start (target w) = 0%nat).
  { unfold path_start, target. by rewrite Hsl. }
  rewrite Hst, drop_0. cbn [Nat.add].
  assert (Hne : (0 =? length (target w))%nat = false) by (unfold target; rewrite Hsl; done). rewrite Hne.
  assert (Hfind : find 63 (target w) = length (w_spelling w)).
  { unfold target. destruct (w_query w); [by apply find_app|]. rewrite app_nil_r. by apply find_none. }
  rewrite Hfind. assert (Hsl2 : slice 0 (length (w_spelling w) - 0) (target w) = w_spelling w).
  { unfold slice, target. by rewrite drop_0, Nat.sub_0_r, take_app_length. }
  rewrite Hsl2. assert (Hpath : setPath (w_spelling w) r = set_target (w_path w)
    (if needUrlDecoding (w_spelling w) then w_spelling w else []) [] r).
  { unfold setPath. destruct (needUrlDecoding _) eqn:Hn; [by rewrite (urlDecode_spells _ _ Hsp), Ho, Hq|].
    by rewrite Hp, Ho, Hq, (spells_plain _ _ Hsp Hn). }
  rewrite Hpath. set (r1 := if (length (w_spelling w) =? length (target w))%nat then _ else _).
  assert (Hr1 : r1 = set_target (w_path w) (if needUrlDecoding (w_spelling w) then w_spelling w else [])
    (default [] (w_query w)) r).
  { unfold r1, target. destruct (w_query w) as [q|]; cbn [default].
    - rewrite (proj2 (Nat.eqb_neq _ _)) by (rewrite length_app; cbn; lia).
      rewrite drop_app_ge by lia. replace (length (w_spelling w) + 1 - length (w_spelling w))%nat with 1%nat by lia. done.
    - by rewrite app_nil_r, Nat.eqb_refl. }
  rewrite Hr1. rewrite drop_app_ge by lia. replace (length (target w) + 1 - length (target w))%nat with 1%nat by lia.
  by destruct (w_version w).
Qed.

(** The request after its first line. *)
Definition lined (w : wire_request) : HttpRequestImpl :=
  setVersion (w_version w) (set_target (w_path w)
    (if needUrlDecoding (w_spelling w) then w_spelling w else []) (default [] (w_query w))
    (set_method (w_method w) new_request)).

Lemma eats_request_line w p :
  well_formed maxBodySize w → status_ p = kExpectRequestLine → request_ p = set_method (w_method w) new_request →
  eats p (request_line w ++ CRLF) (set_parse kExpectHeaders (lined w) p).
Proof.
  intros Hw Hs Hr. destruct (wf_line _ _ Hw) as [Hlf Hmax]. apply eats_line; [done|same| |].
  - intros b Hf Ht. unfold parse_round. rewrite Hs. unfold expect_request_line, readable_text.
    rewrite Hf, Ht, processRequestLine_ok by (done || by rewrite Hr). by rewrite Hr.
  - intros b Hf Hlen. unfold parse_round. rewrite Hs. unfold expect_request_line, readable_text.
    rewrite Hf. by rewrite (proj2 (Nat.leb_gt _ _)) by lia.
Qed.

Lemma eats_header h p :
  header_ok h → line_ok (header_line h) → status_ p = kExpectHeaders →
  eats p (header_line h ++ CRLF) (set_request (add_all [h] (request_ p)) p).
Proof.
  intros Hh [Hlf Hmax] Hs. apply eats_line; [done|same| |].
  - intros b Hf Ht. unfold parse_round. rewrite Hs. unfold expect_headers, readable_text. rewrite Hf, Ht.
    assert (Hc : find 58 (header_line h) = length (header_name h)) by (apply find_app; apply Hh).
    rewrite Hc. rewrite (proj2 (Nat.eqb_neq _ _)) by (unfold header_line; rewrite length_app; cbn; lia).
    by rewrite addHeader_all.
  - intros b Hf Hlen. unfold parse_round. rewrite Hs. unfold expect_headers, readable_text.
    rewrite Hf. by rewrite (proj2 (Nat.leb_gt _ _)) by lia.
Qed.

(** The empty line: what follows it depends on the framing. *)
Lemma eats_end p p' :
  status_ p = kExpectHeaders → same_connection p p' →
  (∀ b, end_of_headers (B := B) maxBodySize maxMemoryBodySize p b = HContinue p' b) → eats p CRLF p'.
Proof.
  intros Hs Hsame He. apply (eats_line p [] p'); [by apply not_elem_of_nil|done| |].
  - intros b Hf Ht. unfold parse_round. rewrite Hs. unfold expect_headers, readable_text. rewrite Hf, Ht. cbn. apply He.
  - intros b Hf Hlen. unfold parse_round. rewrite Hs. unfold expect_headers, readable_text. rewrite Hf.
    change LINE_MAX with (64 * 1024)%nat. by rewrite (proj2 (Nat.leb_gt _ _)) by (cbn [length] in Hlen; lia).
Qed.

Lemma eats_chunk_len c p :
  size_ok c → status_ p = kExpectChunkLen →
  0 ≤ remainContentLength_ p → remainContentLength_ p + Z.of_nat (length (c_data c)) ≤ maxBodySize →
  eats p (size_line c ++ CRLF)
    (set_status (if decide (c_data c = []) then kExpectLastEmptyChunk else kExpectChunkBody)
       (set_chunk (Z.of_nat (length (c_data c))) (remainContentLength_ p) p)).
Proof.
  intros Hc Hs Hr0 Hr. apply eats_line; [by apply size_line_no_lf|same| |].
  - intros b Hf Ht. unfold parse_round. rewrite Hs. unfold expect_chunk_len, readable_text. rewrite Hf, Ht.
    rewrite strtol16_size by (done || lia). rewrite wrapU64_small by lia. cbn [remainContentLength_ set_chunk].
    rewrite wrapU64_small by lia. destruct (c_data c) as [|x d] eqn:E; [done|].
    rewrite <- E in *. rewrite decide_False by (rewrite E; done).
    rewrite (proj2 (Z.eqb_neq _ _)) by (rewrite E; cbn; lia). cbn [negb andb].
    rewrite Z.gtb_ltb, (proj2 (Z.ltb_ge _ _)) by lia. done.
  - intros b Hf Hlen. unfold parse_round. rewrite Hs. unfold expect_chunk_len, readable_text. rewrite Hf.
    destruct Hc as (_ & _ & _ & H16 & _). by rewrite (proj2 (Nat.ltb_ge _ _)) by lia.
Qed.

(** Bytes that are in the buffer are appended to the body. *)
Lemma append_bytes p n d :
  body_ok' n (request_ p) → n + Z.of_nat (length d) < 2 ^ 64 →
  ∃ r, (∀ (b : B) more k, bq_ok b → bq_contents b = d ++ more →
          append_body maxMemoryBodySize (Z.of_nat (length d)) p b k = k (set_request r p)) ∧
    body_ok' (n + Z.of_nat (length d)) r ∧ flat r = grow d (flat (request_ p)).
Proof.
  intros Hbo Hn. destruct (append_body_ok maxMemoryBodySize n d (request_ p)) as (r & E & Hr & Hf).
  { unfold string_max_size. lia. } { done. } { done. }
  exists r. split; [|done]. intros b more k Hb Ec. unfold append_body.
  rewrite peek_bytes_some; [|done|rewrite bq_readable_spec, Ec, length_app by done; lia].
  by rewrite Nat2Z.id, Ec, take_app_length, E.
Qed.

Lemma eats_chunk p d :
  status_ p = kExpectChunkBody → currentChunkLength_ p = Z.of_nat (length d) →
  body_ok' (remainContentLength_ p) (request_ p) →
  remainContentLength_ p + Z.of_nat (length d) ≤ maxBodySize →
  ∃ r, eats p (d ++ CRLF)
         (set_status kExpectChunkLen (set_chunk 0 (remainContentLength_ p + Z.of_nat (length d)) (set_request r p))) ∧
    body_ok' (remainContentLength_ p + Z.of_nat (length d)) r ∧ flat r = grow d (flat (request_ p)).
Proof.
  intros Hs Hcur Hbo Hr. assert (0 ≤ remainContentLength_ p) by (destruct Hbo; lia).
  destruct (append_bytes p (remainContentLength_ p) d Hbo) as (r & Happ & Hbo' & Hf); [lia|].
  exists r. split; [|done]. split; [by destruct d|same| |].
  - intros b more Hb E. unfold parse_round. rewrite Hs. unfold expect_chunk_body. rewrite Hcur.
    assert (Hlen : length (bq_contents b) = (length d + 2 + length more)%nat).
    { rewrite E, !length_app. cbn. lia. }
    rewrite wrapU64_small by lia. rewrite (proj2 (Z.ltb_ge _ _)) by (rewrite bq_readable_spec by done; lia).
    rewrite crlf_at_some by (done || lia).
    destruct (retrieve_app b _ more (length d + 2) Hb E) as [Hb' E']; [rewrite length_app; cbn; lia|].
    rewrite <- app_assoc in E. rewrite E, (app_nth2 d _ _ (n := length d)), (app_nth2 d _ _ (n := S (length d))) by lia.
    rewrite Nat.sub_diag. replace (S (length d) - length d)%nat with 1%nat by lia.
    cbn [nth app CRLF Z.eqb Pos.eqb andb]. rewrite (Happ b (CRLF ++ more)) by done.
    rewrite wrapU64_small by (cbn; lia). eexists. split; [done|].
    by replace (Z.to_nat (Z.of_nat (length d) + 2)) with (length d + 2)%nat by lia.
  - intros b rest Hb Hrest E. unfold parse_round. rewrite Hs. unfold expect_chunk_body. rewrite Hcur.
    pose proof (part_length b rest _ Hb Hrest E) as Hlen. rewrite length_app in Hlen. cbn in Hlen.
    rewrite wrapU64_small by lia. by rewrite (proj2 (Z.ltb_lt _ _)) by lia.
Qed.

(** ** The rest of a request

    [ready p bs r]: the parser in state [p], given the bytes [bs], hands out
    a request that is [r] up to where its body is kept. *)

(** A chunked body is over. *)
Definition finished (r : HttpRequestImpl) : HttpRequestImpl :=
  removeHeaderBy (str "transfer-encoding")
    (addHeader_string (str "content-length") (to_string (realContentLength_ r)) r).

Inductive ready : HttpRequestParser → list Z → HttpRequestImpl → Prop :=
| ready_eats p bs p' bs' r : eats p bs p' → ready p' bs' r → ready p (bs ++ bs') r
| ready_body p d n :
    status_ p = kExpectBody → d ≠ [] → remainContentLength_ p = Z.of_nat (length d) →
    body_ok' n (request_ p) → n + Z.of_nat (length d) < 2 ^ 64 →
    ready p d (grow d (flat (request_ p)))
| ready_last p : status_ p = kExpectLastEmptyChunk → ready p CRLF (finished (flat (request_ p)))
| ready_got p : status_ p = kGotAll → ready p [] (flat (request_ p)).

Local Notation rounds := (parse_rounds (B := B) maxBodySize maxMemoryBodySize).

(** The outcome when all bytes are there, and when some are missing. *)
Definition completes (fuel : nat) (p : HttpRequestParser) (bs : list Z) (r : HttpRequestImpl) : Prop :=
  ∀ b more, bq_ok b → bq_contents b = bs ++ more → (bq_readable b < fuel)%nat →
  ∃ p' b', rounds fuel p b = Some (PReturned 1 p' b') ∧ same_connection p p' ∧
    flat (request_ p') = r ∧ bq_ok b' ∧ bq_contents b' = more.
Definition waits (fuel : nat) (p : HttpRequestParser) (bs : list Z) (r : HttpRequestImpl) : Prop :=
  ∀ b rest, bq_ok b → rest ≠ [] → bq_contents b ++ rest = bs → (bq_readable b < fuel)%nat →
  ∃ p' b', rounds fuel p b = Some (PReturned 0 p' b') ∧ same_connection p p' ∧
    bq_ok b' ∧ ready p' (bq_contents b' ++ rest) r.

Lemma ready_eats_runs p bs p' bs' r fuel :
  eats p bs p' → ready p' bs' r → (∀ f, completes f p' bs' r ∧ waits f p' bs' r) →
  completes fuel p (bs ++ bs') r ∧ waits fuel p (bs ++ bs') r.
Proof.
  intros He Hr IH. assert (Hlen : (0 < length bs)%nat) by (pose proof (eats_some _ _ _ He); destruct bs; cbn; [done|lia]).
  assert (Hstep : ∀ f b more, bq_ok b → bq_contents b = bs ++ more → (bq_readable b < S f)%nat →
    ∃ b', rounds (S f) p b = rounds f p' b' ∧ bq_ok b' ∧ bq_contents b' = more ∧ (bq_readable b' < f)%nat).
  { intros f b more Hb E Hf. destruct (eats_full _ _ _ He b more Hb E) as (b' & Er & Hb' & E').
    exists b'. cbn [parse_rounds]. rewrite Er. split_and!; [done|done|done|].
    rewrite bq_readable_spec in * by done. rewrite E, length_app in Hf. rewrite E'. lia. }
  destruct fuel as [|f]; [split; intros b ?; intros; lia|]. split.
  - intros b more Hb E Hf. rewrite <- app_assoc in E. destruct (Hstep f b _ Hb E Hf) as (b1 & -> & Hb1 & E1 & Hf1).
    destruct (proj1 (IH f) b1 more Hb1 E1 Hf1) as (p2 & b2 & E2 & Hs2 & ?). exists p2, b2. split; [done|].
    split; [|done]. eapply same_connection_trans; [apply He|done].
  - intros b rest Hb Hrest E Hf.
    destruct (app_eq_inv _ _ _ _ E) as [(k & E1 & E2)|(k & E1 & E2)].
    + destruct (Hstep f b k Hb E1 Hf) as (b1 & -> & Hb1 & Eb1 & Hf1).
      destruct (proj2 (IH f) b1 rest) as (p2 & b2 & E3 & Hs2 & ?); [done|done|by rewrite Eb1|done|].
      exists p2, b2. split; [done|]. split; [|done]. eapply same_connection_trans; [apply He|done].
    + destruct k as [|x k].
      * rewrite app_nil_r in E1. cbn in E2. subst rest.
        destruct (Hstep f b []) as (b1 & -> & Hb1 & Eb1 & Hf1); [done|by rewrite app_nil_r|done|].
        destruct (proj2 (IH f) b1 bs') as (p2 & b2 & E3 & Hs2 & ?); [done|done|by rewrite Eb1|done|].
        exists p2, b2. split; [done|]. split; [|done]. eapply same_connection_trans; [apply He|done].
      * exists p, b. cbn [parse_rounds]. rewrite (eats_part _ _ _ He b (x :: k)) by done.
        split_and!; [done|apply same_connection_refl|done|]. rewrite E. by econstructor.
Qed.

Lemma ready_body_runs p d n fuel :
  status_ p = kExpectBody → d ≠ [] → remainContentLength_ p = Z.of_nat (length d) →
  body_ok' n (request_ p) → n + Z.of_nat (length d) < 2 ^ 64 →
  completes fuel p d (grow d (flat (request_ p))) ∧ waits fuel p d (grow d (flat (request_ p))).
Proof.
  intros Hs Hd Hr Hbo Hn. assert (0 ≤ n) by (destruct Hbo; lia).
  destruct fuel as [|f]; [split; intros b ?; intros; lia|]. split.
  - intros b more Hb E Hf. destruct (append_bytes p n d Hbo Hn) as (r & Happ & Hbo' & Hfl).
    cbn [parse_rounds]. unfold parse_round. rewrite Hs. unfold expect_body. rewrite Hr.
    assert (length d ≠ 0)%nat by (by destruct d).
    rewrite (proj2 (Z.leb_le _ _)) by (rewrite bq_readable_spec, E, length_app by done; lia).
    rewrite (proj2 (Z.eqb_neq _ _)) by lia. rewrite (Happ b more) by done.
    cbn [remainContentLength_ set_chunk set_request set_parse]. rewrite Hr, Z.sub_diag.
    destruct (retrieve_app b d more (Z.to_nat (Z.of_nat (length d))) Hb E) as [? ?]; [lia|].
    eexists _, _. split; [reflexivity|]. split_and!; [same|done|done|done].
  - intros b rest Hb Hrest E Hf. set (c := bq_contents b) in *.
    assert (Hlt : (length c < length d)%nat) by (rewrite <- E, length_app; destruct rest; cbn; [done|lia]).
    assert (Hlen : length d = (length c + length rest)%nat) by (by rewrite <- E, length_app).
    destruct (append_bytes p n c Hbo) as (r & Happ & Hbo' & Hfl); [lia|].
    cbn [parse_rounds]. unfold parse_round. rewrite Hs. unfold expect_body. rewrite Hr, bq_readable_spec by done. fold c.
    rewrite (proj2 (Z.leb_gt _ _)) by lia. destruct (Z.eqb_spec (Z.of_nat (length c)) 0) as [E0|E0].
    + rewrite (proj2 (Z.eqb_neq _ _)) by lia. eexists _, _. split; [done|].
      split_and!; [apply same_connection_refl|done|]. fold c. rewrite E. by econstructor.
    + rewrite (Happ b []) by (done || by rewrite app_nil_r).
      cbn [remainContentLength_ set_chunk set_request set_parse]. rewrite Hr, wrapU64_small by lia.
      rewrite (proj2 (Z.eqb_neq _ _)) by lia.
      destruct (retrieve_app b c [] (Z.to_nat (Z.of_nat (length c))) Hb) as [? Ec]; [by rewrite app_nil_r|lia|].
      eexists _, _. split; [done|]. split_and!; [same|done|]. rewrite Ec. cbn [app].
      assert (Hg : grow d (flat (request_ p)) = grow rest (flat r)) by (rewrite Hfl, grow_app; by f_equal).
      rewrite Hg. match goal with |- ready ?q _ _ => change r with (request_ q) end.
      eapply (ready_body _ rest (n + Z.of_nat (length c))); cbn; [done|done|lia|done|lia].
Qed.

(** All bytes are there: the request is handed out.  Some are missing: the
    parser waits for them. *)
Lemma ready_runs p bs r fuel : ready p bs r → completes fuel p bs r ∧ waits fuel p bs r.
Proof.
  intros Hr. revert fuel. induction Hr as [p bs p' bs' r He Hr IH|p d n Hs Hd Hrem Hbo Hn|p Hs|p Hs]; intros fuel.
  - by eapply ready_eats_runs.
  - by eapply ready_body_runs.
  - destruct fuel as [|f]; [split; intros b ?; intros; lia|]. split.
    + intros b more Hb E Hf. assert (Hlen : (2 ≤ bq_readable b)%nat).
      { rewrite bq_readable_spec, E, length_app by done. cbn. lia. }
      cbn [parse_rounds]. unfold parse_round. rewrite Hs. unfold expect_last_chunk.
      rewrite (proj2 (Nat.ltb_ge _ _)) by done.
      rewrite (crlf_at_some 0) by (rewrite <- ?bq_readable_spec by done; done || lia). rewrite E. cbn [app CRLF nth Z.eqb Pos.eqb andb].
      destruct (retrieve_app b CRLF more 2 Hb E) as [? ?]; [done|].
      eexists _, _. split; [reflexivity|]. split_and!; [same|done|done|done].
    + intros b rest Hb Hrest E Hf. pose proof (part_length b rest _ Hb Hrest E) as Hlen. cbn in Hlen.
      cbn [parse_rounds]. unfold parse_round. rewrite Hs. unfold expect_last_chunk.
      rewrite (proj2 (Nat.ltb_lt _ _)) by done. eexists _, _. split; [done|].
      split_and!; [apply same_connection_refl|done|]. rewrite E. by constructor.
  - destruct fuel as [|f]; [split; intros b ?; intros; lia|]. split.
    + intros b more Hb E Hf. cbn [parse_rounds]. unfold parse_round. rewrite Hs.
      eexists _, _. split; [reflexivity|]. split_and!; [same|done|done|done].
    + intros b rest Hb Hrest E. apply app_eq_nil in E as [_ ?]. done.
Qed.

(** ** A whole request *)

Lemma ready_headers hs p rest r :
  Forall (λ h, header_ok h ∧ line_ok (header_line h)) hs → status_ p = kExpectHeaders →
  ready (set_request (add_all hs (request_ p)) p) rest r →
  ready p ((hs ≫= λ h, header_line h ++ CRLF) ++ rest) r.
Proof.
  intros Hhs. revert p. induction Hhs as [|h hs [Hh Hl] _ IH]; intros p Hs Hr.
  - rewrite add_all_nil in Hr. by destruct p.
  - cbn. rewrite <- app_assoc. eapply ready_eats; [by apply eats_header|]. apply IH; [done|].
    cbn [request_ set_request set_parse]. rewrite add_all_app. done.
Qed.

Lemma grow_nil r : grow [] (flat r) = flat r.
Proof. unfold grow, flat, set_content, set_lengths. cbn. by rewrite app_nil_r, Z.add_0_r. Qed.

Lemma ready_chunks cs last p :
  Forall (λ c, size_ok c ∧ c_data c ≠ []) cs → size_ok last → c_data last = [] →
  status_ p = kExpectChunkLen → body_ok' (remainContentLength_ p) (request_ p) →
  remainContentLength_ p + Z.of_nat (length (cs ≫= c_data)) ≤ maxBodySize →
  ready p (body_bytes (Chunked cs last)) (finished (grow (cs ≫= c_data) (flat (request_ p)))).
Proof.
  intros Hcs Hlast Hnil. cbn [body_bytes]. revert p. induction Hcs as [|c cs [Hc Hd] _ IH]; intros p Hs Hbo Hmax.
  - cbn in Hmax |- *. rewrite grow_nil. assert (0 ≤ remainContentLength_ p) by (destruct Hbo; lia).
    eapply ready_eats; [apply eats_chunk_len; [done|done|done|rewrite Hnil; cbn; lia]|].
    rewrite decide_True by done. match goal with |- ready ?q _ _ => change (request_ p) with (request_ q) end.
    by constructor.
  - cbn in Hmax |- *. rewrite length_app in Hmax. assert (0 ≤ remainContentLength_ p) by (destruct Hbo; lia).
    unfold chunk_bytes at 1. rewrite <- !(app_assoc (_ ++ CRLF)).
    eapply ready_eats; [apply eats_chunk_len; [done|done|done|lia]|]. rewrite decide_False by done.
    edestruct (eats_chunk (set_status kExpectChunkBody (set_chunk (Z.of_nat (length (c_data c))) (remainContentLength_ p) p))
      (c_data c)) as (r & He & Hbo' & Hfl); [done|done|done|cbn; lia|].
    eapply ready_eats; [exact He|]. cbn in Hfl. rewrite <- grow_app, <- Hfl.
    match goal with |- ready ?q _ _ => change r with (request_ q) end.
    apply IH; [done|done|cbn; lia].
Qed.

(** The request once its headers have been read. *)
Definition headed (w : wire_request) : HttpRequestImpl :=
  {| method_ := w_method w; version_ := w_version w; headers_ := header_map w;
     cookies_ := list_to_map (reverse (cookie_pairs (w_headers w)));
     contentLengthHeaderValue_ := None; realContentLength_ := 0; path_ := w_path w;
     originalPath_ := if needUrlDecoding (w_spelling w) then w_spelling w else [];
     query_ := default [] (w_query w); cacheFilePtr_ := None;
     expectPtr_ := last_expect (fields (w_headers w)); content_ := [];
     keepAlive_ := kept_alive (w_version w) (fields (w_headers w))
                     (match w_version w with kHttp10 => false | _ => true end) |}.

Lemma headed_add_all w : add_all (w_headers w) (lined w) = headed w.
Proof.
  unfold add_all, lined, headed, set_fields, header_map. cbn. rewrite map_empty_union, map_union_empty.
  f_equal. by destruct (last_expect _).
Qed.

Lemma headed_body_ok w l : body_ok' 0 (set_lengths l 0 (headed w)).
Proof. split; cbn; auto; lia. Qed.

Lemma check_expect_none p : expectPtr_ (request_ p) = None → check_expect p = inr p.
Proof. intros E. unfold check_expect, expect. by rewrite E. Qed.

Lemma check_expect_continue p :
  expectPtr_ (request_ p) = Some (str "100-continue") → version_ (request_ p) = kHttp11 →
  remainContentLength_ p ≠ 0 → check_expect p = inr (emit Continue100 p).
Proof.
  intros E Hv Hr. unfold check_expect, expect. rewrite E, Hv. cbn. by rewrite (proj2 (Z.eqb_neq _ _)) by done.
Qed.

Section After_headers.
Context (w : wire_request) (p : HttpRequestParser).
Context (Hw : well_formed maxBodySize w).
Context (Hs : status_ p = kExpectHeaders) (Hr : request_ p = headed w) (Hrem : remainContentLength_ p = 0).

Lemma no_expectation : (∀ d, w_body w = Sized d → d = []) → expectPtr_ (headed w) = None.
Proof. intros Hd. destruct (wf_expect _ _ Hw) as [?|(_ & _ & d & E & Hne)]; [done|]. by destruct Hne; apply Hd. Qed.

Lemma ready_no_body : w_body w = NoBody → ready p (CRLF ++ []) (expected w).
Proof.
  intros Eb. pose proof (wf_body _ _ Hw) as Ha. unfold announced in Ha. rewrite Eb in Ha. destruct Ha as [Hcl Hte].
  assert (Hf : framing p = inr (set_status kGotAll p)).
  { unfold framing, getHeaderBy. rewrite Hr. cbn [headed headers_]. by rewrite Hcl, Hte. }
  eapply (ready_eats p CRLF (set_status kGotAll p)).
  - apply eats_end; [done|same|]. intros b. unfold end_of_headers. rewrite Hf. cbn [remainContentLength_ set_status set_parse].
    rewrite Hrem. rewrite Z.gtb_ltb, (proj2 (Z.ltb_ge _ _)) by lia. rewrite check_expect_none; [cbn; by rewrite Hrem|].
    cbn. rewrite Hr. apply no_expectation. intros d. by rewrite Eb.
  - assert (expected w = flat (request_ (set_status kGotAll p))) as ->; [|by constructor].
    cbn. rewrite Hr. unfold expected, final_headers. by rewrite Eb.
Qed.

Lemma ready_sized d : w_body w = Sized d → ready p (CRLF ++ d) (expected w).
Proof.
  intros Eb. pose proof (wf_body _ _ Hw) as Ha. unfold announced in Ha. rewrite Eb in Ha. destruct Ha as (l & Hcl & Hnum & Hv).
  pose proof (wf_size _ _ Hw) as Hsz. rewrite Eb in Hsz. cbn [payload] in Hsz.
  set (n := Z.of_nat (length d)) in *. assert (0 ≤ n) by (unfold n; lia).
  set (r1 := set_lengths (Some n) 0 (headed w)).
  set (p1 := set_status (if n =? 0 then kGotAll else kExpectBody) (set_chunk (currentChunkLength_ p) n (set_request r1 p))).
  assert (Hf : framing p = inr p1).
  { unfold framing, getHeaderBy. rewrite Hr. cbn [headed headers_]. rewrite Hcl. change (default [] (Some l)) with l.
    rewrite bool_decide_eq_true_2 by apply Hnum. rewrite stoull_numeral by (done || lia). by rewrite Hv. }
  assert (He : expected w = grow d (flat r1)) by (unfold expected, final_headers, grow; rewrite Eb; done).
  assert (Hend : ∀ b, end_of_headers (B := B) maxBodySize maxMemoryBodySize p b =
    match check_expect p1 with
    | inl e => HReturn e p1 b
    | inr q => if remainContentLength_ q =? 0 then HContinue q b
               else HContinue (set_request (reserveBodySize maxMemoryBodySize (remainContentLength_ q) (request_ q)) q) b
    end).
  { intros b. unfold end_of_headers. rewrite Hf. change (remainContentLength_ p1) with n.
    by rewrite Z.gtb_ltb, (proj2 (Z.ltb_ge _ _)) by lia. }
  assert (Hq : ∃ q, check_expect p1 = inr q ∧ same_connection p q ∧ status_ q = status_ p1 ∧
    request_ q = r1 ∧ remainContentLength_ q = n).
  { destruct (wf_expect _ _ Hw) as [Hx|(Hx & Hver & d' & E' & Hne)].
    - exists p1. rewrite check_expect_none by done. split_and!; [done|same|done|done|done].
    - exists (emit Continue100 p1). rewrite check_expect_continue; [|done|done|].
      + split_and!; [done| |done|done|done]. split_and!; [done|done|by exists 1%nat].
      + rewrite E' in Eb. injection Eb as ->. cbn. unfold n. destruct d; [done|cbn; lia]. }
  destruct Hq as (q & Eq & Hsame & Hsq & Hrq & Hnq). rewrite Eq in Hend. rewrite Hnq, Hrq in Hend.
  destruct (Z.eqb_spec n 0) as [Hn0|Hn0].
  - assert (d = []) as -> by (unfold n in Hn0; destruct d; [done|cbn in Hn0; lia]).
    eapply (ready_eats p CRLF q); [by apply eats_end|]. rewrite He, grow_nil, <- Hrq. constructor. by rewrite Hsq.
  - eapply (ready_eats p CRLF _); [apply eats_end; [done| |exact Hend]; destruct Hsame as (? & ? & ?); by split_and!|].
    rewrite He, <- (flat_reserve maxMemoryBodySize n r1).
    match goal with |- ready ?x _ _ => change (reserveBodySize maxMemoryBodySize n r1) with (request_ x) end.
    eapply (ready_body _ d 0); [cbn; by rewrite Hsq|by intros ->|cbn; by rewrite Hnq| |unfold n in *; lia].
    apply (reserve_body_ok maxMemoryBodySize 0 n r1); [lia|apply headed_body_ok].
Qed.

Lemma ready_chunked cs last :
  w_body w = Chunked cs last → ready p (CRLF ++ body_bytes (Chunked cs last)) (expected w).
Proof.
  intros Eb. pose proof (wf_body _ _ Hw) as Ha. unfold announced in Ha. rewrite Eb in Ha.
  destruct Ha as (Hcl & Hte & Hcs & Hlast & Hnil).
  pose proof (wf_size _ _ Hw) as Hsz. rewrite Eb in Hsz. cbn [payload] in Hsz.
  assert (Hf : framing p = inr (set_status kExpectChunkLen p)).
  { unfold framing, getHeaderBy. rewrite Hr. cbn [headed headers_]. by rewrite Hcl, Hte. }
  eapply (ready_eats p CRLF (set_status kExpectChunkLen p)).
  - apply eats_end; [done|same|]. intros b. unfold end_of_headers. rewrite Hf. cbn [remainContentLength_ set_status set_parse].
    rewrite Hrem. rewrite Z.gtb_ltb, (proj2 (Z.ltb_ge _ _)) by lia. rewrite check_expect_none; [cbn; by rewrite Hrem|].
    cbn. rewrite Hr. apply no_expectation. intros d. by rewrite Eb.
  - assert (expected w = finished (grow (cs ≫= c_data) (flat (request_ (set_status kExpectChunkLen p))))) as ->.
    { cbn. rewrite Hr. unfold expected, final_headers, finished, removeHeaderBy, addHeader_string, set_fields. by rewrite Eb. }
    apply ready_chunks; [done|done|done|done| |cbn; lia]. cbn. rewrite Hrem, Hr. apply (headed_body_ok w None).
Qed.
End After_headers.

(** A parser between two requests. *)
Definition fresh (p : HttpRequestParser) : Prop :=
  status_ p = kExpectMethod ∧ request_ p = new_request ∧ remainContentLength_ p = 0.

Lemma ready_request w p : well_formed maxBodySize w → fresh p → ready p (encode w) (expected w).
Proof.
  intros Hw (Hs & Hr & Hrem). unfold encode.
  eapply ready_eats; [apply eats_method; [done|apply Hw]|].
  eapply ready_eats; [apply eats_request_line; [done|done|by cbn; rewrite Hr]|].
  apply ready_headers; [apply Hw|done|]. cbn [request_ set_parse]. rewrite headed_add_all.
  destruct (w_body w) as [|d|cs last] eqn:Eb.
  - by apply ready_no_body.
  - by apply ready_sized.
  - by apply ready_chunked.
Qed.

(** ** Requests after each other *)

(** [owes p bs rs]: given the bytes [bs], the parser hands out [rs]. *)
Inductive owes : HttpRequestParser → list Z → list HttpRequestImpl → Prop :=
| owes_nil p : fresh p → owes p [] []
| owes_cons p bs r bs' rs :
    ready p bs r → bs ≠ [] → (∀ q, fresh q → owes q bs' rs) → owes p (bs ++ bs') (r :: rs).

Lemma owes_nothing p rs : owes p [] rs → rs = [].
Proof.
  intros Ho. remember [] as l eqn:El in Ho. destruct Ho as [|? bs ? bs' ? _ Hne _]; [done|].
  by apply app_eq_nil in El as [? _].
Qed.

Lemma owes_requests ws p :
  Forall (well_formed maxBodySize) ws → fresh p → owes p (ws ≫= encode) (expected <$> ws).
Proof.
  intros Hws. revert p. induction Hws as [|w ws Hw _ IH]; intros p Hp; cbn; [by constructor|].
  constructor; [by apply ready_request| |done]. unfold encode. by destruct (w_method w).
Qed.

Lemma fresh_reset p : pool_ok p → fresh (reset p).
Proof. intros Hp. split_and!; [done|by apply reset_new|done]. Qed.

Lemma pool_ok_same p p' : same_connection p p' → pool_ok p → pool_ok p'.
Proof. unfold pool_ok. by intros (_ & -> & _). Qed.

(** The connection goes on: nothing but interim responses has been written. *)
Definition alive (p : HttpRequestParser) : Prop := stopWorking_ p = false ∧ pool_ok p ∧ Forall (eq Continue100) (wire p).

Lemma alive_same p p' : same_connection p p' → alive p → alive p'.
Proof.
  intros Hs (? & Hp & ?). pose proof (pool_ok_same _ _ Hs Hp). destruct Hs as (E & _ & k & Ew).
  split_and!; [congruence|done|]. rewrite Ew. apply Forall_app_2; [done|].
  apply Forall_replicate_eq.
Qed.

Lemma alive_reset p : alive p → alive (reset p).
Proof. intros (? & ? & ?). split_and!; [done|by apply reset_pool|done]. Qed.

(** The loop of [onMessage] after a request, and when one is incomplete. *)
Lemma message_loop_next f acc p b p1 b1 :
  bq_readable b ≠ 0%nat → stopWorking_ p = false →
  parseRequest maxBodySize maxMemoryBodySize p b = Some (PReturned 1 p1 b1) →
  message_loop maxBodySize maxMemoryBodySize (S f) acc p b =
  message_loop maxBodySize maxMemoryBodySize f (acc ++ [request_ p1]) (reset p1) b1.
Proof. intros Hn Hst E. cbn [message_loop]. by rewrite (proj2 (Nat.eqb_neq _ _)), Hst, E by done. Qed.

Lemma message_loop_wait f acc p b p1 b1 :
  bq_readable b ≠ 0%nat → stopWorking_ p = false →
  parseRequest maxBodySize maxMemoryBodySize p b = Some (PReturned 0 p1 b1) →
  message_loop maxBodySize maxMemoryBodySize (S f) acc p b = Some (Received acc p1 b1).
Proof. intros Hn Hst E. cbn [message_loop]. by rewrite (proj2 (Nat.eqb_neq _ _)), Hst, E by done. Qed.

(** What a call of [onMessage] has done when [future] is still to come. *)
Definition delivers (fuel : nat) (acc : list HttpRequestImpl) (p : HttpRequestParser) (b : B)
    (future : list Z) (rs : list HttpRequestImpl) : Prop :=
  ∃ got left p' b', message_loop maxBodySize maxMemoryBodySize fuel acc p b = Some (Received (acc ++ got) p' b') ∧
    rs = (flat <$> got) ++ left ∧ owes p' (bq_contents b' ++ future) left ∧ alive p' ∧ bq_ok b' ∧
    (future = [] → left = []).

(** Nothing has arrived. *)
Lemma delivers_nothing f acc p b future rs :
  bq_readable b = 0%nat → owes p (bq_contents b ++ future) rs → alive p → bq_ok b → delivers (S f) acc p b future rs.
Proof.
  intros E0 Ho Ha Hb. exists [], rs, p, b. rewrite app_nil_r. split_and!; try done.
  - cbn [message_loop]. by rewrite E0.
  - intros ->. rewrite bq_readable_spec in E0 by done. apply nil_length_inv in E0. rewrite E0 in Ho.
    by apply (owes_nothing p).
Qed.

(** A complete request comes first. *)
Lemma delivers_next f acc p b future bs r k rs :
  ready p bs r → bs ≠ [] → alive p → bq_ok b → bq_contents b = bs ++ k → (bq_readable b < S f)%nat →
  (∀ q acc b', fresh q → alive q → bq_ok b' → bq_contents b' = k → (bq_readable b' < f)%nat →
     delivers f acc q b' future rs) →
  delivers (S f) acc p b future (r :: rs).
Proof.
  intros Hr Hne Ha Hb Ek Hf IH. destruct (ready_runs p bs r (S (bq_readable b)) Hr) as [Hfull _].
  destruct (Hfull b k Hb Ek) as (p1 & b1 & E1 & Hsame & Hfl & Hb1 & Ec1); [lia|].
  pose proof (alive_same _ _ Hsame Ha) as Ha1.
  assert (Hlen : bq_readable b = (length bs + length k)%nat) by (by rewrite bq_readable_spec, Ek, length_app).
  assert (0 < length bs)%nat by (destruct bs; [done|cbn; lia]).
  destruct (IH (reset p1) (acc ++ [request_ p1]) b1) as (got & left & p2 & b2 & E2 & Ers & ?).
  - by apply fresh_reset, Ha1.
  - by apply alive_reset.
  - done.
  - done.
  - rewrite bq_readable_spec, Ec1 by done. lia.
  - exists (request_ p1 :: got), left, p2, b2. split; [|split; [cbn; by rewrite Hfl, Ers|done]].
    rewrite (message_loop_next _ _ _ _ p1 b1), E2, <- app_assoc; [done|lia|apply Ha|done].
Qed.

(** [onMessage] hands out the requests that are complete. *)
Lemma message_loop_delivers fuel acc p bs rs b future :
  owes p bs rs → alive p → bq_ok b → bq_contents b ++ future = bs → (bq_readable b < fuel)%nat →
  delivers fuel acc p b future rs.
Proof.
  intros Ho. revert fuel acc b. induction Ho as [p Hp|p bs r bs' rs Hr Hne Hnext IH]; intros fuel acc b Ha Hb E Hf;
    (destruct fuel as [|f]; [lia|]).
  { apply app_eq_nil in E as [E ->]. apply delivers_nothing; [by rewrite bq_readable_spec, E| |done|done].
    rewrite E. by constructor. }
  destruct (decide (bq_readable b = 0%nat)) as [E0|E0]; [apply delivers_nothing; [done|rewrite E; by constructor|done|done]|].
  assert (Hdone : ∀ k, bq_contents b = bs ++ k → bs' = k ++ future → delivers (S f) acc p b future (r :: rs)).
  { intros k Ek Ek'. eapply delivers_next; [done|done|done|done|exact Ek|done|].
    intros q acc' b' Hq Haq Hb' Ec Hf'. apply (IH q Hq f acc' b' Haq Hb'); [by rewrite Ec|done]. }
  destruct (app_eq_inv _ _ _ _ E) as [(k & E1 & E2)|(k & E1 & E2)]; [by eapply Hdone|].
  destruct k as [|x k]; [eapply (Hdone []); [by rewrite app_nil_r in *|done]|].
  destruct (ready_runs p bs r (S (bq_readable b)) Hr) as [_ Hpart].
  destruct (Hpart b (x :: k) Hb) as (p1 & b1 & Ep & Hsame & Hb1 & Hr1); [done|done|lia|].
  exists [], (r :: rs), p1, b1. rewrite app_nil_r. subst future.
  split_and!; [apply message_loop_wait; [done|apply Ha|done]|done| |by eapply alive_same|done|done].
  rewrite app_assoc. constructor; [done| |done]. by destruct (bq_contents b1).
Qed.

Lemma segments_delivered segs p b bs rs :
  owes p bs rs → alive p → bq_ok b → bq_contents b ++ concat segs = bs → (concat segs = [] → rs = []) →
  ∃ got p' b', on_segments maxBodySize maxMemoryBodySize segs p b = Some (got, p', b') ∧
    flat <$> got = rs ∧ alive p' ∧ bq_ok b' ∧ bq_contents b' = [].
Proof.
  revert p b bs rs. induction segs as [|seg segs IH]; intros p b bs rs Ho Ha Hb E Hend; cbn [on_segments concat] in *.
  - rewrite (Hend eq_refl) in *. inversion Ho; subst. rewrite app_nil_r in *. exists [], p, b. by split_and!.
  - unfold on_segment. destruct (bq_append_spec seg b Hb) as (b0 & -> & Hb0 & E0). unfold onMessage.
    destruct (message_loop_delivers (S (bq_readable b0)) [] p bs rs b0 (concat segs)) as
      (got & left & p1 & b1 & -> & -> & Ho1 & Ha1 & Hb1 & Hend1); [done|done|done|by rewrite E0, <- app_assoc|lia|].
    destruct (IH p1 b1 _ left Ho1 Ha1 Hb1 eq_refl Hend1) as (got' & p2 & b2 & -> & <- & ?).
    exists (got ++ got'), p2, b2. split; [done|]. by rewrite fmap_app.
Qed.
End Delivery.

(** ** Properties *)

(** C6. Every request arrives as it was sent: whatever well-formed requests a
    client writes one after the other on a connection, and however the network
    cuts them into segments, the requests passed on by [onMessage] are exactly
    those, in order.  Each has the method, the decoded path, the query, the
    version, for each field the first value without the white space around
    it, the cookies, the body (sized or chunked, in memory or in a file) and
    the connection's persistence that were sent; a chunked request gets the
    content length of its body.  Nothing is left in the input buffer, no
    error is written, and the parser is ready for the next request. *)
Theorem requests_delivered {B} `{ByteQueue B} maxBodySize maxMemoryBodySize (b : B) ws segs :
  0 ≤ maxBodySize < 2 ^ 62 → 0 ≤ maxMemoryBodySize < 2 ^ 62 →
  bq_ok b → bq_contents b = [] →
  Forall (well_formed maxBodySize) ws → concat segs = ws ≫= encode →
  ∃ got p' b', on_segments maxBodySize maxMemoryBodySize segs new_parser b = Some (got, p', b') ∧
    flat <$> got = expected <$> ws ∧ bq_contents b' = [] ∧
    stopWorking_ p' = false ∧ Forall (eq Continue100) (wire p').
Proof.
  intros Hbody Hmem Hb E Hws Hsegs.
  destruct (segments_delivered maxBodySize maxMemoryBodySize Hmem segs new_parser b (ws ≫= encode) (expected <$> ws))
    as (got & p' & b' & E1 & E2 & Ha & Hb' & E3).
  - by apply owes_requests.
  - split_and!; [done|by constructor|by constructor].
  - done.
  - by rewrite E, <- Hsegs.
  - rewrite Hsegs. intros Hnil. destruct ws as [|w ws]; [done|]. cbn in Hnil.
    apply app_eq_nil in Hnil as [Hnil _]. unfold encode in Hnil. by destruct (w_method w).
  - exists got, p', b'. split_and!; [done|done|done|apply Ha|apply Ha].
Qed.

(** Two requests: a path with an escape, a cookie, two values of one field;
    a body in two chunks. *)
Definition demo_get : wire_request :=
  {| w_method := Get; w_spelling := str "/a%20b"; w_path := str "/a b"; w_query := Some (str "x=1");
     w_version := kHttp11;
     w_headers := [WField (str "Host") [32] (str "x") [32]; WField (str "Tag") [] (str "1") [];
                   WField (str "TAG") [] (str "2") [];
                   WCookies (str "Cookie") [32] [([], str "a", str "b"); ([32], str "c", str "d")] []];
     w_body := NoBody |}.
Definition demo_post : wire_request :=
  {| w_method := Post; w_spelling := str "/up"; w_path := str "/up"; w_query := None; w_version := kHttp10;
     w_headers := [WField (str "Transfer-Encoding") [32] (str "chunked") []];
     w_body := Chunked [{| c_size := str "2"; c_ext := []; c_data := str "hi" |};
                        {| c_size := str "0a"; c_ext := str ";q"; c_data := str "0123456789" |}]
                 {| c_size := str "0"; c_ext := []; c_data := [] |} |}.
Definition demo_bytes : list Z := encode demo_get ++ encode demo_post.
Definition demo_segments : list (list Z) :=
  [take 2 demo_bytes; slice 2 90 demo_bytes; []; slice 92 51 demo_bytes; drop 143 demo_bytes].

(** Closed goals that a computation decides. *)
Ltac decide_it := apply (bool_decide_unpack _); vm_compute; exact I.
Ltac line_it := split; [decide_it|apply Nat.leb_le; vm_compute; reflexivity].

Ltac each tac := repeat (apply List.Forall_cons; [tac|]); apply List.Forall_nil.
Ltac blank_it := unfold blank; decide_it.
Ltac field_it := split; [decide_it|split_and!; [blank_it|blank_it|split; reflexivity|decide_it]].
Ltac cookies_it :=
  split; [decide_it|split_and!; [blank_it|blank_it|split; reflexivity|reflexivity|]];
  each ltac:(split_and!; first [blank_it|decide_it]).
Ltac size_it := split_and!; [split; [discriminate|cbn; each ltac:(eexists; split; [vm_compute; reflexivity|lia])]
                            |solve [left; reflexivity|right; eexists; reflexivity]|decide_it|cbn; lia|reflexivity].

Lemma demo_get_ok : well_formed (2 ^ 20) demo_get.
Proof.
  split.
  - discriminate.
  - discriminate.
  - split; [|by eexists]. change (spells (str "/a%20b") (str "/a b")). cbn.
    do 2 (apply spells_char; [discriminate|discriminate|]). apply (spells_hex _ _ 2 0); [reflexivity|reflexivity|].
    apply spells_char; [discriminate|discriminate|apply spells_nil].
  - split; decide_it.
  - line_it.
  - each ltac:(split; [first [field_it|cookies_it]|line_it]).
  - split; reflexivity.
  - cbn. lia.
  - left. reflexivity.
Qed.

Lemma demo_post_ok : well_formed (2 ^ 20) demo_post.
Proof.
  split.
  - discriminate.
  - discriminate.
  - split; [|by eexists]. change (spells (str "/up") (str "/up")). cbn.
    do 3 (apply spells_char; [discriminate|discriminate|]). apply spells_nil.
  - split; decide_it.
  - line_it.
  - each ltac:(split; [field_it|line_it]).
  - split_and!; [reflexivity|reflexivity| |size_it|reflexivity].
    each ltac:(split; [size_it|discriminate]).
  - cbn. lia.
  - left. reflexivity.
Qed.

Lemma requests_delivered_witness :
  ∃ got p' b', on_segments (2 ^ 20) (2 ^ 16) demo_segments new_parser (newMsgBuffer 2048) = Some (got, p', b') ∧
    flat <$> got = expected <$> [demo_get; demo_post] ∧ bq_contents b' = [] ∧
    stopWorking_ p' = false ∧ Forall (eq Continue100) (wire p').
Proof.
  apply (requests_delivered (2 ^ 20) (2 ^ 16) (newMsgBuffer 2048) [demo_get; demo_post] demo_segments).
  - lia.
  - lia.
  - apply new_ok.
  - apply new_ok.
  - each ltac:(first [apply demo_get_ok|apply demo_post_ok]).
  - vm_compute. reflexivity.
Defined.

(** ** Observations *)

Definition post_chunks (lines : list string) : list Z :=
  str "POST / HTTP/1.1" ++ CRLF ++ str "Transfer-Encoding: chunked" ++ CRLF ++ CRLF ++
  (lines ≫= λ l, str l ++ CRLF).

(** A chunk of size -2 after one of two bytes passes the check of the body
    size, for the sum wraps around, and the check of the chunk's end, for the
    two bytes before its data are CR LF; appending [2^64 - 2] bytes throws
    [std::length_error] out of the event loop. *)
Example chunk_size_minus_two_throws :
  match on_segment (2 ^ 20) (2 ^ 16) (post_chunks ["2"; "ab"; "-2"; ""]%string) new_parser (newMsgBuffer 2048) with
  | Some (ReceiveThrew p _) => currentChunkLength_ p = 2 ^ 64 - 2
  | _ => False
  end.
Proof. vm_compute. reflexivity. Qed.

(** A chunk size that is no number counts as the last chunk. *)
Example chunk_size_not_a_number :
  match on_segment (2 ^ 20) (2 ^ 16) (post_chunks ["2"; "ab"; "xyz"; ""]%string) new_parser (newMsgBuffer 2048) with
  | Some (Received [r] _ _) => bodyView r = str "ab"
  | _ => False
  end.
Proof. vm_compute. reflexivity. Qed.

(** A request that was parsed is dropped when bytes of the same segment are
    in error, and answered when they come in the next one. *)
Example error_drops_earlier_requests :
  let run segs := on_segments (2 ^ 20) (2 ^ 16) segs new_parser (newMsgBuffer 2048) in
  match run [encode demo_get ++ str "BAD "], run [encode demo_get; str "BAD "] with
  | Some (rs, p, _), Some (rs', p', _) =>
      length rs = 0%nat ∧ length rs' = 1%nat ∧
      wire p = [ErrorResponse 405; ShutdownConn] ∧ wire p' = [ErrorResponse 405; ShutdownConn]
  | _, _ => False
  end.
Proof. vm_compute. auto. Qed.
