(* ===== verification/WsClient.v ===== *)
(** * The WebSocket client (src/ws_client.cpp, drogon's WebSocketClientImpl)

    [WebSocketClientImpl] runs on the client loop thread: it connects, upgrades,
    delivers frames, reports the end of a connection and reconnects.  Its
    callbacks carry a client id and queue a [ClientEvent]; the dispatcher hands
    the events to the R hooks on the main thread.  The two threads meet in
    [g_wsClients] and [g_wsClientEvents], both under [g_wsClientMutex], and in
    [stop()], which the main thread calls directly.  They are interleaved at the
    granularity of one callback, one loop task, one handled event, one entry
    point; the accesses of [stop()] are taken as one step. *)

From stdpp Require Import base gmap strings list numbers.
From Stdlib Require Import ZArith Lia Ascii SpecFloat.
From S2P Require Import WsFrame.
From S2P Require Import Prelude CDouble RValue HttpResponse Routes.

(** ** The address of the server: the constructor of WebSocketClientImpl *)

(** [InetAddress]: whether the address bytes are not all zero, and the port. *)
Record InetAddress := { sa_ip_set : bool; sa_port : Z }.
Definition no_address : InetAddress := {| sa_ip_set := false; sa_port := 0 |}.

Record HostSpec := { hs_useSSL : bool; hs_domain : string; hs_addr : InetAddress }.

Definition is_space (c : ascii) : bool := (code c =? 32) || ((9 <=? code c) && (code c <=? 13)).

Fixpoint atoi_digits (acc : Z) (s : string) : Z :=
  match s with
  | String c s' => if is_digit c then atoi_digits (10 * acc + (code c - 48)) s' else acc
  | EmptyString => acc
  end.

(** [atoi], for values that fit an [int]. *)
Fixpoint atoi (s : string) : Z :=
  match s with
  | EmptyString => 0
  | String c s' =>
      if is_space c then atoi s'
      else if code c =? 45 then - atoi_digits 0 s'
      else if code c =? 43 then atoi_digits 0 s'
      else atoi_digits 0 s
  end.

(** [s.find(c)] and the two halves [s.substr(0, pos)], [s.substr(pos + 1)]. *)
Fixpoint split_at (c : ascii) (s : string) : option (string * string) :=
  match s with
  | EmptyString => None
  | String d s' =>
      if Ascii.eqb d c then Some (EmptyString, s')
      else match split_at c s' with Some (a, b) => Some (String d a, b) | None => None end
  end.

Definition before (c : ascii) (s : string) : string :=
  match split_at c s with Some (a, _) => a | None => s end.

(** [s.find(pat) != npos] *)
Fixpoint contains (pat s : string) : bool :=
  String.prefix pat s || match s with String _ s' => contains pat s' | EmptyString => false end.

Definition head_is (c : ascii) (s : string) : bool :=
  match s with String d _ => Ascii.eqb d c | EmptyString => false end.
Definition tail (s : string) : string := match s with String _ s' => s' | EmptyString => EmptyString end.

Section Host.
(** [inet_pton(ipv6 ? AF_INET6 : AF_INET, ip)] gives an address other than
    the all-zero one. *)
Variable inet_pton : bool → string → bool.

Definition inet_address (ipv6 : bool) (ip : string) (port : Z) : InetAddress :=
  {| sa_ip_set := inet_pton ipv6 ip; sa_port := port |}.

Definition port_address (ipv6 : bool) (domain portStr : string) : InetAddress :=
  let port := atoi (before "/"%char portStr) in
  if (0 <? port) && (port <? 65536) then inet_address ipv6 domain port else no_address.

Definition default_port (useSSL : bool) : Z := if useSSL then 443 else 80.

Definition name_port (useSSL : bool) (lowerHost : string) : HostSpec :=
  match split_at ":"%char lowerHost with
  | Some (domain, portStr) =>
      {| hs_useSSL := useSSL; hs_domain := domain; hs_addr := port_address false domain portStr |}
  | None =>
      let domain := before "/"%char lowerHost in
      {| hs_useSSL := useSSL; hs_domain := domain;
         hs_addr := inet_address false domain (default_port useSSL) |}
  end.

Definition host_part (useSSL : bool) (lowerHost : string) : HostSpec :=
  match split_at "]"%char lowerHost with
  | Some (upto, rest) =>
      if head_is "["%char lowerHost then
        let domain := tail upto in
        {| hs_useSSL := useSSL; hs_domain := domain;
           hs_addr := if head_is ":"%char rest then port_address true domain (tail rest)
                      else inet_address true domain (default_port useSSL) |}
      else name_port useSSL lowerHost
  | None => name_port useSSL lowerHost
  end.

Definition parse_host (hostString : string) : HostSpec :=
  let lowerHost := str_tolower hostString in
  if contains "wss://" lowerHost then host_part true (str_drop 6 lowerHost)
  else if contains "ws://" lowerHost then host_part false (str_drop 5 lowerHost)
  else {| hs_useSSL := false; hs_domain := EmptyString; hs_addr := no_address |}.
End Host.

(** ** WebSocketClientImpl *)

Inductive ReqResult :=
| Ok | BadResponse | NetworkFailure | BadServerAddress | Timeout | HandshakeError | InvalidCertificate | EncryptionFailure.
Definition req_code (r : ReqResult) : Z :=
  match r with
  | Ok => 0 | BadResponse => 1 | NetworkFailure => 2 | BadServerAddress => 3
  | Timeout => 4 | HandshakeError => 5 | InvalidCertificate => 6 | EncryptionFailure => 7
  end.

(** [type == WebSocketMessageType::Binary] *)
Definition is_binary (t : WebSocketMessageType) : bool := match t with Binary => true | _ => false end.

(** A TcpClient: trying to connect, owning a connection, or idle after its
    connection went down or could not be made. *)
Inductive TcpClient := Connecting | Established (c : positive) | Idle.

(** A lambda queued on the loop; each holds a strong pointer to the client. *)
Inductive loop_task := LConnect | LSend (data : string) (binary : bool).

(** [im_conns]: the TCP connections that are up with this client's callbacks,
    [true] while [connected()], [false] once a shutdown was asked for.
    [im_resolves], [im_timers]: lookups under way and pending reconnect timers,
    each holding a strong pointer. *)
Record Impl := {
  im_host : HostSpec;
  im_path : string;   (** of the upgrade request *)
  stop_ : bool;
  upgraded_ : bool;
  tcpClientPtr_ : option TcpClient;
  websockConnPtr_ : option positive;
  im_conns : gmap positive bool;
  im_next_conn : positive;
  im_tasks : list loop_task;
  im_resolves : nat;
  im_timers : nat;
  im_sent : list (string * WebSocketMessageType);
}.

Definition new_impl (h : HostSpec) (path : string) : Impl :=
  {| im_host := h; im_path := path; stop_ := false; upgraded_ := false; tcpClientPtr_ := None; websockConnPtr_ := None;
     im_conns := ∅; im_next_conn := 1; im_tasks := []; im_resolves := 0; im_timers := 0; im_sent := [] |}.

Definition set_tcp (t : option TcpClient) (im : Impl) : Impl :=
  {| im_host := im_host im; im_path := im_path im; stop_ := stop_ im; upgraded_ := upgraded_ im; tcpClientPtr_ := t;
     websockConnPtr_ := websockConnPtr_ im; im_conns := im_conns im; im_next_conn := im_next_conn im;
     im_tasks := im_tasks im; im_resolves := im_resolves im; im_timers := im_timers im; im_sent := im_sent im |}.
Definition set_ws (up : bool) (c : option positive) (im : Impl) : Impl :=
  {| im_host := im_host im; im_path := im_path im; stop_ := stop_ im; upgraded_ := up; tcpClientPtr_ := tcpClientPtr_ im;
     websockConnPtr_ := c; im_conns := im_conns im; im_next_conn := im_next_conn im;
     im_tasks := im_tasks im; im_resolves := im_resolves im; im_timers := im_timers im; im_sent := im_sent im |}.
Definition set_conns (m : gmap positive bool) (next : positive) (im : Impl) : Impl :=
  {| im_host := im_host im; im_path := im_path im; stop_ := stop_ im; upgraded_ := upgraded_ im; tcpClientPtr_ := tcpClientPtr_ im;
     websockConnPtr_ := websockConnPtr_ im; im_conns := m; im_next_conn := next;
     im_tasks := im_tasks im; im_resolves := im_resolves im; im_timers := im_timers im; im_sent := im_sent im |}.
Definition set_stop (im : Impl) : Impl :=
  {| im_host := im_host im; im_path := im_path im; stop_ := true; upgraded_ := upgraded_ im; tcpClientPtr_ := tcpClientPtr_ im;
     websockConnPtr_ := websockConnPtr_ im; im_conns := im_conns im; im_next_conn := im_next_conn im;
     im_tasks := im_tasks im; im_resolves := im_resolves im; im_timers := im_timers im; im_sent := im_sent im |}.
Definition set_pending (ts : list loop_task) (resolves timers : nat) (im : Impl) : Impl :=
  {| im_host := im_host im; im_path := im_path im; stop_ := stop_ im; upgraded_ := upgraded_ im; tcpClientPtr_ := tcpClientPtr_ im;
     websockConnPtr_ := websockConnPtr_ im; im_conns := im_conns im; im_next_conn := im_next_conn im;
     im_tasks := ts; im_resolves := resolves; im_timers := timers; im_sent := im_sent im |}.
Definition log_sent (f : string * WebSocketMessageType) (im : Impl) : Impl :=
  {| im_host := im_host im; im_path := im_path im; stop_ := stop_ im; upgraded_ := upgraded_ im; tcpClientPtr_ := tcpClientPtr_ im;
     websockConnPtr_ := websockConnPtr_ im; im_conns := im_conns im; im_next_conn := im_next_conn im;
     im_tasks := im_tasks im; im_resolves := im_resolves im; im_timers := im_timers im;
     im_sent := im_sent im ++ [f] |}.
Definition set_ip (ip_set : bool) (im : Impl) : Impl :=
  {| im_host := {| hs_useSSL := hs_useSSL (im_host im); hs_domain := hs_domain (im_host im);
                   hs_addr := {| sa_ip_set := ip_set; sa_port := sa_port (hs_addr (im_host im)) |} |};
     im_path := im_path im; stop_ := stop_ im; upgraded_ := upgraded_ im; tcpClientPtr_ := tcpClientPtr_ im;
     websockConnPtr_ := websockConnPtr_ im; im_conns := im_conns im; im_next_conn := im_next_conn im;
     im_tasks := im_tasks im; im_resolves := im_resolves im; im_timers := im_timers im; im_sent := im_sent im |}.

(** [conn->shutdown()]: no longer [connected()], until the disconnect. *)
Definition shutdown_conn (c : positive) (im : Impl) : Impl :=
  set_conns (alter (λ _, false) c (im_conns im)) (im_next_conn im) im.

Definition is_connected (c : positive) (im : Impl) : bool :=
  match im_conns im !! c with Some b => b | None => false end.

(** [conn->send(buf, type)] *)
Definition conn_send (c : positive) (f : string * WebSocketMessageType) (im : Impl) : Impl :=
  if is_connected c im then log_sent f im else im.

Definition queue_task (t : loop_task) (im : Impl) : Impl :=
  set_pending (im_tasks im ++ [t]) (im_resolves im) (im_timers im) im.
Definition runAfter_reconnect (im : Impl) : Impl :=
  set_pending (im_tasks im) (im_resolves im) (S (im_timers im)) im.

Definition stop (im : Impl) : Impl :=
  let im := set_stop im in
  let im := match websockConnPtr_ im with
            | Some c => set_ws (upgraded_ im) None (shutdown_conn c im)
            | None => im
            end in
  set_tcp None im.

Definition createTcpClient (im : Impl) : Impl := set_tcp (Some Connecting) im.

(** What the client's callbacks report to the package. *)
Inductive notice := Request (r : ReqResult) | Frame (message : string) (type : WebSocketMessageType) | Closed.

Definition connectToServerInLoop (im : Impl) : Impl * list notice :=
  let a := hs_addr (im_host im) in
  if negb (sa_ip_set a) && negb (String.eqb (hs_domain (im_host im)) EmptyString) && negb (sa_port a =? 0)
  then (set_pending (im_tasks im) (S (im_resolves im)) (im_timers im) im, [])
  else if sa_ip_set a && negb (sa_port a =? 0) then (createTcpClient im, [])
  else (im, [Request BadServerAddress]).

Definition resolved (ip_set : bool) (im : Impl) : Impl * list notice :=
  let im := set_ip ip_set im in
  if ip_set && negb (sa_port (hs_addr (im_host im)) =? 0) then (createTcpClient im, [])
  else (im, [Request BadServerAddress]).

Definition reconnect (im : Impl) : Impl * list notice :=
  connectToServerInLoop (set_ws false None (set_tcp None im)).

(** [onNewMessage] of the upgraded connection, one call per parsed message. *)
Definition on_frame (c : positive) (im : Impl) (f : string * WebSocketMessageType) : Impl :=
  match snd f with
  | Ping => match websockConnPtr_ im with Some w => conn_send w (fst f, Pong) im | None => im end
  | CloseFrame => shutdown_conn c im
  | _ => im
  end.
(** [onNewMessage] returns at a message of unknown type. *)
Fixpoint known (frames : list (string * WebSocketMessageType)) : list (string * WebSocketMessageType) :=
  match frames with
  | [] => []
  | f :: l => match snd f with Unknown => [] | _ => f :: known l end
  end.
Definition onRecvWsMessage (c : positive) (frames : list (string * WebSocketMessageType)) (im : Impl)
    : Impl * list notice :=
  match websockConnPtr_ im with
  | Some _ => (fold_left (on_frame c) (known frames) im, map (λ f, Frame (fst f) (snd f)) (known frames))
  | None => (im, [])
  end.

(** Bytes arrived on connection [c]: before the upgrade they complete the
    handshake response ([Some ok]) or not yet ([None]); [ok] is a parsed
    response with status 101 and the expected accept key.  [frames] are the
    WebSocket messages they complete. *)
Definition onRecvMessage (c : positive) (handshake : option bool) (frames : list (string * WebSocketMessageType))
    (im : Impl) : Impl * list notice :=
  if upgraded_ im then onRecvWsMessage c frames im
  else
    match handshake with
    | None => (im, [])
    | Some false => (set_tcp None (set_ws (upgraded_ im) None (shutdown_conn c im)), [Request BadResponse])
    | Some true =>
        let im := set_ws true (Some c) im in
        let '(im, ns) := onRecvWsMessage c frames im in (im, Request Ok :: ns)
    end.

(** The connection callback with a connection that is down. *)
Definition onDisconnect (c : positive) (im : Impl) : Impl * list notice :=
  let im := set_conns (delete c (im_conns im)) (im_next_conn im) im in
  let im := match tcpClientPtr_ im with
            | Some (Established c') => if decide (c = c') then set_tcp (Some Idle) im else im
            | _ => im
            end in
  let im := set_ws (upgraded_ im) None im in
  (if stop_ im then im else runAfter_reconnect im, [Closed]).

Definition onConnectError (im : Impl) : Impl * list notice :=
  let im := set_tcp (Some Idle) im in
  (if stop_ im then im else runAfter_reconnect im, [Request NetworkFailure]).

Definition onConnected (im : Impl) : Impl :=
  let c := im_next_conn im in
  set_tcp (Some (Established c)) (set_conns (<[c := true]> (im_conns im)) (Pos.succ c) im).

(** What can happen next on the loop thread. *)
Inductive loop_event :=
| RunTask
| ResolveDone (ip_set : bool)
| TimerFires
| TcpUp
| TcpError
| Recv (c : positive) (handshake : option bool) (frames : list (string * WebSocketMessageType))
| Disconnect (c : positive).

Definition run_task (t : loop_task) (im : Impl) : Impl * list notice :=
  match t with
  | LConnect => connectToServerInLoop im
  | LSend data binary =>
      (match websockConnPtr_ im with
       | Some c => conn_send c (data, if binary then Binary else Text) im
       | None => im
       end, [])
  end.

(** One step of the loop thread on a client; [None] when it cannot happen. *)
Definition impl_step (e : loop_event) (im : Impl) : option (Impl * list notice) :=
  match e with
  | RunTask =>
      match im_tasks im with
      | t :: ts => Some (run_task t (set_pending ts (im_resolves im) (im_timers im) im))
      | [] => None
      end
  | ResolveDone ip_set =>
      match im_resolves im with
      | S n => Some (resolved ip_set (set_pending (im_tasks im) n (im_timers im) im))
      | O => None
      end
  | TimerFires =>
      match im_timers im with
      | S n => Some (reconnect (set_pending (im_tasks im) (im_resolves im) n im))
      | O => None
      end
  | TcpUp => match tcpClientPtr_ im with Some Connecting => Some (onConnected im, []) | _ => None end
  | TcpError => match tcpClientPtr_ im with Some Connecting => Some (onConnectError im) | _ => None end
  | Recv c hs frames => if decide (is_Some (im_conns im !! c)) then Some (onRecvMessage c hs frames im) else None
  | Disconnect c => if decide (is_Some (im_conns im !! c)) then Some (onDisconnect c im) else None
  end.

(** ** The package's clients *)

(** A hook is a null pointer ([None]), [R_NilValue] or a closure. *)
Record WsClient := {
  wc_id : Z;
  wc_client : bool;
  wc_loop : bool;
  wc_closing : bool;
  wc_on_message : option SEXP;
  wc_on_open : option SEXP;
  wc_on_close : option SEXP;
}.

Definition set_wc_closing (c : WsClient) : WsClient :=
  {| wc_id := wc_id c; wc_client := wc_client c; wc_loop := wc_loop c; wc_closing := true;
     wc_on_message := wc_on_message c; wc_on_open := wc_on_open c; wc_on_close := wc_on_close c |}.

Inductive ClientEventType := Open | Message | Close.
#[global] Instance ClientEventType_eq_dec : EqDecision ClientEventType.
Proof. solve_decision. Defined.

Record ClientEvent := {
  ce_type : ClientEventType;
  ce_client_id : Z;
  ce_message : string;
  ce_binary : bool;
  ce_reason : string;
  ce_code : Z;
}.

(** [impls]: the WebSocketClientImpl behind each client id; [cl_created] counts
    the clients made; [cl_log] the hook calls made: client, hook kind and
    arguments. *)
Record ClientWorld := {
  g_wsClients : gmap Z WsClient;
  g_wsClientEvents : list ClientEvent;
  g_nextClientId : Z;
  g_wsClientLoop : bool;
  impls : gmap Z Impl;
  cl_notified : nat;
  cl_precious : list SEXP;
  cl_created : Z;
  cl_log : list (Z * ClientEventType * list SEXP);
}.

Definition set_clients (m : gmap Z WsClient) (p : list SEXP) (w : ClientWorld) : ClientWorld :=
  {| g_wsClients := m; g_wsClientEvents := g_wsClientEvents w; g_nextClientId := g_nextClientId w;
     g_wsClientLoop := g_wsClientLoop w; impls := impls w; cl_notified := cl_notified w; cl_precious := p;
     cl_created := cl_created w; cl_log := cl_log w |}.
Definition set_events (l : list ClientEvent) (n : nat) (w : ClientWorld) : ClientWorld :=
  {| g_wsClients := g_wsClients w; g_wsClientEvents := l; g_nextClientId := g_nextClientId w;
     g_wsClientLoop := g_wsClientLoop w; impls := impls w; cl_notified := n; cl_precious := cl_precious w;
     cl_created := cl_created w; cl_log := cl_log w |}.
Definition set_impls (m : gmap Z Impl) (w : ClientWorld) : ClientWorld :=
  {| g_wsClients := g_wsClients w; g_wsClientEvents := g_wsClientEvents w; g_nextClientId := g_nextClientId w;
     g_wsClientLoop := g_wsClientLoop w; impls := m; cl_notified := cl_notified w; cl_precious := cl_precious w;
     cl_created := cl_created w; cl_log := cl_log w |}.
Definition set_loop (b : bool) (w : ClientWorld) : ClientWorld :=
  {| g_wsClients := g_wsClients w; g_wsClientEvents := g_wsClientEvents w; g_nextClientId := g_nextClientId w;
     g_wsClientLoop := b; impls := impls w; cl_notified := cl_notified w; cl_precious := cl_precious w;
     cl_created := cl_created w; cl_log := cl_log w |}.
Definition set_ids (next created : Z) (w : ClientWorld) : ClientWorld :=
  {| g_wsClients := g_wsClients w; g_wsClientEvents := g_wsClientEvents w; g_nextClientId := next;
     g_wsClientLoop := g_wsClientLoop w; impls := impls w; cl_notified := cl_notified w; cl_precious := cl_precious w;
     cl_created := created; cl_log := cl_log w |}.
Definition log_hook (e : Z * ClientEventType * list SEXP) (w : ClientWorld) : ClientWorld :=
  {| g_wsClients := g_wsClients w; g_wsClientEvents := g_wsClientEvents w; g_nextClientId := g_nextClientId w;
     g_wsClientLoop := g_wsClientLoop w; impls := impls w; cl_notified := cl_notified w; cl_precious := cl_precious w;
     cl_created := cl_created w; cl_log := cl_log w ++ [e] |}.

Definition findClient (id : Z) (w : ClientWorld) : option WsClient := g_wsClients w !! id.

(** The event is queued and the dispatcher woken with one byte. *)
Definition enqueueClientEvent (ev : ClientEvent) (w : ClientWorld) : ClientWorld :=
  set_events (g_wsClientEvents w ++ [ev]) (S (cl_notified w)) w.

Definition ensureClientLoop (w : ClientWorld) : ClientWorld := set_loop true w.

Definition wsClientCount (w : ClientWorld) : nat := size (g_wsClients w).

(** The three callbacks [drogonR_ws_connect] installs. *)
Definition event_of (id : Z) (n : notice) : ClientEvent :=
  match n with
  | Frame m t => {| ce_type := Message; ce_client_id := id; ce_message := m; ce_binary := is_binary t;
                    ce_reason := EmptyString; ce_code := 0 |}
  | Closed => {| ce_type := Close; ce_client_id := id; ce_message := EmptyString; ce_binary := false;
                 ce_reason := "closed"; ce_code := 0 |}
  | Request Ok => {| ce_type := Open; ce_client_id := id; ce_message := EmptyString; ce_binary := false;
                     ce_reason := EmptyString; ce_code := 0 |}
  | Request r => {| ce_type := Close; ce_client_id := id; ce_message := EmptyString; ce_binary := false;
                    ce_reason := "connect_failed"; ce_code := req_code r |}
  end.

(** A WebSocketClientImpl lives while [g_wsClients] or work queued on the loop
    points to it; the callbacks of a TcpClient hold a weak pointer. *)
Definition alive (id : Z) (im : Impl) (w : ClientWorld) : bool :=
  bool_decide (is_Some (g_wsClients w !! id)) || negb (Nat.eqb (length (im_tasks im)) 0)
  || negb (Nat.eqb (im_resolves im) 0) || negb (Nat.eqb (im_timers im) 0).

Definition loop_step (id : Z) (e : loop_event) (w : ClientWorld) : option ClientWorld :=
  im ← impls w !! id;
  if alive id im w then
    p ← impl_step e im;
    let '(im', ns) := p in
    Some (fold_left (λ w n, enqueueClientEvent (event_of id n) w) ns (set_impls (<[id := im']> (impls w)) w))
  else None.

(** ** Hooks *)

Definition opt_nil (x : option SEXP) : bool := match x with None | Some R_NilValue => true | _ => false end.

Definition release_client_hook (x : option SEXP) (p : list SEXP) : list SEXP :=
  match x with Some h => if is_nil h then p else R_ReleaseObject h p | None => p end.

(** The client's three pointers become null as well; the object is freed with
    its last pointer. *)
Definition releaseClientHooks (c : WsClient) (p : list SEXP) : list SEXP :=
  release_client_hook (wc_on_close c) (release_client_hook (wc_on_open c) (release_client_hook (wc_on_message c) p)).

(** ** Entry points *)

Section Connect.
Variable inet_pton : bool → string → bool.

Definition closure_or_nil (x : SEXP) : SEXP := if is_closure x then x else R_NilValue.
Definition preserve_closure (x : SEXP) (p : list SEXP) : list SEXP :=
  if is_nil x then p else R_PreserveObject x p.

(** [newWebSocketClient]: [std::make_shared], never a null pointer.  The upgrade
    request is built with it. *)
Definition newWebSocketClient (host path : string) : option Impl :=
  Some (new_impl (parse_host inet_pton host) (if String.eqb path EmptyString then "/" else path)).

(** [drogonR_ws_connect] after the loop and the dispatcher are up: the new
    client's id, or [None] for the failure branch. *)
Definition open_client (host path : string) (on_message_ on_open_ on_close_ : SEXP) (w : ClientWorld)
    : option Z * ClientWorld :=
  let id := g_nextClientId w in
  let w := set_ids (wrapU64 (id + 1)) (cl_created w + 1) w in
  let hm := closure_or_nil on_message_ in
  let ho := closure_or_nil on_open_ in
  let hc := closure_or_nil on_close_ in
  let wc := {| wc_id := id; wc_client := true; wc_loop := true; wc_closing := false;
               wc_on_message := Some hm; wc_on_open := Some ho; wc_on_close := Some hc |} in
  let p := preserve_closure hc (preserve_closure ho (preserve_closure hm (cl_precious w))) in
  match newWebSocketClient host path with
  | None => (None, set_clients (g_wsClients w) (releaseClientHooks wc p) w)
  | Some im =>
      let clients := match g_wsClients w !! id with
                     | Some _ => g_wsClients w
                     | None => <[id := wc]> (g_wsClients w)
                     end in
      (Some id, set_impls (<[id := queue_task LConnect im]> (impls w)) (set_clients clients p w))
  end.
End Connect.

Definition client_send (id : Z) (buf : string) (binary : bool) (w : ClientWorld) : bool * ClientWorld :=
  match findClient id w with
  | Some wc =>
      if wc_closing wc || negb (wc_loop wc) then (false, w)
      else (true, set_impls (alter (queue_task (LSend buf binary)) id (impls w)) w)
  | None => (false, w)
  end.

Definition client_close (id : Z) (w : ClientWorld) : ClientWorld :=
  match findClient id w with
  | Some wc =>
      let w := set_clients (<[id := set_wc_closing wc]> (g_wsClients w)) (cl_precious w) w in
      if wc_client wc then set_impls (alter stop id (impls w)) w else w
  | None => w
  end.

(** ** The main-thread pump *)

(** What the R code of a hook can do to the clients. *)
Inductive client_op :=
| OpConnect (host path : string) (on_message on_open on_close : SEXP)
| OpSend (id : Z) (data : string) (binary : bool)
| OpClose (id : Z).

Section Pump.
Variable inet_pton : bool → string → bool.
(** The calls the R code of a hook makes at its [n]-th call overall. *)
Variable hook_code : nat → SEXP → list SEXP → list client_op.

Definition run_client_op (w : ClientWorld) (op : client_op) : ClientWorld :=
  match op with
  | OpConnect host path m o c => snd (open_client inet_pton host path m o c w)
  | OpSend id data binary => snd (client_send id data binary w)
  | OpClose id => client_close id w
  end.

Definition callClientHook (id : Z) (k : ClientEventType) (hook : option SEXP) (args : list SEXP)
    (w : ClientWorld) : ClientWorld :=
  match hook with
  | Some h => if is_closure h
              then fold_left run_client_op (hook_code (length (cl_log w)) h args) (log_hook (id, k, args) w)
              else w
  | None => w
  end.

Definition hook_for (k : ClientEventType) (wc : WsClient) : option SEXP :=
  match k with Open => wc_on_open wc | Message => wc_on_message wc | Close => wc_on_close wc end.

Definition event_args (ev : ClientEvent) : list SEXP :=
  match ce_type ev with
  | Open => []
  | Message => [mkString (ce_message ev); ScalarLogical (ce_binary ev)]
  | Close => [mkString (ce_reason ev); ScalarInteger (ce_code ev)]
  end.

Definition erase_client (id : Z) (w : ClientWorld) : ClientWorld :=
  match g_wsClients w !! id with
  | Some dead => set_clients (delete id (g_wsClients w)) (releaseClientHooks dead (cl_precious w)) w
  | None => w
  end.

Definition handle_client_event (w : ClientWorld) (ev : ClientEvent) : ClientWorld :=
  let hook := match g_wsClients w !! ce_client_id ev with
              | Some wc => hook_for (ce_type ev) wc
              | None => Some R_NilValue
              end in
  let w := callClientHook (ce_client_id ev) (ce_type ev) hook (event_args ev) w in
  if decide (ce_type ev = Close) then erase_client (ce_client_id ev) w else w.

Definition drainWsClientEvents (w : ClientWorld) : ClientWorld :=
  match g_wsClientEvents w with
  | [] => w
  | batch => fold_left handle_client_event batch (set_events [] (cl_notified w) w)
  end.
End Pump.

(** ** Teardown *)

Definition stop_client (w : ClientWorld) (id : Z) : ClientWorld := client_close id w.

Definition stop_all (w : ClientWorld) : ClientWorld :=
  fold_left stop_client (map fst (map_to_list (g_wsClients w))) w.

(** The loop thread is joined, so nothing runs on it any more; then the hooks
    are released and both tables cleared. *)
Definition finish_shutdown (w : ClientWorld) : ClientWorld :=
  let p := fold_left (λ p kv, releaseClientHooks (snd kv) p) (map_to_list (g_wsClients w)) (cl_precious w) in
  set_events [] (cl_notified w) (set_clients ∅ p (set_impls ∅ (set_loop false w))).

(** [loop_run]: what the loop thread does until it is joined. *)
Definition shutdownWsClients (loop_run : ClientWorld → ClientWorld) (w : ClientWorld) : ClientWorld :=
  finish_shutdown (loop_run (stop_all w)).

(** ** The R entry points

    The host world holds the clients and can bring the dispatcher up; what the
    clients need of it is an interface the server discharges. *)

Class ClientHost (W : Type) := {
  host_clients : W → ClientWorld;
  host_set_clients : ClientWorld → W → W;
  ensureDispatcherRunning : M W unit;
  host_get_set c w : host_clients (host_set_clients c w) = c;
  host_dispatcher_frame w : host_clients (fst (ensureDispatcherRunning w)) = host_clients w;
}.

Section EntryPoints.
Context {W : Type} `{!ClientHost W} `{Platform}.

Definition modify_clients (f : ClientWorld → ClientWorld) : M W unit :=
  modify (λ w, host_set_clients (f (host_clients w)) w).

Definition drogonR_ws_connect (inet_pton : bool → string → bool)
    (host_ path_ on_message_ on_open_ on_close_ : SEXP) : M W SEXP :=
  host ← want_string host_ "host must be a single string";
  path ← want_string path_ "path must be a single string";
  _ ← modify_clients ensureClientLoop;
  _ ← ensureDispatcherRunning;
  w ← get;
  let '(r, cw) := open_client inet_pton (CHAR host) (CHAR path) on_message_ on_open_ on_close_ (host_clients w) in
  _ ← modify (host_set_clients cw);
  match r with
  | Some id => mret (ScalarReal (d_of_Z id))
  | None => raise ("failed to create WebSocket client for host '" +:+ CHAR host +:+ "'")
  end.

Definition want_client_id (x : SEXP) : M W Z :=
  match x with
  | REALSXP [r] _ => mret (d_to_u64 (real_value r))
  | _ => raise "client_id must be a single numeric"
  end.

Definition drogonR_ws_client_send (client_id_ msg_ binary_ : SEXP) : M W SEXP :=
  id ← want_client_id client_id_;
  msg ← want_string msg_ "msg must be a single string";
  w ← get;
  let '(ok, cw) := client_send id (CHAR msg) (lgl_true binary_) (host_clients w) in
  _ ← modify (host_set_clients cw);
  mret (ScalarLogical ok).

Definition drogonR_ws_client_close (client_id_ : SEXP) : M W SEXP :=
  id ← want_client_id client_id_;
  _ ← modify_clients (client_close id);
  mret R_NilValue.

Definition drogonR_ws_shutdown (loop_run : ClientWorld → ClientWorld) : M W SEXP :=
  _ ← modify_clients (shutdownWsClients loop_run);
  mret R_NilValue.
End EntryPoints.

(** [USE_OPENSSL] is a build flag. *)
Definition drogonR_has_ssl (use_openssl : bool) : SEXP := ScalarLogical use_openssl.

(** ** Runs

    A state is the shared world and the events of the batch the main thread is
    going through. *)

Inductive loop_steps : ClientWorld → ClientWorld → Prop :=
| ls_refl w : loop_steps w w
| ls_step id e w w1 w2 : loop_steps w w1 → loop_step id e w1 = Some w2 → loop_steps w w2.

Inductive run_step (inet_pton : bool → string → bool) :
    ClientWorld * list ClientEvent → ClientWorld * list ClientEvent → Prop :=
| s_loop id e w w' b : loop_step id e w = Some w' → run_step inet_pton (w, b) (w', b)
| s_connect host path m o c w b :
    run_step inet_pton (w, b) (snd (open_client inet_pton host path m o c (ensureClientLoop w)), b)
| s_send id data binary w b : run_step inet_pton (w, b) (snd (client_send id data binary w), b)
| s_close id w b : run_step inet_pton (w, b) (client_close id w, b)
| s_swap w : run_step inet_pton (w, []) (set_events [] (cl_notified w) w, g_wsClientEvents w)
| s_handle code ev w b : run_step inet_pton (w, ev :: b) (handle_client_event inet_pton code w ev, b).

Inductive step (inet_pton : bool → string → bool) :
    ClientWorld * list ClientEvent → ClientWorld * list ClientEvent → Prop :=
| s_run s s' : run_step inet_pton s s' → step inet_pton s s'
| s_shutdown w w1 b : loop_steps (stop_all w) w1 → step inet_pton (w, b) (finish_shutdown w1, b).

Definition clients_init (base : list SEXP) : ClientWorld :=
  {| g_wsClients := ∅; g_wsClientEvents := []; g_nextClientId := 1; g_wsClientLoop := false; impls := ∅;
     cl_notified := 0; cl_precious := base; cl_created := 0; cl_log := [] |}.

(** ** Preserved hooks *)

Definition hook_held (x : option SEXP) : list SEXP :=
  match x with Some h => if is_nil h then [] else [h] | None => [] end.
Definition held (c : WsClient) : list SEXP :=
  hook_held (wc_on_message c) ++ hook_held (wc_on_open c) ++ hook_held (wc_on_close c).
Definition all_hooks (m : gmap Z WsClient) : list SEXP := concat (map (λ kv, held (snd kv)) (map_to_list m)).

Lemma release_client_hook_perm x p q : p ≡ₚ hook_held x ++ q → release_client_hook x p ≡ₚ q.
Proof.
  destruct x as [h|]; cbn; [|done]. destruct (is_nil h); cbn; [done|]. apply release_perm.
Qed.

Lemma releaseClientHooks_perm c p q : p ≡ₚ held c ++ q → releaseClientHooks c p ≡ₚ q.
Proof.
  unfold held, releaseClientHooks. rewrite <- !app_assoc. intros Hp.
  repeat apply release_client_hook_perm. done.
Qed.

Lemma all_hooks_insert m i c : m !! i = None → all_hooks (<[i := c]> m) ≡ₚ held c ++ all_hooks m.
Proof.
  intros Hi. unfold all_hooks. rewrite map_to_list_insert by done. cbn. done.
Qed.

Lemma all_hooks_delete m i c : m !! i = Some c → all_hooks m ≡ₚ held c ++ all_hooks (delete i m).
Proof.
  intros Hi. rewrite <- (all_hooks_insert (delete i m) i c) by apply lookup_delete_eq.
  by rewrite insert_delete_id.
Qed.

Lemma all_hooks_update m i c c' :
  m !! i = Some c → held c' = held c → all_hooks (<[i := c']> m) ≡ₚ all_hooks m.
Proof.
  intros Hi Hh. rewrite (all_hooks_delete m i c Hi), <- insert_delete_eq.
  rewrite all_hooks_insert by apply lookup_delete_eq. by rewrite Hh.
Qed.

Lemma release_all_perm (l : list (Z * WsClient)) p q :
  p ≡ₚ concat (map (λ kv, held (snd kv)) l) ++ q →
  fold_left (λ p kv, releaseClientHooks (snd kv) p) l p ≡ₚ q.
Proof.
  revert p. induction l as [|kv l IH]; intros p Hp; cbn; [done|].
  apply IH. apply releaseClientHooks_perm. cbn in Hp. by rewrite <- app_assoc in Hp.
Qed.

(** ** The order of the events of one client *)

Definition kinds (id : Z) (evs : list ClientEvent) : list ClientEventType :=
  map ce_type (filter (λ ev, ce_client_id ev = id) evs).
Definition calls (id : Z) (log : list (Z * ClientEventType * list SEXP)) : list ClientEventType :=
  map (λ e, snd (fst e)) (filter (λ e, fst (fst e) = id) log).

#[global] Arguments kinds : simpl never.
#[global] Arguments calls : simpl never.

Definition life (n : nat) : list ClientEventType := Open :: replicate n Message.

(** Before a client is closed it has either never been up, or was opened once
    and then received messages. *)
Definition pre_ok (l : list ClientEventType) : Prop := l = [] ∨ ∃ n, l = life n.
Definition seq_ok (l : list ClientEventType) (up : bool) : Prop :=
  ∃ pre, pre_ok pre ∧ ((∃ post, l = pre ++ Close :: post) ∨ (l = pre ∧ (up = true ↔ pre ≠ []))).
Definition shape (l : list ClientEventType) : Prop := ∃ n, l `sublist_of` life n ++ [Close].

Lemma kinds_app id a b : kinds id (a ++ b) = kinds id a ++ kinds id b.
Proof. unfold kinds. by rewrite list.filter_app, map_app. Qed.
Lemma calls_app id a b : calls id (a ++ b) = calls id a ++ calls id b.
Proof. unfold calls. by rewrite list.filter_app, map_app. Qed.

Lemma pre_ok_no_close l : pre_ok l → Close ∉ l.
Proof.
  intros [->|[n ->]]; [apply not_elem_of_nil|]. intros [|H]%elem_of_cons; [done|].
  by apply elem_of_replicate in H as [? _].
Qed.

(** How the events of one loop step continue the sequence. *)
Definition continues (ks : list ClientEventType) (up up' : bool) : Prop :=
  (up' = up ∧ ks = []) ∨ (up = true ∧ up' = true ∧ ∃ n, ks = replicate n Message) ∨
  (up = false ∧ up' = true ∧ ∃ n, ks = life n) ∨ ks = [Close].

Lemma seq_continues l ks up up' : seq_ok l up → continues ks up up' → seq_ok (l ++ ks) up'.
Proof.
  intros (pre & Hpre & [[post ->]|[-> Hup]]) Hc.
  { exists pre. split; [done|]. left. exists (post ++ ks). by rewrite <- app_assoc. }
  destruct Hc as [[-> ->]|[(-> & -> & n & ->)|[(-> & -> & n & ->)| ->]]].
  - exists pre. split; [done|]. right. by rewrite app_nil_r.
  - destruct Hpre as [->|[m ->]]; [by destruct Hup as [Hup _]; destruct (Hup eq_refl)|].
    exists (life (m + n)). split; [right; by eexists|]. right. unfold life.
    rewrite replicate_add. done.
  - destruct Hpre as [->|[m ->]]; [|by destruct Hup as [_ Hup]; discriminate Hup].
    exists (life n). split; [right; by eexists|]. right. done.
  - exists pre. split; [done|]. left. by exists [].
Qed.

Lemma seq_closed l ks up up' : seq_ok l up → Close ∈ l → seq_ok (l ++ ks) up'.
Proof.
  intros (pre & Hpre & [[post ->]|[-> _]]) Hin; [|destruct (pre_ok_no_close pre Hpre); done].
  exists pre. split; [done|]. left. exists (post ++ ks). by rewrite <- app_assoc.
Qed.

Lemma seq_prefix_shape done_ q up l :
  seq_ok (done_ ++ q) up → Close ∉ done_ → l `sublist_of` done_ → shape l.
Proof.
  intros (pre & Hpre & Hseq) Hnc Hl.
  assert (∃ n, done_ `sublist_of` life n) as [n Hn].
  { assert (∃ k, pre = done_ ++ k) as [k Hk].
    { destruct Hseq as [[post Hpost]|[Hq _]]; [|by exists q].
      destruct (app_eq_inv _ _ _ _ Hpost) as [(k & Hd & Hc)|(k & Hp & Hc)]; [|by exists k].
      destruct k as [|x k]; [exists []; by rewrite app_nil_r in *|].
      injection Hc as <- _. destruct Hnc. rewrite Hd. apply elem_of_app. right. by left. }
    assert (done_ `sublist_of` pre) by (rewrite Hk; apply sublist_inserts_r; done).
    destruct Hpre as [->|[n ->]]; [exists O|exists n]; [|done].
    etrans; [done|]. apply sublist_nil_l. }
  exists n. apply sublist_inserts_r. by etrans.
Qed.

Lemma seq_close_shape d q up l :
  seq_ok (d ++ Close :: q) up → Close ∉ d → l `sublist_of` d ++ [Close] → shape l.
Proof.
  intros Hs Hnc Hl. destruct (seq_prefix_shape d (Close :: q) up d Hs Hnc) as [n Hn]; [done|].
  exists n. etrans; [exact Hl|]. apply sublist_app; [|done].
  apply sublist_app_r in Hn as (k1 & k2 & -> & H1 & H2).
  apply sublist_cons_r in H2 as [H2|(k & -> & H2)].
  - apply sublist_nil_r in H2 as ->. by rewrite app_nil_r.
  - destruct Hnc. apply elem_of_app. right. by left.
Qed.

Definition kind_of (n : notice) : ClientEventType :=
  match n with Request Ok => Open | Frame _ _ => Message | _ => Close end.

Lemma event_of_spec id n : ce_client_id (event_of id n) = id ∧ ce_type (event_of id n) = kind_of n.
Proof. by destruct n as [[]| |]. Qed.

Lemma kinds_notices id id' ns :
  kinds id' (map (event_of id) ns) = if decide (id = id') then map kind_of ns else [].
Proof.
  unfold kinds. induction ns as [|n ns IH]; [cbn; by case_decide|].
  destruct (event_of_spec id n) as [E1 E2]. cbn [map]. rewrite list.filter_cons, E1.
  case_decide; cbn [map]; rewrite IH; [by rewrite E2|done].
Qed.

Lemma fold_enqueue id ns w :
  fold_left (λ w n, enqueueClientEvent (event_of id n) w) ns w =
    set_events (g_wsClientEvents w ++ map (event_of id) ns) (length ns + cl_notified w) w.
Proof.
  revert w. induction ns as [|n ns IH]; intros w; cbn; [rewrite app_nil_r; by destruct w|].
  rewrite IH. unfold enqueueClientEvent, set_events. cbn. rewrite <- app_assoc. f_equal. lia.
Qed.

Lemma frames_kinds (frames : list (string * WebSocketMessageType)) :
  map kind_of (map (λ f, Frame (fst f) (snd f)) frames) = replicate (length frames) Message.
Proof. induction frames as [|f l IH]; cbn; [done|]. by rewrite IH. Qed.

Lemma on_frames_frame c frames im :
  let im' := fold_left (on_frame c) frames im in
  upgraded_ im' = upgraded_ im ∧ im_timers im' = im_timers im.
Proof.
  revert im. induction frames as [|[m t] l IH]; intros im; cbn; [done|].
  destruct (IH (on_frame c im (m, t))) as [-> ->]. clear IH.
  destruct t; cbn; try done. destruct (websockConnPtr_ im); [|done].
  unfold conn_send. by destruct (is_connected _ _).
Qed.

Lemma recv_ws_spec c frames im im' ns :
  onRecvWsMessage c frames im = (im', ns) →
  upgraded_ im' = upgraded_ im ∧ im_timers im' = im_timers im ∧ ∃ n, map kind_of ns = replicate n Message.
Proof.
  unfold onRecvWsMessage. destruct (websockConnPtr_ im); intros [= <- <-].
  - destruct (on_frames_frame c (known frames) im) as [-> ->]. split; [done|]. split; [done|].
    exists (length (known frames)). apply frames_kinds.
  - split; [done|]. split; [done|]. by exists O.
Qed.

Lemma connect_spec im im' ns :
  connectToServerInLoop im = (im', ns) →
  upgraded_ im' = upgraded_ im ∧ im_timers im' = im_timers im ∧ (map kind_of ns = [] ∨ map kind_of ns = [Close]).
Proof. unfold connectToServerInLoop. repeat case_if; intros [= <- <-]; cbn; auto. Qed.

(** One loop step continues the client's sequence of events; a reconnect is
    only ever scheduled together with a Close. *)
Lemma impl_step_kinds e im im' ns :
  impl_step e im = Some (im', ns) →
  (0 < im_timers im ∧ im_timers im' < im_timers im)%nat ∨
  (continues (map kind_of ns) (upgraded_ im) (upgraded_ im') ∧
   (im_timers im' ≤ im_timers im ∨ Close ∈ map kind_of ns)%nat).
Proof.
  unfold continues. destruct e; cbn.
  - destruct (im_tasks im) as [|t ts]; [done|]. intros [= Ht]. right. destruct t as [|data binary]; cbn in Ht.
    + apply connect_spec in Ht as (-> & -> & [->| ->]); cbn; split; auto.
    + injection Ht as <- <-. destruct (websockConnPtr_ im); unfold conn_send; cbn; [|by auto].
      by destruct (is_connected _ _); cbn; auto.
  - destruct (im_resolves im) as [|n]; [done|]. intros [= Ht]. right. unfold resolved in Ht.
    case_if; injection Ht as <- <-; cbn; auto.
  - destruct (im_timers im) as [|n] eqn:En; [done|]. intros [= Ht]. left. unfold reconnect in Ht.
    apply connect_spec in Ht as (_ & -> & _). cbn. lia.
  - destruct (tcpClientPtr_ im) as [[]|]; try done. intros [= <- <-]. right. cbn. auto.
  - destruct (tcpClientPtr_ im) as [[]|]; try done. intros [= <- <-]. right. cbn. split; [by auto|].
    right. by left.
  - case_decide; [|done]. unfold onRecvMessage. destruct (upgraded_ im) eqn:Eu.
    + intros [= Hr]. right. apply recv_ws_spec in Hr as (-> & -> & n & ->). rewrite Eu. split; [|by auto]. right. left. by eauto.
    + destruct handshake as [[]|]; [| |intros [= <- <-]; right; rewrite Eu; by auto].
      * destruct (onRecvWsMessage _ _ _) as [im1 ns1] eqn:Er. intros [= <- <-].
        apply recv_ws_spec in Er as (-> & -> & n & Hn). right. cbn. rewrite Hn. split; [|by auto].
        right. right. left. eauto.
      * intros [= <- <-]. right. cbn. auto.
  - case_decide; [|done]. intros [= <- <-]. right. split; [by auto|]. right. by left.
Qed.

(** ** The invariant *)

Definition MAX_CLIENTS : Z := 2 ^ 64 - 1.

(** [cur]: the client whose Close event is being handled. *)
Definition open_ok (cur : option Z) (id : Z) (q : list ClientEvent) (w : ClientWorld) : Prop :=
  ∃ im done_, impls w !! id = Some im ∧
    (Close ∉ done_ ∨ (cur = Some id ∧ ∃ d, done_ = d ++ [Close] ∧ Close ∉ d)) ∧
    calls id (cl_log w) `sublist_of` done_ ∧
    seq_ok (done_ ++ kinds id q) (upgraded_ im) ∧
    ((0 < im_timers im)%nat → Close ∈ done_ ++ kinds id q).

Definition client_ok (cur : option Z) (q : list ClientEvent) (w : ClientWorld) (id : Z) : Prop :=
  match g_wsClients w !! id with
  | None => shape (calls id (cl_log w))
  | Some _ => open_ok cur id q w
  end.

Record unused (q : list ClientEvent) (w : ClientWorld) (id : Z) : Prop := {
  un_client : g_wsClients w !! id = None;
  un_impl : impls w !! id = None;
  un_queue : kinds id q = [];
  un_calls : calls id (cl_log w) = [];
}.

Record core (base : list SEXP) (cur : option Z) (q : list ClientEvent) (w : ClientWorld) : Prop := {
  co_next : g_nextClientId w = cl_created w + 1;
  co_created : 0 ≤ cl_created w;
  co_fresh : ∀ id, g_nextClientId w ≤ id → unused q w id;
  co_hooks : cl_precious w ≡ₚ all_hooks (g_wsClients w) ++ base;
  co_ok : ∀ id, client_ok cur q w id;
}.

(** Changing a client's flags, tasks or connections. *)
Definition same_seq (im im' : Impl) : Prop := upgraded_ im' = upgraded_ im ∧ im_timers im' = im_timers im.

Lemma core_alter base cur q w id f :
  (∀ im, same_seq im (f im)) → core base cur q w → core base cur q (set_impls (alter f id (impls w)) w).
Proof.
  intros Hf [Hn Hc Hu Hh Ho]. split; cbn; try done.
  - intros i Hi. destruct (Hu i Hi) as [U1 U2 U3 U4]. split; cbn; try done.
    destruct (decide (id = i)) as [->|]; [by rewrite lookup_alter_eq, U2|by rewrite lookup_alter_ne].
  - intros i. specialize (Ho i). unfold client_ok in *. cbn. destruct (g_wsClients w !! i); [|done].
    destruct Ho as (im & d & Him & Hd & Hs & Hq & Ht).
    destruct (decide (id = i)) as [->|].
    + destruct (Hf im) as [E1 E2]. exists (f im), d. cbn. rewrite lookup_alter_eq, Him, E1, E2. done.
    + exists im, d. cbn. by rewrite lookup_alter_ne.
Qed.

Lemma core_client base cur q w id c c' :
  g_wsClients w !! id = Some c → held c' = held c → core base cur q w →
  core base cur q (set_clients (<[id := c']> (g_wsClients w)) (cl_precious w) w).
Proof.
  intros Hid Hh' [Hn Hc Hu Hh Ho]. split; cbn; try done.
  - intros i Hi. destruct (Hu i Hi) as [U1 U2 U3 U4]. split; cbn; try done.
    rewrite lookup_insert_ne; [done|]. intros ->. congruence.
  - by rewrite (all_hooks_update _ _ c).
  - intros i. specialize (Ho i). unfold client_ok in *. cbn.
    destruct (decide (id = i)) as [->|]; [by rewrite lookup_insert_eq, Hid in *|].
    by rewrite lookup_insert_ne.
Qed.

(** The invariant does not look at the event queue or the loop pointer. *)
Lemma core_events base cur q l n b w : core base cur q w → core base cur q (set_events l n (set_loop b w)).
Proof.
  intros [Hn Hc Hu Hh Ho]. split; try done.
  intros i Hi. by destruct (Hu i Hi).
Qed.

Lemma preserve_held x p : preserve_closure x p ≡ₚ hook_held (Some x) ++ p.
Proof. unfold preserve_closure. cbn. by destruct (is_nil x). Qed.

Lemma core_open inet base cur q w host path m o c :
  core base cur q w → cl_created w + 1 < MAX_CLIENTS →
  core base cur q (snd (open_client inet host path m o c w)).
Proof.
  intros [Hn Hc Hu Hh Ho] Hmax. unfold MAX_CLIENTS in Hmax.
  destruct (Hu (g_nextClientId w)) as [U1 U2 U3 U4]; [lia|].
  unfold open_client, newWebSocketClient. cbn [snd fst]. cbn. rewrite U1.
  assert (Hw : wrapU64 (g_nextClientId w + 1) = g_nextClientId w + 1) by (apply wrapU64_small; lia).
  split; cbn; [rewrite Hw; lia|lia| | |].
  - rewrite Hw. intros i Hi. destruct (Hu i) as [V1 V2 V3 V4]; [lia|].
    split; cbn; rewrite ?lookup_insert_ne by lia; done.
  - rewrite all_hooks_insert by done. rewrite !preserve_held, Hh. unfold held.
    cbn [wc_on_message wc_on_open wc_on_close]. solve_Permutation.
  - intros i. specialize (Ho i). unfold client_ok in *. cbn.
    destruct (decide (g_nextClientId w = i)) as [<-|Hne].
    + rewrite lookup_insert_eq. eexists _, []. cbn. rewrite lookup_insert_eq. split; [done|].
      split; [left; apply not_elem_of_nil|]. rewrite U3, U4. split; [done|].
      split; [|cbn; lia]. exists []. split; [by left|]. by right.
    + rewrite lookup_insert_ne by done. destruct (g_wsClients w !! i); [|done].
      destruct Ho as (im & d & Him & Hd & Hs & Hq & Ht). exists im, d. cbn.
      by rewrite lookup_insert_ne.
Qed.

Lemma stop_same_seq im : same_seq im (stop im).
Proof. unfold stop. cbn. by destruct (websockConnPtr_ im). Qed.

Lemma core_send base cur q w id data binary :
  core base cur q w → core base cur q (snd (client_send id data binary w)).
Proof.
  intros Hc. unfold client_send. destruct (findClient id w); [|done]. case_if; [done|].
  apply core_alter; [done|done].
Qed.

Lemma core_close base cur q w id : core base cur q w → core base cur q (client_close id w).
Proof.
  intros Hc. unfold client_close, findClient. destruct (g_wsClients w !! id) as [wc|] eqn:E; [|done].
  apply (core_client base cur q w id wc (set_wc_closing wc) E) in Hc; [|done].
  case_if; [|done]. apply core_alter; [apply stop_same_seq|done].
Qed.

Lemma core_loop base cur q w id e w' :
  core base cur q w → loop_step id e w = Some w' →
  ∃ new, g_wsClientEvents w' = g_wsClientEvents w ++ new ∧ cl_created w' = cl_created w ∧
         core base cur (q ++ new) w'.
Proof.
  intros [Hn Hc Hu Hh Ho]. unfold loop_step. destruct (impls w !! id) as [im|] eqn:Him; [|done]. cbn.
  case_if; [|done]. destruct (impl_step e im) as [[im' ns]|] eqn:Est; [|done]. cbn. intros [= <-].
  rewrite fold_enqueue. exists (map (event_of id) ns). split; [done|]. split; [done|].
  split; cbn; try done.
  - intros i Hi. destruct (Hu i Hi) as [U1 U2 U3 U4]. assert (id ≠ i) by (intros ->; congruence).
    split; cbn; [done|by rewrite lookup_insert_ne| |done].
    rewrite kinds_app, U3, kinds_notices. by case_decide.
  - intros i. specialize (Ho i). unfold client_ok in *. cbn. destruct (g_wsClients w !! i); [|done].
    destruct Ho as (im0 & d & Him0 & Hd & Hs & Hq & Ht). unfold open_ok. cbn.
    rewrite kinds_app, kinds_notices.
    destruct (decide (id = i)) as [->|Hne].
    + assert (im0 = im) as -> by congruence. exists im', d. rewrite lookup_insert_eq, app_assoc.
      do 3 (split; [done|]). destruct (impl_step_kinds e im im' ns Est) as [[Hp Hlt]|[Hcont Htim]].
      * split; [by apply (seq_closed _ _ (upgraded_ im)); auto|]. intros _. apply elem_of_app. auto.
      * split; [by apply (seq_continues _ _ (upgraded_ im))|]. intros Hpos. apply elem_of_app.
        destruct Htim; [left; apply Ht; lia|by right].
    + exists im0, d. rewrite lookup_insert_ne, app_nil_r by done. done.
Qed.

Lemma op_created inet w op : cl_created w ≤ cl_created (run_client_op inet w op).
Proof.
  destruct op; cbn; [lia| |].
  - unfold client_send. destruct (findClient id w); [|done]. by case_if.
  - unfold client_close. destruct (findClient id w) as [wc|]; [|done]. by case_if.
Qed.

Lemma ops_created inet ops w : cl_created w ≤ cl_created (fold_left (run_client_op inet) ops w).
Proof.
  revert w. induction ops as [|op ops IH]; intros w; cbn; [done|].
  etrans; [apply (op_created inet)|apply IH].
Qed.

Lemma core_ops inet base cur q ops w :
  core base cur q w → cl_created (fold_left (run_client_op inet) ops w) < MAX_CLIENTS →
  core base cur q (fold_left (run_client_op inet) ops w).
Proof.
  revert w. induction ops as [|op ops IH]; intros w Hc Hm; cbn in *; [done|].
  apply IH; [|done]. pose proof (ops_created inet ops (run_client_op inet w op)).
  destruct op; cbn in *; [apply core_open; [done|lia]|by apply core_send|by apply core_close].
Qed.

Lemma kinds_cons id ev q : kinds id (ev :: q) = if decide (ce_client_id ev = id) then ce_type ev :: kinds id q else kinds id q.
Proof. unfold kinds. rewrite list.filter_cons. by case_decide. Qed.

Lemma calls_snoc id log i k args :
  calls id (log ++ [(i, k, args)]) = calls id log ++ (if decide (i = id) then [k] else []).
Proof. rewrite calls_app. f_equal. unfold calls. rewrite list.filter_cons. cbn [fst]. by case_decide. Qed.

Lemma core_skip base q w ev :
  core base None (ev :: q) w → g_wsClients w !! ce_client_id ev = None → core base None q w.
Proof.
  intros [Hn Hc Hu Hh Ho] Hnone. split; try done.
  - intros i Hi. destruct (Hu i Hi) as [U1 U2 U3 U4]. split; try done.
    rewrite kinds_cons in U3. by case_decide.
  - intros i. specialize (Ho i). unfold client_ok in *. destruct (g_wsClients w !! i) eqn:E; [|done].
    unfold open_ok in *. rewrite kinds_cons in Ho. case_decide; [congruence|done].
Qed.

(** The event at the head of the batch is taken, its hook called or not. *)
Lemma core_take base q w ev w' :
  core base None (ev :: q) w → is_Some (g_wsClients w !! ce_client_id ev) →
  w' = w ∨ (∃ args, w' = log_hook (ce_client_id ev, ce_type ev, args) w) →
  core base (if decide (ce_type ev = Close) then Some (ce_client_id ev) else None) q w'.
Proof.
  intros [Hn Hc Hu Hh Ho] [wc Hwc] Hw'. set (id := ce_client_id ev) in *. set (k := ce_type ev).
  assert (Hlog : ∃ t, t `sublist_of` [k] ∧ ∀ i, calls i (cl_log w') = calls i (cl_log w) ++ (if decide (id = i) then t else [])).
  { destruct Hw' as [->|[args ->]].
    - exists []. split; [apply sublist_nil_l|]. intros i. case_decide; by rewrite app_nil_r.
    - exists [k]. split; [done|]. intros i. cbn. by rewrite calls_snoc. }
  assert (Hf : g_wsClients w' = g_wsClients w ∧ impls w' = impls w ∧ cl_precious w' = cl_precious w ∧
          g_nextClientId w' = g_nextClientId w ∧ cl_created w' = cl_created w).
  { by destruct Hw' as [->|[args ->]]. }
  destruct Hf as (F1 & F2 & F3 & F4 & F5). destruct Hlog as (t & Ht & Hlog). clear Hw'.
  split; rewrite ?F1, ?F3, ?F4, ?F5; try done.
  - intros i Hi. destruct (Hu i Hi) as [U1 U2 U3 U4]. assert (id ≠ i) by congruence.
    rewrite kinds_cons in U3. rewrite decide_False in U3 by done.
    split; rewrite ?F1, ?F2; try done. rewrite Hlog, U4. by rewrite decide_False.
  - intros i. specialize (Ho i). unfold client_ok in *. rewrite F1. destruct (g_wsClients w !! i) eqn:E.
    2:{ rewrite Hlog, decide_False, app_nil_r; [done|congruence]. }
    destruct Ho as (im & d & Him & Hd & Hs & Hq & Htm). destruct Hd as [Hd|[? _]]; [|done].
    unfold open_ok. rewrite F2, Hlog. rewrite kinds_cons in Hq, Htm. fold id in Hq, Htm.
    destruct (decide (id = i)) as [->|Hne].
    + exists im, (d ++ [k]). rewrite <- app_assoc. split; [done|].
      split; [|split; [by apply sublist_app|done]].
      destruct (decide (k = Close)) as [Hk|Hk]; [right|left].
      * split; [done|]. exists d. by rewrite Hk.
      * rewrite elem_of_app, list_elem_of_singleton. naive_solver.
    + exists im, d. rewrite app_nil_r. split; [done|]. split; [by left|]. done.
Qed.

Lemma core_erase base id q w : core base (Some id) q w → core base None q (erase_client id w).
Proof.
  intros [Hn Hc Hu Hh Ho].
  assert (Hother : ∀ i, id ≠ i → client_ok None q w i).
  { intros i Hne. specialize (Ho i). unfold client_ok in *. destruct (g_wsClients w !! i); [|done].
    destruct Ho as (im & d & Him & [Hd|[[=] _]] & Hrest); [|done]. exists im, d. auto. }
  unfold erase_client. destruct (g_wsClients w !! id) as [dead|] eqn:E.
  - split; cbn; try done.
    + intros i Hi. destruct (Hu i Hi) as [U1 U2 U3 U4]. split; cbn; try done. by rewrite lookup_delete_None; auto.
    + apply releaseClientHooks_perm. rewrite Hh, (all_hooks_delete _ _ dead E), <- app_assoc. done.
    + intros i. destruct (decide (id = i)) as [->|Hne].
      * unfold client_ok. cbn. rewrite lookup_delete_eq. specialize (Ho i). unfold client_ok in Ho.
        rewrite E in Ho. destruct Ho as (im & d & _ & Hd & Hs & Hq & _).
        destruct Hd as [Hd|(_ & d' & -> & Hd)]; [by eapply seq_prefix_shape|].
        rewrite <- app_assoc in Hq. by eapply seq_close_shape.
      * specialize (Hother i Hne). unfold client_ok in *. cbn. by rewrite lookup_delete_ne.
  - split; try done. intros i. destruct (decide (id = i)) as [->|Hne]; [|by apply Hother].
    unfold client_ok. rewrite E. specialize (Ho i). unfold client_ok in Ho. by rewrite E in Ho.
Qed.

Lemma core_handle inet code base q w ev :
  let w' := handle_client_event inet code w ev in
  core base None (ev :: q) w → cl_created w' < MAX_CLIENTS → core base None q w'.
Proof.
  intros w' Hc Hm. unfold w', handle_client_event in *. clear w'.
  destruct (g_wsClients w !! ce_client_id ev) as [wc|] eqn:E; cbn [callClientHook] in *.
  2:{ cbn in *. apply core_skip in Hc; [|done]. case_decide; [|done]. unfold erase_client. by rewrite E. }
  set (w1 := callClientHook _ _ _ _ _ _ w) in *.
  assert (H1 : core base (if decide (ce_type ev = Close) then Some (ce_client_id ev) else None) q w1).
  { assert (Hm1 : cl_created w1 < MAX_CLIENTS).
    { case_decide; [|done]. revert Hm. unfold erase_client. by destruct (g_wsClients w1 !! _). }
    unfold w1, callClientHook in *. destruct (hook_for _ _) as [h|]; [|by eapply core_take; eauto].
    destruct (is_closure h); [|by eapply core_take; eauto].
    apply core_ops; [|done]. eapply core_take; eauto. }
  case_decide; [by apply core_erase|done].
Qed.

Lemma core_stop_all base q w : core base None q w → core base None q (stop_all w).
Proof.
  unfold stop_all. generalize (map fst (map_to_list (g_wsClients w))) as ids. intros ids. revert w.
  induction ids as [|id ids IH]; intros w Hc; cbn; [done|]. by apply IH, core_close.
Qed.

Lemma close_created id w : cl_created (client_close id w) = cl_created w.
Proof. unfold client_close. destruct (findClient id w); [|done]. by case_if. Qed.

Lemma stop_all_created w : cl_created (stop_all w) = cl_created w.
Proof.
  unfold stop_all. generalize (map fst (map_to_list (g_wsClients w))) as ids. intros ids. revert w.
  induction ids as [|id ids IH]; intros w; cbn; [done|]. unfold stop_client. by rewrite IH, close_created.
Qed.

Lemma loop_step_created id e w w' : loop_step id e w = Some w' → cl_created w' = cl_created w.
Proof.
  unfold loop_step. destruct (impls w !! id) as [im|]; [|done]. cbn. case_if; [|done].
  destruct (impl_step e im) as [[im' ns]|]; [|done]. cbn. intros [= <-]. by rewrite fold_enqueue.
Qed.

Lemma core_loop_steps base q w w' :
  loop_steps w w' → core base None q w →
  cl_created w' = cl_created w ∧ ∃ new, core base None (q ++ new) w'.
Proof.
  induction 1 as [w|id e w w1 w2 _ IH Hstep]; intros Hc.
  { split; [done|]. exists []. by rewrite app_nil_r. }
  destruct (IH Hc) as [<- [new H1]]. destruct (core_loop _ _ _ _ _ _ _ H1 Hstep) as (new' & _ & -> & H2).
  split; [done|]. exists (new ++ new'). by rewrite app_assoc.
Qed.

Lemma core_finish base b new w :
  core base None (b ++ new) w → core base None b (finish_shutdown w) ∧ cl_precious (finish_shutdown w) ≡ₚ base.
Proof.
  intros [Hn Hc Hu Hh Ho].
  assert (Hp : cl_precious (finish_shutdown w) ≡ₚ base) by (cbn; by apply release_all_perm).
  split; [|done]. split; try done.
  - intros i Hi. destruct (Hu i Hi) as [U1 U2 U3 U4]. split; cbn; try done.
    rewrite kinds_app in U3. by destruct (kinds i b).
  - intros i. specialize (Ho i). unfold client_ok in *. cbn. rewrite lookup_empty.
    destruct (g_wsClients w !! i); [|done]. destruct Ho as (im & d & _ & [Hd|[? _]] & Hs & Hq & _); [|done].
    by eapply seq_prefix_shape.
Qed.

Definition run_ok (base : list SEXP) (s : ClientWorld * list ClientEvent) : Prop :=
  cl_created (fst s) < MAX_CLIENTS → core base None (snd s ++ g_wsClientEvents (fst s)) (fst s).

Lemma run_ok_init base : run_ok base (clients_init base, []).
Proof.
  intros _. split; cbn; try done.
  intros i. unfold client_ok. cbn. exists O. apply sublist_nil_l.
Qed.

Lemma send_frame id data binary w :
  let w' := snd (client_send id data binary w) in
  cl_created w' = cl_created w ∧ g_wsClientEvents w' = g_wsClientEvents w.
Proof. unfold client_send. destruct (findClient id w); [|done]. by case_if. Qed.

Lemma close_frame id w : g_wsClientEvents (client_close id w) = g_wsClientEvents w.
Proof. unfold client_close. destruct (findClient id w); [|done]. by case_if. Qed.

Lemma op_events inet w op : g_wsClientEvents (run_client_op inet w op) = g_wsClientEvents w.
Proof. destruct op; cbn; [done|apply (send_frame id data binary w)|apply close_frame]. Qed.

Lemma ops_events inet ops w : g_wsClientEvents (fold_left (run_client_op inet) ops w) = g_wsClientEvents w.
Proof. revert w. induction ops as [|op ops IH]; intros w; cbn; [done|]. by rewrite IH, op_events. Qed.

Lemma handle_frame inet code w ev :
  let w' := handle_client_event inet code w ev in
  g_wsClientEvents w' = g_wsClientEvents w ∧ cl_created w ≤ cl_created w'.
Proof.
  unfold handle_client_event. set (h := match g_wsClients w !! ce_client_id ev with Some _ => _ | None => _ end).
  assert (Hh : g_wsClientEvents (callClientHook inet code (ce_client_id ev) (ce_type ev) h (event_args ev) w) =
                 g_wsClientEvents w ∧
               cl_created w ≤ cl_created (callClientHook inet code (ce_client_id ev) (ce_type ev) h (event_args ev) w)).
  { unfold callClientHook. destruct h as [h|]; [|done]. destruct (is_closure h); [|done].
    rewrite ops_events. split; [done|]. etrans; [|apply (ops_created inet)]. done. }
  cbn. clearbody h. case_decide; [|done]. unfold erase_client. destruct (g_wsClients _ !! _); exact Hh.
Qed.

Lemma run_ok_step inet base s s' : run_ok base s → step inet s s' → run_ok base s'.
Proof.
  unfold run_ok. intros Hok Hs. destruct Hs as [s s' Hs|w w1 b H]; [destruct Hs|]; cbn in *; intros Hm.
  - destruct (core_loop base None (b ++ g_wsClientEvents w) w id e w') as (new & E & Ec & Hc); [|done|].
    + apply Hok. by rewrite <- (loop_step_created id e w w' H).
    + by rewrite E, app_assoc.
  - apply (core_open inet base None (b ++ g_wsClientEvents w) (ensureClientLoop w)); [|done].
    apply (core_events base None _ (g_wsClientEvents w) (cl_notified w) true), Hok. lia.
  - destruct (send_frame id data binary w) as [E1 E2]. rewrite E1 in Hm. rewrite E2. by apply core_send, Hok.
  - rewrite close_created in Hm. rewrite close_frame. by apply core_close, Hok.
  - rewrite app_nil_r. exact (core_events base None _ [] (cl_notified w) (g_wsClientLoop w) w (Hok Hm)).
  - destruct (handle_frame inet code w ev) as [E1 E2]. rewrite E1. apply core_handle; [|done].
    apply Hok. lia.
  - assert (Hm' : cl_created w < MAX_CLIENTS).
    { revert Hm. clear Hok. rewrite <- (stop_all_created w). induction H as [|id e w0 w1 w2 _ IH Hstep]; [done|].
      cbn. rewrite (loop_step_created id e w1 w2 Hstep). apply IH. }
    destruct (core_loop_steps base (b ++ g_wsClientEvents w) _ _ H) as (_ & new & Hc).
    { by apply core_stop_all, Hok. }
    rewrite <- app_assoc in Hc. apply core_finish in Hc as [Hc _]. by rewrite app_nil_r.
Qed.

Lemma run_core inet base w b :
  reachable (step inet) (clients_init base, []) (w, b) → cl_created w < MAX_CLIENTS →
  core base None (b ++ g_wsClientEvents w) w.
Proof.
  intros Hr. exact (reachable_invariant (step inet) (run_ok base) _ (run_ok_init base)
    (λ s s', run_ok_step inet base s s') _ Hr).
Qed.

(** A drain is such a run: the batch is swapped out, then its events handled
    one by one. *)
Lemma drain_is_run inet code w :
  g_wsClientEvents w ≠ [] →
  ∃ n, steps (run_step inet) n (w, []) (drainWsClientEvents inet code w, []).
Proof.
  intros Hne. assert (Hb : ∀ b w0, ∃ n, steps (run_step inet) n (w0, b) (fold_left (handle_client_event inet code) b w0, [])).
  { induction b as [|ev b IH]; intros w0; cbn; [exists O; apply steps_refl|].
    destruct (IH (handle_client_event inet code w0 ev)) as [n Hn].
    exists (n + 1)%nat. eapply steps_trans; [apply steps_one, s_handle|exact Hn]. }
  destruct (Hb (g_wsClientEvents w) (set_events [] (cl_notified w) w)) as [n Hn].
  exists (n + 1)%nat. unfold drainWsClientEvents. destruct (g_wsClientEvents w) as [|ev b] eqn:E; [done|].
  eapply steps_trans; [|exact Hn]. rewrite <- E. apply steps_one, s_swap.
Qed.

(** ** A client closed before its connection is up *)

(** Nothing on the loop will ever report about this client again. *)
Record stuck (id : Z) (hooks : list SEXP) (done_ : list ClientEventType) (q : list ClientEvent) (w : ClientWorld) : Prop := {
  sk_client : ∃ wc, g_wsClients w !! id = Some wc ∧ wc_closing wc = true ∧ held wc = hooks;
  sk_impl : ∃ im, impls w !! id = Some im ∧ tcpClientPtr_ im = None ∧ im_conns im = ∅ ∧ im_tasks im = [] ∧
                  im_resolves im = O ∧ im_timers im = O;
  sk_queue : kinds id q = [];
  sk_calls : calls id (cl_log w) = done_;
}.

Section Stuck.
Context (inet : bool → string → bool) (id : Z) (hooks : list SEXP) (done_ : list ClientEventType).
Abbreviation stuck_ := (stuck id hooks done_).

Lemma stuck_open q w host path m o c :
  stuck_ q w → g_nextClientId w ≠ id → stuck_ q (snd (open_client inet host path m o c w)).
Proof.
  intros [Hc Hi Hq Hl] Hne. split; cbn; [|by rewrite lookup_insert_ne|done|done].
  destruct (g_wsClients w !! g_nextClientId w); [done|]. by rewrite lookup_insert_ne.
Qed.

Lemma stuck_send q w i data binary : stuck_ q w → stuck_ q (snd (client_send i data binary w)).
Proof.
  intros Hs. unfold client_send. destruct (findClient i w) as [wc|] eqn:E; [|done].
  case_if; [done|]. destruct Hs as [(wc' & Hc & Hcl & Hh) (im & Hi & Hrest) Hq Hl].
  split; cbn; [by exists wc'| |done|done].
  exists im. rewrite lookup_alter_ne; [done|]. intros ->. unfold findClient in E.
  rewrite Hc in E. injection E as <-. by rewrite Hcl in *.
Qed.

Lemma stuck_close q w i : stuck_ q w → stuck_ q (client_close i w).
Proof.
  intros Hs. unfold client_close, findClient. destruct (g_wsClients w !! i) as [wc|] eqn:E; [|done].
  destruct Hs as [(wc' & Hc & Hcl & Hh) (im & Hi & H1 & H2 & H3 & H4 & H5) Hq Hl].
  assert (Hc' : ∃ wc0, <[i:=set_wc_closing wc]> (g_wsClients w) !! id = Some wc0 ∧ wc_closing wc0 = true ∧ held wc0 = hooks).
  { destruct (decide (i = id)) as [->|]; [|exists wc'; by rewrite lookup_insert_ne].
    exists (set_wc_closing wc). rewrite lookup_insert_eq. by simplify_eq. }
  case_if; split; cbn; try done; [|by exists im].
  destruct (decide (i = id)) as [->|]; [|exists im; by rewrite lookup_alter_ne].
  exists (stop im). rewrite lookup_alter_eq, Hi. split; [done|].
  unfold stop. cbn. destruct (websockConnPtr_ im); cbn; rewrite ?H2; done.
Qed.

Lemma stuck_ops base cur q ops w :
  stuck_ q w → core base cur q w →
  cl_created (fold_left (run_client_op inet) ops w) < MAX_CLIENTS →
  stuck_ q (fold_left (run_client_op inet) ops w).
Proof.
  revert w. induction ops as [|op ops IH]; intros w Hs Hc Hm; cbn in *; [done|].
  pose proof (ops_created inet ops (run_client_op inet w op)) as Hle.
  apply IH; [| |done].
  - destruct op; cbn in *; [|by apply stuck_send|by apply stuck_close].
    apply stuck_open; [done|]. intros <-. destruct (co_fresh _ _ _ _ Hc (g_nextClientId w)) as [U _ _ _]; [lia|].
    destruct Hs as [(wc & Hwc & _) _ _ _]. congruence.
  - destruct op; cbn in *; [apply core_open; [done|lia]|by apply core_send|by apply core_close].
Qed.

Lemma stuck_loop q w i e w' :
  stuck_ q w → loop_step i e w = Some w' →
  ∃ new, g_wsClientEvents w' = g_wsClientEvents w ++ new ∧ stuck_ (q ++ new) w'.
Proof.
  intros [Hc (im & Hi & H1 & H2 & H3 & H4 & H5) Hq Hl]. unfold loop_step.
  destruct (impls w !! i) as [im0|] eqn:Ei; [|done]. cbn. case_if; [|done].
  destruct (impl_step e im0) as [[im' ns]|] eqn:Est; [|done]. cbn. intros [= <-]. rewrite fold_enqueue.
  assert (Hne : i ≠ id).
  { intros ->. assert (im0 = im) as -> by congruence. revert Est. destruct e; cbn; rewrite ?H1, ?H2, ?H3, ?H4, ?H5; try done;
      rewrite lookup_empty; (case_decide as Hd; [by destruct Hd|done]). }
  exists (map (event_of i) ns). split; [done|]. split; cbn; [done| | |done].
  - exists im. by rewrite lookup_insert_ne.
  - rewrite kinds_app, Hq, kinds_notices. by case_decide.
Qed.

Lemma stuck_handle code base ev q w :
  stuck_ (ev :: q) w → core base None (ev :: q) w →
  cl_created (handle_client_event inet code w ev) < MAX_CLIENTS →
  stuck_ q (handle_client_event inet code w ev).
Proof.
  intros [Hc Hi Hq Hl] Hcore Hm. rewrite kinds_cons in Hq. case_decide as Hne; [done|].
  assert (Hs : stuck_ q w) by done. revert Hm. unfold handle_client_event.
  destruct (g_wsClients w !! ce_client_id ev) as [wc|] eqn:E; cbn [callClientHook].
  2:{ cbn. intros _. case_decide; [|done]. unfold erase_client. by rewrite E. }
  set (w1 := callClientHook _ _ _ _ _ _ w). intros Hm.
  assert (H1 : stuck_ q w1).
  { assert (Hm1 : cl_created w1 < MAX_CLIENTS).
    { case_decide; [|done]. revert Hm. unfold erase_client. by destruct (g_wsClients w1 !! _). }
    unfold w1, callClientHook in *. destruct (hook_for _ _) as [h|]; [|done].
    destruct (is_closure h); [|done]. eapply stuck_ops; [|eapply core_take; eauto|done].
    destruct Hs. split; try done. cbn. rewrite calls_snoc, decide_False, app_nil_r by done. done. }
  case_decide; [|done]. unfold erase_client. destruct (g_wsClients w1 !! _); [|done].
  destruct H1 as [(wc' & H1 & H2) ? ? ?]. split; cbn; try done.
  exists wc'. by rewrite lookup_delete_ne.
Qed.

Definition stuck_run (base : list SEXP) (s : ClientWorld * list ClientEvent) : Prop :=
  run_ok base s ∧ (cl_created (fst s) < MAX_CLIENTS → stuck_ (snd s ++ g_wsClientEvents (fst s)) (fst s)).

Lemma stuck_run_step base s s' : stuck_run base s → run_step inet s s' → stuck_run base s'.
Proof.
  intros [Hok Hst] Hs. split; [by eapply run_ok_step; [|apply s_run]|].
  unfold run_ok in Hok. destruct Hs; cbn in *; intros Hm.
  - destruct (stuck_loop (b ++ g_wsClientEvents w) w id0 e w') as (new & E & Hn); [|done|].
    + apply Hst. by rewrite <- (loop_step_created _ _ _ _ H).
    + by rewrite E, app_assoc.
  - assert (Hlt : cl_created w < MAX_CLIENTS) by lia.
    assert (Hs : stuck_ (b ++ g_wsClientEvents w) (ensureClientLoop w)) by (by destruct (Hst Hlt)).
    apply (stuck_open (b ++ g_wsClientEvents w) (ensureClientLoop w) host path m o c); [done|]. intros Heq. destruct (co_fresh _ _ _ _ (Hok Hlt) id) as [U _ _ _]; [cbn in Heq; lia|].
    destruct Hs as [(wc & Hwc & _) _ _ _]. cbn in Hwc. congruence.
  - destruct (send_frame id0 data binary w) as [E1 E2]. rewrite E1 in Hm. rewrite E2. by apply stuck_send, Hst.
  - rewrite close_created in Hm. rewrite close_frame. by apply stuck_close, Hst.
  - rewrite app_nil_r. by destruct (Hst Hm).
  - destruct (handle_frame inet code w ev) as [E1 E2]. rewrite E1.
    assert (Hlt : cl_created w < MAX_CLIENTS) by lia. by eapply stuck_handle; [apply Hst|apply Hok|].
Qed.
End Stuck.

(** ** The server's address *)

Lemma atoi_snoc acc s c :
  all_digits s = true → is_digit c = true →
  atoi_digits acc (s +:+ String c EmptyString) = 10 * atoi_digits acc s + (code c - 48).
Proof.
  revert acc. induction s as [|d s IH]; intros acc Hs Hc; cbn; [by rewrite Hc|].
  unfold all_digits in *. cbn in Hs. bool_to_prop. rewrite H. by apply IH.
Qed.

Lemma dec_fuel_digits f z : all_digits (dec_fuel f z) = true.
Proof.
  revert z. induction f as [|f IH]; intros z; cbn [dec_fuel]; [done|]. case_if; [cbn; by rewrite is_digit_digit|].
  rewrite str_forallb_app, IH. cbn. by rewrite is_digit_digit.
Qed.

Lemma atoi_dec f z : 0 ≤ z < 10 ^ Z.of_nat f → atoi_digits 0 (dec_fuel f z) = z.
Proof.
  revert z. induction f as [|f IH]; intros z Hz; [cbn in *; lia|].
  rewrite Nat2Z.inj_succ, Z.pow_succ_r in Hz by lia. cbn [dec_fuel].
  case_if; bool_to_prop.
  - cbn. rewrite is_digit_digit, code_digit. rewrite Z.mod_small; lia.
  - rewrite atoi_snoc; [|apply dec_fuel_digits|apply is_digit_digit].
    rewrite IH, code_digit; [pose proof (Z.div_mod z 10); lia|].
    split; [apply Z.div_pos; lia|apply Z.div_lt_upper_bound; lia].
Qed.

(** A character of a host name as [drogonR_ws_connect] receives it. *)
Definition host_char (c : ascii) : bool :=
  negb (code c =? 58) && negb (code c =? 47) && negb (code c =? 93) && negb ((65 <=? code c) && (code c <=? 90)).

Definition is_char (n : Z) (p : ascii → bool) : Prop := ∀ c, p c = true → code c ≠ n.

Lemma split_none p d s : str_forallb p s = true → is_char (code d) p → split_at d s = None.
Proof.
  intros Hs Hp. induction s as [|c s IH]; cbn in *; [done|]. bool_to_prop.
  destruct (Ascii.eqb_spec c d) as [->|]; [by destruct (Hp d H)|]. by rewrite IH.
Qed.

Lemma split_app p d s r :
  str_forallb p s = true → is_char (code d) p → split_at d (s +:+ String d r) = Some (s, r).
Proof.
  intros Hs Hp. induction s as [|c s IH]; cbn in *; [by rewrite Ascii.eqb_refl|]. bool_to_prop.
  destruct (Ascii.eqb_spec c d) as [->|]; [by destruct (Hp d H)|]. by rewrite IH.
Qed.

Lemma split_none_app d s t : split_at d s = None → split_at d t = None → split_at d (s +:+ t) = None.
Proof.
  intros Hs Ht. induction s as [|c s IH]; cbn in *; [done|].
  destruct (Ascii.eqb c d); [done|]. destruct (split_at d s) as [[]|]; [done|]. by rewrite IH.
Qed.

Lemma tolower_app s t : str_tolower (s +:+ t) = str_tolower s +:+ str_tolower t.
Proof. induction s as [|c s IH]; cbn; [done|]. by rewrite IH. Qed.

Lemma tolower_id p s :
  str_forallb p s = true → (∀ c, p c = true → (65 <=? code c) && (code c <=? 90) = false) → str_tolower s = s.
Proof.
  intros Hs Hp. induction s as [|c s IH]; cbn in *; [done|]. bool_to_prop. rewrite IH by done.
  unfold tolower. by rewrite Hp.
Qed.

Lemma contains_slash s : split_at "/"%char s = None → contains "wss://" s = false.
Proof.
  induction s as [|c s IH]; [done|]. intros Hs. cbn [contains]. rewrite IH, orb_false_r.
  - destruct (String.prefix _ _) eqn:Hp; [|done]. apply prefix_split in Hp as [t Ht]. by rewrite Ht in Hs.
  - cbn in Hs. destruct (Ascii.eqb c "/"); [done|]. by destruct (split_at "/" s) as [[]|].
Qed.

Definition scheme (ssl : bool) : string := if ssl then "wss://" else "ws://".

Lemma prefix_refl a s : String.prefix a (a +:+ s) = true.
Proof. induction a as [|c a IH]; [by destruct s|]. cbn [String.append String.prefix]. by destruct (Ascii.ascii_dec c c). Qed.

Lemma contains_prefix pat s : contains pat (pat +:+ s) = true.
Proof. pose proof (prefix_refl pat s) as Hp. destruct (pat +:+ s); cbn [contains]; by rewrite Hp. Qed.

Lemma parse_scheme inet ssl rest :
  split_at "/"%char rest = None → str_tolower rest = rest →
  parse_host inet (scheme ssl +:+ rest) = host_part inet ssl rest.
Proof.
  intros Hs Hl. unfold parse_host. rewrite tolower_app, Hl.
  assert (Hsch : str_tolower (scheme ssl) = scheme ssl) by (destruct ssl; vm_compute; reflexivity).
  rewrite Hsch. destruct ssl; cbn [scheme].
  - rewrite contains_prefix. by apply f_equal, (str_drop_app 6 "wss://").
  - assert (Hc : contains "wss://" ("ws://" +:+ rest) = false).
    { cbn [String.append contains]. rewrite (contains_slash rest Hs). reflexivity. }
    rewrite Hc, contains_prefix. by apply f_equal, (str_drop_app 5 "ws://").
Qed.

Lemma host_chars host :
  str_forallb host_char host = true →
  str_tolower host = host ∧ ∀ d, (d = ":" ∨ d = "/" ∨ d = "]")%char → is_char (code d) host_char ∧ split_at d host = None.
Proof.
  intros Hh. assert (Hc : ∀ c, host_char c = true → code c ≠ 58 ∧ code c ≠ 47 ∧ code c ≠ 93 ∧ (65 <=? code c) && (code c <=? 90) = false).
  { intros c Hc. unfold host_char in Hc. by bool_to_prop. }
  split; [apply (tolower_id host_char); [done|]; intros; by apply Hc|].
  intros d Hd. assert (is_char (code d) host_char).
  { intros c Hcc. apply Hc in Hcc as (? & ? & ? & _). by destruct Hd as [->|[->| ->]]. }
  split; [done|]. by apply (split_none host_char).
Qed.

Lemma port_digits port :
  0 < port < 65536 →
  str_tolower (print_int port) = print_int port ∧ atoi (print_int port) = port ∧
  ∀ d, is_digit d = false → split_at d (print_int port) = None.
Proof.
  intros Hp. unfold print_int. replace (port <? 0) with false by lia. unfold dec.
  pose proof (dec_fuel_digits 40 port) as Hd. split; [|split].
  - apply (tolower_id is_digit); [done|]. intros c Hc. unfold is_digit in Hc. lia.
  - rewrite <- (atoi_dec 40 port) at 2 by lia. destruct (dec_fuel 40 port) as [|c s]; [done|].
    cbn [str_forallb] in Hd. bool_to_prop. unfold is_digit in H. unfold atoi, is_space.
    replace (code c =? 32) with false by lia. replace ((9 <=? code c) && (code c <=? 13)) with false by lia.
    replace (code c =? 45) with false by lia. by replace (code c =? 43) with false by lia.
  - intros d Hnd. apply (split_none is_digit); [done|]. intros c Hc E. unfold is_digit in *. rewrite E in Hc. congruence.
Qed.

(** ** Closing an established connection *)

#[local] Arguments stop : simpl never.
#[local] Arguments erase_client : simpl never.

Lemma stop_keeps_conn im c up :
  im_conns im !! c = Some up →
  ∃ up', im_conns (stop im) !! c = Some up' ∧ stop_ (stop im) = true ∧ im_timers (stop im) = im_timers im.
Proof.
  intros Hc. unfold stop. cbn. destruct (websockConnPtr_ im) as [c'|]; cbn; [|by eexists].
  destruct (decide (c' = c)) as [->|]; [rewrite lookup_alter_eq, Hc|rewrite lookup_alter_ne by done]; by eexists.
Qed.

Lemma erase_gone id w : g_wsClients (erase_client id w) !! id = None.
Proof. unfold erase_client. destruct (g_wsClients w !! id) eqn:E; [|done]. cbn. apply lookup_delete_eq. Qed.

Lemma erase_log id w : cl_log (erase_client id w) = cl_log w.
Proof. unfold erase_client. by destruct (g_wsClients w !! id). Qed.

Lemma op_log inet w op : cl_log (run_client_op inet w op) = cl_log w.
Proof.
  destruct op; cbn; [done| |].
  - unfold client_send. destruct (findClient id w); [|done]. by case_if.
  - unfold client_close. destruct (findClient id w); [|done]. by case_if.
Qed.

Lemma ops_log inet ops w : cl_log (fold_left (run_client_op inet) ops w) = cl_log w.
Proof. revert w. induction ops as [|op ops IH]; intros w; cbn; [done|]. by rewrite IH, op_log. Qed.

(** ** Theorems *)

(** The address of the server survives the trip through the host string:
    for a lower-case host name without colon, slash or closing bracket and a
    port in range, the constructor recovers from [ws://host:port] (or [wss://])
    exactly the scheme, the name and the port, and without a port uses 80 (443
    for [wss]). *)
Theorem host_string_roundtrip (inet_pton : bool → string → bool) (ssl : bool) (host : string) (port : Z) :
  str_forallb host_char host = true → 0 < port < 65536 →
  parse_host inet_pton (scheme ssl +:+ host +:+ ":" +:+ print_int port) =
    {| hs_useSSL := ssl; hs_domain := host; hs_addr := {| sa_ip_set := inet_pton false host; sa_port := port |} |} ∧
  parse_host inet_pton (scheme ssl +:+ host) =
    {| hs_useSSL := ssl; hs_domain := host;
       hs_addr := {| sa_ip_set := inet_pton false host; sa_port := if ssl then 443 else 80 |} |}.
Proof.
  intros Hh Hp. destruct (host_chars host Hh) as [Hlow Hnone]. destruct (port_digits port Hp) as (Hpl & Hat & Hpn).
  assert (Hfull : ∀ d, (d = "/" ∨ d = "]")%char → split_at d (host +:+ ":" +:+ print_int port) = None).
  { intros d Hd. apply split_none_app; [apply Hnone; tauto|]. cbn. by destruct Hd as [->| ->]; cbn; rewrite Hpn. }
  split.
  - rewrite parse_scheme; [|by apply Hfull; auto|by rewrite !tolower_app, Hlow, Hpl].
    unfold host_part. rewrite Hfull by auto. unfold name_port.
    change (":" +:+ print_int port) with (String ":" (print_int port)).
    rewrite (split_app host_char); [|done|by apply Hnone; auto].
    unfold port_address, before. rewrite Hpn, Hat by done.
    replace (0 <? port) with true by lia. by replace (port <? 65536) with true by lia.
  - rewrite parse_scheme; [|by apply Hnone; auto|done]. unfold host_part, name_port, before.
    rewrite !(λ d H, proj2 (Hnone d H)) by auto. done.
Qed.

(** The R hooks of the clients are neither leaked nor lost while the client
    is known: in every run, whatever the loop thread and the hooks do, R's
    precious list holds exactly the hooks of the clients in the table (each as
    often as it is registered), and [shutdownWsClients], whatever the loop
    thread still does before it is joined, releases all of them and empties
    both tables. *)
Theorem client_hooks_balanced inet base w b :
  reachable (step inet) (clients_init base, []) (w, b) → cl_created w < MAX_CLIENTS →
  cl_precious w ≡ₚ all_hooks (g_wsClients w) ++ base ∧
  ∀ loop_run, loop_steps (stop_all w) (loop_run (stop_all w)) →
    let w' := shutdownWsClients loop_run w in
    cl_precious w' ≡ₚ base ∧ g_wsClients w' = ∅ ∧ g_wsClientEvents w' = [] ∧ impls w' = ∅.
Proof.
  intros Hr Hm. pose proof (run_core inet base w b Hr Hm) as Hc. split; [by apply Hc|].
  intros loop_run Hl. destruct (core_loop_steps base (b ++ g_wsClientEvents w) _ _ Hl) as (_ & new & Hc').
  { by apply core_stop_all. }
  rewrite <- app_assoc in Hc'. by apply core_finish in Hc' as [_ Hp].
Qed.

(** C31. The hooks of one client follow the connection's life: in every run the
    calls made for a client are, in this order, at most one [on_open], any
    number of [on_message] and at most one [on_close]; nothing is called after
    [on_close], although the connection underneath reconnects by itself. *)
Theorem client_hook_protocol inet base w b id :
  reachable (step inet) (clients_init base, []) (w, b) → cl_created w < MAX_CLIENTS →
  ∃ n, calls id (cl_log w) `sublist_of` Open :: replicate n Message ++ [Close].
Proof.
  intros Hr Hm. pose proof (co_ok _ _ _ _ (run_core inet base w b Hr Hm) id) as Hok. unfold client_ok in Hok.
  destruct (g_wsClients w !! id); [|done].
  destruct Hok as (im & d & _ & [Hd|[? _]] & Hs & Hq & _); [|done].
  by apply (seq_prefix_shape d (kinds id (b ++ g_wsClientEvents w)) (upgraded_ im)).
Qed.

(** Closing a client whose connection is not up yet never completes: if
    [drogonR_ws_client_close] is called while the TCP connect is under way, then
    until a shutdown the client stays in the table, its hooks stay preserved and
    no hook of it is ever called, [on_close] included. *)
Theorem close_while_connecting_leaks inet base w b id wc im n s' :
  reachable (step inet) (clients_init base, []) (w, b) →
  g_wsClients w !! id = Some wc → wc_client wc = true → impls w !! id = Some im →
  tcpClientPtr_ im = Some Connecting → im_conns im = ∅ → im_tasks im = [] → im_resolves im = O → im_timers im = O →
  kinds id (b ++ g_wsClientEvents w) = [] →
  steps (run_step inet) n (client_close id w, b) s' → cl_created (fst s') < MAX_CLIENTS →
  ∃ wc', g_wsClients (fst s') !! id = Some wc' ∧ held wc' = held wc ∧
         calls id (cl_log (fst s')) = calls id (cl_log w).
Proof.
  intros Hr Hwc Hcl Him _ Hco Hta Hre Hti Hk Hs Hm.
  assert (Hinit : stuck_run id (held wc) (calls id (cl_log w)) base (client_close id w, b)).
  { split.
    - eapply (run_ok_step inet base (w, b)); [|apply s_run, s_close].
      exact (reachable_invariant (step inet) (run_ok base) _ (run_ok_init base) (λ s s', run_ok_step inet base s s') _ Hr).
    - cbn. intros _. rewrite close_frame. unfold client_close, findClient. rewrite Hwc, Hcl. split; cbn; try done.
      + exists (set_wc_closing wc). by rewrite lookup_insert_eq.
      + exists (stop im). rewrite lookup_alter_eq, Him. split; [done|]. unfold stop. cbn.
        destruct (websockConnPtr_ im); cbn; by rewrite ?Hco. }
  destruct (steps_invariant (run_step inet) (λ _, stuck_run id (held wc) (calls id (cl_log w)) base) _ Hinit
    (λ _ s s', stuck_run_step inet id _ _ base s s') n s' Hs) as [_ Hst].
  destruct (Hst Hm) as [(wc' & H1 & _ & H2) _ _ H3]. eauto.
Qed.

(** Closing a client whose connection is up completes: the loop's disconnect
    queues the Close, and the next drain calls [on_close("closed", 0)], drops the
    client from the table and schedules no reconnect. *)
Theorem close_established_completes inet code w id wc im c up :
  g_wsClients w !! id = Some wc → wc_client wc = true → impls w !! id = Some im →
  im_conns im !! c = Some up → g_wsClientEvents w = [] →
  ∃ w' im', loop_step id (Disconnect c) (client_close id w) = Some w' ∧
    impls w' !! id = Some im' ∧ im_timers im' = im_timers im ∧
    g_wsClients (drainWsClientEvents inet code w') !! id = None ∧
    ∀ h, wc_on_close wc = Some h → is_closure h = true →
      cl_log (drainWsClientEvents inet code w') = cl_log w ++ [(id, Close, [mkString "closed"; ScalarInteger 0])].
Proof.
  intros Hwc Hcl Him Hc Hev.
  destruct (stop_keeps_conn im c up Hc) as (up' & Hc' & Hst & Hti).
  assert (Hclose : client_close id w =
    set_impls (alter stop id (impls w)) (set_clients (<[id:=set_wc_closing wc]> (g_wsClients w)) (cl_precious w) w)).
  { unfold client_close, findClient. by rewrite Hwc, Hcl. }
  rewrite Hclose. unfold loop_step. cbn. rewrite lookup_alter_eq, Him. cbn. unfold alive. cbn.
  rewrite lookup_insert_eq, bool_decide_true by done. cbn. rewrite Hc'. rewrite decide_True by done. cbn.
  eexists _, _. split; [reflexivity|]. cbn. rewrite lookup_insert_eq. split; [reflexivity|]. split.
  { destruct (tcpClientPtr_ (stop im)) as [[]|]; cbn; try case_decide; cbn; by rewrite Hst. }
  unfold drainWsClientEvents. cbn. rewrite Hev. cbn. unfold handle_client_event. cbn.
  rewrite lookup_insert_eq. cbn.
  rewrite decide_True by done. split; [by apply erase_gone|].
  intros h Hh Hclo. rewrite erase_log, Hh. cbn. rewrite Hclo. by rewrite ops_log.
Qed.

(** ** Concrete runs *)

Definition ex_inet : bool → string → bool := λ _ _, true.
Definition ex_code : nat → SEXP → list SEXP → list client_op := λ _ _ _, [].
Definition ex_open : ClientWorld :=
  Eval vm_compute in
    snd (open_client ex_inet "ws://localhost:8080" "/" (CLOSXP 1) (CLOSXP 2) (CLOSXP 3) (ensureClientLoop (clients_init []))).
Definition loop1 (e : loop_event) (w : ClientWorld) : ClientWorld := default w (loop_step 1 e w).
Definition ex_connecting : ClientWorld := Eval vm_compute in loop1 RunTask ex_open.
Definition ex_up : ClientWorld := Eval vm_compute in loop1 TcpUp ex_connecting.
Definition ex_opened : ClientWorld :=
  Eval vm_compute in drainWsClientEvents ex_inet ex_code (loop1 (Recv 1 (Some true) [("hi", Text)]) ex_up).

Lemma ex_open_reachable : reachable (step ex_inet) (clients_init [], []) (ex_open, []).
Proof.
  exists 1%nat. apply steps_one, s_run.
  exact (s_connect ex_inet "ws://localhost:8080" "/" (CLOSXP 1) (CLOSXP 2) (CLOSXP 3) (clients_init []) []).
Qed.

Lemma ex_connecting_reachable : reachable (step ex_inet) (clients_init [], []) (ex_connecting, []).
Proof.
  destruct ex_open_reachable as [n Hn]. exists (S n). econstructor; [exact Hn|].
  apply s_run, (s_loop ex_inet 1 RunTask). vm_compute. reflexivity.
Qed.

(** A message arrives right behind the handshake: [on_open], then [on_message]. *)
Example open_then_message : cl_log ex_opened = [(1, Open, []); (1, Message, [mkString "hi"; ScalarLogical false])].
Proof. vm_compute. reflexivity. Qed.

(** A client closed before the loop ran its connect task connects all the same:
    [on_open] is called after the close. *)
Example close_before_connect_task :
  let w := client_close 1 ex_open in
  let w := loop1 (Recv 1 (Some true) []) (loop1 TcpUp (loop1 RunTask w)) in
  cl_log (drainWsClientEvents ex_inet ex_code w) = [(1, Open, [])].
Proof. vm_compute. reflexivity. Qed.

(** A server that accepts the TCP connection and drops it before the upgrade is
    reported as "closed", not "connect_failed". *)
Example dropped_before_upgrade :
  cl_log (drainWsClientEvents ex_inet ex_code (loop1 (Disconnect 1) ex_up)) =
    [(1, Close, [mkString "closed"; ScalarInteger 0])].
Proof. vm_compute. reflexivity. Qed.

(** Control frames reach [on_message] like text: the answer to the client's own
    ping, and the payload of the server's close frame. *)
Example control_frames_are_messages :
  cl_log (drainWsClientEvents ex_inet ex_code
            (loop1 (Recv 1 (Some true) [(EmptyString, Pong); ("bye", CloseFrame)]) ex_up)) =
    [(1, Open, []); (1, Message, [mkString EmptyString; ScalarLogical false]);
     (1, Message, [mkString "bye"; ScalarLogical false])].
Proof. vm_compute. reflexivity. Qed.

Lemma host_string_roundtrip_witness :
  str_forallb host_char "example.org" = true ∧
  parse_host ex_inet "wss://example.org:9443" =
    {| hs_useSSL := true; hs_domain := "example.org"; hs_addr := {| sa_ip_set := true; sa_port := 9443 |} |}.
Proof.
  split; [vm_compute; reflexivity|].
  apply (host_string_roundtrip ex_inet true "example.org" 9443); [vm_compute; reflexivity|lia].
Defined.

Lemma client_hooks_balanced_witness :
  reachable (step ex_inet) (clients_init [], []) (ex_connecting, []) ∧
  cl_precious ex_connecting ≡ₚ all_hooks (g_wsClients ex_connecting) ++ [].
Proof.
  split; [apply ex_connecting_reachable|].
  apply (client_hooks_balanced ex_inet [] ex_connecting []); [apply ex_connecting_reachable|vm_compute; reflexivity].
Defined.

Lemma client_hook_protocol_witness :
  ∃ n, calls 1 (cl_log ex_connecting) `sublist_of` Open :: replicate n Message ++ [Close].
Proof.
  apply (client_hook_protocol ex_inet [] ex_connecting [] 1); [apply ex_connecting_reachable|vm_compute; reflexivity].
Defined.

Definition ex_client : WsClient :=
  Eval vm_compute in
    {| wc_id := 1; wc_client := true; wc_loop := true; wc_closing := false; wc_on_message := Some (CLOSXP 1);
       wc_on_open := Some (CLOSXP 2); wc_on_close := Some (CLOSXP 3) |}.
Definition ex_impl (w : ClientWorld) : Impl := default (new_impl {| hs_useSSL := false; hs_domain := EmptyString; hs_addr := no_address |} EmptyString) (impls w !! 1).

Lemma close_while_connecting_leaks_witness :
  ∃ wc', g_wsClients (client_close 1 ex_connecting) !! 1 = Some wc' ∧ held wc' = [CLOSXP 1; CLOSXP 2; CLOSXP 3] ∧
         calls 1 (cl_log (client_close 1 ex_connecting)) = [].
Proof.
  apply (close_while_connecting_leaks ex_inet [] ex_connecting [] 1 ex_client (ex_impl ex_connecting) 0
           (client_close 1 ex_connecting, []));
    try (vm_compute; reflexivity); [apply ex_connecting_reachable|apply steps_refl].
Defined.

Lemma close_established_completes_witness :
  ∃ w' im', loop_step 1 (Disconnect 1) (client_close 1 ex_opened) = Some w' ∧
    impls w' !! 1 = Some im' ∧ im_timers im' = O ∧
    g_wsClients (drainWsClientEvents ex_inet ex_code w') !! 1 = None ∧
    ∀ h, wc_on_close ex_client = Some h → is_closure h = true →
      cl_log (drainWsClientEvents ex_inet ex_code w') =
        cl_log ex_opened ++ [(1, Close, [mkString "closed"; ScalarInteger 0])].
Proof.
  apply (close_established_completes ex_inet ex_code ex_opened 1 ex_client (ex_impl ex_opened) 1 true);
    vm_compute; reflexivity.
Defined.
