(* ===== verification/ResponseCache.v ===== *)
(** * Cached renderings

    A response that may be cached keeps its bytes
    (src/src/drogon/lib/src/HttpResponseImpl.cc, [renderToBuffer]): later
    renderings only overwrite the date in them.  [httpRequestHandling] of
    HttpServer.cc also renders its headers ahead of time.  Both are compared
    with rendering afresh. *)

From stdpp Require Import base list numbers option strings gmap.
From Stdlib Require Import ZArith Lia.
From S2P Require Import Prelude CDouble HttpRequest ResponseRender.

(** ** The members of the response that serve rendering *)

Record Rendering := {
  expriedTime_ : Z;
  httpString_ : option (list Z);
  datePos_ : option nat;                 (* [None] is [npos] *)
  httpStringDate_ : Z;
  fullHeaderString_ : option (list Z)
}.

Definition new_rendering : Rendering :=
  {| expriedTime_ := -1; httpString_ := None; datePos_ := None; httpStringDate_ := -1; fullHeaderString_ := None |}.

(** [memcpy] into the buffer. *)
Definition overwrite (pos : nat) (data s : list Z) : list Z := take pos s ++ data ++ drop (pos + length data) s.

Section Cached.
Context (order : gmap (list Z) (list Z) → list (list Z * list Z)) (serverHeader : list Z).
(** [sendDateHeader()], and the text of a date in seconds. *)
Context (sendDateHeader : bool) (getHttpFullDate : Z → list Z).

Definition seconds (now : Z) : Z := now / 1000000.

(** [setExpiredTime] *)
Definition setExpiredTime (t : Z) (v : Version) (c : Rendering) : Rendering :=
  {| expriedTime_ := t; httpString_ := httpString_ c; datePos_ := None; httpStringDate_ := httpStringDate_ c;
     fullHeaderString_ := match v with kHttp10 => if t <? 0 then None else fullHeaderString_ c | _ => fullHeaderString_ c end |}.

(** [makeHeaderString()] *)
Definition keepHeaderString (r : HttpResponseImpl) (c : Rendering) : HttpResponseImpl * Rendering :=
  let '(r', h) := makeHeaderString order serverHeader r in
  (r', {| expriedTime_ := expriedTime_ c; httpString_ := httpString_ c; datePos_ := datePos_ c;
          httpStringDate_ := httpStringDate_ c; fullHeaderString_ := Some h |}).

(** Rendering anew. *)
Definition build (now : Z) (r : HttpResponseImpl) (c : Rendering) : HttpResponseImpl * Rendering * list Z :=
  let '(r', header) := match fullHeaderString_ c with Some h => (r, h) | None => makeHeaderString order serverHeader r end in
  let head := if sendDateHeader then header ++ str "date: " ++ getHttpFullDate (seconds now) ++ LF2 ++ LF2 else header ++ LF2 in
  let bytes := head ++ default [] (rs_body r') in
  (r', {| expriedTime_ := expriedTime_ c;
          httpString_ := if 0 <=? expriedTime_ c then Some bytes else httpString_ c;
          datePos_ := if sendDateHeader then Some (length header + 6)%nat else datePos_ c;
          httpStringDate_ := httpStringDate_ c; fullHeaderString_ := fullHeaderString_ c |}, bytes).

(** [renderToBuffer()]; a date position without bytes does not occur ([assert(httpString_)]). *)
Definition renderToBuffer_cached (now : Z) (r : HttpResponseImpl) (c : Rendering) : HttpResponseImpl * Rendering * list Z :=
  if 0 <=? expriedTime_ c then
    if sendDateHeader then
      match datePos_ c with
      | Some pos =>
          let s := default [] (httpString_ c) in
          if negb (seconds now =? httpStringDate_ c) then
            let s' := overwrite pos (getHttpFullDate (seconds now)) s in
            (r, {| expriedTime_ := expriedTime_ c; httpString_ := Some s'; datePos_ := Some pos;
                   httpStringDate_ := seconds now; fullHeaderString_ := fullHeaderString_ c |}, s')
          else (r, c, s)
      | None => build now r c
      end
    else match httpString_ c with Some s => (r, c, s) | None => build now r c end
  else build now r c.

(** The response is rendered again and again. *)
Fixpoint renderings (times : list Z) (r : HttpResponseImpl) (c : Rendering) : list (list Z) :=
  match times with
  | [] => []
  | t :: times => let '(r', c', bytes) := renderToBuffer_cached t r c in bytes :: renderings times r' c'
  end.

(** Rendering afresh. *)
Definition fresh_rendering (r : HttpResponseImpl) (now : Z) : list Z :=
  (renderToBuffer order serverHeader (if sendDateHeader then Some (getHttpFullDate (seconds now)) else None) r).2.

(** ** Equivalence *)

(** All dates have [httpFullDateStringLength] characters. *)
Context (len : nat) (Hlen : ∀ s, length (getHttpFullDate s) = len).

(** A stream's headers change when they are first rendered; no other response's do. *)
Definition settled (r : HttpResponseImpl) : Prop := (makeHeaderString order serverHeader r).1 = r.

Lemma not_stream_settled r : rs_stream r = false → rs_asyncStream r = false → settled r.
Proof.
  intros H1 H2. unfold settled, makeHeaderString, announce_length. rewrite H1, H2. cbn [orb].
  by destruct (negb _), (rs_sendfile r) as [[[? ?] ?]|].
Qed.

Lemma overwrite_middle a b b' d : length b = length b' → overwrite (length a) b (a ++ b' ++ d) = a ++ b ++ d.
Proof.
  intros E. unfold overwrite. rewrite take_app_length. f_equal. f_equal.
  rewrite app_assoc, drop_app_ge by (rewrite length_app; lia).
  replace (length a + length b - length (a ++ b'))%nat with O by (rewrite length_app; lia). done.
Qed.

(** The bytes of [r] with a given date, split at the date. *)
Definition head_of (r : HttpResponseImpl) : list Z := (makeHeaderString order serverHeader r).2.
Definition before_date (r : HttpResponseImpl) : list Z := head_of r ++ str "date: ".
Definition after_date (r : HttpResponseImpl) : list Z := LF2 ++ LF2 ++ default [] (rs_body r).

Lemma fresh_split r t :
  settled r → fresh_rendering r t =
    if sendDateHeader then before_date r ++ getHttpFullDate (seconds t) ++ after_date r
    else head_of r ++ LF2 ++ default [] (rs_body r).
Proof.
  intros Hr. unfold fresh_rendering, renderToBuffer, before_date, after_date, head_of, settled in *.
  destruct (makeHeaderString order serverHeader r) as [r' h]. cbn [fst snd] in *. subst r'.
  destruct sendDateHeader; [|done]. unfold date_line, field. rewrite <- !app_assoc. done.
Qed.

Record kept (r : HttpResponseImpl) (c : Rendering) : Prop := {
  kp_cached : 0 ≤ expriedTime_ c;
  kp_header h : fullHeaderString_ c = Some h → h = head_of r;
  kp_string s : httpString_ c = Some s → sendDateHeader = false → s = fresh_rendering r 0;
  kp_date p : datePos_ c = Some p → sendDateHeader = true →
    p = length (before_date r) ∧ ∃ t, httpString_ c = Some (fresh_rendering r t) ∧
      (0 ≤ httpStringDate_ c → seconds t = httpStringDate_ c)
}.

Lemma build_kept t r c :
  settled r → kept r c → let '(r', c', bytes) := build t r c in
  r' = r ∧ bytes = fresh_rendering r t ∧ (httpStringDate_ c < 0 → kept r c').
Proof.
  intros Hr [H1 H2 H3 H4]. unfold build.
  assert (Hh : match fullHeaderString_ c with Some h => (r, h) | None => makeHeaderString order serverHeader r end = (r, head_of r)).
  { destruct (fullHeaderString_ c) as [h|] eqn:E; [by rewrite (H2 h)|].
    unfold settled, head_of in *. destruct (makeHeaderString order serverHeader r). cbn in *. by subst. }
  rewrite Hh. rewrite (proj2 (Z.leb_le _ _)) by done.
  assert (Hb : (if sendDateHeader then head_of r ++ str "date: " ++ getHttpFullDate (seconds t) ++ LF2 ++ LF2
                else head_of r ++ LF2) ++ default [] (rs_body r) = fresh_rendering r t).
  { rewrite fresh_split by done. unfold before_date, after_date. destruct sendDateHeader; by rewrite <- !app_assoc. }
  rewrite Hb. split_and!; [done | done|]. intros Hd. constructor; cbn; [done | done | |].
  - intros s [= <-] Hs. rewrite !fresh_split, Hs by done. done.
  - intros p Hp Hs. rewrite Hs in Hp. injection Hp as <-. split; [unfold before_date; rewrite length_app; cbn; lia|].
    exists t. split; [done | lia].
Qed.

Lemma build_date t r c : httpStringDate_ (build t r c).1.2 = httpStringDate_ c.
Proof. unfold build. by destruct (fullHeaderString_ c); [|destruct (makeHeaderString _ _ _)]. Qed.

Lemma cached_kept t r c :
  settled r → kept r c → httpStringDate_ c < 0 ∨ (∃ p, datePos_ c = Some p ∧ sendDateHeader = true) → 0 ≤ t →
  let '(r', c', bytes) := renderToBuffer_cached t r c in
  r' = r ∧ bytes = fresh_rendering r t ∧ kept r c' ∧
  (httpStringDate_ c' < 0 ∨ (∃ p, datePos_ c' = Some p ∧ sendDateHeader = true)).
Proof.
  intros Hr Hk Hd Ht. pose proof (build_kept t r c Hr Hk) as Hbuild. pose proof Hk as [H1 H2 H3 H4].
  assert (Hb : httpStringDate_ c < 0 → let '(r', c', bytes) := build t r c in
    r' = r ∧ bytes = fresh_rendering r t ∧ kept r c' ∧ (httpStringDate_ c' < 0 ∨ (∃ p, datePos_ c' = Some p ∧ sendDateHeader = true))).
  { intros Hlt. destruct (build t r c) as [[r' c'] bytes] eqn:E. destruct Hbuild as (-> & -> & Hk').
    split_and!; [done | done | by apply Hk'|]. left. pose proof (build_date t r c) as Hbd. rewrite E in Hbd. cbn in Hbd. by rewrite Hbd. }
  unfold renderToBuffer_cached. rewrite (proj2 (Z.leb_le _ _)) by done. destruct sendDateHeader eqn:Hs.
  - destruct (datePos_ c) as [p|] eqn:Hp; [|apply Hb; destruct Hd as [?|(? & ? & _)]; [done | congruence]].
    destruct (H4 p eq_refl eq_refl) as (-> & t0 & Hstr & Ht0). rewrite Hstr. cbn [default from_option id].
    assert (Hover : overwrite (length (before_date r)) (getHttpFullDate (seconds t)) (fresh_rendering r t0) = fresh_rendering r t).
    { rewrite !fresh_split, Hs by done. apply overwrite_middle. by rewrite !Hlen. }
    assert (0 ≤ seconds t) by (by apply Z.div_pos).
    destruct (seconds t =? httpStringDate_ c) eqn:E; cbn [negb].
    + apply Z.eqb_eq in E. split_and!; [done| |done|right; eauto].
      rewrite !fresh_split, Hs by done. rewrite Ht0; [by rewrite E | lia].
    + rewrite Hover. split_and!; [done | done | |right; cbn; eauto]. constructor; cbn; [done | done | congruence|].
      intros p' [= <-] _. split; [done|]. exists t. split; [done | done].
  - destruct (httpString_ c) as [s|] eqn:E; [|apply Hb; destruct Hd as [?|(? & _ & ?)]; done].
    split_and!; [done | | done | done]. rewrite (H3 s eq_refl eq_refl), !fresh_split, Hs by done. done.
Qed.

Lemma renderings_kept times r c :
  settled r → kept r c → httpStringDate_ c < 0 ∨ (∃ p, datePos_ c = Some p ∧ sendDateHeader = true) →
  Forall (λ t, 0 ≤ t) times → renderings times r c = fresh_rendering r <$> times.
Proof.
  intros Hr Hk Hd Ht. revert c Hk Hd. induction Ht as [|t times Ht _ IH]; intros c Hk Hd; [done|].
  cbn [renderings]. pose proof (cached_kept t r c Hr Hk Hd Ht) as H.
  destruct (renderToBuffer_cached t r c) as [[r' c'] bytes]. destruct H as (-> & -> & Hk' & Hd').
  cbn. f_equal. by apply IH.
Qed.
End Cached.

(** ** Properties *)

(** C27. Caching the bytes of a response changes nothing but the work: a response
    that may be cached and is not changed in between is rendered, at any
    sequence of times, to the bytes of a fresh rendering at that time, with or
    without dates, and whether or not its headers were rendered ahead.  So the
    date is always found and overwritten at its place. *)
Theorem cached_rendering_fresh order serverHeader sendDate getHttpFullDate len times r v expired ahead :
  (∀ s, length (getHttpFullDate s) = len) → rs_stream r = false → rs_asyncStream r = false → 0 ≤ expired →
  Forall (λ t, 0 ≤ t) times →
  let c := setExpiredTime expired v new_rendering in
  renderings order serverHeader sendDate getHttpFullDate times r
    (if ahead : bool then (keepHeaderString order serverHeader r c).2 else c) =
  fresh_rendering order serverHeader sendDate getHttpFullDate r <$> times.
Proof.
  intros Hlen Hs Ha He Ht c. pose proof (not_stream_settled order serverHeader r Hs Ha) as Hr.
  assert (Hc : fullHeaderString_ c = None) by (unfold c; cbn; by destruct v, (expired <? 0)).
  eapply renderings_kept; [done | done | | left | done]; unfold keepHeaderString.
  - pose proof Hr as Hr'. unfold settled in Hr'. destruct ahead; [destruct (makeHeaderString order serverHeader r) eqn:E|].
    + constructor; cbn; [done | | done | done]. intros h0 [= <-]. unfold head_of. by rewrite E.
    + by constructor; [| rewrite Hc | |].
  - by destruct ahead; [destruct (makeHeaderString order serverHeader r)|].
Qed.

Definition digits_date (s : Z) : list Z := str (if s =? 1 then "one" else if s =? 2 then "two" else "few").

Lemma cached_rendering_fresh_witness :
  renderings map_to_list [] true digits_date [1000000; 1500000; 2000000] (demo_response 200 false (Some (str "hi")))
    (setExpiredTime 0 kHttp11 new_rendering) =
  fresh_rendering map_to_list [] true digits_date (demo_response 200 false (Some (str "hi"))) <$> [1000000; 1500000; 2000000].
Proof.
  apply (cached_rendering_fresh map_to_list [] true digits_date 3 [1000000; 1500000; 2000000]
    (demo_response 200 false (Some (str "hi"))) kHttp11 0 false); [|done | done | lia | repeat constructor; lia].
  intros s. unfold digits_date. by destruct (s =? 1), (s =? 2).
Defined.

(** ** Observations *)

(** [handleResponse] sets the version and the connection header of each
    request, but a rendering that is kept does not follow: after a response to
    a client that keeps the connection, the one that closes it is told nothing. *)
Definition with_connection (close : bool) : HttpResponseImpl := demo_response 404 close None.

Example kept_rendering_is_stale :
  let c := setExpiredTime 0 kHttp11 new_rendering in
  let '(_, c1, first) := renderToBuffer_cached map_to_list [] false (λ _, []) 0 (with_connection false) c in
  let '(_, _, second) := renderToBuffer_cached map_to_list [] false (λ _, []) 0 (with_connection true) c1 in
  second = first ∧ second ≠ fresh_rendering map_to_list [] false (λ _, []) (with_connection true) 0.
Proof. vm_compute. split; [reflexivity | discriminate]. Qed.

(** Headers rendered ahead are made before [handleResponse] has set anything:
    even the first response of a handler that may be cached lacks
    [connection: close]. *)
Example header_ahead_is_stale :
  let '(_, c) := keepHeaderString map_to_list [] (with_connection false) (setExpiredTime 0 kHttp11 new_rendering) in
  let '(_, _, bytes) := renderToBuffer_cached map_to_list [] false (λ _, []) 0 (with_connection true) c in
  bytes = fresh_rendering map_to_list [] false (λ _, []) (with_connection false) 0.
Proof. vm_compute. reflexivity. Qed.
