(* ===== verification/ResponseParser.v ===== *)
(** * Parsing a response

    The client's side of HTTP, which reads the answer to the WebSocket
    handshake: src/src/drogon/lib/src/HttpResponseParser.cc and [addHeader]
    of src/src/drogon/lib/src/HttpResponseImpl.cc, against the interface of
    the input buffer.  [utils::getHttpDate], a wrapper around [strptime], is
    a parameter.  The theorem joins the two ends: what ResponseRender writes
    is what the parser reads. *)

From stdpp Require Import base gmap list strings numbers.
From Stdlib Require Import ZArith Lia.
From S2P Require Import Prelude MsgBuffer WsFrame CDouble HttpRequest HttpParser HttpDelivery ResponseRender.

(** ** Numbers *)

(** [atoi]: [strtol] in base 10, converted to [int]. *)
Definition atoi (l : list Z) : Z :=
  let '(neg, l) := sign (drop_space l) in
  let n := digits 10 0 l in
  wrapI32 (if neg : bool then Z.max (- 2 ^ 63) (- n) else Z.min (2 ^ 63 - 1) n).

(** [std::stoi]: [None] when it throws. *)
Definition stoi (l : list Z) : option Z :=
  let '(neg, l) := sign (drop_space l) in
  if starts_with_digit 10 l then
    let n := if neg : bool then - digits 10 0 l else digits 10 0 l in
    if (INT_MIN <=? n) && (n <=? INT_MAX) then Some n else None
  else None.

(** The rest after the digits. *)
Fixpoint after_digits (base : Z) (l : list Z) : list Z :=
  match l with
  | c :: l' => if starts_with_digit base l then after_digits base l' else l
  | [] => []
  end.

(** The chunk size: [strtoull] in base 16, rejected when there is no digit,
    when it is out of range, or when something but an extension follows. *)
Definition chunk_size (l : list Z) : option Z :=
  let '(neg, l) := sign (drop_space l) in
  let l := skip_0x l in
  if starts_with_digit 16 l then
    let n := digits 16 0 l in
    if 2 ^ 64 <=? n then None
    else match after_digits 16 l with
         | [] => Some (wrapU64 (if neg : bool then - n else n))
         | c :: _ => if (c =? 0) || (c =? 59) then Some (wrapU64 (if neg : bool then - n else n)) else None
         end
  else None.

(** ** Cookies of a response *)

Inductive SameSite := kNull | kLax | kStrict | kNone.

Record Cookie := {
  expiresDate_ : Z; httpOnly_ : bool; secure_ : bool; domain_ : list Z; ck_path : list Z;
  key_ : list Z; value_ : list Z; maxAge_ : option Z; sameSite_ : SameSite }.

Definition stricmp (a b : list Z) : bool := bool_decide (tolower <$> a = b).
Definition convertString2SameSite (s : list Z) : SameSite :=
  if stricmp s (str "lax") then kLax
  else if stricmp s (str "strict") then kStrict
  else if stricmp s (str "none") then kNone
  else kNull.

(** [utils::splitString(value, ";")]: empty pieces are left out. *)
Fixpoint split_semi (fuel : nat) (l : list Z) : list (list Z) :=
  match fuel with
  | O => []
  | S f =>
      let pos := find 59 l in
      let piece := match take pos l with [] => [] | p => [p] end in
      if (pos <? length l)%nat then piece ++ split_semi f (drop (pos + 1) l) else piece
  end.

(** The name and the value of one piece. *)
Definition cookie_piece (coo : list Z) : list Z * list Z :=
  let epos := find 61 coo in
  if (epos <? length coo)%nat then (drop_space (take epos coo), drop_space (drop (epos + 1) coo))
  else (drop_space coo, []).

Section Cookies.
Context (getHttpDate : list Z → Z).

Definition new_cookie : Cookie :=
  {| expiresDate_ := 2 ^ 63 - 1; httpOnly_ := false; secure_ := false; domain_ := []; ck_path := [];
     key_ := []; value_ := []; maxAge_ := None; sameSite_ := kNull |}.

(** One attribute; [None] when [std::stoi] throws. *)
Definition cookie_attribute (nv : list Z * list Z) (c : Cookie) : option Cookie :=
  let '(name, v) := (tolower <$> nv.1, nv.2) in
  let set (e : Z) (h s : bool) (d p : list Z) (m : option Z) (ss : SameSite) :=
    {| expiresDate_ := e; httpOnly_ := h; secure_ := s; domain_ := d; ck_path := p; key_ := key_ c;
       value_ := value_ c; maxAge_ := m; sameSite_ := ss |} in
  if decide (name = str "path") then
    Some (set (expiresDate_ c) (httpOnly_ c) (secure_ c) (domain_ c) v (maxAge_ c) (sameSite_ c))
  else if decide (name = str "domain") then
    Some (set (expiresDate_ c) (httpOnly_ c) (secure_ c) v (ck_path c) (maxAge_ c) (sameSite_ c))
  else if decide (name = str "expires") then
    Some (set (getHttpDate v) (httpOnly_ c) (secure_ c) (domain_ c) (ck_path c) (maxAge_ c) (sameSite_ c))
  else if decide (name = str "secure") then
    Some (set (expiresDate_ c) (httpOnly_ c) true (domain_ c) (ck_path c) (maxAge_ c) (sameSite_ c))
  else if decide (name = str "httponly") then
    Some (set (expiresDate_ c) true (secure_ c) (domain_ c) (ck_path c) (maxAge_ c) (sameSite_ c))
  else if decide (name = str "samesite") then
    Some (set (expiresDate_ c) (httpOnly_ c) (secure_ c) (domain_ c) (ck_path c) (maxAge_ c) (convertString2SameSite v))
  else if decide (name = str "max-age") then
    match stoi v with
    | Some n => Some (set (expiresDate_ c) (httpOnly_ c) (secure_ c) (domain_ c) (ck_path c) (Some n) (sameSite_ c))
    | None => None
    end
  else Some c.

Fixpoint cookie_attributes (l : list (list Z)) (c : Cookie) : option Cookie :=
  match l with
  | [] => Some c
  | a :: l' => match cookie_attribute (cookie_piece a) c with Some c' => cookie_attributes l' c' | None => None end
  end.

(** The cookie of a [set-cookie] field. *)
Definition parse_set_cookie (value : list Z) : option Cookie :=
  match split_semi (S (length value)) value with
  | [] => Some new_cookie
  | first :: rest =>
      let '(k, v) := cookie_piece first in
      cookie_attributes rest
        {| expiresDate_ := 2 ^ 63 - 1; httpOnly_ := false; secure_ := false; domain_ := []; ck_path := [];
           key_ := k; value_ := v; maxAge_ := None; sameSite_ := kNull |}
  end.
End Cookies.

(** ** The parser *)

Inductive HttpResponseParseStatus :=
| pExpectResponseLine | pExpectHeaders | pExpectBody | pExpectChunkLen | pExpectChunkBody
| pExpectLastEmptyChunk | pExpectClose | pGotAll.

(** The fields of the response that parsing writes. *)
Record response := {
  re_version : Version; re_statusCode : Z; re_closeConnection : bool;
  re_headers : gmap (list Z) (list Z); re_cookies : gmap (list Z) Cookie; re_body : option (list Z) }.

Definition new_response : response :=
  {| re_version := kHttp11; re_statusCode := 0; re_closeConnection := false; re_headers := ∅; re_cookies := ∅;
     re_body := None |}.

Record HttpResponseParser := {
  rp_status : HttpResponseParseStatus;
  responsePtr_ : response;
  parseResponseForHeadMethod_ : bool;
  leftBodyLength_ : Z;
  rp_chunk : Z;                               (* [currentChunkLength_] *)
  shut : bool                                 (* [conn->shutdown()] was called *)
}.

Definition new_response_parser : HttpResponseParser :=
  {| rp_status := pExpectResponseLine; responsePtr_ := new_response; parseResponseForHeadMethod_ := false;
     leftBodyLength_ := 0; rp_chunk := 0; shut := false |}.

Definition reset_response_parser (p : HttpResponseParser) : HttpResponseParser :=
  {| rp_status := pExpectResponseLine; responsePtr_ := new_response; parseResponseForHeadMethod_ := false;
     leftBodyLength_ := 0; rp_chunk := 0; shut := shut p |}.

Definition setForHeadMethod (p : HttpResponseParser) : HttpResponseParser :=
  {| rp_status := rp_status p; responsePtr_ := responsePtr_ p; parseResponseForHeadMethod_ := true;
     leftBodyLength_ := leftBodyLength_ p; rp_chunk := rp_chunk p; shut := shut p |}.

Definition to_stage (st : HttpResponseParseStatus) (p : HttpResponseParser) : HttpResponseParser :=
  {| rp_status := st; responsePtr_ := responsePtr_ p; parseResponseForHeadMethod_ := parseResponseForHeadMethod_ p;
     leftBodyLength_ := leftBodyLength_ p; rp_chunk := rp_chunk p; shut := shut p |}.
Definition to_response (r : response) (p : HttpResponseParser) : HttpResponseParser :=
  {| rp_status := rp_status p; responsePtr_ := r; parseResponseForHeadMethod_ := parseResponseForHeadMethod_ p;
     leftBodyLength_ := leftBodyLength_ p; rp_chunk := rp_chunk p; shut := shut p |}.
Definition to_lengths (left chunk : Z) (p : HttpResponseParser) : HttpResponseParser :=
  {| rp_status := rp_status p; responsePtr_ := responsePtr_ p; parseResponseForHeadMethod_ := parseResponseForHeadMethod_ p;
     leftBodyLength_ := left; rp_chunk := chunk; shut := shut p |}.
Definition to_shut (p : HttpResponseParser) : HttpResponseParser :=
  {| rp_status := rp_status p; responsePtr_ := responsePtr_ p; parseResponseForHeadMethod_ := parseResponseForHeadMethod_ p;
     leftBodyLength_ := leftBodyLength_ p; rp_chunk := rp_chunk p; shut := true |}.

Definition with_fields (h : gmap (list Z) (list Z)) (c : gmap (list Z) Cookie) (r : response) : response :=
  {| re_version := re_version r; re_statusCode := re_statusCode r; re_closeConnection := re_closeConnection r;
     re_headers := h; re_cookies := c; re_body := re_body r |}.
Definition with_body (d : list Z) (r : response) : response :=
  {| re_version := re_version r; re_statusCode := re_statusCode r; re_closeConnection := re_closeConnection r;
     re_headers := re_headers r; re_cookies := re_cookies r; re_body := Some (default [] (re_body r) ++ d) |}.
(** [setVersion] and [setStatusCode] *)
Definition with_version (v : Version) (r : response) : response :=
  {| re_version := v; re_statusCode := re_statusCode r;
     re_closeConnection := match v with kHttp10 => true | _ => re_closeConnection r end;
     re_headers := re_headers r; re_cookies := re_cookies r; re_body := re_body r |}.
Definition with_status (c : Z) (r : response) : response :=
  {| re_version := re_version r; re_statusCode := c; re_closeConnection := re_closeConnection r;
     re_headers := re_headers r; re_cookies := re_cookies r; re_body := re_body r |}.

Definition response_header (k : list Z) (r : response) : list Z := default [] (re_headers r !! k).

(** ** [parseResponse] *)

(** The status line; [prev] is the byte before it, which is read when the
    line starts with a blank. *)
Inductive line_result := LOk (r : response) | LBad (r : response) | LOutside.

Definition processResponseLine (prev : option Z) (line : list Z) (r : response) : line_result :=
  let space := find 32 line in
  if (space =? length line)%nat then LOutside     (* the second search starts past the end *)
  else
    match (if (space =? 0)%nat then prev else line !! (space - 1)%nat) with
    | None => LOutside
    | Some c =>
        if (c =? 49) || (c =? 48) then
          let r := with_version (if c =? 49 then kHttp11 else kHttp10) r in
          let rest := drop (space + 1) line in
          let space2 := find 32 rest in
          if (space2 =? length rest)%nat then LBad r else LOk (with_status (atoi (take space2 rest)) r)
        else LBad r
    end.

Inductive response_round (B : Type) :=
| RContinue (p : HttpResponseParser) (b : B)
| RReturn (ok : bool) (p : HttpResponseParser) (b : B)
| RThrow (p : HttpResponseParser)
| ROutside (p : HttpResponseParser)
| RForever (p : HttpResponseParser).          (* no branch of the loop applies *)
Arguments RContinue {B}.
Arguments RReturn {B}.
Arguments RThrow {B}.
Arguments ROutside {B}.
Arguments RForever {B}.

Section Parse_response.
Context {B : Type} `{ByteQueue B}.
Context (getHttpDate : list Z → Z).

Definition response_line (p : HttpResponseParser) (b : B) : response_round B :=
  match findCRLF (bq_contents b) with
  | None => RReturn true p b
  | Some crlf =>
      match processResponseLine (bq_raw b (-1)) (take crlf (bq_contents b)) (responsePtr_ p) with
      | LOk r => RContinue (to_stage pExpectHeaders (to_response r p)) (bq_retrieve (crlf + 2) b)
      | LBad r => RReturn false (to_response r p) b
      | LOutside => ROutside p
      end
  end.

(** [addHeader(start, colon, end)]; [None] when it throws. *)
Definition add_response_header (line : list Z) (colon : nat) (r : response) : option response :=
  let field := tolower <$> take colon line in
  let value := trim_end (drop_space (drop (colon + 1) line)) in
  if decide (field = str "set-cookie") then
    match parse_set_cookie getHttpDate value with
    | None => None
    | Some c =>
        Some (match key_ c with [] => r | k => with_fields (re_headers r) (<[k := c]> (re_cookies r)) r end)
    end
  else Some (with_fields (<[field := value]> (re_headers r)) (re_cookies r) r).

(** What follows the headers; [None] is an error. *)
Definition response_framing (p : HttpResponseParser) : option HttpResponseParser :=
  let r := responsePtr_ p in
  match response_header (str "content-length") r with
  | [] =>
      Some (if decide (response_header (str "transfer-encoding") r = str "chunked") then to_stage pExpectChunkLen p
            else if (re_statusCode r =? 204) ||
                    ((re_statusCode r =? 101) &&
                     bool_decide (tolower <$> response_header (str "upgrade") r = str "websocket"))
            then to_stage pGotAll p
            else to_shut (to_stage pExpectClose p))
  | len => match stoull len with
           | None => None
           | Some n => Some (to_stage pExpectBody (to_lengths n (rp_chunk p) p))
           end
  end.

Definition response_headers (p : HttpResponseParser) (b : B) : response_round B :=
  match findCRLF (bq_contents b) with
  | None => RReturn true p b
  | Some crlf =>
      let line := take crlf (bq_contents b) in
      let colon := find 58 line in
      let b' := bq_retrieve (crlf + 2) b in
      if (colon =? crlf)%nat then
        match response_framing p with
        | None => RReturn false p b
        | Some p' =>
            if parseResponseForHeadMethod_ p' then RReturn true (to_stage pGotAll (to_lengths 0 (rp_chunk p') p')) b'
            else match rp_status p' with pGotAll => RReturn true p' b' | _ => RContinue p' b' end
        end
      else
        match add_response_header line colon (responsePtr_ p) with
        | Some r => RContinue (to_response r p) b'
        | None => RThrow p
        end
  end.

(** [bodyPtr_->append(buf->peek(), len)] *)
Definition append_response (len : Z) (p : HttpResponseParser) (b : B) (k : HttpResponseParser → response_round B)
    : response_round B :=
  if len >? string_max_size - Z.of_nat (length (default [] (re_body (responsePtr_ p)))) then RThrow p
  else match peek_bytes len b with
       | Some d => k (to_response (with_body d (responsePtr_ p)) p)
       | None => ROutside p
       end.

Definition response_body (p : HttpResponseParser) (b : B) : response_round B :=
  let readable := Z.of_nat (bq_readable b) in
  if readable =? 0 then RReturn true (if leftBodyLength_ p =? 0 then to_stage pGotAll p else p) b
  else
    let n := if readable <=? leftBodyLength_ p then readable else leftBodyLength_ p in
    append_response n p b (λ p,
      let p := to_lengths (leftBodyLength_ p - n) (rp_chunk p) p in
      let b' := if readable <=? leftBodyLength_ p + n then bq_retrieveAll b else bq_retrieve (Z.to_nat n) b in
      if leftBodyLength_ p =? 0 then RReturn true (to_stage pGotAll p) b' else RContinue p b').

Definition response_until_close (p : HttpResponseParser) (b : B) : response_round B :=
  append_response (Z.of_nat (bq_readable b)) p b (λ p, RReturn true p (bq_retrieveAll b)).

Definition response_chunk_len (p : HttpResponseParser) (b : B) : response_round B :=
  match findCRLF (bq_contents b) with
  | None => RReturn true p b
  | Some crlf =>
      match chunk_size (take crlf (bq_contents b)) with
      | None => RReturn false p b
      | Some n =>
          RContinue (to_stage (if n =? 0 then pExpectLastEmptyChunk else pExpectChunkBody)
                       (to_lengths (leftBodyLength_ p) n p)) (bq_retrieve (crlf + 2) b)
      end
  end.

Definition response_chunk_body (p : HttpResponseParser) (b : B) : response_round B :=
  let cur := rp_chunk p in
  if wrapU64 (cur + 2) <=? Z.of_nat (bq_readable b) then
    match crlf_at cur b with
    | None => ROutside p
    | Some false => RReturn false p (bq_retrieveAll b)
    | Some true =>
        append_response cur p b (λ p,
          RContinue (to_stage pExpectChunkLen (to_lengths (leftBodyLength_ p) 0 p))
            (bq_retrieve (Z.to_nat (wrapU64 (cur + 2))) b))
    end
  else RReturn true p b.

Definition response_last_chunk (p : HttpResponseParser) (b : B) : response_round B :=
  match findCRLF (bq_contents b) with
  | None => RReturn true p b
  | Some crlf =>
      let r := responsePtr_ p in
      let h := <[str "content-length" := to_string (Z.of_nat (length (default [] (re_body r))))]> (re_headers r) in
      let r := with_fields (delete (str "transfer-encoding") h) (re_cookies r) r in
      RReturn true (to_stage pGotAll (to_response r p)) (bq_retrieve (crlf + 2) b)
  end.

Definition response_step (p : HttpResponseParser) (b : B) : response_round B :=
  match rp_status p with
  | pExpectResponseLine => response_line p b
  | pExpectHeaders => response_headers p b
  | pExpectBody => response_body p b
  | pExpectClose => response_until_close p b
  | pExpectChunkLen => response_chunk_len p b
  | pExpectChunkBody => response_chunk_body p b
  | pExpectLastEmptyChunk => response_last_chunk p b
  | pGotAll => RForever p
  end.

(** How [parseResponse] ends: a result, an exception, an access outside the
    buffer, or not at all. *)
Inductive response_parsed :=
| RsReturned (ok : bool) (p : HttpResponseParser) (b : B)
| RsThrew (p : HttpResponseParser)
| RsOutside (p : HttpResponseParser)
| RsForever (p : HttpResponseParser).

Fixpoint response_rounds (fuel : nat) (p : HttpResponseParser) (b : B) : option response_parsed :=
  match fuel with
  | O => None
  | S f =>
      match response_step p b with
      | RContinue p' b' => response_rounds f p' b'
      | RReturn ok p' b' => Some (RsReturned ok p' b')
      | RThrow p' => Some (RsThrew p')
      | ROutside p' => Some (RsOutside p')
      | RForever p' => Some (RsForever p')
      end
  end.

(** A round that goes on consumes bytes, so this is fuel enough. *)
Definition parseResponse (p : HttpResponseParser) (b : B) : option response_parsed :=
  response_rounds (S (bq_readable b)) p b.

(** The connection is closed by the peer. *)
Definition parseResponseOnClose (p : HttpResponseParser) : HttpResponseParser * bool :=
  match rp_status p with pExpectClose => (to_stage pGotAll p, true) | _ => (p, false) end.

(** Segments arrive until the response is complete. *)
Fixpoint response_segments (segs : list (list Z)) (p : HttpResponseParser) (b : B) : option (HttpResponseParser * B) :=
  match segs with
  | [] => Some (p, b)
  | seg :: segs' =>
      match bq_append seg b with
      | None => None
      | Some b1 =>
          match parseResponse p b1 with
          | Some (RsReturned true p2 b2) => response_segments segs' p2 b2
          | _ => None
          end
      end
  end.
End Parse_response.

(** ** The loop ends *)

Lemma chunk_size_range l n : chunk_size l = Some n → 0 ≤ n < 2 ^ 64.
Proof.
  unfold chunk_size. destruct (sign _) as [neg l']. repeat case_if; try done; destruct (after_digits _ _);
    repeat case_if; intros [= <-]; by apply Z.mod_pos_bound.
Qed.

Section Progress.
Context {B : Type} `{ByteQueue B}.
Context (getHttpDate : list Z → Z).

(** The parser of a response that is not complete. *)
Record unfinished (p : HttpResponseParser) : Prop := {
  uf_status : rp_status p ≠ pGotAll;
  uf_left : 0 ≤ leftBodyLength_ p;
  uf_chunk : 0 ≤ rp_chunk p < 2 ^ 64
}.

Definition progress (b : B) (o : response_round B) : Prop :=
  match o with
  | RContinue p' b' => unfinished p' ∧ bq_ok b' ∧ (bq_readable b' < bq_readable b)%nat
  | RForever _ => False
  | _ => True
  end.

(** A line has been taken from the buffer. *)
Lemma line_progress (b : B) n p :
  bq_ok b → findCRLF (bq_contents b) = Some n → unfinished p → progress b (RContinue p (bq_retrieve (n + 2) b)).
Proof.
  intros Hb Hf Hp. apply findCRLF_bound in Hf. rewrite <- bq_readable_spec in Hf by done.
  destruct (retrieve_readable (n + 2) b Hb) as [Hb' E]. cbn. split_and!; [done|done|lia].
Qed.

Lemma append_response_progress len p b k :
  (len ≤ string_max_size → ∀ r, progress b (k (to_response r p))) → progress b (append_response len p b k).
Proof.
  intros Hk. unfold append_response. case_if; [done|]. destruct (peek_bytes len b); [|done]. apply Hk.
  rewrite Z.gtb_ltb in Heqb0. apply Z.ltb_ge in Heqb0. lia.
Qed.

Lemma response_framing_unfinished p p' :
  unfinished p → response_framing p = Some p' → rp_status p' = pGotAll ∨ unfinished p'.
Proof.
  intros [Hs Hl Hc]. unfold response_framing. destruct (response_header _ _) as [|c l].
  - intros [= <-]. repeat case_match; [right; by split|by left|right; by split].
  - destruct (stoull _) as [n|] eqn:E; [|done]. intros [= <-]. right. apply stoull_range in E. split; [done|cbn; lia|done].
Qed.

Lemma response_step_progress p b :
  unfinished p → bq_ok b → Z.of_nat (bq_readable b) < 2 ^ 62 → progress b (response_step getHttpDate p b).
Proof.
  intros Hp Hb Hlim. pose proof Hp as [Hs Hl Hc]. unfold response_step. destruct (rp_status p) eqn:Est; [| | | | | | |done].
  - unfold response_line. destruct (findCRLF _) as [n|] eqn:E; [|done].
    destruct (processResponseLine _ _ _); [|done|done]. apply line_progress; [done|done|by split].
  - unfold response_headers. destruct (findCRLF _) as [n|] eqn:E; [|done]. case_if.
    + destruct (response_framing p) as [p'|] eqn:Ef; [|done]. destruct (parseResponseForHeadMethod_ p'); [done|].
      destruct (response_framing_unfinished _ _ Hp Ef) as [->|Hp']; [done|].
      destruct (rp_status p'); try done; by apply line_progress.
    + destruct (add_response_header _ _ _ _); [|done]. apply line_progress; [done|done|]. split; [cbn; by rewrite Est|done|done].
  - unfold response_body. destruct (Z.eqb_spec (Z.of_nat (bq_readable b)) 0); [done|].
    apply append_response_progress. intros _ r.
    destruct (Z.leb_spec (Z.of_nat (bq_readable b)) (leftBodyLength_ p)) as [Hle|Hgt]; cbn [leftBodyLength_ to_lengths to_response].
    + destruct (Z.eqb_spec (leftBodyLength_ p - Z.of_nat (bq_readable b)) 0); [done|]. rewrite (proj2 (Z.leb_le _ _)) by lia.
      destruct (bq_retrieveAll_spec b Hb) as [Hb' Eb]. cbn. split_and!; [split; [cbn; by rewrite Est|cbn; lia|done]|done|].
      rewrite (bq_readable_spec (bq_retrieveAll b)), Eb by done. cbn. lia.
    + by rewrite Z.sub_diag.
  - unfold response_chunk_len. destruct (findCRLF _) as [n|] eqn:E; [|done].
    destruct (chunk_size _) as [z|] eqn:Ez; [|done]. apply line_progress; [done|done|]. split; [cbn; by case_if|done|].
    cbn. by apply chunk_size_range in Ez.
  - unfold response_chunk_body. case_if; [|done]. destruct (crlf_at _ _) as [[]|]; [|done|done].
    apply append_response_progress. intros Hmax r. apply Z.leb_le in Heqb0. unfold string_max_size in Hmax.
    rewrite wrapU64_small in * by lia. destruct (retrieve_readable (Z.to_nat (rp_chunk p + 2)) b Hb) as [Hb' E].
    cbn. split_and!; [split; [done|done|cbn; lia]|done|lia].
  - unfold response_last_chunk. by destruct (findCRLF _).
  - unfold response_until_close. apply append_response_progress. done.
Qed.

(** [parseResponse] ends on every input, unless it is called again for a
    complete response without a [reset]. *)
Lemma parseResponse_total p b :
  unfinished p → bq_ok b → Z.of_nat (bq_readable b) < 2 ^ 62 →
  match parseResponse getHttpDate p b with None | Some (RsForever _) => False | _ => True end.
Proof.
  unfold parseResponse. assert (Hgen : ∀ fuel p b, unfinished p → bq_ok b → Z.of_nat (bq_readable b) < 2 ^ 62 →
    (bq_readable b < fuel)%nat → match response_rounds getHttpDate fuel p b with None | Some (RsForever _) => False | _ => True end).
  { clear p b. induction fuel as [|f IH]; intros p b Hp Hb Hlim Hf; [lia|]. cbn [response_rounds].
    pose proof (response_step_progress p b Hp Hb Hlim) as Hs. destruct (response_step _ p b); try done.
    destruct Hs as (? & ? & ?). apply IH; [done|done|lia|lia]. }
  intros. apply Hgen; [done|done|done|lia].
Qed.
End Progress.

(** ** Decimal numbers *)

Lemma str_app s t : str (s +:+ t) = str s ++ str t.
Proof. unfold str. induction s as [|c s IH]; cbn; [done|by f_equal]. Qed.

Lemma digit_value z : xdigit (code (digit z)) = Some (z mod 10).
Proof.
  assert (Hall : forallb (λ n, bool_decide (xdigit (code (chr (48 + Z.of_nat n))) = Some (Z.of_nat n))) (seq 0 10) = true)
    by (vm_compute; reflexivity).
  pose proof (Z.mod_pos_bound z 10 ltac:(lia)) as Hz. unfold digit. revert Hz. generalize (z mod 10). intros d Hd.
  rewrite forallb_forall in Hall. specialize (Hall (Z.to_nat d)). rewrite in_seq, Z2Nat.id in Hall by lia.
  eapply bool_decide_eq_true_1, Hall. lia.
Qed.

Lemma dec_fuel_numeral f z :
  0 ≤ z < 10 ^ Z.of_nat f → (0 < f)%nat →
  numeral 10 (str (dec_fuel f z)) ∧ value 10 (str (dec_fuel f z)) = z.
Proof.
  revert z. induction f as [|f IH]; intros z Hz Hf; [lia|]. cbn [dec_fuel].
  assert (Hd : ∃ d, xdigit (code (digit z)) = Some d ∧ d < 10).
  { eexists. split; [apply digit_value|]. by apply Z.mod_pos_bound. }
  destruct (Z.ltb_spec z 10) as [Hlt|Hge].
  - change (str (String (digit z) "")) with [code (digit z)]. split; [split; [done|by apply List.Forall_cons]|].
    unfold value. cbn. rewrite digit_value. cbn. apply Z.mod_small. lia.
  - assert (0 < f)%nat. { destruct f; [|lia]. change (10 ^ Z.of_nat 1) with 10 in Hz. lia. }
    destruct (IH (z / 10)) as [[Hne Hnum] Hv]; [|lia|].
    { rewrite Nat2Z.inj_succ, Z.pow_succ_r in Hz by lia.
      split; [apply Z.div_pos; lia|apply Z.div_lt_upper_bound; lia]. }
    rewrite str_app. change (str (String (digit z) "")) with [code (digit z)]. split.
    + split; [by destruct (str _)|]. apply Forall_app_2; [done|by apply List.Forall_cons].
    + unfold value in *. rewrite fold_left_app, Hv. cbn. rewrite digit_value. cbn.
      pose proof (Z.div_mod z 10). lia.
Qed.

Lemma dec_numeral z : 0 ≤ z < 2 ^ 64 → numeral 10 (str (dec z)) ∧ value 10 (str (dec z)) = z.
Proof. intros Hz. apply dec_fuel_numeral; [|lia]. split; [lia|]. transitivity (2 ^ 64); [lia|]. by vm_compute. Qed.

Lemma numeral_chars base l c : numeral base l → xdigit c = None → c ∉ l.
Proof.
  intros [_ Hl] Hc Hin. apply list_elem_of_In in Hin.
  apply (proj1 (List.Forall_forall _ _) Hl) in Hin as (d & E & _). congruence.
Qed.

Lemma atoi_printed z t : 0 ≤ z < 2 ^ 31 → starts_with_digit 10 t = false → atoi (str (dec z) ++ t) = z.
Proof.
  intros Hz Ht. destruct (dec_numeral z) as [Hn Hv]; [lia|]. unfold atoi.
  destruct (numeral_head 10 _ t Hn) as (-> & -> & _). rewrite digits_numeral; [|apply Hn|done].
  fold (value 10 (str (dec z))). rewrite Hv. rewrite wrapI32_small; unfold INT_MIN, INT_MAX; lia.
Qed.

(** ** What the parser takes in one round *)

Section Response_delivery.
Context {B : Type} `{ByteQueue B}.
Context (getHttpDate : list Z → Z).

Local Notation step := (response_step (B := B) getHttpDate).
Local Notation rounds := (response_rounds (B := B) getHttpDate).

(** [takes p l p']: the line [l] with its CR LF leads from [p] to [p']. *)
Record takes (p : HttpResponseParser) (l : list Z) (p' : HttpResponseParser) : Prop := {
  tk_line : 10 ∉ l;
  tk_found b : findCRLF (bq_contents b) = Some (length l) → take (length l) (bq_contents b) = l →
    step p b = RContinue p' (bq_retrieve (length l + 2) b);
  tk_missing b : findCRLF (bq_contents b) = None → step p b = RReturn true p b
}.

Lemma takes_status v code msg p :
  rp_status p = pExpectResponseLine → v ≠ kUnknown → 0 ≤ code < 2 ^ 31 → 10 ∉ str msg →
  takes p (version_text v ++ 32 :: str (dec code) ++ 32 :: str msg)
    (to_stage pExpectHeaders (to_response (with_status code (with_version v (responsePtr_ p))) p)).
Proof.
  intros Hs Hv Hc Hm. destruct (dec_numeral code) as [Hn _]; [lia|]. split.
  - rewrite elem_of_app, elem_of_cons, elem_of_app, elem_of_cons. intros [Hin|[Hin|[Hin|[Hin|Hin]]]]; try done.
    + revert Hin. change (10 ∉ version_text v). apply (bool_decide_unpack _). by destruct v.
    + by apply (numeral_no_lf _ _ Hn) in Hin.
  - intros b Hf Ht. unfold response_step. rewrite Hs. unfold response_line. rewrite Hf, Ht. unfold processResponseLine.
    assert (Hsp : 32 ∉ version_text v) by (apply (bool_decide_unpack _); by destruct v).
    rewrite find_app by done. rewrite (proj2 (Nat.eqb_neq _ _)) by (rewrite length_app; cbn; lia).
    rewrite drop_app_ge by lia. replace (length (version_text v) + 1 - length (version_text v))%nat with 1%nat by lia.
    cbn [drop]. rewrite drop_0. rewrite find_app by (by apply (numeral_chars 10)).
    rewrite take_app_length. pose proof (atoi_printed code [] Hc eq_refl) as Ha. rewrite app_nil_r in Ha. rewrite Ha.
    rewrite (proj2 (Nat.eqb_neq (length (str (dec code))) _)) by (rewrite length_app; cbn; lia).
    by destruct v.
  - intros b Hf. unfold response_step. rewrite Hs. unfold response_line. by rewrite Hf.
Qed.

(** A field as the server writes it. *)
Definition plain_field (kv : list Z * list Z) : Prop :=
  let '(k, v) := kv in
  tolower <$> k = k ∧ k ≠ str "set-cookie" ∧ 58 ∉ k ∧ 10 ∉ k ∧ 10 ∉ v ∧ trimmed v.

Lemma takes_field k v p :
  rp_status p = pExpectHeaders → plain_field (k, v) →
  takes p (k ++ [58; 32] ++ v)
    (to_response (with_fields (<[k := v]> (re_headers (responsePtr_ p))) (re_cookies (responsePtr_ p)) (responsePtr_ p)) p).
Proof.
  intros Hs (Hlow & Hset & Hk & Hk10 & Hv10 & Hv). split.
  - rewrite !elem_of_app, !elem_of_cons, elem_of_nil. intros [?|[[?|[?|?]]|?]]; done.
  - intros b Hf Ht. unfold response_step. rewrite Hs. unfold response_headers. rewrite Hf, Ht.
    cbn [app]. rewrite find_app by done. rewrite (proj2 (Nat.eqb_neq _ _)) by (rewrite length_app; cbn; lia).
    unfold add_response_header. rewrite take_app_length, Hlow, decide_False by done.
    rewrite (drop_app_ge k) by lia. replace (length k + 1 - length k)%nat with 1%nat by lia. cbn [drop].
    pose proof (trim_value [32] v []) as Htv. rewrite app_nil_r in Htv. cbn [app] in Htv.
    rewrite Htv; [done|by repeat constructor|by constructor|done].
  - intros b Hf. unfold response_step. rewrite Hs. unfold response_headers. by rewrite Hf.
Qed.

Lemma takes_end n p :
  rp_status p = pExpectHeaders → parseResponseForHeadMethod_ p = false →
  re_headers (responsePtr_ p) !! str "content-length" = Some (str (dec n)) → 0 ≤ n < 2 ^ 64 →
  takes p [] (to_stage pExpectBody (to_lengths n (rp_chunk p) p)).
Proof.
  intros Hs Hh Hl Hn. destruct (dec_numeral n Hn) as [Hnum Hv]. split.
  - apply not_elem_of_nil.
  - intros b Hf Ht. unfold response_step. rewrite Hs. unfold response_headers. rewrite Hf, Ht. cbn [find length Nat.eqb].
    assert (Hfr : response_framing p = Some (to_stage pExpectBody (to_lengths n (rp_chunk p) p))).
    { unfold response_framing, response_header. rewrite Hl. change (default [] (Some (str (dec n)))) with (str (dec n)).
      destruct (str (dec n)) as [|c l] eqn:E; [by destruct Hnum|]. rewrite <- E in *.
      rewrite stoull_numeral by (done || lia). by rewrite Hv. }
    rewrite Hfr. cbn. by rewrite Hh.
  - intros b Hf. unfold response_step. rewrite Hs. unfold response_headers. by rewrite Hf.
Qed.

(** [awaits p bs q]: given exactly the bytes [bs], the parser ends with the response [q]. *)
Definition body_of (d : list Z) (r : response) : response := match d with [] => r | _ => with_body d r end.

(** The empty line ends a response that has no body by its status. *)
Record completes (p p' : HttpResponseParser) : Prop := {
  cp_status : rp_status p' = pGotAll;
  cp_found b : findCRLF (bq_contents b) = Some 0%nat → step p b = RReturn true p' (bq_retrieve 2 b);
  cp_missing b : findCRLF (bq_contents b) = None → step p b = RReturn true p b
}.

Lemma upgrade_completes p :
  rp_status p = pExpectHeaders → parseResponseForHeadMethod_ p = false →
  re_headers (responsePtr_ p) !! str "content-length" = None →
  re_headers (responsePtr_ p) !! str "transfer-encoding" = None →
  re_statusCode (responsePtr_ p) = 101 → re_headers (responsePtr_ p) !! str "upgrade" = Some (str "websocket") →
  completes p (to_stage pGotAll p).
Proof.
  intros Hs Hh Hl Ht Hc Hu. split; [done| |].
  - intros b Hf. unfold response_step. rewrite Hs. unfold response_headers. rewrite Hf. cbn [take find length Nat.eqb].
    assert (Hfr : response_framing p = Some (to_stage pGotAll p)).
    { unfold response_framing, response_header. rewrite Hl, Ht, Hc, Hu. done. }
    rewrite Hfr. cbn. by rewrite Hh.
  - intros b Hf. unfold response_step. rewrite Hs. unfold response_headers. by rewrite Hf.
Qed.

Inductive awaits : HttpResponseParser → list Z → response → Prop :=
| aw_line p l p' bs q : takes p l p' → awaits p' bs q → awaits p ((l ++ CRLF) ++ bs) q
| aw_body p d :
    rp_status p = pExpectBody → leftBodyLength_ p = Z.of_nat (length d) →
    Z.of_nat (length (default [] (re_body (responsePtr_ p))) + length d) ≤ string_max_size →
    awaits p d (body_of d (responsePtr_ p))
| aw_end p p' : completes p p' → awaits p CRLF (responsePtr_ p').

Definition ends (fuel : nat) (p : HttpResponseParser) (bs : list Z) (q : response) : Prop :=
  ∀ b, bq_ok b → bq_contents b = bs → (bq_readable b < fuel)%nat →
  ∃ p' b', rounds fuel p b = Some (RsReturned true p' b') ∧ rp_status p' = pGotAll ∧ responsePtr_ p' = q ∧
    bq_ok b' ∧ bq_contents b' = [].
Definition pends (fuel : nat) (p : HttpResponseParser) (bs : list Z) (q : response) : Prop :=
  ∀ b rest, bq_ok b → rest ≠ [] → bq_contents b ++ rest = bs → (bq_readable b < fuel)%nat →
  ∃ p' b', rounds fuel p b = Some (RsReturned true p' b') ∧ bq_ok b' ∧ awaits p' (bq_contents b' ++ rest) q.

Lemma awaits_line_runs p l p' bs q fuel :
  takes p l p' → awaits p' bs q → (∀ f, ends f p' bs q ∧ pends f p' bs q) →
  ends fuel p ((l ++ CRLF) ++ bs) q ∧ pends fuel p ((l ++ CRLF) ++ bs) q.
Proof.
  intros Ht Ha IH. destruct fuel as [|f]; [split; intros b ?; intros; lia|].
  assert (Hstep : ∀ b more, bq_ok b → bq_contents b = (l ++ CRLF) ++ more → (bq_readable b < S f)%nat →
    ∃ b', rounds (S f) p b = rounds f p' b' ∧ bq_ok b' ∧ bq_contents b' = more ∧ (bq_readable b' < f)%nat).
  { intros b more Hb E Hf. destruct (line_found b l more (tk_line _ _ _ Ht) E) as [Hfd Htk].
    destruct (retrieve_app b (l ++ CRLF) more (length l + 2) Hb E) as [Hb' E']; [rewrite length_app; cbn; lia|].
    eexists. cbn [response_rounds]. rewrite (tk_found _ _ _ Ht b Hfd Htk). split_and!; [done|done|done|].
    rewrite bq_readable_spec in * by done. rewrite E, !length_app in Hf. cbn in Hf. rewrite E'. lia. }
  split.
  - intros b Hb E Hf. destruct (Hstep b _ Hb E Hf) as (b1 & -> & Hb1 & E1 & Hf1). by apply (proj1 (IH f)).
  - intros b rest Hb Hrest E Hf.
    destruct (app_eq_inv _ _ _ _ E) as [(k & E1 & E2)|(k & E1 & E2)].
    + destruct (Hstep b k Hb E1 Hf) as (b1 & -> & Hb1 & Ec1 & Hf1). apply (proj2 (IH f)); [done|done|by rewrite Ec1|done].
    + destruct k as [|x k].
      * rewrite app_nil_r in E1. cbn in E2. subst rest.
        destruct (Hstep b []) as (b1 & -> & Hb1 & Ec1 & Hf1); [done|by rewrite app_nil_r|done|].
        apply (proj2 (IH f)); [done|done|by rewrite Ec1|done].
      * exists p, b. cbn [response_rounds].
        rewrite (tk_missing _ _ _ Ht) by (eapply (line_missing b l (x :: k)); [apply Ht|done|done]).
        split_and!; [done|done|]. rewrite E. by eapply aw_line.
Qed.

(** Appending bytes of the buffer. *)
Lemma append_response_some p b k d more :
  bq_ok b → bq_contents b = d ++ more →
  Z.of_nat (length (default [] (re_body (responsePtr_ p))) + length d) ≤ string_max_size →
  append_response (Z.of_nat (length d)) p b k = k (to_response (with_body d (responsePtr_ p)) p).
Proof.
  intros Hb E Hlen. unfold append_response. rewrite Z.gtb_ltb, (proj2 (Z.ltb_ge _ _)) by lia.
  rewrite peek_bytes_some; [|done|rewrite bq_readable_spec, E, length_app by done; lia].
  by rewrite Nat2Z.id, E, take_app_length.
Qed.

Lemma rounds_continue f p b p' b' : step p b = RContinue p' b' → rounds (S f) p b = rounds f p' b'.
Proof. intros E. cbn [response_rounds]. by rewrite E. Qed.

Lemma awaits_body_runs p d fuel :
  rp_status p = pExpectBody → leftBodyLength_ p = Z.of_nat (length d) →
  Z.of_nat (length (default [] (re_body (responsePtr_ p))) + length d) ≤ string_max_size →
  ends fuel p d (body_of d (responsePtr_ p)) ∧ pends fuel p d (body_of d (responsePtr_ p)).
Proof.
  intros Hs Hleft Hmax. destruct fuel as [|f]; [split; intros b ?; intros; lia|].
  assert (Hempty : ∀ g q (b : B), rp_status q = pExpectBody → leftBodyLength_ q ≠ 0 → bq_readable b = 0%nat →
    rounds (S g) q b = Some (RsReturned true q b)).
  { intros g q b Hq Hl E0. cbn [response_rounds]. unfold response_step. rewrite Hq. unfold response_body. rewrite E0. cbn.
    destruct (Z.eqb_spec (leftBodyLength_ q) 0); [done|done]. }
  split.
  - intros b Hb E Hf. cbn [response_rounds]. unfold response_step. rewrite Hs. unfold response_body.
    assert (El : bq_readable b = length d) by (by rewrite bq_readable_spec, E). rewrite El, Hleft.
    destruct d as [|x d]; [eexists _, _; split; [done|by cbn]|]. set (d1 := x :: d) in *.
    rewrite (proj2 (Z.eqb_neq _ _)) by (unfold d1; cbn; lia). rewrite Z.leb_refl.
    rewrite (append_response_some p b _ d1 []); [|done|by rewrite app_nil_r|done].
    cbn [leftBodyLength_ to_response to_lengths]. rewrite Hleft, Z.sub_diag, Z.add_0_l, Z.leb_refl. cbn [Z.eqb].
    destruct (bq_retrieveAll_spec b Hb) as [? ?]. eexists _, _. split; [done|]. by cbn.
  - intros b rest Hb Hrest E Hf. set (c := bq_contents b) in *.
    assert (El : bq_readable b = length c) by (by rewrite bq_readable_spec).
    assert (Hlen : length d = (length c + length rest)%nat) by (by rewrite <- E, length_app).
    assert (length rest ≠ 0%nat) by (by destruct rest).
    destruct (decide (c = [])) as [Ec|Ec].
    { eexists p, b. rewrite Hempty; [|done|lia|by rewrite El, Ec]. split_and!; [done|done|]. fold c. rewrite E. by constructor. }
    assert (length c ≠ 0%nat) by (by destruct c). destruct f as [|f]; [lia|].
    set (p1 := to_lengths (Z.of_nat (length rest)) (rp_chunk p) (to_response (with_body c (responsePtr_ p)) p)).
    assert (Hstep : step p b = RContinue p1 (bq_retrieveAll b)).
    { unfold response_step. rewrite Hs. unfold response_body. rewrite El, Hleft.
      rewrite (proj2 (Z.eqb_neq _ _)) by lia. rewrite (proj2 (Z.leb_le _ _)) by lia.
      rewrite (append_response_some p b _ c []); [|done|by rewrite app_nil_r|lia].
      cbn [leftBodyLength_ to_response to_lengths rp_chunk]. rewrite Hleft.
      rewrite (proj2 (Z.leb_le _ _)), (proj2 (Z.eqb_neq _ _)) by lia.
      replace (Z.of_nat (length d) - Z.of_nat (length c)) with (Z.of_nat (length rest)) by lia. done. }
    destruct (bq_retrieveAll_spec b Hb) as [Hb1 Eb1]. exists p1, (bq_retrieveAll b).
    rewrite (rounds_continue _ _ _ _ _ Hstep), Hempty; [|done|cbn; lia|by rewrite bq_readable_spec, Eb1].
    split_and!; [done|done|]. rewrite Eb1. cbn [app].
    assert (Eq : body_of d (responsePtr_ p) = body_of rest (responsePtr_ p1)).
    { cbn [p1 responsePtr_ to_lengths to_response]. rewrite <- E. destruct c as [|x c']; [done|]. destruct rest as [|y rest]; [done|].
      unfold body_of, with_body. cbn. by rewrite <- app_assoc. }
    rewrite Eq. apply aw_body; [done|done|]. cbn. rewrite length_app. lia.
Qed.

Lemma awaits_end_runs p p' fuel : completes p p' → ends fuel p CRLF (responsePtr_ p') ∧ pends fuel p CRLF (responsePtr_ p').
Proof.
  intros Hc. destruct fuel as [|f]; [split; intros b ?; intros; lia|]. split.
  - intros b Hb E Hf. cbn [response_rounds]. rewrite (cp_found _ _ Hc) by (by rewrite E).
    destruct (bq_retrieve_spec 2 b Hb) as [Hb' E']. eexists _, _. split_and!; [done|apply Hc|done|done|by rewrite E', E].
  - intros b rest Hb Hrest E Hf. exists p, b. cbn [response_rounds]. rewrite (cp_missing _ _ Hc).
    + split_and!; [done|done|]. rewrite E. by constructor.
    + destruct (bq_contents b) as [|x [|y l]]; [done|by injection E as -> _|]. exfalso. injection E as _ _ E.
      apply app_nil in E as [_ ->]. done.
Qed.

Lemma awaits_runs p bs q fuel : awaits p bs q → ends fuel p bs q ∧ pends fuel p bs q.
Proof.
  intros Ha. revert fuel. induction Ha as [p l p' bs q Ht Ha IH|p d Hs Hl Hmax|p p' Hc]; intros fuel.
  - by eapply awaits_line_runs.
  - by apply awaits_body_runs.
  - by apply awaits_end_runs.
Qed.

Lemma segments_parsed segs p b bs q :
  awaits p bs q → bq_ok b → Forall (λ s, s ≠ []) segs → segs ≠ [] → bq_contents b ++ concat segs = bs →
  ∃ p' b', response_segments getHttpDate segs p b = Some (p', b') ∧ rp_status p' = pGotAll ∧ responsePtr_ p' = q ∧
    bq_contents b' = [].
Proof.
  intros Ha Hb Hsegs. revert p b bs Ha Hb. induction Hsegs as [|seg segs Hseg Hsegs IH]; intros p b bs Ha Hb Hne E; [done|].
  cbn [response_segments]. destruct (bq_append_spec seg b Hb) as (b1 & -> & Hb1 & E1). unfold parseResponse.
  destruct (awaits_runs p bs q (S (bq_readable b1)) Ha) as [Hend Hpend]. cbn [concat] in E. rewrite app_assoc, <- E1 in E.
  destruct segs as [|seg' segs].
  - destruct (Hend b1) as (p2 & b2 & -> & ? & ? & ? & ?); [done|by rewrite <- E, app_nil_r|lia|]. cbn. by eexists _, _.
  - destruct (Hpend b1 (concat (seg' :: segs))) as (p2 & b2 & -> & Hb2 & Ha2); [done| |done|lia|].
    + apply Forall_cons_1 in Hsegs as [Hs' _]. by destruct seg'.
    + by eapply IH.
Qed.

(** Fields one after the other. *)
Definition field_bytes (kv : list Z * list Z) : list Z := field kv.1 kv.2.

Lemma awaits_fields fs p bs q :
  Forall plain_field fs → rp_status p = pExpectHeaders →
  awaits (to_response (with_fields (list_to_map (reverse fs) ∪ re_headers (responsePtr_ p))
                         (re_cookies (responsePtr_ p)) (responsePtr_ p)) p) bs q →
  awaits p ((fs ≫= field_bytes) ++ bs) q.
Proof.
  intros Hfs. revert p. induction Hfs as [|[k v] fs Hkv _ IH]; intros p Hs Ha.
  - cbn in Ha |- *. rewrite map_empty_union in Ha. destruct p as [? [? ? ? ? ? ?] ? ? ? ?]. done.
  - change (((k, v) :: fs) ≫= field_bytes) with (field_bytes (k, v) ++ (fs ≫= field_bytes)).
    replace (field_bytes (k, v)) with ((k ++ [58; 32] ++ v) ++ CRLF)
      by (unfold field_bytes, field; cbn [fst snd]; by rewrite <- !app_assoc).
    rewrite <- app_assoc. eapply aw_line; [by apply takes_field|]. apply IH; [done|]. cbn.
    rewrite reverse_cons, list_to_map_app in Ha. cbn in Ha.
    rewrite <- (map_union_assoc (M := gmap (list Z))), insert_empty, <- insert_union_singleton_l in Ha. exact Ha.
Qed.
End Response_delivery.

(** ** What the server writes, as fields *)

Section Wire.
Context (order : gmap (list Z) (list Z) → list (list Z * list Z)).
Context (server date : option (list Z)).

Definition body_bytes_of (r : HttpResponseImpl) : list Z := default [] (rs_body r).

(** The fields the server adds on its own. *)
Definition own_fields (r : HttpResponseImpl) : list (list Z * list Z) :=
  [(str "content-length", str (dec (Z.of_nat (length (body_bytes_of r)))))] ++
  (match rs_headers r !! str "connection" with
   | Some _ => []
   | None => if rs_closeConnection r then [(str "connection", str "close")]
             else match rs_version r with kHttp10 => [(str "connection", str "Keep-Alive")] | _ => [] end
   end) ++
  (match rs_contentTypeString r with [] => [] | t => [(str "content-type", t)] end) ++
  option_list ((str "server",.) <$> server).
Definition date_field : list (list Z * list Z) := option_list ((str "date",.) <$> date).

(** [getServerHeaderString()] *)
Definition server_line : list Z := default [] (field (str "server") <$> server).

(** A response with its body in memory whose headers can be written. *)
Definition value_ok (v : list Z) : Prop := 10 ∉ v ∧ trimmed v.
Record response_ok (r : HttpResponseImpl) : Prop := {
  ro_version : rs_version r ≠ kUnknown;
  ro_status : 0 ≤ rs_statusCode r < 2 ^ 31;
  ro_allowed : contentLengthIsAllowed r = true;
  ro_memory : rs_stream r = false ∧ rs_asyncStream r = false ∧ rs_sendfile r = None;
  ro_size : Z.of_nat (length (body_bytes_of r)) ≤ string_max_size;
  ro_type : value_ok (rs_contentTypeString r);
  ro_headers : map_Forall (λ k v, plain_field (k, v)) (rs_headers r);
  ro_length : rs_headers r !! str "content-length" = None
}.

Lemma message_no_lf code : 10 ∉ str (statusCodeToString code).
Proof. apply (bool_decide_unpack _). unfold statusCodeToString. repeat case_match; vm_compute; done. Qed.

Lemma status_line_text r :
  rs_version r ≠ kUnknown → 0 ≤ rs_statusCode r →
  status_line r = (version_text (rs_version r) ++ 32 :: str (dec (rs_statusCode r)) ++
                   32 :: str (statusCodeToString (rs_statusCode r))) ++ CRLF.
Proof.
  intros Hv Hs. unfold status_line, print_int. rewrite (proj2 (Z.ltb_ge _ _)) by done.
  rewrite <- (app_assoc (version_text _)). cbn [app]. rewrite <- (app_assoc (str (dec _))). by destruct (rs_version r).
Qed.

(** The lines written in front of the headers, and after them. *)
Lemma own_lines r :
  rs_sendfile r = None → rs_stream r = false → rs_asyncStream r = false → contentLengthIsAllowed r = true →
  announce_length r = (r, field (str "content-length") (str (dec (Z.of_nat (length (body_bytes_of r)))))) ∧
  field (str "content-length") (str (dec (Z.of_nat (length (body_bytes_of r))))) ++
    connection_line r ++ content_type_line r ++ server_line = own_fields r ≫= field_bytes.
Proof.
  intros Hf Hs Ha Hal. split; [unfold announce_length; by rewrite Hal, Hs, Ha, Hf|].
  unfold own_fields. rewrite !bind_app. f_equal; [cbn [mbind list_bind]; by rewrite app_nil_r|]. f_equal; [|f_equal].
  - unfold connection_line. repeat case_match; try done; cbn [mbind list_bind]; by rewrite app_nil_r.
  - unfold content_type_line. destruct (rs_contentTypeString r); [done|]. cbn [mbind list_bind]. by rewrite app_nil_r.
  - unfold server_line. destruct server as [t|]; [|done].
    change (field (str "server") t = field (str "server") t ++ []). by rewrite app_nil_r.
Qed.

Lemma date_line_field : date_line date = (date_field ≫= field_bytes) ++ CRLF.
Proof. unfold date_line, date_field. destruct date as [t|]; [|done].
  change (field (str "date") t ++ LF2 = (field (str "date") t ++ []) ++ LF2). by rewrite app_nil_r.
Qed.

Lemma header_lines l : (l ≫= λ '(k, v), field k v) = l ≫= field_bytes.
Proof. induction l as [|[k v] l IH]; [done|]. cbn [mbind list_bind]. f_equal. exact IH. Qed.

Lemma render_fields r :
  response_ok r →
  (renderToBuffer order server_line date r).2 =
  ((version_text (rs_version r) ++ 32 :: str (dec (rs_statusCode r)) ++ 32 :: str (statusCodeToString (rs_statusCode r))) ++ CRLF) ++
  ((own_fields r ++ order (rs_headers r) ++ date_field) ≫= field_bytes) ++ ([] ++ CRLF) ++ body_bytes_of r.
Proof.
  intros [Hv Hs Hal (Hst & Has & Hsf) _ _ _ _]. destruct (own_lines r Hsf Hst Has Hal) as [Ha Ho].
  unfold renderToBuffer, makeHeaderString. rewrite Ha. cbn [snd].
  rewrite status_line_text, header_lines, date_line_field by (done || lia).
  rewrite !bind_app, <- Ho, <- !app_assoc. done.
Qed.

Lemma drop_space_head c l : isspace c = false → drop_space (c :: l) = c :: l.
Proof. intros E. cbn. by rewrite E. Qed.

Lemma numeral_trimmed l : numeral 10 l → trimmed l.
Proof.
  intros Hn. split.
  - destruct (numeral_head 10 l [] Hn) as (E & _). by rewrite app_nil_r in E.
  - destruct Hn as [Hne Hl]. destruct (exists_last Hne) as (l' & c & ->). unfold trim_end. rewrite reverse_snoc.
    apply Forall_app in Hl as [_ Hc]. apply Forall_cons_1 in Hc as [(d & E & _) _].
    destruct (xdigit_class _ _ E) as [Hsp _]. by rewrite drop_space_head, reverse_cons, reverse_involutive.
Qed.

Definition option_ok (o : option (list Z)) : Prop := match o with Some v => value_ok v | None => True end.

Lemma own_fields_plain r : response_ok r → option_ok server → Forall plain_field (own_fields r).
Proof.
  intros Hr Hserver. unfold own_fields. destruct (dec_numeral (Z.of_nat (length (body_bytes_of r)))) as [Hn _].
  { pose proof (ro_size _ Hr). unfold string_max_size in *. lia. }
  assert (Hplain : ∀ k v, tolower <$> k = k → k ≠ str "set-cookie" → 58 ∉ k → 10 ∉ k → value_ok v → plain_field (k, v)).
  { intros k v ? ? ? ? [? ?]. by split_and!. }
  assert (Hlit : ∀ v, bool_decide (10 ∉ v) = true → drop_space v = v → trim_end v = v → value_ok v).
  { intros v E ? ?. by apply bool_decide_eq_true in E. }
  assert (Hk : ∀ k v, bool_decide (tolower <$> k = k ∧ k ≠ str "set-cookie" ∧ 58 ∉ k ∧ 10 ∉ k) = true →
    value_ok v → plain_field (k, v)).
  { intros k v E Hv. apply bool_decide_eq_true in E as (? & ? & ? & ?). by apply Hplain. }
  repeat apply Forall_app_2.
  - apply List.Forall_cons; [|done]. apply Hk; [done|]. split; [by eapply numeral_no_lf|by apply numeral_trimmed].
  - repeat case_match; try done; (apply List.Forall_cons; [|done]); (apply Hk; [done|by apply Hlit]).
  - pose proof (ro_type _ Hr) as Ht. destruct (rs_contentTypeString r); [done|].
    apply List.Forall_cons; [|done]. by apply Hk.
  - destruct server as [t|]; [|done]. apply List.Forall_cons; [|done]. by apply Hk.
Qed.

Lemma date_field_plain : option_ok date → Forall plain_field date_field.
Proof.
  intros Hd. unfold date_field. destruct date as [t|]; [|done]. destruct Hd as [H1 H2].
  apply List.Forall_cons; [|done]. split_and!; [done|done| | |done|done]; apply (bool_decide_unpack _); done.
Qed.

(** The headers the client sees: the date, the response's own headers, and
    what the server added. *)
Definition seen_headers (r : HttpResponseImpl) : gmap (list Z) (list Z) :=
  list_to_map date_field ∪ rs_headers r ∪ list_to_map (own_fields r).

Lemma own_fields_NoDup r : base.NoDup ((own_fields r).*1).
Proof.
  unfold own_fields. destruct (rs_contentTypeString r), server, (rs_headers r !! str "connection"), (rs_closeConnection r), (rs_version r);
    apply (bool_decide_unpack _); vm_compute; exact I.
Qed.

Lemma reverse_map (l : list (list Z * list Z)) (m : gmap (list Z) (list Z)) :
  l ≡ₚ map_to_list m → list_to_map (reverse l) = m.
Proof.
  intros Hl. transitivity (list_to_map (map_to_list m) : gmap (list Z) (list Z)); [|apply list_to_map_to_list].
  apply list_to_map_proper; [|by rewrite reverse_Permutation].
  rewrite reverse_Permutation, Hl. apply NoDup_fst_map_to_list.
Qed.

Lemma reverse_distinct (l : list (list Z * list Z)) :
  base.NoDup (l.*1) → (list_to_map (reverse l) : gmap (list Z) (list Z)) = list_to_map l.
Proof. intros Hl. apply list_to_map_proper; [by rewrite reverse_Permutation|by rewrite reverse_Permutation]. Qed.

Context (Horder : ∀ m, order m ≡ₚ map_to_list m).

Lemma fields_seen r :
  list_to_map (reverse (own_fields r ++ order (rs_headers r) ++ date_field)) = seen_headers r.
Proof.
  unfold seen_headers. rewrite !reverse_app, !list_to_map_app. f_equal; [f_equal|].
  - unfold date_field. by destruct date.
  - by apply reverse_map.
  - apply reverse_distinct, own_fields_NoDup.
Qed.

Lemma seen_length r :
  response_ok r → seen_headers r !! str "content-length" = Some (str (dec (Z.of_nat (length (body_bytes_of r))))).
Proof.
  intros Hr. unfold seen_headers. rewrite lookup_union_r; [unfold own_fields; cbn; by rewrite lookup_insert_eq|].
  apply lookup_union_None_2; [unfold date_field; by destruct date|by apply ro_length].
Qed.
End Wire.

(** The bytes of a rendered response lead the parser to the response. *)
Definition arrived server date (r : HttpResponseImpl) : response :=
  body_of (body_bytes_of r)
    (with_fields (seen_headers server date r) ∅ (with_status (rs_statusCode r) (with_version (rs_version r) new_response))).

Lemma rendered_fields_plain order server date r :
  (∀ m, order m ≡ₚ map_to_list m) → response_ok r → option_ok server → option_ok date →
  Forall plain_field (own_fields server r ++ order (rs_headers r) ++ date_field date).
Proof.
  intros Horder Hr Hserver Hdate. apply Forall_app_2; [by apply own_fields_plain|].
  apply Forall_app_2; [|by apply date_field_plain]. rewrite Horder.
  pose proof (ro_headers _ Hr) as Hh. rewrite map_Forall_to_list in Hh.
  eapply List.Forall_impl; [|exact Hh]. by intros [k v].
Qed.

Lemma render_not_nil order server date r : [] = (renderToBuffer order server date r).2 → False.
Proof. unfold renderToBuffer, makeHeaderString, status_line. destruct (announce_length r), (rs_version r); done. Qed.

Lemma awaits_rendered {B} `{ByteQueue B} getHttpDate order server date r :
  (∀ m, order m ≡ₚ map_to_list m) → response_ok r → option_ok server → option_ok date →
  awaits (B := B) getHttpDate new_response_parser (renderToBuffer order (server_line server) date r).2 (arrived server date r).
Proof.
  intros Horder Hr Hserver Hdate. rewrite render_fields by done.
  eapply aw_line; [apply takes_status; [done|apply Hr|apply Hr|apply message_no_lf]|].
  apply awaits_fields; [by apply rendered_fields_plain|done|]. rewrite fields_seen by done. cbn.
  rewrite map_union_empty. eapply (aw_line _ _ []).
  - eapply (takes_end _ (Z.of_nat (length (body_bytes_of r)))); [done|done|by apply seen_length|].
    pose proof (ro_size _ Hr). unfold string_max_size in *. lia.
  - apply aw_body; [done|done|]. cbn. apply Hr.
Qed.

(** ** Properties *)

(** C22. A response survives the network: whatever the server renders for a
    response with its body in memory, in whatever order the header map lists
    its fields, and however the network cuts it into segments, the client's
    parser ends with the same version, status code and body, and with the
    response's headers next to the length, connection, content type, server
    and date fields the server adds. *)
Theorem response_roundtrip {B} `{ByteQueue B} getHttpDate order server date (b : B) r segs :
  (∀ m, order m ≡ₚ map_to_list m) → response_ok r → option_ok server → option_ok date →
  bq_ok b → bq_contents b = [] → Forall (λ s, s ≠ []) segs →
  concat segs = (renderToBuffer order (server_line server) date r).2 →
  ∃ p' b', response_segments getHttpDate segs new_response_parser b = Some (p', b') ∧
    rp_status p' = pGotAll ∧ bq_contents b' = [] ∧
    re_version (responsePtr_ p') = rs_version r ∧ re_statusCode (responsePtr_ p') = rs_statusCode r ∧
    default [] (re_body (responsePtr_ p')) = default [] (rs_body r) ∧
    re_headers (responsePtr_ p') = seen_headers server date r.
Proof.
  intros Horder Hr Hserver Hdate Hb E Hsegs Hcat.
  destruct (segments_parsed getHttpDate segs new_response_parser b _ _
    (awaits_rendered getHttpDate order server date r Horder Hr Hserver Hdate) Hb Hsegs) as (p' & b' & E1 & E2 & E3 & E4).
  - intros ->. by apply (render_not_nil order (server_line server) date r).
  - by rewrite E.
  - exists p', b'. rewrite E3. unfold arrived, body_of, body_bytes_of.
    destruct (default [] (rs_body r)) eqn:Eb; by split_and!.
Qed.

Lemma response_roundtrip_witness :
  let r := demo_response 200 false (Some (str "hi")) in
  let bytes := (renderToBuffer map_to_list (server_line (Some (str "drogon"))) None r).2 in
  ∃ p' b', response_segments (λ _, 0) [take 12 bytes; drop 12 bytes] new_response_parser (newMsgBuffer 2048) = Some (p', b') ∧
    rp_status p' = pGotAll ∧ bq_contents b' = [] ∧
    re_version (responsePtr_ p') = kHttp11 ∧ re_statusCode (responsePtr_ p') = 200 ∧
    default [] (re_body (responsePtr_ p')) = str "hi" ∧
    re_headers (responsePtr_ p') = seen_headers (Some (str "drogon")) None r.
Proof.
  intros r bytes.
  apply (response_roundtrip (λ _, 0) map_to_list (Some (str "drogon")) None (newMsgBuffer 2048) r [take 12 bytes; drop 12 bytes]).
  - done.
  - split; [discriminate|cbn; lia|reflexivity|done|cbn; unfold string_max_size; lia| | |by vm_compute].
    + split; [decide_it|split; reflexivity].
    + apply map_Forall_singleton. split_and!; [reflexivity|decide_it|decide_it|decide_it|decide_it|split; reflexivity].
  - split; [decide_it|split; reflexivity].
  - done.
  - apply new_ok.
  - apply new_ok.
  - repeat constructor; discriminate.
  - vm_compute. reflexivity.
Defined.

(** ** Observations *)

(** A server that answers with a chunk of size -2 makes [std::string::append]
    throw in the client's event loop. *)
Example response_chunk_minus_two_throws :
  let bytes := str "HTTP/1.1 200 OK" ++ CRLF ++ str "transfer-encoding: chunked" ++ CRLF ++ CRLF ++ str "-2" ++ CRLF ++ str "x" in
  match bq_append bytes (newMsgBuffer 2048) with
  | Some b => match parseResponse (λ _, 0) new_response_parser b with Some (RsThrew p) => rp_chunk p = 2 ^ 64 - 2 | _ => False end
  | None => False
  end.
Proof. vm_compute. reflexivity. Qed.

(** So does a cookie whose [max-age] is no number. *)
Example max_age_not_a_number_throws :
  let bytes := str "HTTP/1.1 101 OK" ++ CRLF ++ str "Set-Cookie: a=b; Max-Age=never" ++ CRLF in
  match bq_append bytes (newMsgBuffer 2048) with
  | Some b => match parseResponse (λ _, 0) new_response_parser b with Some (RsThrew _) => True | _ => False end
  | None => False
  end.
Proof. vm_compute. exact I. Qed.
