(* ===== verification/RangeParser.v ===== *)
(** * Ranges of a file

    [parseRangeHeader] of src/src/drogon/lib/src/RangeParser.cc: the [Range]
    header of a request against a file of a given size.

    [size_t] arithmetic is written with its wrap-around; the header is read as
    a C string, so a NUL in it is its end. *)

From stdpp Require Import base list numbers option strings.
From Stdlib Require Import ZArith Lia.
From S2P Require Import Prelude CDouble HttpRequest HttpDelivery ResponseParser.

Definition MAX_SIZE : Z := 2 ^ 64 - 1.
Definition MAX_TEN : Z := MAX_SIZE / 10.
Definition MAX_DIGIT : Z := MAX_SIZE mod 10.

Inductive FileRangeParseResult := InvalidRange | NotSatisfiable | SinglePart | MultiPart.

(** [start, end) *)
Record FileRange := { fr_start : Z; fr_end : Z }.

(** [*iter] and [iter + 1]. *)
Definition peek (iter : list Z) : Z := match iter with [] => 0 | c :: _ => c end.

Fixpoint skip_whitespace (iter : list Z) : list Z :=
  match iter with c :: l => if c =? 32 then skip_whitespace l else iter | [] => [] end.

Definition is_digit (c : Z) : bool := (48 <=? c) && (c <=? 57).

Definition would_overflow (base digit : Z) : bool :=
  (MAX_TEN <? base) || ((MAX_TEN <=? base) && (MAX_DIGIT <? digit - 48)).

(** The loop over digits; [None] is an integer out of range. *)
Fixpoint parse_digits (n : Z) (iter : list Z) : option (Z * list Z) :=
  match iter with
  | c :: l =>
      if is_digit c then
        if would_overflow n c then None else parse_digits (wrapU64 (n * 10 + (c - 48))) l
      else Some (n, iter)
  | [] => Some (n, [])
  end.

(** One range as it is written. *)
Inductive spec :=
| SInvalid
| SOverflow
| SFrom (start : Z) (iter : list Z)
| SPart (isSuffix : bool) (start last : Z) (iter : list Z).

Definition parse_end (isSuffix : bool) (start : Z) (iter : list Z) : spec :=
  if negb (is_digit (peek iter)) then SInvalid
  else match parse_digits 0 iter with
       | None => SOverflow
       | Some (last, iter) =>
           let iter := skip_whitespace iter in
           if (peek iter =? 44) || (peek iter =? 0) then SPart isSuffix start last iter else SInvalid
       end.

Definition parse_spec (iter : list Z) : spec :=
  let iter := skip_whitespace iter in
  if peek iter =? 45 then parse_end true 0 (tail iter)
  else if negb (is_digit (peek iter)) then SInvalid
  else match parse_digits 0 iter with
       | None => SOverflow
       | Some (start, iter) =>
           let iter := skip_whitespace iter in
           if negb (peek iter =? 45) then SInvalid
           else
             let iter := skip_whitespace (tail iter) in
             if (peek iter =? 44) || (peek iter =? 0) then SFrom start iter else parse_end false start iter
       end.

(** The bounds of a range in a file. *)
Definition resolve (contentLength : Z) (isSuffix : bool) (start last : Z) : FileRange :=
  let '(start, last) :=
    if isSuffix then (if last <? contentLength then wrapU64 (contentLength - last) else 0, wrapU64 (contentLength - 1))
    else (start, last) in
  {| fr_start := start; fr_end := if contentLength <=? last then contentLength else wrapU64 (last + 1) |}.

(** The end of the loop: all ranges are taken. *)
Definition conclude (contentLength totalSize : Z) (ranges : list FileRange) : FileRangeParseResult :=
  match ranges with
  | [] => NotSatisfiable
  | [_] => if contentLength <? totalSize then NotSatisfiable else SinglePart
  | _ => if contentLength <? totalSize then NotSatisfiable else MultiPart
  end.

(** Taking a range: the ranges and their size, or what to return; only ranges
    with an end are counted ([limit]). *)
Definition take_range (limit : bool) (r : FileRange) (totalSize : Z) (ranges : list FileRange)
    : FileRangeParseResult + Z * list FileRange :=
  if fr_start r <? fr_end r then
    let size := wrapU64 (fr_end r - fr_start r) in
    if MAX_SIZE - size <? totalSize then inl NotSatisfiable
    else
      let ranges := ranges ++ [r] in
      if limit && (100 <? length ranges)%nat then inl InvalidRange else inr (wrapU64 (totalSize + size), ranges)
  else inr (totalSize, ranges).

(** The loop; each turn reads past a comma. *)
Fixpoint range_loop (fuel : nat) (contentLength totalSize : Z) (ranges : list FileRange) (iter : list Z)
    : FileRangeParseResult * list FileRange :=
  match fuel with
  | O => (InvalidRange, ranges)
  | S fuel =>
      let go (limit : bool) r iter :=
        match take_range limit r totalSize ranges with
        | inl res => (res, if limit then ranges ++ [r] else ranges)
        | inr (totalSize, ranges) =>
            if peek iter =? 44 then range_loop fuel contentLength totalSize ranges (tail iter)
            else (conclude contentLength totalSize ranges, ranges)
        end in
      match parse_spec iter with
      | SInvalid => (InvalidRange, ranges)
      | SOverflow => (NotSatisfiable, ranges)
      | SFrom start iter => go false {| fr_start := start; fr_end := contentLength |} iter
      | SPart isSuffix start last iter => go true (resolve contentLength isSuffix start last) iter
      end
  end.

Definition parseRangeHeader (rangeStr : list Z) (contentLength : Z) : FileRangeParseResult * list FileRange :=
  if (length rangeStr <? 7)%nat || negb (bool_decide (take 6 rangeStr = str "bytes=")) then (InvalidRange, [])
  else range_loop (length rangeStr) contentLength 0 [] (drop 6 rangeStr).

Definition range (a b : Z) : FileRange := {| fr_start := a; fr_end := b |}.

Example range_1 : parseRangeHeader (str "bytes=0-499") 1000 = (SinglePart, [range 0 500]). Proof. done. Qed.
Example range_2 : parseRangeHeader (str "bytes=-500") 1000 = (SinglePart, [range 500 1000]). Proof. done. Qed.
Example range_3 : parseRangeHeader (str "bytes=500-, 0 - 1") 1000 = (MultiPart, [range 500 1000; range 0 2]). Proof. done. Qed.
Example range_4 : parseRangeHeader (str "bytes=-5") 0 = (NotSatisfiable, []). Proof. done. Qed.
Example range_5 : parseRangeHeader (str "bytes=1-99999999999999999999") 10 = (NotSatisfiable, []). Proof. done. Qed.

(** ** Digits *)

Lemma would_overflow_spec n c :
  0 ≤ n < 2 ^ 64 → is_digit c = true → would_overflow n c = false ↔ n * 10 + (c - 48) < 2 ^ 64.
Proof.
  intros Hn Hc. unfold is_digit in Hc. apply andb_true_iff in Hc as [H1 H2]. apply Z.leb_le in H1, H2.
  unfold would_overflow. change MAX_TEN with 1844674407370955161. change MAX_DIGIT with 5. change (2 ^ 64) with 18446744073709551616 in *.
  rewrite orb_false_iff, andb_false_iff, !Z.ltb_ge, Z.leb_gt. lia.
Qed.

Lemma parse_digits_range n iter v rest :
  0 ≤ n < 2 ^ 64 → parse_digits n iter = Some (v, rest) → 0 ≤ v < 2 ^ 64 ∧ (length rest ≤ length iter)%nat.
Proof.
  revert n. induction iter as [|c l IH]; intros n Hn; cbn; [by intros [= <- <-]|].
  destruct (is_digit c) eqn:Hc; [|intros [= <- <-]; cbn; lia].
  destruct (would_overflow n c) eqn:Ho; [done|]. apply would_overflow_spec in Ho; [|done..].
  unfold is_digit in Hc. apply andb_true_iff in Hc as [H1 H2]. apply Z.leb_le in H1, H2.
  rewrite wrapU64_small by lia. intros [? ?]%IH; lia.
Qed.

Lemma xdigit_is_digit c d : xdigit c = Some d → d < 10 → is_digit c = true ∧ c - 48 = d.
Proof. unfold xdigit, is_digit. repeat case_match; intros [= <-]; lia. Qed.

Lemma value_mono l acc : 0 ≤ acc → acc ≤ fold_left (λ acc c, acc * 10 + default 0 (xdigit c)) l acc.
Proof.
  revert acc. induction l as [|c l IH]; intros acc Ha; cbn; [done|].
  assert (0 ≤ default 0 (xdigit c)) by (unfold xdigit; repeat case_match; cbn; lia).
  specialize (IH (acc * 10 + default 0 (xdigit c)) ltac:(lia)). lia.
Qed.

(** A printed number is read back. *)
Lemma parse_digits_numeral l t acc :
  Forall (λ c, ∃ d, xdigit c = Some d ∧ d < 10) l → is_digit (peek t) = false → 0 ≤ acc →
  fold_left (λ acc c, acc * 10 + default 0 (xdigit c)) l acc < 2 ^ 64 →
  parse_digits acc (l ++ t) = Some (fold_left (λ acc c, acc * 10 + default 0 (xdigit c)) l acc, t).
Proof.
  intros Hl Ht. revert acc. induction Hl as [|c l (d & E & Hd) _ IH]; intros acc Ha Hlt; cbn in *.
  - destruct t as [|c t]; [done|]. cbn in *. by rewrite Ht.
  - rewrite E in *. cbn in *. destruct (xdigit_is_digit c d E Hd) as [Hc <-]. rewrite Hc.
    assert (0 ≤ c - 48) by (unfold is_digit in Hc; lia).
    pose proof (value_mono l (acc * 10 + (c - 48)) ltac:(lia)).
    rewrite (proj2 (would_overflow_spec acc c ltac:(lia) Hc)) by lia. rewrite wrapU64_small by lia. apply IH; lia.
Qed.

Lemma parse_dec z t :
  0 ≤ z < 2 ^ 64 → is_digit (peek t) = false →
  parse_digits 0 (str (dec z) ++ t) = Some (z, t) ∧ is_digit (peek (str (dec z) ++ t)) = true.
Proof.
  intros Hz Ht. destruct (dec_numeral z Hz) as [[Hne Hl] Hv]. unfold value in Hv. split.
  - pose proof (parse_digits_numeral _ t 0 Hl Ht ltac:(lia)) as Hp. rewrite Hv in Hp. apply Hp. lia.
  - destruct (str (dec z)) as [|c l]; [done|]. apply Forall_cons_1 in Hl as [(d & E & Hd) _]. by apply xdigit_is_digit in E as [? _].
Qed.

(** ** Fuel *)

Lemma skip_whitespace_length iter : (length (skip_whitespace iter) ≤ length iter)%nat.
Proof. induction iter as [|c l IH]; cbn; [lia|]. case_match; cbn; lia. Qed.

Lemma tail_length {A} (l : list A) : (length (tail l) ≤ length l)%nat.
Proof. destruct l; cbn; lia. Qed.

Lemma parse_end_range b s iter :
  match parse_end b s iter with
  | SPart b' s' last rest => b' = b ∧ s' = s ∧ 0 ≤ last < 2 ^ 64 ∧ (length rest ≤ length iter)%nat
  | SFrom _ _ => False
  | _ => True
  end.
Proof.
  unfold parse_end. destruct (negb _); [done|]. destruct (parse_digits 0 iter) as [[v rest]|] eqn:E; [|done].
  apply parse_digits_range in E as [Hv Hl]; [|lia]. pose proof (skip_whitespace_length rest).
  destruct (orb _ _); [|done]. split_and!; (done || lia).
Qed.

Lemma parse_spec_range iter :
  match parse_spec iter with
  | SFrom start rest => 0 ≤ start < 2 ^ 64 ∧ (length rest ≤ length iter)%nat
  | SPart _ start last rest => 0 ≤ start < 2 ^ 64 ∧ 0 ≤ last < 2 ^ 64 ∧ (length rest ≤ length iter)%nat
  | _ => True
  end.
Proof.
  unfold parse_spec. pose proof (skip_whitespace_length iter) as H1. set (it := skip_whitespace iter) in *.
  destruct (peek it =? 45).
  - pose proof (parse_end_range true 0 (tail it)) as H. pose proof (tail_length it).
    destruct (parse_end _ _ _); try done. destruct H as (_ & -> & ? & ?). split_and!; lia.
  - destruct (negb (is_digit (peek it))); [done|]. destruct (parse_digits 0 it) as [[v rest]|] eqn:E; [|done].
    apply parse_digits_range in E as [Hv Hl]; [|lia]. pose proof (skip_whitespace_length rest).
    set (it2 := skip_whitespace rest) in *. destruct (negb (peek it2 =? 45)); [done|].
    pose proof (skip_whitespace_length (tail it2)). pose proof (tail_length it2).
    set (it3 := skip_whitespace (tail it2)) in *. destruct (orb _ _); [split_and!; lia|].
    pose proof (parse_end_range false v it3) as Hp. destruct (parse_end _ _ _); try done.
    destruct Hp as (_ & -> & ? & ?). split_and!; lia.
Qed.

Lemma peek_tail iter c : c ≠ 0 → peek iter = c → length iter = S (length (tail iter)).
Proof. destruct iter as [|x l]; cbn; [congruence | lia]. Qed.

(** More fuel than characters changes nothing. *)
Lemma range_loop_fuel n f1 f2 total ranges iter :
  (length iter < f1)%nat → (length iter < f2)%nat → range_loop f1 n total ranges iter = range_loop f2 n total ranges iter.
Proof.
  revert f2 total ranges iter. induction f1 as [|f1 IH]; intros f2 total ranges iter H1 H2; [lia|].
  destruct f2 as [|f2]; [lia|]. cbn [range_loop]. pose proof (parse_spec_range iter) as Hs.
  destruct (parse_spec iter) as [| |start rest|b start last rest]; [done | done|..].
  - destruct (take_range _ _ _ _) as [|[? ?]]; [done|]. destruct (peek rest =? 44) eqn:E; [|done].
    apply Z.eqb_eq in E. pose proof (peek_tail rest 44 ltac:(lia) E). apply IH; lia.
  - destruct (take_range _ _ _ _) as [|[? ?]]; [done|]. destruct (peek rest =? 44) eqn:E; [|done].
    apply Z.eqb_eq in E. pose proof (peek_tail rest 44 ltac:(lia) E). apply IH; lia.
Qed.

(** ** Bounds *)

Definition range_ok (n : Z) (r : FileRange) : Prop := 0 ≤ fr_start r < fr_end r ∧ fr_end r ≤ n.
Definition size_of (ranges : list FileRange) : Z := fold_right (λ r acc, fr_end r - fr_start r + acc) 0 ranges.

Lemma size_of_snoc ranges r : size_of (ranges ++ [r]) = size_of ranges + (fr_end r - fr_start r).
Proof. unfold size_of. induction ranges as [|x ranges IH]; cbn in *; lia. Qed.

Lemma resolve_ok n b start last :
  0 ≤ n < 2 ^ 64 → 0 ≤ start < 2 ^ 64 → 0 ≤ last < 2 ^ 64 →
  0 ≤ fr_start (resolve n b start last) ∧ fr_end (resolve n b start last) ≤ n.
Proof.
  intros Hn Hs Hl. unfold resolve. destruct b.
  - destruct (Z.ltb_spec last n).
    + rewrite (wrapU64_small (n - last)) by lia. rewrite (wrapU64_small (n - 1)) by lia. cbn.
      destruct (Z.leb_spec n (n - 1)); [lia|]. rewrite wrapU64_small by lia. lia.
    + cbn. destruct (Z.leb_spec n (wrapU64 (n - 1))) as [?|Hlt]; [lia|].
      pose proof (Z.mod_pos_bound (n - 1) (2 ^ 64) ltac:(lia)). unfold wrapU64 in *. rewrite (Z.mod_small _ _) by lia. lia.
  - cbn. destruct (Z.leb_spec n last); [lia|]. rewrite wrapU64_small by lia. lia.
Qed.

Lemma take_range_ok n limit r total ranges total' ranges' :
  0 ≤ n < 2 ^ 64 → (fr_start r < fr_end r → range_ok n r) → Forall (range_ok n) ranges → total = size_of ranges → 0 ≤ total →
  take_range limit r total ranges = inr (total', ranges') →
  Forall (range_ok n) ranges' ∧ total' = size_of ranges' ∧ 0 ≤ total'.
Proof.
  intros Hn Hr Hrs Ht Hpos. unfold take_range. destruct (Z.ltb_spec (fr_start r) (fr_end r)) as [Hlt|Hge].
  - destruct (Hr Hlt) as [H1 H2]. rewrite (wrapU64_small (fr_end r - fr_start r)) by lia.
    destruct (Z.ltb_spec (MAX_SIZE - (fr_end r - fr_start r)) total) as [?|Hm]; [done|].
    change MAX_SIZE with (2 ^ 64 - 1) in Hm. rewrite wrapU64_small by lia.
    case_match; [done|]. intros [= <- <-]. rewrite size_of_snoc. split_and!; [|lia|lia].
    apply Forall_app_2; [done|]. by apply List.Forall_cons; [apply Hr | apply List.Forall_nil].
  - by intros [= <- <-].
Qed.

Lemma conclude_ok n total ranges res :
  conclude n total ranges = res → res = SinglePart ∨ res = MultiPart →
  ranges ≠ [] ∧ (res = SinglePart ↔ length ranges = 1%nat) ∧ total ≤ n.
Proof.
  intros <-. unfold conclude. destruct ranges as [|r [|r' ranges]]; cbn; destruct (Z.ltb_spec n total); intros [?|?]; try done;
    (split_and!; [done | split; (done || intros; cbn in *; lia) | lia]).
Qed.

Lemma range_loop_ok fuel n total ranges iter res out :
  0 ≤ n < 2 ^ 64 → Forall (range_ok n) ranges → total = size_of ranges → 0 ≤ total →
  range_loop fuel n total ranges iter = (res, out) → res = SinglePart ∨ res = MultiPart →
  out ≠ [] ∧ (res = SinglePart ↔ length out = 1%nat) ∧ Forall (range_ok n) out ∧ size_of out ≤ n.
Proof.
  intros Hn. revert total ranges iter. induction fuel as [|fuel IH]; intros total ranges iter Hrs Ht Hpos; cbn [range_loop].
  { intros [= <- <-]. by intros [?|?]. }
  assert (Hgo : ∀ (limit : bool) r rest, (fr_start r < fr_end r → range_ok n r) →
    match take_range limit r total ranges with
    | inl res => (res, if limit then ranges ++ [r] else ranges)
    | inr (total, ranges) => if peek rest =? 44 then range_loop fuel n total ranges (tail rest)
                             else (conclude n total ranges, ranges)
    end = (res, out) → res = SinglePart ∨ res = MultiPart →
    out ≠ [] ∧ (res = SinglePart ↔ length out = 1%nat) ∧ Forall (range_ok n) out ∧ size_of out ≤ n).
  { intros limit r rest Hr E Hres. destruct (take_range limit r total ranges) as [x|[total' ranges']] eqn:Et.
    - injection E as -> _. unfold take_range in Et. repeat case_match; simplify_eq; by destruct Hres.
    - destruct (take_range_ok n limit r total ranges total' ranges' Hn Hr Hrs Ht Hpos Et) as (H1 & H2 & H3).
      destruct (peek rest =? 44); [by eapply IH|]. injection E as E <-.
      destruct (conclude_ok _ _ _ _ E Hres) as (? & ? & ?). split_and!; [done | done | done | lia]. }
  pose proof (parse_spec_range iter) as Hs. destruct (parse_spec iter) as [| |start rest|b start last rest].
  - intros [= <- <-]. by intros [?|?].
  - intros [= <- <-]. by intros [?|?].
  - apply (Hgo false (range start n) rest). cbn. unfold range_ok. cbn. lia.
  - apply (Hgo true (resolve n b start last) rest). intros Hlt.
    destruct (resolve_ok n b start last) as [? ?]; [done | lia | lia|]. unfold range_ok. lia.
Qed.

(** ** The ranges a client prints are the ranges the server reads *)

Definition print_range (r : FileRange) : list Z := str (dec (fr_start r)) ++ 45 :: str (dec (fr_end r - 1)).

(** What follows "bytes=": the ranges with commas between them. *)
Fixpoint print_ranges (r : FileRange) (rs : list FileRange) : list Z :=
  print_range r ++ match rs with [] => [] | r' :: rs => 44 :: 32 :: print_ranges r' rs end.

Lemma skip_whitespace_stop l : peek l ≠ 32 → skip_whitespace l = l.
Proof. destruct l as [|c l]; cbn; [done|]. intros ?. by case_match; [lia|]. Qed.

Lemma digit_not_space c : is_digit c = true → c ≠ 32 ∧ c ≠ 45 ∧ c ≠ 44 ∧ c ≠ 0.
Proof. unfold is_digit. lia. Qed.

Lemma parse_spec_printed n r t :
  0 ≤ n < 2 ^ 64 → range_ok n r → peek t = 44 ∨ t = [] →
  parse_spec (print_range r ++ t) = SPart false (fr_start r) (fr_end r - 1) t.
Proof.
  intros Hn [H1 H2] Ht. unfold print_range. rewrite <- app_assoc. cbn [app].
  destruct (parse_dec (fr_start r) (45 :: str (dec (fr_end r - 1)) ++ t)) as [E1 F1]; [lia | done|].
  destruct (parse_dec (fr_end r - 1) t) as [E2 F2]; [lia | destruct Ht as [Ht | ->]; [by rewrite Ht | done]|].
  set (l1 := str (dec (fr_start r)) ++ _) in *. set (l2 := str (dec (fr_end r - 1)) ++ t) in *.
  destruct (digit_not_space _ F1) as (W1 & W2 & _). destruct (digit_not_space _ F2) as (W3 & _ & W5 & W6).
  unfold parse_spec. rewrite skip_whitespace_stop, (proj2 (Z.eqb_neq _ _) W2), F1 by done. cbn [negb]. rewrite E1.
  cbn [skip_whitespace Z.eqb Pos.eqb peek negb tail]. rewrite skip_whitespace_stop by done.
  rewrite (proj2 (Z.eqb_neq _ _) W5), (proj2 (Z.eqb_neq _ _) W6). cbn [orb].
  unfold parse_end. rewrite F2. cbn [negb]. rewrite E2.
  rewrite skip_whitespace_stop by (destruct Ht as [Ht | ->]; cbn; lia).
  destruct Ht as [-> | ->]; done.
Qed.

Lemma size_of_app a b : size_of (a ++ b) = size_of a + size_of b.
Proof. unfold size_of. induction a as [|x a IH]; cbn in *; lia. Qed.

Lemma size_of_nonneg n rs : Forall (range_ok n) rs → 0 ≤ size_of rs.
Proof. unfold size_of. induction 1 as [|r rs [? ?] _ IH]; cbn; lia. Qed.

Lemma resolve_printed n r : 0 ≤ n < 2 ^ 64 → range_ok n r → resolve n false (fr_start r) (fr_end r - 1) = r.
Proof.
  intros Hn [H1 H2]. unfold resolve. destruct (Z.leb_spec n (fr_end r - 1)); [lia|].
  rewrite wrapU64_small by lia. destruct r as [a b]. cbn. by rewrite Z.sub_add.
Qed.

Lemma take_range_fits n r ranges :
  0 ≤ n < 2 ^ 64 → range_ok n r → Forall (range_ok n) ranges → size_of (ranges ++ [r]) ≤ n → (length (ranges ++ [r]) ≤ 100)%nat →
  take_range true r (size_of ranges) ranges = inr (size_of (ranges ++ [r]), ranges ++ [r]).
Proof.
  intros Hn [H1 H2] Hrs Hsz Hlen. unfold take_range. pose proof (size_of_nonneg _ _ Hrs). rewrite size_of_snoc in *.
  destruct (Z.ltb_spec (fr_start r) (fr_end r)); [|lia]. rewrite (wrapU64_small (_ - _)) by lia.
  destruct (Z.ltb_spec (MAX_SIZE - (fr_end r - fr_start r)) (size_of ranges)) as [Hm|_].
  { change MAX_SIZE with (2 ^ 64 - 1) in Hm. lia. }
  rewrite wrapU64_small by lia. by destruct (Nat.ltb_spec 100 (length (ranges ++ [r]))); [lia|].
Qed.

Lemma print_loop n rs fuel r ranges sp :
  0 ≤ n < 2 ^ 64 → Forall (range_ok n) ranges → Forall (range_ok n) (r :: rs) →
  size_of (ranges ++ r :: rs) ≤ n → (length (ranges ++ r :: rs) ≤ 100)%nat →
  sp = [] ∨ sp = [32] → (length (sp ++ print_ranges r rs) < fuel)%nat →
  range_loop fuel n (size_of ranges) ranges (sp ++ print_ranges r rs) =
  (conclude n (size_of (ranges ++ r :: rs)) (ranges ++ r :: rs), ranges ++ r :: rs).
Proof.
  intros Hn. revert fuel r ranges sp.
  induction rs as [|r' rs IH]; intros fuel r ranges sp Hrs Hall Hsz Hlen Hsp Hf; (destruct fuel as [|fuel]; [lia|]);
    apply Forall_cons_1 in Hall as [Hr Hall]; cbn [range_loop].
  - assert (parse_spec (sp ++ print_ranges r []) = SPart false (fr_start r) (fr_end r - 1) []) as ->.
    { destruct Hsp as [-> | ->]; apply (parse_spec_printed n); auto. }
    by rewrite (resolve_printed n), (take_range_fits n).
  - assert (parse_spec (sp ++ print_ranges r (r' :: rs)) =
      SPart false (fr_start r) (fr_end r - 1) (44 :: [32] ++ print_ranges r' rs)) as ->.
    { destruct Hsp as [-> | ->]; apply (parse_spec_printed n); auto. }
    assert (Hsz' : size_of (ranges ++ [r]) ≤ n).
    { replace (ranges ++ r :: r' :: rs) with ((ranges ++ [r]) ++ r' :: rs) in Hsz by by rewrite <- app_assoc.
      rewrite size_of_app in Hsz. pose proof (size_of_nonneg n _ Hall). lia. }
    assert (Hlen' : (length (ranges ++ [r]) ≤ 100)%nat) by (rewrite !length_app in *; cbn in *; lia).
    rewrite (resolve_printed n), (take_range_fits n) by done. cbn [peek Z.eqb Pos.eqb tail].
    replace (ranges ++ r :: r' :: rs) with ((ranges ++ [r]) ++ r' :: rs) in * by by rewrite <- app_assoc.
    apply IH; [|done | done | done | by right |].
    + by apply Forall_app_2; [|apply List.Forall_cons; [|apply List.Forall_nil]].
    + rewrite length_app in *. cbn [print_ranges] in Hf. rewrite !length_app in Hf. cbn [length] in *. lia.
Qed.

(** ** Properties *)




