(* ===== verification/Handshake.v ===== *)
(** * The WebSocket handshake

    The upgrade of an HTTP connection to a WebSocket on both sides: [isWebSocket]
    of src/src/drogon/lib/src/HttpServer.cc, [handleRequest] of
    [WebsocketControllerBinder] (HttpControllerBinder.cc), and of
    [WebSocketClientImpl] the request's fields and the check of the answer
    (WebSocketClientImpl.cc).  It composes [Base64], [Sha1], the header fields of
    [HttpRequest], [ResponseRender] and [ResponseParser]. *)

From stdpp Require Import base list numbers option strings gmap.
From Stdlib Require Import ZArith Lia.
From S2P Require Import Prelude CDouble StaticFiles MsgBuffer HttpRequest Base64 Sha1 HttpParser HttpDelivery ResponseRender ResponseParser.

(** ** The server *)

Fixpoint is_prefix (p s : list Z) : bool :=
  match p, s with
  | [], _ => true
  | a :: p, b :: s => (a =? b) && is_prefix p s
  | _, _ => false
  end.

(** [s.find(p) != npos] *)
Fixpoint contains (p s : list Z) : bool :=
  is_prefix p s || match s with [] => false | _ :: s => contains p s end.

Definition isWebSocket (r : HttpRequestImpl) : bool :=
  match method_ r with Get => true | _ => false end &&
  match headers_ r !! str "upgrade", headers_ r !! str "connection" with
  | Some u, Some c => contains (str "upgrade") (tolower <$> c) && bool_decide (tolower <$> u = str "websocket")
  | _, _ => false
  end.

Definition GUID : list Z := str "258EAFA5-E914-47DA-95CA-C5AB0DC85B11".

(** [base64Encode(sha1(wsKey + GUID))]; [garbage] is SHA-1's uninitialised buffer. *)
Definition accept_key (garbage wsKey : list Z) : list Z := base64Encode false true (sha1 garbage (wsKey ++ GUID)).

(** [HttpResponse::newHttpResponse()] *)
Definition newHttpResponse : HttpResponseImpl :=
  {| rs_version := kHttp11; rs_statusCode := 200; rs_closeConnection := false;
     rs_contentTypeString := str "text/html; charset=utf-8"; rs_headers := ∅; rs_body := None;
     rs_asyncStream := false; rs_stream := false; rs_sendfile := None |}.

Definition set_code (code : Z) (r : HttpResponseImpl) : HttpResponseImpl :=
  {| rs_version := rs_version r; rs_statusCode := code; rs_closeConnection := rs_closeConnection r;
     rs_contentTypeString := rs_contentTypeString r; rs_headers := rs_headers r; rs_body := rs_body r;
     rs_asyncStream := rs_asyncStream r; rs_stream := rs_stream r; rs_sendfile := rs_sendfile r |}.

(** [HttpResponseImpl::addHeader] *)
Definition add_header (field value : list Z) (r : HttpResponseImpl) : HttpResponseImpl :=
  set_response_headers (<[tolower <$> field := value]> (rs_headers r)) r.

(** [WebsocketControllerBinder::handleRequest] *)
Definition handleRequest (garbage : list Z) (req : HttpRequestImpl) : HttpResponseImpl :=
  let base64Key := accept_key garbage (getHeaderBy (str "sec-websocket-key") req) in
  add_header (str "Sec-WebSocket-Accept") base64Key
    (add_header (str "Connection") (str "Upgrade")
      (add_header (str "Upgrade") (str "websocket") (set_code 101 newHttpResponse))).

(** ** The client *)

(** [connectToServerInLoop]: the key from [genRandomString(16)], and what it expects. *)
Definition new_key (randStr : list Z) : list Z := base64Encode false true randStr.
Definition wsAccept (garbage wsKey : list Z) : list Z := accept_key garbage wsKey.

(** [addHeader(field, value)] on the request's fields; names are lower case. *)
Definition put_header (field value : list Z) (h : gmap (list Z) (list Z)) : gmap (list Z) (list Z) :=
  <[tolower <$> field := value]> h.

(** The fields it adds to those the user gave; [host] is the text after [Host]. *)
Definition upgrade_fields (host wsKey : list Z) (h : gmap (list Z) (list Z)) : gmap (list Z) (list Z) :=
  put_header (str "Sec-WebSocket-Key") wsKey
    (put_header (str "Sec-WebSocket-Version") (str "13")
      (put_header (str "Host") host
        (put_header (str "Upgrade") (str "websocket") (put_header (str "Connection") (str "Upgrade") h)))).

(** [onRecvMessage]: the check of a complete response. *)
Definition handshake_ok (wsAccept_ : list Z) (resp : response) : bool :=
  (re_statusCode resp =? 101) && bool_decide (response_header (str "sec-websocket-accept") resp = wsAccept_).

(** The example of RFC 6455. *)
Example rfc_accept_key : accept_key (repeat 0 64) (str "dGhlIHNhbXBsZSBub25jZQ==") = str "s3pPLMBiTxaQ9kYGzzhZRbK+xOo=".
Proof. by vm_compute. Qed.

(** ** Text that survives a header line *)

Lemma encoded_plain l : Forall is_byte l → 10 ∉ base64Encode false true l ∧ trimmed (base64Encode false true l).
Proof.
  intros Hl. destruct (encode_shape false true l Hl) as (body & k & -> & Hb & _).
  assert (Hc : Forall (λ c, isspace c = false) (body ++ repeat 61 k)).
  { apply Forall_app_2.
    - eapply List.Forall_impl; [|exact Hb]. intros c [Hc _]. destruct (isspace c) eqn:Hs; [|done].
      unfold isBase64_char, isalnum, isspace in *. rewrite ?orb_true_iff, ?andb_true_iff, ?Z.leb_le, ?Z.eqb_eq in *. lia.
    - apply List.Forall_forall. by intros c ->%repeat_spec. }
  assert (Hd : ∀ l, Forall (λ c, isspace c = false) l → drop_space l = l).
  { intros [|c l'] Hf; [done|]. apply List.Forall_cons_iff in Hf as [Hf _]. by apply drop_space_head. }
  split.
  - intros Hin. rewrite List.Forall_forall in Hc. apply list_elem_of_In, Hc in Hin. done.
  - split; [by apply Hd|]. unfold trim_end. rewrite Hd, reverse_involutive; [done|].
    rewrite List.Forall_forall in *. intros c Hin. apply Hc, list_elem_of_In, elem_of_reverse. by apply list_elem_of_In.
Qed.

Lemma sha1_bytes garbage data : Forall is_byte (sha1 garbage data).
Proof.
  unfold sha1, trantor_sha1_final, digest_of. destruct (state _) as [[[[a b] c] d] e].
  repeat apply Forall_app_2; apply be_bytes32_ok.
Qed.

Lemma str_bytes s : Forall is_byte (str s).
Proof.
  unfold str. apply Forall_fmap, List.Forall_forall. intros c _. cbn. unfold code.
  pose proof (Ascii.N_ascii_bounded c). unfold is_byte. lia.
Qed.

(** ** The upgrade on the wire *)

Lemma upgrade_headers (garbage : list Z) (req : HttpRequestImpl) :
  rs_headers (handleRequest garbage req) =
    <[str "sec-websocket-accept" := accept_key garbage (getHeaderBy (str "sec-websocket-key") req)]>
    (<[str "connection" := str "Upgrade"]> {[str "upgrade" := str "websocket"]}).
Proof. done. Qed.

Section Wire.
Context (order : gmap (list Z) (list Z) → list (list Z * list Z)) (server date : option (list Z)).
Context (Horder : ∀ m, order m ≡ₚ map_to_list m) (Hserver : option_ok server) (Hdate : option_ok date).

(** The fields the server adds to an upgrade. *)
Definition added : list (list Z * list Z) :=
  [(str "content-type", str "text/html; charset=utf-8")] ++ option_list ((str "server",.) <$> server).

Lemma plain_literal k v :
  bool_decide (tolower <$> k = k ∧ k ≠ str "set-cookie" ∧ 58 ∉ k ∧ 10 ∉ k) = true → value_ok v → plain_field (k, v).
Proof. intros E [? ?]. apply bool_decide_eq_true in E as (? & ? & ? & ?). by split_and!. Qed.

Lemma plain_value v : bool_decide (10 ∉ v) = true → drop_space v = v → trim_end v = v → value_ok v.
Proof. intros E ? ?. by apply bool_decide_eq_true in E. Qed.

Lemma upgrade_render (garbage : list Z) (req : HttpRequestImpl) :
  let r := handleRequest garbage req in
  (renderToBuffer order (server_line server) date r).2 =
  ((version_text kHttp11 ++ 32 :: str (dec 101) ++ 32 :: str (statusCodeToString 101)) ++ CRLF) ++
  ((added ++ order (rs_headers r) ++ date_field date) ≫= field_bytes) ++ CRLF.
Proof.
  clear Hserver Hdate. intros r. unfold renderToBuffer, makeHeaderString.
  change (announce_length r) with (r, @nil Z). cbn [snd]. rewrite status_line_text by done.
  assert (Hc : connection_line r = []).
  { unfold connection_line. unfold r at 1. rewrite upgrade_headers. by rewrite lookup_insert_ne, lookup_insert_eq. }
  rewrite Hc, header_lines, date_line_field. unfold added. rewrite !bind_app, <- !app_assoc.
  change (rs_version r) with kHttp11. change (rs_statusCode r) with 101. change (rs_body r) with (@None (list Z)).
  assert (Hs : (option_list ((str "server",.) <$> server) ≫= field_bytes) = server_line server).
  { destruct server as [t|]; [|done]. change (field (str "server") t ++ [] = field (str "server") t). by rewrite app_nil_r. }
  rewrite Hs. cbn [default from_option id]. by rewrite app_nil_r.
Qed.

(** What the client's parser makes of it. *)
Definition upgrade_seen (garbage : list Z) (req : HttpRequestImpl) : gmap (list Z) (list Z) :=
  list_to_map (reverse (added ++ order (rs_headers (handleRequest garbage req)) ++ date_field date)).

Lemma seen_own (garbage : list Z) (req : HttpRequestImpl) (k : list Z) :
  k ∉ (date_field date).*1 → k ∈ [str "sec-websocket-accept"; str "upgrade"] →
  upgrade_seen garbage req !! k = rs_headers (handleRequest garbage req) !! k.
Proof.
  clear Hserver. intros Hd Hk. unfold upgrade_seen. rewrite !reverse_app, !list_to_map_app.
  rewrite (lookup_union_l (M := gmap (list Z))), (lookup_union_r (M := gmap (list Z))).
  - by rewrite (reverse_map _ _ (Horder _)).
  - apply not_elem_of_list_to_map_1. rewrite fmap_reverse, elem_of_reverse. done.
  - apply not_elem_of_list_to_map_1. unfold added. rewrite !elem_of_cons, elem_of_nil in Hk.
    rewrite fmap_reverse, elem_of_reverse.
    destruct server; destruct Hk as [->|[->|[]]]; apply (bool_decide_unpack _); by vm_compute.
Qed.

Lemma seen_nothing (garbage : list Z) (req : HttpRequestImpl) (k : list Z) :
  k ∉ (date_field date).*1 → rs_headers (handleRequest garbage req) !! k = None → k ∉ added.*1 →
  upgrade_seen garbage req !! k = None.
Proof.
  intros Hd Hh Ha. unfold upgrade_seen. rewrite !reverse_app, !list_to_map_app.
  apply lookup_union_None_2; [apply lookup_union_None_2|].
  - apply not_elem_of_list_to_map_1. by rewrite fmap_reverse, elem_of_reverse.
  - by rewrite (reverse_map _ _ (Horder _)).
  - apply not_elem_of_list_to_map_1. by rewrite fmap_reverse, elem_of_reverse.
Qed.

Lemma date_only k : k ≠ str "date" → k ∉ (date_field date).*1.
Proof. clear Hdate. unfold date_field. destruct date; cbn; [by intros ? ?%list_elem_of_singleton | intros _; apply not_elem_of_nil]. Qed.

Lemma not_added k : bool_decide (k ∉ [str "content-type"; str "server"]) = true → k ∉ added.*1.
Proof.
  clear Hserver. intros E Hin. apply bool_decide_eq_true in E. apply E. unfold added in Hin. rewrite fmap_app, elem_of_app in Hin.
  destruct Hin as [->%list_elem_of_singleton|Hin]; [by left|]. right.
  destruct server; [by apply Hin | by apply elem_of_nil in Hin].
Qed.

Lemma added_plain : Forall plain_field added.
Proof.
  unfold added. apply Forall_app_2.
  - apply List.Forall_cons; [apply plain_literal; [done | by apply plain_value] | apply List.Forall_nil].
  - destruct server; [|apply List.Forall_nil]. apply List.Forall_cons; [by apply plain_literal | apply List.Forall_nil].
Qed.
End Wire.

(** ** Properties *)

(** The request's header lines as the server's parser takes them in. *)
Definition receive_fields (fs : list (list Z * list Z)) (r : HttpRequestImpl) : HttpRequestImpl :=
  fold_left (λ r '(k, v), addHeader (k ++ [58; 32] ++ v) (length k) r) fs r.

(** A field of a request that is no cookie. *)
Definition request_field (k v : list Z) : Prop := tolower <$> k = k ∧ k ≠ str "cookie" ∧ trimmed v.

Lemma addHeader_field k v r :
  request_field k v →
  headers_ (addHeader (k ++ [58; 32] ++ v) (length k) r) = headers_ r ∪ {[k := v]} ∧
  method_ (addHeader (k ++ [58; 32] ++ v) (length k) r) = method_ r.
Proof.
  intros (Hlow & Hk & Hv). unfold addHeader. rewrite take_app_length, Hlow, decide_False by done.
  rewrite (drop_app_ge k) by lia. replace (length k + 1 - length k)%nat with 1%nat by lia. cbn [drop app].
  pose proof (trim_value [32] v []) as Htv. rewrite app_nil_r in Htv. cbn [app] in Htv.
  rewrite Htv, emplace_union; [done | by repeat constructor | constructor | done].
Qed.

Lemma receive_headers fs r :
  Forall (λ kv, request_field kv.1 kv.2) fs →
  headers_ (receive_fields fs r) = headers_ r ∪ list_to_map fs ∧ method_ (receive_fields fs r) = method_ r.
Proof.
  intros Hfs. revert r. induction Hfs as [|[k v] fs Hkv _ IH]; intros r.
  - cbn. by rewrite (right_id_L ∅ (∪)).
  - change (receive_fields ((k, v) :: fs) r) with (receive_fields fs (addHeader (k ++ [58; 32] ++ v) (length k) r)).
    destruct (IH (addHeader (k ++ [58; 32] ++ v) (length k) r)) as [-> ->].
    destruct (addHeader_field k v r Hkv) as [-> ->]. split; [|done].
    rewrite list_to_map_cons, insert_union_singleton_l. by rewrite (assoc_L (∪)).
Qed.

(** The server recognises the upgrade and reads the key it carries, in
    whatever order the client's header map lists its fields. *)
Lemma upgrade_received host wsKey h fs r :
  method_ r = Get → headers_ r = ∅ → map_Forall request_field h → trimmed host → trimmed wsKey →
  fs ≡ₚ map_to_list (upgrade_fields host wsKey h) →
  isWebSocket (receive_fields fs r) = true ∧ getHeaderBy (str "sec-websocket-key") (receive_fields fs r) = wsKey.
Proof.
  intros Hm Hr Hh Hhost Hkey Hfs.
  assert (Hall : map_Forall request_field (upgrade_fields host wsKey h)).
  { unfold upgrade_fields, put_header. do 5 (apply map_Forall_insert_2; [by split_and!|]). done. }
  destruct (receive_headers fs r) as [Hhs Hms].
  { rewrite Hfs. rewrite map_Forall_to_list in Hall. eapply List.Forall_impl; [|exact Hall]. by intros [k v]. }
  rewrite Hr, (left_id_L ∅ (∪)) in Hhs.
  assert (Hmap : headers_ (receive_fields fs r) = upgrade_fields host wsKey h).
  { rewrite Hhs. transitivity (list_to_map (map_to_list (upgrade_fields host wsKey h)) : gmap (list Z) (list Z));
      [|apply list_to_map_to_list].
    apply list_to_map_proper; [|done]. rewrite Hfs. apply NoDup_fst_map_to_list. }
  unfold upgrade_fields, put_header in Hmap. split.
  - unfold isWebSocket. rewrite Hms, Hm, Hmap.
    do 3 rewrite lookup_insert_ne by done. rewrite lookup_insert_eq.
    do 4 rewrite lookup_insert_ne by done. by rewrite lookup_insert_eq.
  - unfold getHeaderBy. by rewrite Hmap, lookup_insert_eq.
Qed.

(** The fields of the answer survive their lines. *)
Lemma answer_plain (g : list Z) (req : HttpRequestImpl) :
  map_Forall (λ k v, plain_field (k, v)) (rs_headers (handleRequest g req)).
Proof.
  rewrite upgrade_headers. apply map_Forall_insert_2; [|apply map_Forall_insert_2; [|apply map_Forall_singleton]].
  - apply plain_literal; [done|]. apply encoded_plain, sha1_bytes.
  - apply plain_literal; [done | by apply plain_value].
  - apply plain_literal; [done | by apply plain_value].
Qed.

(** The answer's bytes lead the client's parser to the end of the response. *)
Lemma awaits_upgrade {B} `{ByteQueue B} getHttpDate order server date (g : list Z) (req : HttpRequestImpl) :
  (∀ m, order m ≡ₚ map_to_list m) → option_ok server → option_ok date →
  awaits (B := B) getHttpDate new_response_parser
    (renderToBuffer order (server_line server) date (handleRequest g req)).2
    (with_fields (upgrade_seen order server date g req) ∅ (with_status 101 (with_version kHttp11 new_response))).
Proof.
  intros Horder Hserver Hdate.
  pose proof (upgrade_render order server date g req) as Hr. cbv zeta in Hr. rewrite Hr.
  eapply aw_line; [apply takes_status; [done|done|lia|apply message_no_lf]|].
  apply awaits_fields; [|done|].
  { apply Forall_app_2; [by apply added_plain|]. apply Forall_app_2; [|by apply date_field_plain].
    rewrite Horder. pose proof (answer_plain g req) as Hh. rewrite map_Forall_to_list in Hh.
    eapply List.Forall_impl; [|exact Hh]. by intros [k v]. }
  match goal with |- awaits _ ?p _ _ => set (p1 := p) end.
  assert (Hf : re_headers (responsePtr_ p1) = upgrade_seen order server date g req).
  { unfold p1, upgrade_seen. cbn [to_response responsePtr_ with_fields re_headers to_stage with_status with_version new_response
      new_response_parser]. by rewrite map_union_empty. }
  assert (Hq : with_fields (upgrade_seen order server date g req) ∅ (with_status 101 (with_version kHttp11 new_response)) =
    responsePtr_ (to_stage pGotAll p1)) by (unfold p1, upgrade_seen; cbn; by rewrite map_union_empty).
  rewrite Hq. apply aw_end, upgrade_completes; [done|done|..]; rewrite ?Hf.
  - apply seen_nothing; [done|by apply date_only|by rewrite upgrade_headers, !lookup_insert_ne|by apply not_added].
  - apply seen_nothing; [done|by apply date_only|by rewrite upgrade_headers, !lookup_insert_ne|by apply not_added].
  - done.
  - rewrite seen_own; [by rewrite upgrade_headers|done|by apply date_only|]. by right; left.
Qed.

(** The hashed text is made of bytes, and short. *)
Lemma key_bytes randStr :
  Forall is_byte randStr → Z.of_nat (length randStr) < 2 ^ 59 →
  Forall is_byte (new_key randStr ++ GUID) ∧ Z.of_nat (length (new_key randStr ++ GUID)) < 2 ^ 61 - 128.
Proof.
  intros Hb Hlen. unfold new_key. destruct (encode_shape false true randStr Hb) as (body & k & -> & Hbody & Hk & _ & _ & Hl).
  split.
  - repeat apply Forall_app_2; [| |apply str_bytes].
    + eapply List.Forall_impl; [|exact Hbody]. intros c [Hc _]. unfold is_byte, isBase64_char, isalnum in *.
      rewrite ?orb_true_iff, ?andb_true_iff, ?Z.leb_le, ?Z.eqb_eq in Hc. lia.
    + apply List.Forall_forall. intros c ->%repeat_spec. unfold is_byte. lia.
  - rewrite !length_app, repeat_length, Hl. change (length GUID) with 36%nat. unfold base64EncodedLength.
    pose proof (Nat.Div0.mul_div_le (length randStr + 3 - 1) 3). lia.
Qed.

(** Both ends compute the same key, whatever memory SHA-1 starts from. *)
Lemma same_key g1 g2 randStr :
  length g1 = 64%nat → length g2 = 64%nat → Forall is_byte randStr → Z.of_nat (length randStr) < 2 ^ 59 →
  accept_key g1 (new_key randStr) = wsAccept g2 (new_key randStr).
Proof.
  intros Hg1 Hg2 Hb Hlen. destruct (key_bytes randStr Hb Hlen) as [Hk Hl]. unfold wsAccept, accept_key.
  apply (f_equal (base64Encode false true)). transitivity (Fips.sha1 (new_key randStr ++ GUID)).
  - apply sha1_fips; assumption.
  - symmetry. apply sha1_fips; assumption.
Qed.


