(* ===== verification/MediaTypes.v ===== *)
(** * Media types and file types

    The tables and conversions of src/src/drogon/lib/src/HttpUtils.cc: content
    types and their MIME names, file extensions, and the names an application
    registers itself.  The hash maps of the source are functions or lists here;
    the lemmas on their entries show that the order of iteration is immaterial. *)

From stdpp Require Import base list numbers option strings gmap.
From Stdlib Require Import ZArith Lia.
From S2P Require Import Prelude StaticFiles MsgBuffer HttpRequest.

Inductive ContentType :=
| CT_NONE | CT_APPLICATION_JSON | CT_TEXT_PLAIN | CT_TEXT_HTML | CT_APPLICATION_X_FORM
| CT_APPLICATION_X_JAVASCRIPT | CT_TEXT_JAVASCRIPT | CT_TEXT_CSS | CT_TEXT_CSV | CT_TEXT_XML
| CT_APPLICATION_XML | CT_TEXT_XSL | CT_APPLICATION_WASM | CT_APPLICATION_OCTET_STREAM
| CT_APPLICATION_FONT_WOFF | CT_APPLICATION_FONT_WOFF2 | CT_APPLICATION_GZIP | CT_APPLICATION_JAVA_ARCHIVE
| CT_APPLICATION_PDF | CT_APPLICATION_MSWORD | CT_APPLICATION_MSWORDX | CT_APPLICATION_VND_MS_FONTOBJ
| CT_APPLICATION_VND_RAR | CT_APPLICATION_XHTML | CT_APPLICATION_X_7Z | CT_APPLICATION_X_BZIP
| CT_APPLICATION_X_BZIP2 | CT_APPLICATION_X_HTTPD_PHP | CT_APPLICATION_X_FONT_TRUETYPE
| CT_APPLICATION_X_FONT_OPENTYPE | CT_APPLICATION_X_TAR | CT_APPLICATION_X_TGZ | CT_APPLICATION_X_XZ
| CT_APPLICATION_ZIP | CT_AUDIO_AAC | CT_AUDIO_AC3 | CT_AUDIO_AIFF | CT_AUDIO_FLAC | CT_AUDIO_MATROSKA
| CT_AUDIO_MPEG | CT_AUDIO_MPEG4 | CT_AUDIO_OGG | CT_AUDIO_WAVE | CT_AUDIO_WEBM | CT_AUDIO_X_APE
| CT_AUDIO_X_MS_WMA | CT_AUDIO_X_TTA | CT_AUDIO_X_WAVPACK | CT_IMAGE_APNG | CT_IMAGE_AVIF | CT_IMAGE_BMP
| CT_IMAGE_GIF | CT_IMAGE_ICNS | CT_IMAGE_JPG | CT_IMAGE_JP2 | CT_IMAGE_PNG | CT_IMAGE_SVG_XML | CT_IMAGE_TIFF
| CT_IMAGE_WEBP | CT_IMAGE_X_MNG | CT_IMAGE_X_TGA | CT_IMAGE_XICON | CT_VIDEO_APG | CT_VIDEO_AV1
| CT_VIDEO_QUICKTIME | CT_VIDEO_MATROSKA | CT_VIDEO_MP4 | CT_VIDEO_MPEG | CT_VIDEO_MPEG2TS | CT_VIDEO_OGG
| CT_VIDEO_WEBM | CT_VIDEO_X_M4V | CT_VIDEO_X_MSVIDEO | CT_MULTIPART_FORM_DATA | CT_CUSTOM.

Definition all_types : list ContentType :=
  [CT_NONE; CT_APPLICATION_JSON; CT_TEXT_PLAIN; CT_TEXT_HTML; CT_APPLICATION_X_FORM;
   CT_APPLICATION_X_JAVASCRIPT; CT_TEXT_JAVASCRIPT; CT_TEXT_CSS; CT_TEXT_CSV; CT_TEXT_XML;
   CT_APPLICATION_XML; CT_TEXT_XSL; CT_APPLICATION_WASM; CT_APPLICATION_OCTET_STREAM;
   CT_APPLICATION_FONT_WOFF; CT_APPLICATION_FONT_WOFF2; CT_APPLICATION_GZIP; CT_APPLICATION_JAVA_ARCHIVE;
   CT_APPLICATION_PDF; CT_APPLICATION_MSWORD; CT_APPLICATION_MSWORDX; CT_APPLICATION_VND_MS_FONTOBJ;
   CT_APPLICATION_VND_RAR; CT_APPLICATION_XHTML; CT_APPLICATION_X_7Z; CT_APPLICATION_X_BZIP;
   CT_APPLICATION_X_BZIP2; CT_APPLICATION_X_HTTPD_PHP; CT_APPLICATION_X_FONT_TRUETYPE;
   CT_APPLICATION_X_FONT_OPENTYPE; CT_APPLICATION_X_TAR; CT_APPLICATION_X_TGZ; CT_APPLICATION_X_XZ;
   CT_APPLICATION_ZIP; CT_AUDIO_AAC; CT_AUDIO_AC3; CT_AUDIO_AIFF; CT_AUDIO_FLAC; CT_AUDIO_MATROSKA;
   CT_AUDIO_MPEG; CT_AUDIO_MPEG4; CT_AUDIO_OGG; CT_AUDIO_WAVE; CT_AUDIO_WEBM; CT_AUDIO_X_APE;
   CT_AUDIO_X_MS_WMA; CT_AUDIO_X_TTA; CT_AUDIO_X_WAVPACK; CT_IMAGE_APNG; CT_IMAGE_AVIF; CT_IMAGE_BMP;
   CT_IMAGE_GIF; CT_IMAGE_ICNS; CT_IMAGE_JPG; CT_IMAGE_JP2; CT_IMAGE_PNG; CT_IMAGE_SVG_XML; CT_IMAGE_TIFF;
   CT_IMAGE_WEBP; CT_IMAGE_X_MNG; CT_IMAGE_X_TGA; CT_IMAGE_XICON; CT_VIDEO_APG; CT_VIDEO_AV1;
   CT_VIDEO_QUICKTIME; CT_VIDEO_MATROSKA; CT_VIDEO_MP4; CT_VIDEO_MPEG; CT_VIDEO_MPEG2TS; CT_VIDEO_OGG;
   CT_VIDEO_WEBM; CT_VIDEO_X_M4V; CT_VIDEO_X_MSVIDEO; CT_MULTIPART_FORM_DATA; CT_CUSTOM].

(** The value of the enumerator. *)
Fixpoint position {A} (eqb : A → bool) (l : list A) : nat :=
  match l with [] => 0 | x :: l => if eqb x then 0 else S (position eqb l) end.

Definition enum_value (type : ContentType) : Z :=
  match type with
  | CT_NONE => 0 | CT_APPLICATION_JSON => 1 | CT_TEXT_PLAIN => 2 | CT_TEXT_HTML => 3 | CT_APPLICATION_X_FORM => 4
  | CT_APPLICATION_X_JAVASCRIPT => 5 | CT_TEXT_JAVASCRIPT => 6 | CT_TEXT_CSS => 7 | CT_TEXT_CSV => 8
  | CT_TEXT_XML => 9 | CT_APPLICATION_XML => 10 | CT_TEXT_XSL => 11 | CT_APPLICATION_WASM => 12
  | CT_APPLICATION_OCTET_STREAM => 13 | CT_APPLICATION_FONT_WOFF => 14 | CT_APPLICATION_FONT_WOFF2 => 15
  | CT_APPLICATION_GZIP => 16 | CT_APPLICATION_JAVA_ARCHIVE => 17 | CT_APPLICATION_PDF => 18
  | CT_APPLICATION_MSWORD => 19 | CT_APPLICATION_MSWORDX => 20 | CT_APPLICATION_VND_MS_FONTOBJ => 21
  | CT_APPLICATION_VND_RAR => 22 | CT_APPLICATION_XHTML => 23 | CT_APPLICATION_X_7Z => 24
  | CT_APPLICATION_X_BZIP => 25 | CT_APPLICATION_X_BZIP2 => 26 | CT_APPLICATION_X_HTTPD_PHP => 27
  | CT_APPLICATION_X_FONT_TRUETYPE => 28 | CT_APPLICATION_X_FONT_OPENTYPE => 29 | CT_APPLICATION_X_TAR => 30
  | CT_APPLICATION_X_TGZ => 31 | CT_APPLICATION_X_XZ => 32 | CT_APPLICATION_ZIP => 33 | CT_AUDIO_AAC => 34
  | CT_AUDIO_AC3 => 35 | CT_AUDIO_AIFF => 36 | CT_AUDIO_FLAC => 37 | CT_AUDIO_MATROSKA => 38 | CT_AUDIO_MPEG => 39
  | CT_AUDIO_MPEG4 => 40 | CT_AUDIO_OGG => 41 | CT_AUDIO_WAVE => 42 | CT_AUDIO_WEBM => 43 | CT_AUDIO_X_APE => 44
  | CT_AUDIO_X_MS_WMA => 45 | CT_AUDIO_X_TTA => 46 | CT_AUDIO_X_WAVPACK => 47 | CT_IMAGE_APNG => 48
  | CT_IMAGE_AVIF => 49 | CT_IMAGE_BMP => 50 | CT_IMAGE_GIF => 51 | CT_IMAGE_ICNS => 52 | CT_IMAGE_JPG => 53
  | CT_IMAGE_JP2 => 54 | CT_IMAGE_PNG => 55 | CT_IMAGE_SVG_XML => 56 | CT_IMAGE_TIFF => 57 | CT_IMAGE_WEBP => 58
  | CT_IMAGE_X_MNG => 59 | CT_IMAGE_X_TGA => 60 | CT_IMAGE_XICON => 61 | CT_VIDEO_APG => 62 | CT_VIDEO_AV1 => 63
  | CT_VIDEO_QUICKTIME => 64 | CT_VIDEO_MATROSKA => 65 | CT_VIDEO_MP4 => 66 | CT_VIDEO_MPEG => 67
  | CT_VIDEO_MPEG2TS => 68 | CT_VIDEO_OGG => 69 | CT_VIDEO_WEBM => 70 | CT_VIDEO_X_M4V => 71
  | CT_VIDEO_X_MSVIDEO => 72 | CT_MULTIPART_FORM_DATA => 73 | CT_CUSTOM => 74
  end.

Lemma enum_value_lookup type : all_types !! Z.to_nat (enum_value type) = Some type.
Proof. by destruct type. Qed.

#[export] Instance ContentType_eq_dec : EqDecision ContentType.
Proof.
  refine (λ a b, cast_if (decide (enum_value a = enum_value b))); [|congruence].
  apply (inj Some). by rewrite <- !enum_value_lookup, e.
Defined.

Inductive FileType := FT_UNKNOWN | FT_CUSTOM | FT_DOCUMENT | FT_ARCHIVE | FT_AUDIO | FT_MEDIA | FT_IMAGE.

#[export] Instance FileType_eq_dec : EqDecision FileType.
Proof. solve_decision. Defined.

(** ** The databases *)

(** The MIME names of a type, the default first, and the one to send when it is not empty. *)
Definition mimeTypeDatabase_ (type : ContentType) : option (list string * string) :=
  match type with
  | CT_NONE => Some ([""], "")
  | CT_APPLICATION_OCTET_STREAM => Some (["application/octet-stream"], "")
  | CT_APPLICATION_X_FORM => Some (["application/x-www-form-urlencoded"], "")
  | CT_MULTIPART_FORM_DATA => Some (["multipart/form-data"], "")
  | CT_APPLICATION_GZIP => Some (["application/gzip"], "")
  | CT_APPLICATION_JSON => Some (["application/json"], "application/json; charset=utf-8")
  | CT_APPLICATION_FONT_WOFF => Some (["application/font-woff"], "")
  | CT_APPLICATION_FONT_WOFF2 => Some (["application/font-woff2"], "")
  | CT_APPLICATION_JAVA_ARCHIVE => Some (["application/java-archive"; "application/x-java-archive"], "")
  | CT_APPLICATION_MSWORD => Some (["application/msword"], "")
  | CT_APPLICATION_MSWORDX => Some (["application/vnd.openxmlformats-officedocument.wordprocessingml.document"], "")
  | CT_APPLICATION_PDF => Some (["application/pdf"], "")
  | CT_APPLICATION_VND_MS_FONTOBJ => Some (["application/vnd.ms-fontobject"], "")
  | CT_APPLICATION_VND_RAR => Some (["application/vnd.rar"], "")
  | CT_APPLICATION_WASM => Some (["application/wasm"], "")
  | CT_APPLICATION_X_BZIP => Some (["application/x-bzip"], "")
  | CT_APPLICATION_X_BZIP2 => Some (["application/x-bzip2"], "")
  | CT_APPLICATION_X_7Z => Some (["application/x-7z-compressed"], "")
  | CT_APPLICATION_X_HTTPD_PHP => Some (["application/x-httpd-php"], "")
  | CT_APPLICATION_X_FONT_OPENTYPE => Some (["application/x-font-opentype"; "font/otf"], "")
  | CT_APPLICATION_X_FONT_TRUETYPE => Some (["application/x-font-truetype"; "font/ttf"], "")
  | CT_APPLICATION_X_TAR => Some (["application/x-tar"], "")
  | CT_APPLICATION_X_TGZ => Some (["application/x-tgz"], "")
  | CT_APPLICATION_X_XZ => Some (["application/x-xz"; "application/x-lzma"], "")
  | CT_APPLICATION_XHTML => Some (["application/xhtml+xml"; "application/xhtml"], "application/xhtml+xml; charset=utf-8")
  | CT_APPLICATION_XML => Some (["application/xml"], "application/xml; charset=utf-8")
  | CT_APPLICATION_ZIP => Some (["application/zip"], "")
  | CT_AUDIO_AAC => Some (["audio/aac"; "audio/aacp"], "")
  | CT_AUDIO_AC3 => Some (["audio/ac3"], "")
  | CT_AUDIO_AIFF => Some (["audio/aiff"; "audio/x-aiff"], "")
  | CT_AUDIO_FLAC => Some (["audio/flac"], "")
  | CT_AUDIO_MATROSKA => Some (["audio/matroska"; "audio/x-matroska"], "")
  | CT_AUDIO_MPEG => Some (["audio/mpeg"], "")
  | CT_AUDIO_MPEG4 => Some (["audio/mp4"; "audio/x-m4a"], "")
  | CT_AUDIO_OGG => Some (["audio/ogg"], "")
  | CT_AUDIO_WAVE => Some (["audio/wav"; "audio/x-wav"], "")
  | CT_AUDIO_X_APE => Some (["audio/x-ape"], "")
  | CT_AUDIO_X_MS_WMA => Some (["audio/x-ms-wma"], "")
  | CT_AUDIO_X_TTA => Some (["audio/x-tta"], "")
  | CT_AUDIO_X_WAVPACK => Some (["audio/x-wavpack"], "")
  | CT_AUDIO_WEBM => Some (["audio/webm"], "")
  | CT_IMAGE_APNG => Some (["image/apng"], "")
  | CT_IMAGE_AVIF => Some (["image/avif"], "")
  | CT_IMAGE_BMP => Some (["image/bmp"], "")
  | CT_IMAGE_GIF => Some (["image/gif"], "")
  | CT_IMAGE_ICNS => Some (["image/icns"], "")
  | CT_IMAGE_JP2 => Some (["image/jp2"; "image/jpx"; "image/jpm"], "")
  | CT_IMAGE_JPG => Some (["image/jpeg"], "")
  | CT_IMAGE_PNG => Some (["image/png"], "")
  | CT_IMAGE_SVG_XML => Some (["image/svg+xml"], "")
  | CT_IMAGE_TIFF => Some (["image/tiff"], "")
  | CT_IMAGE_WEBP => Some (["image/webp"], "")
  | CT_IMAGE_X_MNG => Some (["image/x-mng"], "")
  | CT_IMAGE_X_TGA => Some (["image/x-tga"; "image/x-targa"], "")
  | CT_IMAGE_XICON => Some (["image/vnd.microsoft.icon"; "image/x-icon"], "")
  | CT_TEXT_CSS => Some (["text/css"], "text/css; charset=utf-8")
  | CT_TEXT_CSV => Some (["text/csv"], "text/csv; charset=utf-8")
  | CT_TEXT_HTML => Some (["text/html"], "text/html; charset=utf-8")
  | CT_TEXT_JAVASCRIPT => Some (["text/javascript"], "text/javascript; charset=utf-8")
  | CT_TEXT_PLAIN => Some (["text/plain"], "text/plain; charset=utf-8")
  | CT_TEXT_XML => Some (["text/xml"], "text/xml; charset=utf-8")
  | CT_TEXT_XSL => Some (["text/xsl"], "text/xsl; charset=utf-8")
  | CT_VIDEO_APG => Some (["video/apg"], "")
  | CT_VIDEO_AV1 => Some (["video/av01"; "video/av1"], "")
  | CT_VIDEO_QUICKTIME => Some (["video/quicktime"], "")
  | CT_VIDEO_MPEG => Some (["video/mpeg"], "")
  | CT_VIDEO_MPEG2TS => Some (["video/mp2t"], "")
  | CT_VIDEO_MP4 => Some (["video/mp4"], "")
  | CT_VIDEO_OGG => Some (["video/ogg"], "")
  | CT_VIDEO_WEBM => Some (["video/webm"], "")
  | CT_VIDEO_X_M4V => Some (["video/x-m4v"], "")
  | CT_VIDEO_MATROSKA => Some (["video/matroska"; "video/x-matroska"], "")
  | CT_VIDEO_X_MSVIDEO => Some (["video/x-msvideo"], "")
  | _ => None
  end%string.

Definition fileTypeDatabase_ : list (string * (FileType * ContentType)) :=
  [("", (FT_UNKNOWN, CT_CUSTOM)); ("aac", (FT_AUDIO, CT_AUDIO_AAC)); ("ac3", (FT_AUDIO, CT_AUDIO_AC3));
   ("aif", (FT_AUDIO, CT_AUDIO_AIFF)); ("aifc", (FT_AUDIO, CT_AUDIO_AIFF)); ("aiff", (FT_AUDIO, CT_AUDIO_AIFF));
   ("apg", (FT_AUDIO, CT_VIDEO_APG)); ("ape", (FT_AUDIO, CT_AUDIO_X_APE)); ("apng", (FT_IMAGE, CT_IMAGE_APNG));
   ("av1", (FT_MEDIA, CT_VIDEO_AV1)); ("avi", (FT_MEDIA, CT_VIDEO_X_MSVIDEO));
   ("avif", (FT_IMAGE, CT_IMAGE_AVIF)); ("bmp", (FT_IMAGE, CT_IMAGE_BMP));
   ("bz", (FT_ARCHIVE, CT_APPLICATION_X_BZIP)); ("bz2", (FT_ARCHIVE, CT_APPLICATION_X_BZIP2));
   ("css", (FT_DOCUMENT, CT_TEXT_CSS)); ("csv", (FT_DOCUMENT, CT_TEXT_CSV));
   ("doc", (FT_DOCUMENT, CT_APPLICATION_MSWORD)); ("docx", (FT_DOCUMENT, CT_APPLICATION_MSWORDX));
   ("eot", (FT_DOCUMENT, CT_APPLICATION_VND_MS_FONTOBJ)); ("flac", (FT_AUDIO, CT_AUDIO_FLAC));
   ("gif", (FT_MEDIA, CT_IMAGE_GIF)); ("gz", (FT_ARCHIVE, CT_APPLICATION_GZIP));
   ("htm", (FT_DOCUMENT, CT_TEXT_HTML)); ("html", (FT_DOCUMENT, CT_TEXT_HTML));
   ("icns", (FT_IMAGE, CT_IMAGE_ICNS)); ("ico", (FT_IMAGE, CT_IMAGE_XICON)); ("j2k", (FT_IMAGE, CT_IMAGE_JP2));
   ("jar", (FT_DOCUMENT, CT_APPLICATION_JAVA_ARCHIVE)); ("j2c", (FT_IMAGE, CT_IMAGE_JP2));
   ("jp2", (FT_IMAGE, CT_IMAGE_JP2)); ("jpeg", (FT_IMAGE, CT_IMAGE_JPG)); ("jpc", (FT_IMAGE, CT_IMAGE_JP2));
   ("jpf", (FT_IMAGE, CT_IMAGE_JP2)); ("jpg", (FT_IMAGE, CT_IMAGE_JPG)); ("jpg2", (FT_IMAGE, CT_IMAGE_JP2));
   ("jpm", (FT_IMAGE, CT_IMAGE_JP2)); ("jpx", (FT_IMAGE, CT_IMAGE_JP2));
   ("js", (FT_DOCUMENT, CT_TEXT_JAVASCRIPT)); ("json", (FT_DOCUMENT, CT_APPLICATION_JSON));
   ("lzma", (FT_ARCHIVE, CT_APPLICATION_X_XZ)); ("m1a", (FT_AUDIO, CT_AUDIO_MPEG));
   ("m1v", (FT_MEDIA, CT_VIDEO_MPEG)); ("m2a", (FT_AUDIO, CT_AUDIO_MPEG)); ("m2ts", (FT_MEDIA, CT_VIDEO_MPEG2TS));
   ("m2v", (FT_MEDIA, CT_VIDEO_MPEG)); ("m4a", (FT_AUDIO, CT_AUDIO_MPEG4)); ("m4v", (FT_MEDIA, CT_VIDEO_X_M4V));
   ("mjs", (FT_DOCUMENT, CT_TEXT_JAVASCRIPT)); ("mka", (FT_AUDIO, CT_AUDIO_MATROSKA));
   ("mkv", (FT_MEDIA, CT_VIDEO_MATROSKA)); ("mng", (FT_MEDIA, CT_IMAGE_X_MNG));
   ("mov", (FT_MEDIA, CT_VIDEO_QUICKTIME)); ("mp1", (FT_AUDIO, CT_AUDIO_MPEG));
   ("mp2", (FT_AUDIO, CT_AUDIO_MPEG)); ("mp3", (FT_AUDIO, CT_AUDIO_MPEG)); ("mp4", (FT_MEDIA, CT_VIDEO_MP4));
   ("mpa", (FT_AUDIO, CT_AUDIO_MPEG)); ("mpe", (FT_MEDIA, CT_VIDEO_MPEG)); ("mpeg", (FT_MEDIA, CT_VIDEO_MPEG));
   ("mpg", (FT_MEDIA, CT_VIDEO_MPEG)); ("mpv", (FT_MEDIA, CT_VIDEO_MPEG)); ("oga", (FT_AUDIO, CT_AUDIO_OGG));
   ("ogg", (FT_AUDIO, CT_AUDIO_OGG)); ("ogv", (FT_MEDIA, CT_VIDEO_OGG));
   ("otf", (FT_DOCUMENT, CT_APPLICATION_X_FONT_OPENTYPE)); ("pdf", (FT_DOCUMENT, CT_APPLICATION_PDF));
   ("php", (FT_DOCUMENT, CT_APPLICATION_X_HTTPD_PHP)); ("png", (FT_IMAGE, CT_IMAGE_PNG));
   ("rar", (FT_ARCHIVE, CT_APPLICATION_VND_RAR)); ("svg", (FT_IMAGE, CT_IMAGE_SVG_XML));
   ("tar", (FT_ARCHIVE, CT_APPLICATION_X_TAR)); ("targa", (FT_IMAGE, CT_IMAGE_X_TGA));
   ("tif", (FT_IMAGE, CT_IMAGE_TIFF)); ("tiff", (FT_IMAGE, CT_IMAGE_TIFF)); ("tga", (FT_IMAGE, CT_IMAGE_X_TGA));
   ("tgz", (FT_ARCHIVE, CT_APPLICATION_X_TGZ)); ("ts", (FT_MEDIA, CT_VIDEO_MPEG2TS));
   ("tta", (FT_AUDIO, CT_AUDIO_X_TTA)); ("ttf", (FT_DOCUMENT, CT_APPLICATION_X_FONT_TRUETYPE));
   ("txt", (FT_DOCUMENT, CT_TEXT_PLAIN)); ("w64", (FT_AUDIO, CT_AUDIO_WAVE)); ("wav", (FT_AUDIO, CT_AUDIO_WAVE));
   ("wave", (FT_AUDIO, CT_AUDIO_WAVE)); ("wasm", (FT_DOCUMENT, CT_APPLICATION_WASM));
   ("weba", (FT_AUDIO, CT_AUDIO_WEBM)); ("webm", (FT_MEDIA, CT_VIDEO_WEBM)); ("webp", (FT_IMAGE, CT_IMAGE_WEBP));
   ("wma", (FT_AUDIO, CT_AUDIO_X_MS_WMA)); ("woff", (FT_DOCUMENT, CT_APPLICATION_FONT_WOFF));
   ("woff2", (FT_DOCUMENT, CT_APPLICATION_FONT_WOFF2)); ("wv", (FT_AUDIO, CT_AUDIO_X_WAVPACK));
   ("xht", (FT_DOCUMENT, CT_APPLICATION_XHTML)); ("xhtml", (FT_DOCUMENT, CT_APPLICATION_XHTML));
   ("xml", (FT_DOCUMENT, CT_APPLICATION_XML)); ("xsl", (FT_DOCUMENT, CT_TEXT_XSL));
   ("xz", (FT_ARCHIVE, CT_APPLICATION_X_XZ)); ("zip", (FT_ARCHIVE, CT_APPLICATION_ZIP));
   ("7z", (FT_ARCHIVE, CT_APPLICATION_X_7Z))]%string.

(** ** Conversions *)

Definition contentTypeToMime (type : ContentType) : list Z :=
  match mimeTypeDatabase_ type with
  | None => str "application/octet-stream"
  | Some (mimes, full) =>
      match full with
      | EmptyString => match mimes with m :: _ => str m | [] => [] end
      | _ => str full
      end
  end.

(** The types a MIME name is listed for. *)
Definition types_of (mime : list Z) : list ContentType :=
  filter (λ t, mime ∈ match mimeTypeDatabase_ t with Some (mimes, _) => str <$> mimes | None => [] end) all_types.

Definition parseContentType (contentType : list Z) : ContentType :=
  let mime := take (find 59 contentType) contentType in
  if decide (mime = str "application/x-www-form-urlencoded") then CT_APPLICATION_X_FORM
  else if decide (mime = str "multipart/form-data") then CT_MULTIPART_FORM_DATA
  else default CT_CUSTOM (head (types_of mime)).

(** What follows the last dot, in lower case; empty without a dot. *)
Definition extension (fileName : list Z) : list Z :=
  let r := reverse fileName in
  let pos := find 46 r in
  if (pos <? length r)%nat then tolower <$> reverse (take pos r) else [].

Definition file_type_entry (ext : list Z) : option (FileType * ContentType) :=
  snd <$> head (filter (λ e, str e.1 = ext) fileTypeDatabase_).

Definition getContentType (fileName : list Z) : ContentType :=
  match file_type_entry (extension fileName) with Some (_, t) => t | None => CT_APPLICATION_OCTET_STREAM end.

Definition parseFileType (fileExtension : list Z) : FileType :=
  match file_type_entry (tolower <$> fileExtension) with Some (f, _) => f | None => FT_CUSTOM end.

Definition getFileType (type : ContentType) : FileType :=
  match type with
  | CT_NONE => FT_UNKNOWN
  | CT_CUSTOM => FT_CUSTOM
  | _ => match filter (λ e, e.2.2 = type) fileTypeDatabase_ with e :: _ => e.2.1 | [] => FT_UNKNOWN end
  end.

(** [customMime]: what an application registers. *)
Definition registerCustomExtensionMime (ext mime : list Z) (customMime : gmap (list Z) (list Z)) : gmap (list Z) (list Z) :=
  match ext with [] => customMime | _ => <[ext := mime]> customMime end.

Definition fileNameToMime (customMime : gmap (list Z) (list Z)) (fileName : list Z) : list Z :=
  match getContentType fileName with
  | CT_APPLICATION_OCTET_STREAM => default [] (customMime !! extension fileName)
  | t => contentTypeToMime t
  end.

Definition fileNameToContentTypeAndMime (customMime : gmap (list Z) (list Z)) (fileName : list Z) : ContentType * list Z :=
  match getContentType fileName with
  | CT_APPLICATION_OCTET_STREAM =>
      match customMime !! extension fileName with Some m => (CT_CUSTOM, m) | None => (CT_NONE, []) end
  | t => (t, contentTypeToMime t)
  end.

(** ** The tables are consistent *)

Lemma all_types_complete type : type ∈ all_types.
Proof. eapply list_elem_of_lookup_2, enum_value_lookup. Qed.

(** A MIME name belongs to one type. *)
Lemma mime_of_one_type type mimes full mime :
  mimeTypeDatabase_ type = Some (mimes, full) → mime ∈ mimes → types_of (str mime) = [type].
Proof.
  assert (Hall : Forall (λ t, Forall (λ m, types_of (str m) = [t])
    (match mimeTypeDatabase_ t with Some (mimes, _) => mimes | None => [] end)) all_types)
    by (apply (bool_decide_unpack _); vm_compute; exact I).
  intros E Hm. pose proof (proj1 (Forall_forall _ _) Hall type (all_types_complete type)) as Ht.
  cbn beta in Ht. rewrite E in Ht. exact (proj1 (Forall_forall _ _) Ht mime Hm).
Qed.

(** Extensions are listed once, in lower case, and a type's extensions agree on the kind of file. *)
Lemma extensions_consistent :
  base.NoDup (fileTypeDatabase_.*1) ∧
  Forall (λ e, tolower <$> str e.1 = str e.1 ∧ 46 ∉ str e.1 ∧
    (getFileType e.2.2 = e.2.1 ∨ e.2.2 = CT_CUSTOM)) fileTypeDatabase_.
Proof. split; apply (bool_decide_unpack _); vm_compute; exact I. Qed.

(** What is announced for a type is understood as that type. *)
Lemma parse_mime type : is_Some (mimeTypeDatabase_ type) → parseContentType (contentTypeToMime type) = type.
Proof.
  intros [x Hx]. assert (Hall : Forall (λ t, mimeTypeDatabase_ t = None ∨ parseContentType (contentTypeToMime t) = t) all_types)
    by (apply (bool_decide_unpack _); vm_compute; exact I).
  destruct (proj1 (Forall_forall _ _) Hall type (all_types_complete type)); congruence.
Qed.

Lemma mime_plain type : Forall (λ c, byte c ∧ c ≠ 10 ∧ c ≠ 13) (contentTypeToMime type).
Proof.
  assert (Hall : Forall (λ t, Forall (λ c, (0 ≤ c ∧ c < 256) ∧ c ≠ 10 ∧ c ≠ 13) (contentTypeToMime t)) all_types)
    by (apply (bool_decide_unpack _); vm_compute; exact I).
  exact (proj1 (Forall_forall _ _) Hall type (all_types_complete type)).
Qed.

Lemma mime_trimmed type : trimmed (contentTypeToMime type).
Proof. by destruct type. Qed.

Lemma extension_dot base e : 46 ∉ e → extension (base ++ 46 :: e) = tolower <$> e.
Proof.
  intros He. unfold extension. rewrite reverse_app, reverse_cons, <- app_assoc. cbn [app].
  rewrite find_app by by rewrite elem_of_reverse.
  rewrite (proj2 (Nat.ltb_lt _ _)) by (rewrite length_app; cbn; lia).
  by rewrite take_app_length, reverse_involutive.
Qed.

Lemma file_type_entry_listed ext ft type :
  (ext, (ft, type)) ∈ fileTypeDatabase_ → file_type_entry (str ext) = Some (ft, type).
Proof.
  assert (Hall : Forall (λ e, file_type_entry (str e.1) = Some e.2) fileTypeDatabase_)
    by (apply (bool_decide_unpack _); vm_compute; exact I).
  intros He. exact (proj1 (Forall_forall _ _) Hall _ He).
Qed.

(** A listed type other than the default has a MIME name. *)
Lemma listed_type ext ft type :
  (ext, (ft, type)) ∈ fileTypeDatabase_ → ext ≠ EmptyString →
  is_Some (mimeTypeDatabase_ type) ∧ type ≠ CT_APPLICATION_OCTET_STREAM.
Proof.
  assert (Hall : Forall (λ e, e.1 = EmptyString ∨ (is_Some (mimeTypeDatabase_ e.2.2) ∧ e.2.2 ≠ CT_APPLICATION_OCTET_STREAM)) fileTypeDatabase_)
    by (apply (bool_decide_unpack _); vm_compute; exact I).
  intros He Hne. destruct (proj1 (Forall_forall _ _) Hall _ He) as [?|?]; done.
Qed.

(** ** Properties *)

(** File names are typed by what follows the last dot, in any case of its
    letters: for each listed extension the type is the listed one, its MIME name
    is understood as that type again, and it depends neither on what an
    application registered nor on the rest of the name. *)
Theorem listed_extensions_typed base ext ft type customMime :
  (ext, (ft, type)) ∈ fileTypeDatabase_ → ext ≠ EmptyString →
  ∀ e, tolower <$> e = str ext → 46 ∉ e →
  getContentType (base ++ 46 :: e) = type ∧ parseFileType e = ft ∧
  fileNameToContentTypeAndMime customMime (base ++ 46 :: e) = (type, contentTypeToMime type) ∧
  parseContentType (contentTypeToMime type) = type.
Proof.
  intros Hin Hne e He Hdot. destruct (listed_type _ _ _ Hin Hne) as [Hm Ho].
  pose proof (file_type_entry_listed _ _ _ Hin) as Hentry.
  assert (Hg : getContentType (base ++ 46 :: e) = type) by (unfold getContentType; by rewrite extension_dot, He, Hentry).
  split_and!; [done | unfold parseFileType; by rewrite He, Hentry | | by apply parse_mime].
  unfold fileNameToContentTypeAndMime. rewrite Hg. by destruct type.
Qed.

Lemma listed_extensions_typed_witness :
  fileNameToContentTypeAndMime ∅ (str "a.b/Photo.JpG") = (CT_IMAGE_JPG, contentTypeToMime CT_IMAGE_JPG).
Proof.
  refine (proj1 (proj2 (proj2 (listed_extensions_typed (str "a.b/Photo") "jpg" FT_IMAGE CT_IMAGE_JPG ∅ _ _ (str "JpG") _ _))));
    [apply (bool_decide_unpack _); vm_compute; exact I | done | reflexivity | apply (bool_decide_unpack _); vm_compute; exact I].
Defined.

(** ** An observation *)

(** The deprecated type for scripts is in no table: it is announced as a stream of octets. *)
Example deprecated_type_unlisted :
  contentTypeToMime CT_APPLICATION_X_JAVASCRIPT = contentTypeToMime CT_APPLICATION_OCTET_STREAM.
Proof. done. Qed.
