(* ===== verification/ClientRequest.v ===== *)
(** * What a client sends

    A request as an application builds it and as [HttpRequestImpl::appendToBuffer]
    (src/src/drogon/lib/src/HttpRequestImpl.cc) writes it for the HTTP and
    WebSocket clients: target, parameters in the query or in the body, uploads,
    headers and cookies; and [parseParameters], with which the server reads the
    parameters.  The server's side is that of HttpDelivery.

    The order of the hash maps is a parameter. *)

From stdpp Require Import base gmap list strings numbers.
From Stdlib Require Import ZArith Lia.
From S2P Require Import Prelude StaticFiles MsgBuffer WsFrame CDouble HttpRequest HttpParser HttpDelivery Handshake MediaTypes.

Definition nothing {A} (l : list A) : bool := match l with [] => true | _ => false end.

(** ** Reading the parameters *)

(** The character at the end is the NUL of a string. *)
Fixpoint skip_marks (input : list Z) : list Z :=
  match input with c :: l => if (c =? 63) || isspace c then skip_marks l else input | [] => [] end.

(** [parameters_[k]]: an empty value when there is none. *)
Definition touch (k : list Z) (m : gmap (list Z) (list Z)) : gmap (list Z) (list Z) :=
  match m !! k with Some _ => m | None => <[k := []]> m end.

Definition parse_piece (coo : list Z) (m : gmap (list Z) (list Z)) : gmap (list Z) (list Z) :=
  let epos := find 61 coo in
  if (epos <? length coo)%nat
  then <[urlDecode (drop_space (take epos coo)) := urlDecode (drop (epos + 1) coo)]> m
  else touch (urlDecode coo) m.

(** The loop over [&]; each round shortens [value]. *)
Fixpoint parse_pieces (fuel : nat) (value : list Z) (m : gmap (list Z) (list Z)) : gmap (list Z) (list Z) :=
  match fuel with
  | O => m
  | S f =>
      let pos := find 38 value in
      if (pos <? length value)%nat then parse_pieces f (drop (pos + 1) value) (parse_piece (take pos value) m)
      else if nothing value then m else parse_piece value m
  end.

Definition parse_form (input : list Z) (m : gmap (list Z) (list Z)) : gmap (list Z) (list Z) :=
  let value := skip_marks input in parse_pieces (S (length value)) value m.

Definition is_form (type : list Z) : bool :=
  nothing type || contains (str "application/x-www-form-urlencoded") (tolower <$> type).

(** Added to the parameters there are; a request that arrives has none yet. *)
Definition parse_into (r : HttpRequestImpl) (m : gmap (list Z) (list Z)) : gmap (list Z) (list Z) :=
  let m := if nothing (query_ r) then m else parse_form (query_ r) m in
  if nothing (bodyView r) then m
  else if is_form (getHeaderBy (str "content-type") r) then parse_form (bodyView r) m else m.

Definition parseParameters (r : HttpRequestImpl) : gmap (list Z) (list Z) := parse_into r ∅.

(** ** Building a request *)

(** [data()] of a file in memory, and what the file at [path()] holds. *)
Record UploadFile := {
  uf_data : option (list Z);
  uf_disk : option (list Z);
  uf_fileName : list Z;
  uf_itemName : list Z;
  uf_contentType : ContentType
}.

(** The members of [HttpRequestImpl] that only matter to a sender, and the
    boundary and files of an [HttpFileUploadRequest]. *)
Record OutRequest := {
  or_req : HttpRequestImpl;
  or_pathEncode : bool;
  or_parameters : gmap (list Z) (list Z);
  or_parsed : bool;                       (* [flagForParsingParameters_] *)
  or_contentType : ContentType;
  or_contentTypeString : list Z;
  or_passThrough : bool;
  or_upload : option (list Z * list UploadFile)
}.

Definition out_request (m : HttpMethod) (type : ContentType) (typeString : list Z) (upload : option (list Z * list UploadFile))
    : OutRequest :=
  {| or_req := HttpRequest.set_version kHttp11 true (set_method m new_request); or_pathEncode := true;
     or_parameters := ∅; or_parsed := false; or_contentType := type; or_contentTypeString := typeString; or_passThrough := false;
     or_upload := upload |}.

Definition newHttpRequest : OutRequest := out_request Get CT_TEXT_PLAIN [] None.
Definition newHttpFormPostRequest : OutRequest := out_request Post CT_APPLICATION_X_FORM [] None.
Definition newFileUploadRequest (boundary : list Z) (files : list UploadFile) : OutRequest :=
  out_request Post CT_MULTIPART_FORM_DATA (str "multipart/form-data; boundary=" ++ boundary) (Some (boundary, files)).

Definition with_req (g : HttpRequestImpl → HttpRequestImpl) (r : OutRequest) : OutRequest :=
  {| or_req := g (or_req r); or_pathEncode := or_pathEncode r; or_parameters := or_parameters r; or_parsed := or_parsed r;
     or_contentType := or_contentType r; or_contentTypeString := or_contentTypeString r;
     or_passThrough := or_passThrough r; or_upload := or_upload r |}.
Definition with_type (type : ContentType) (typeString : list Z) (r : OutRequest) : OutRequest :=
  {| or_req := or_req r; or_pathEncode := or_pathEncode r; or_parameters := or_parameters r; or_parsed := or_parsed r;
     or_contentType := type; or_contentTypeString := typeString;
     or_passThrough := or_passThrough r; or_upload := or_upload r |}.

Definition setParameter (key value : list Z) (r : OutRequest) : OutRequest :=
  {| or_req := or_req r; or_pathEncode := or_pathEncode r; or_parameters := <[key := value]> (or_parameters r); or_parsed := true;
     or_contentType := or_contentType r; or_contentTypeString := or_contentTypeString r;
     or_passThrough := or_passThrough r; or_upload := or_upload r |}.

Definition setQueryParameter (key value : list Z) (r : OutRequest) : OutRequest :=
  with_req (λ q, setQuery ((if nothing (query_ q) then [] else query_ q ++ str "&") ++
    urlEncodeComponent key ++ str "=" ++ urlEncodeComponent value) q) r.

Definition setContentTypeCode (type : ContentType) (r : OutRequest) : OutRequest := with_type type (contentTypeToMime type) r.

Definition setContentTypeString (typeString : list Z) (r : OutRequest) : OutRequest :=
  with_type (match parseContentType typeString with CT_NONE => CT_CUSTOM | t => t end) typeString r.

(** [None] is a string whose end is before its beginning. *)
Definition setCustomContentTypeString (type : list Z) (r : OutRequest) : option OutRequest :=
  let size := length type in
  let haveHeader := is_prefix (str "content-type: ") type in
  let haveCRLF := (size =? 1)%nat || ((2 <=? size)%nat && bool_decide (drop (size - 2) type = CRLF)) in
  let endOffset := ((if haveHeader then 14 else 0) + (if haveCRLF then 2 else 0))%nat in
  let start := (if haveHeader then 14 else 0)%nat in
  if (start + endOffset <=? size)%nat
  then Some (with_type CT_NONE (take (size - endOffset - start) (drop start type)) r)
  else None.

(** ** Writing it *)

Section Append.
Context (order : gmap (list Z) (list Z) → list (list Z * list Z)).

Definition method_word (m : HttpMethod) : option (list Z) :=
  match m with
  | Get => Some (str "GET ") | Post => Some (str "POST ") | Head => Some (str "HEAD ") | Put => Some (str "PUT ")
  | Delete => Some (str "DELETE ") | Options => Some (str "OPTIONS ") | Patch => Some (str "PATCH ")
  | Invalid => None
  end.

(** The parameters as a form; the last ampersand is taken back. *)
Definition form_text (parameters : gmap (list Z) (list Z)) : list Z :=
  let content := order parameters ≫= λ '(k, v), urlEncodeComponent k ++ str "=" ++ urlEncodeComponent v ++ str "&" in
  take (length content - 1) content.

(** What goes into the body of a form; the output with the query completed. *)
Definition put_parameters (r : OutRequest) (output : list Z) : list Z * list Z :=
  if negb (or_passThrough r) && negb (bool_decide (or_parameters r = ∅)) &&
     negb (bool_decide (or_contentType r = CT_MULTIPART_FORM_DATA)) then
    let content := form_text (or_parameters r) in
    if bool_decide (or_contentType r = CT_APPLICATION_X_FORM) then (output, content)
    else
      let ret := find 63 output in
      let output :=
        if (ret =? length output)%nat then output ++ str "?"
        else if (ret =? length output - 1)%nat then output else output ++ str "&" in
      (output ++ content, [])
  else (output, []).

Definition quote : list Z := [34].

Definition parameter_part (boundary : list Z) (p : list Z * list Z) : list Z :=
  str "--" ++ boundary ++ CRLF ++ str "content-disposition: form-data; name=" ++ quote ++ p.1 ++ quote ++ CRLF ++ CRLF ++
  p.2 ++ CRLF.

(** The bytes of a file, from memory or from the disk; a file that is missing is empty. *)
Definition file_bytes (f : UploadFile) : list Z :=
  match uf_data f with
  | Some (c :: l) => c :: l
  | _ => default [] (uf_disk f)
  end.

Definition file_part (boundary : list Z) (f : UploadFile) : list Z :=
  str "--" ++ boundary ++ CRLF ++ str "content-disposition: form-data; name=" ++ quote ++ uf_itemName f ++ quote ++
  str "; filename=" ++ quote ++ uf_fileName f ++ quote ++
  (if bool_decide (uf_contentType f = CT_NONE) then [] else CRLF ++ str "content-type: " ++ contentTypeToMime (uf_contentType f)) ++
  CRLF ++ CRLF ++ file_bytes f ++ CRLF.

(** [getParameters()] parses the request's own query unless a parameter was set. *)
Definition getParameters (r : OutRequest) : gmap (list Z) (list Z) :=
  if or_parsed r then or_parameters r else parse_into (or_req r) (or_parameters r).

Definition upload_text (r : OutRequest) (boundary : list Z) (files : list UploadFile) : list Z :=
  (order (getParameters r) ≫= parameter_part boundary) ++ (files ≫= file_part boundary) ++
  str "--" ++ boundary ++ str "--".

Definition put_upload (r : OutRequest) (content : list Z) : list Z :=
  if negb (or_passThrough r) && bool_decide (or_contentType r = CT_MULTIPART_FORM_DATA) then
    match or_upload r with Some (boundary, files) => content ++ upload_text r boundary files | None => content end
  else content.

Definition expects_body (m : HttpMethod) : bool :=
  match m with Post | Put | Options | Patch => true | _ => false end.

(** The fields that announce the body. *)
Definition announce (r : OutRequest) (content : list Z) : list Z :=
  if or_passThrough r then []
  else
    let content_ := content_ (or_req r) in
    (if negb (nothing content) || negb (nothing content_) then
       str "content-length: " ++ to_string (wrapU64 (Z.of_nat (length content + length content_))) ++ CRLF ++
       (if nothing (or_contentTypeString r)
        then str "content-type: " ++ contentTypeToMime (or_contentType r) ++ CRLF else [])
     else if expects_body (method_ (or_req r)) then str "content-length: 0" ++ CRLF else []) ++
    (if nothing (or_contentTypeString r) then [] else str "content-type: " ++ or_contentTypeString r ++ CRLF).

Definition put_cookies (cookies : gmap (list Z) (list Z)) : list Z :=
  if bool_decide (cookies = ∅) then []
  else
    let output := str "cookie: " ++ (order cookies ≫= λ '(k, v), k ++ str "=" ++ v ++ str ";") in
    take (length output - 1) output ++ CRLF.

(** The output of [appendToBuffer], for an empty buffer. *)
Definition appendToBuffer (r : OutRequest) : list Z :=
  let q := or_req r in
  match method_word (method_ q) with
  | None => []
  | Some word =>
      let output := word ++ (if nothing (path_ q) then str "/" else if or_pathEncode r then urlEncode (path_ q) else path_ q) in
      let output := output ++ (if nothing (query_ q) then [] else str "?" ++ query_ q) in
      let '(output, content) := put_parameters r output in
      let output := output ++ str " " in
      match version_ q with
      | kUnknown => output
      | v =>
          let output := output ++ version_text v ++ CRLF in
          let content := put_upload r content in
          output ++ announce r content ++
          (order (headers_ q) ≫= λ '(k, v), k ++ str ": " ++ v ++ CRLF) ++
          put_cookies (cookies_ q) ++ CRLF ++ content ++ content_ q
      end
  end.
End Append.

(** ** Examples *)

Definition sorted (m : gmap (list Z) (list Z)) : list (list Z * list Z) := map_to_list m.

Example send_get :
  appendToBuffer sorted (setParameter (str "k") (str "a b") (with_req (λ r, setPath_string (str "/x y") r) newHttpRequest)) =
  str "GET /x+y?k=a+b HTTP/1.1" ++ CRLF ++ CRLF.
Proof. by vm_compute. Qed.

Example send_form :
  appendToBuffer sorted (setParameter (str "k") (str "&") newHttpFormPostRequest) =
  str "POST / HTTP/1.1" ++ CRLF ++ str "content-length: 5" ++ CRLF ++
  str "content-type: application/x-www-form-urlencoded" ++ CRLF ++ CRLF ++ str "k=%26".
Proof. by vm_compute. Qed.

(** A type given with its field name loses fourteen characters more at its end. *)
Example custom_type_cut :
  or_contentTypeString <$> setCustomContentTypeString (str "content-type: application/json; charset=utf-8") newHttpRequest =
  Some (str "application/json;") ∧
  setCustomContentTypeString (str "content-type: text/plain" ++ CRLF) newHttpRequest = None.
Proof. by vm_compute. Qed.

(** A path may bring a query of its own: the encoder keeps its mark. *)
Example path_with_mark :
  appendToBuffer sorted (with_req (λ r, setPath_string (str "/who?") r) newHttpRequest) =
  str "GET /who? HTTP/1.1" ++ CRLF ++ CRLF.
Proof. by vm_compute. Qed.
