(* ===== verification/ClientDelivery.v ===== *)
(** * A client's request is understood

    What [appendToBuffer] writes is a well-formed request in the sense of
    HttpDelivery, and what the server makes of it is what the application put
    into it: target, headers, cookies, body and parameters. *)

From stdpp Require Import base gmap list strings numbers.
From Stdlib Require Import ZArith Lia.
From S2P Require Import Prelude StaticFiles MsgBuffer WsFrame CDouble HttpRequest HttpParser HttpDelivery Handshake MediaTypes ResponseParser ClientRequest.

(** ** The characters of an encoded component *)

Definition encoded (c : Z) : bool := (c =? 43) || (c =? 37) || alnum c || listed c marks.

Lemma hex_char_alnum n : 0 ≤ n < 16 → alnum (hex_char n) = true.
Proof. intros Hn. unfold hex_char, alnum, isdigit. destruct (Z.ltb_spec 9 n); lia. Qed.

Lemma charToHex_encoded c : Forall (λ d, encoded d = true) (37 :: charToHex c).
Proof.
  assert (H1 : 0 ≤ Z.land c 15 < 16) by (change 15 with (Z.ones 4); rewrite Z.land_ones by lia; apply Z.mod_pos_bound; lia).
  assert (H2 : 0 ≤ Z.land c 240 / 16 < 16).
  { change 240 with (Z.shiftl 15 4). assert (0 ≤ Z.land c (Z.shiftl 15 4) < 256).
    { split; [apply Z.land_nonneg; right; by vm_compute|].
      assert (E : Z.land (Z.shiftl 15 4) 255 = Z.shiftl 15 4) by done. rewrite <- E, Z.land_assoc.
      change 255 with (Z.ones 8). rewrite Z.land_ones by lia. apply Z.mod_pos_bound. lia. }
    split; [apply Z.div_pos; lia | apply Z.div_lt_upper_bound; lia]. }
  unfold charToHex, encoded. repeat (apply List.Forall_cons; [|]); [done | | | apply List.Forall_nil];
    rewrite hex_char_alnum by done; by rewrite ?orb_true_r.
Qed.

Lemma component_encoded l : Forall (λ d, encoded d = true) (urlEncodeComponent l).
Proof.
  unfold urlEncodeComponent. induction l as [|c l IH]; [apply List.Forall_nil|]. cbn [mbind list_bind].
  apply Forall_app_2; [|exact IH]. destruct (Z.eqb_spec c 32); [by apply List.Forall_cons|].
  destruct (alnum c || listed c marks) eqn:E; [|apply charToHex_encoded].
  apply List.Forall_cons; [|apply List.Forall_nil]. unfold encoded. by rewrite <- !orb_assoc, E, !orb_true_r.
Qed.

(** Nothing that means something to a form, a request line or white space. *)
Lemma encoded_char_plain c : encoded c = true → c ∉ [10; 13; 32; 38; 61; 63] ∧ isspace c = false.
Proof.
  assert (Hm : ∀ c, listed c marks = true → c ∈ marks).
  { intros x. unfold listed. rewrite existsb_exists. intros (y & Hy & ->%Z.eqb_eq). by apply list_elem_of_In. }
  unfold encoded. rewrite !orb_true_iff, !Z.eqb_eq. intros [[[-> | ->] | Ha] | Hl].
  - split; [apply (bool_decide_unpack _); by vm_compute | done].
  - split; [apply (bool_decide_unpack _); by vm_compute | done].
  - unfold alnum, isdigit in Ha. unfold isspace. rewrite !elem_of_cons, elem_of_nil. lia.
  - apply Hm in Hl. assert (Forall (λ c, c ∉ [10; 13; 32; 38; 61; 63] ∧ isspace c = false) marks) as H
      by (apply (bool_decide_unpack _); by vm_compute).
    exact (proj1 (Forall_forall _ _) H c (proj1 (list_elem_of_In _ _) Hl)).
Qed.

Lemma component_without l c : c ∈ [10; 13; 32; 38; 61; 63] → c ∉ urlEncodeComponent l.
Proof.
  intros Hc Hin. pose proof (proj1 (Forall_forall _ _) (component_encoded l) c (proj1 (list_elem_of_In _ _) Hin)) as He.
  by apply encoded_char_plain in He as [? _].
Qed.

Lemma component_no_space l : drop_space (urlEncodeComponent l) = urlEncodeComponent l.
Proof.
  pose proof (component_encoded l) as H. destruct (urlEncodeComponent l) as [|c t]; [done|].
  apply Forall_cons_1 in H as [Hc _]. apply encoded_char_plain in Hc as [_ Hc]. cbn. by rewrite Hc.
Qed.

(** ** Forms *)

Definition piece (p : list Z * list Z) : list Z := urlEncodeComponent p.1 ++ 61 :: urlEncodeComponent p.2.

Fixpoint pieces_text (ps : list (list Z * list Z)) : list Z :=
  match ps with [] => [] | [p] => piece p | p :: ps => piece p ++ 38 :: pieces_text ps end.

Lemma pieces_text_cons p ps : ps ≠ [] → pieces_text (p :: ps) = piece p ++ 38 :: pieces_text ps.
Proof. by destruct ps. Qed.

Lemma form_text_pieces order parameters : form_text order parameters = pieces_text (order parameters).
Proof.
  unfold form_text. set (f := λ '(k, v), urlEncodeComponent k ++ str "=" ++ urlEncodeComponent v ++ str "&").
  induction (order parameters) as [|[k v] ps IH]; [done|]. destruct ps as [|p ps].
  - cbn [mbind list_bind pieces_text f]. unfold piece. cbn [fst snd]. rewrite app_nil_r.
    change (str "=" ++ urlEncodeComponent v ++ str "&") with ((61 :: urlEncodeComponent v) ++ [38]).
    rewrite app_assoc, (length_app _ [38]). cbn [length]. rewrite Nat.add_sub. apply take_app_length.
  - rewrite pieces_text_cons by done. rewrite <- IH.
    assert (Hn : (1 ≤ length ((p :: ps) ≫= f))%nat).
    { destruct p as [k' v']. cbn [mbind list_bind f]. rewrite !length_app. cbn. lia. }
    change (((k, v) :: p :: ps) ≫= f) with (f (k, v) ++ ((p :: ps) ≫= f)).
    assert (E : f (k, v) = piece (k, v) ++ [38]) by (unfold f, piece; cbn [fst snd]; by rewrite <- !app_assoc).
    rewrite E, <- app_assoc. cbn [app]. rewrite length_app. cbn [length].
    replace (length (piece (k, v)) + S (length ((p :: ps) ≫= f)) - 1)%nat
      with (length (piece (k, v)) + S (length ((p :: ps) ≫= f) - 1))%nat by lia.
    by rewrite take_app_add, firstn_cons.
Qed.

Lemma piece_no_amp p : 38 ∉ piece p.
Proof.
  unfold piece. rewrite elem_of_app, elem_of_cons. intros [H|[H|H]]; [|done|]; revert H; apply component_without; set_solver.
Qed.

Lemma parse_piece_piece p m : Forall byte p.1 → Forall byte p.2 → parse_piece (piece p) m = <[p.1 := p.2]> m.
Proof.
  intros Hk Hv. unfold parse_piece, piece. assert (61 ∉ urlEncodeComponent p.1) by (apply component_without; set_solver).
  rewrite find_app by done. rewrite (proj2 (Nat.ltb_lt _ _)) by (rewrite length_app; cbn; lia).
  rewrite take_app_length, (drop_app_ge (urlEncodeComponent p.1)) by lia.
  replace (length (urlEncodeComponent p.1) + 1 - length (urlEncodeComponent p.1))%nat with 1%nat by lia.
  cbn [drop]. rewrite component_no_space, drop_0.
  by rewrite (proj2 (url_roundtrip _ Hk)), (proj2 (url_roundtrip _ Hv)).
Qed.

(** More fuel than characters changes nothing. *)
Lemma parse_pieces_fuel f1 f2 v m :
  (length v < f1)%nat → (length v < f2)%nat → parse_pieces f1 v m = parse_pieces f2 v m.
Proof.
  revert f2 v m. induction f1 as [|f1 IH]; intros f2 v m H1 H2; [lia|]. destruct f2 as [|f2]; [lia|].
  cbn [parse_pieces]. destruct (Nat.ltb_spec (find 38 v) (length v)); [|done].
  apply IH; rewrite length_drop; lia.
Qed.

Definition parse_all (v : list Z) (m : gmap (list Z) (list Z)) : gmap (list Z) (list Z) := parse_pieces (S (length v)) v m.

Lemma parse_pieces_step f p t m : 38 ∉ p → parse_pieces (S f) (p ++ 38 :: t) m = parse_pieces f t (parse_piece p m).
Proof.
  intros Hp. cbn [parse_pieces]. rewrite find_app by done.
  rewrite (proj2 (Nat.ltb_lt _ _)) by (rewrite length_app; cbn; lia).
  rewrite take_app_length, (drop_app_ge p) by lia. replace (length p + 1 - length p)%nat with 1%nat by lia.
  cbn [drop]. by rewrite drop_0.
Qed.

Lemma parse_all_step p t m : 38 ∉ p → parse_all (p ++ 38 :: t) m = parse_all t (parse_piece p m).
Proof.
  intros Hp. unfold parse_all. rewrite parse_pieces_step by done.
  apply parse_pieces_fuel; rewrite ?length_app; cbn [length]; lia.
Qed.

Lemma parse_all_last p m : 38 ∉ p → p ≠ [] → parse_all p m = parse_piece p m.
Proof. intros Hp Hne. unfold parse_all. cbn [parse_pieces]. rewrite find_none, Nat.ltb_irrefl by done. by destruct p. Qed.

(** A text that does not end with an ampersand, and another after it. *)
Lemma parse_all_app a b m : a ≠ [] → list.last a ≠ Some 38 → parse_all (a ++ 38 :: b) m = parse_all b (parse_all a m).
Proof.
  remember (length a) as n eqn:Hn. revert a m Hn. induction (lt_wf n) as [n _ IH]. intros a m -> Hne Hl.
  destruct (decide (38 ∈ a)) as [Hin|Hin].
  - apply list_elem_of_split_l in Hin as (p & t & -> & Hp). rewrite <- app_assoc. cbn [app].
    rewrite (parse_all_step p (t ++ _)), (parse_all_step p t) by done. destruct t as [|c t]; [by rewrite list.last_snoc in Hl|].
    apply (IH (length (c :: t)) ltac:(rewrite length_app; cbn; lia) (c :: t) (parse_piece p m)); [done | done|].
    intros E. apply Hl. by rewrite last_app, list.last_cons, E.
  - by rewrite parse_all_step, (parse_all_last a).
Qed.

Lemma parse_all_pieces ps m :
  Forall (λ p, Forall byte p.1 ∧ Forall byte p.2) ps →
  parse_all (pieces_text ps) m = fold_left (λ m p, <[p.1 := p.2]> m) ps m.
Proof.
  intros Hps. revert m. induction Hps as [|p ps [H1 H2] _ IH]; intros m; [done|]. destruct ps as [|p' ps].
  - cbn [pieces_text fold_left]. rewrite parse_all_last, parse_piece_piece; try done; [apply piece_no_amp|].
    unfold piece. by destruct (urlEncodeComponent p.1).
  - rewrite pieces_text_cons, parse_all_step, IH, parse_piece_piece by (done || apply piece_no_amp). done.
Qed.

(** ** The request on the wire *)

(** What stands in the request line. *)
Definition spelling (r : OutRequest) : list Z :=
  let path := path_ (or_req r) in
  if nothing path then str "/" else if or_pathEncode r then urlEncode path else path.
Definition meant_path (r : OutRequest) : list Z :=
  let path := path_ (or_req r) in
  if nothing path then str "/" else if or_pathEncode r then path else urlDecode path.

Definition sends_parameters (r : OutRequest) : bool :=
  negb (bool_decide (or_parameters r = ∅)) && negb (bool_decide (or_contentType r = CT_MULTIPART_FORM_DATA)).
Definition is_form_request (r : OutRequest) : bool := bool_decide (or_contentType r = CT_APPLICATION_X_FORM).

(** The type the body is announced with. *)
Definition sent_type (r : OutRequest) : list Z :=
  if nothing (or_contentTypeString r) then contentTypeToMime (or_contentType r) else or_contentTypeString r.

Section Wire.
Context (order : gmap (list Z) (list Z) → list (list Z * list Z)).
Context (Horder : ∀ m, order m ≡ₚ map_to_list m).

Definition sent_query (r : OutRequest) : list Z :=
  let q := query_ (or_req r) in
  if sends_parameters r && negb (is_form_request r)
  then (if nothing q then [] else q ++ [38]) ++ form_text order (or_parameters r) else q.

Definition upload_body (r : OutRequest) : list Z :=
  if bool_decide (or_contentType r = CT_MULTIPART_FORM_DATA) then
    match or_upload r with Some (boundary, files) => upload_text order r boundary files | None => [] end
  else [].
Definition sent_body (r : OutRequest) : list Z :=
  ((if sends_parameters r && is_form_request r then form_text order (or_parameters r) else []) ++ upload_body r) ++
  content_ (or_req r).

Definition client_fields (r : OutRequest) : list (list Z * list Z) :=
  (if nothing (sent_body r)
   then if expects_body (method_ (or_req r)) then [(str "content-length", str "0")] else []
   else [(str "content-length", to_string (Z.of_nat (length (sent_body r))))]) ++
  (if nothing (or_contentTypeString r) && nothing (sent_body r) then [] else [(str "content-type", sent_type r)]).

Definition as_field (f : list Z * list Z) : wire_header := WField f.1 [32] f.2 [].
Definition as_cookies (cookies : gmap (list Z) (list Z)) : list wire_header :=
  if bool_decide (cookies = ∅) then []
  else [WCookies (str "cookie") [32] ((λ p, ([], p.1, p.2)) <$> order cookies) []].

Definition wire_of (r : OutRequest) : wire_request :=
  let q := or_req r in
  {| w_method := method_ q; w_spelling := spelling r; w_path := meant_path r;
     w_query := if nothing (sent_query r) then None else Some (sent_query r);
     w_version := version_ q;
     w_headers := (as_field <$> client_fields r ++ order (headers_ q)) ++ as_cookies (cookies_ q);
     w_body := if nothing (sent_body r) && negb (expects_body (method_ q)) then NoBody else Sized (sent_body r) |}.

(** A field of the application's own. *)
Definition field_ok (k v : list Z) : Prop :=
  tolower <$> k = k ∧ 58 ∉ k ∧ 10 ∉ k ∧ 10 ∉ v ∧ trimmed v ∧ (length k + length v + 4 ≤ LINE_MAX)%nat ∧
  k ∉ (str <$> ["content-length"; "content-type"; "transfer-encoding"; "cookie"; "expect"]%string).

Definition cookie_plain (k v : list Z) : Prop :=
  trimmed k ∧ trimmed v ∧ 61 ∉ k ∧ 59 ∉ k ∧ 59 ∉ v ∧ 10 ∉ k ∧ 10 ∉ v.

(** What an application has to see to. *)
Record client_ok (maxBodySize : Z) (r : OutRequest) : Prop := {
  co_method : method_ (or_req r) ≠ Invalid;
  co_version : version_ (or_req r) ≠ kUnknown;
  co_pass : or_passThrough r = false;
  co_path : path_ (or_req r) = [] ∨ ∃ p, path_ (or_req r) = 47 :: p;
  co_mark : 63 ∉ path_ (or_req r);
  co_spelling : if or_pathEncode r then Forall byte (path_ (or_req r))
                else (∃ d, spells (path_ (or_req r)) d) ∧ 10 ∉ path_ (or_req r) ∧ 32 ∉ path_ (or_req r);
  co_query : 10 ∉ query_ (or_req r) ∧ 32 ∉ query_ (or_req r);
  co_query_ends : skip_marks (query_ (or_req r)) = query_ (or_req r) ∧ list.last (query_ (or_req r)) ≠ Some 38;
  co_parameters : map_Forall (λ k v, Forall byte k ∧ Forall byte v) (or_parameters r);
  co_line : (length (spelling r) + length (sent_query r) + 16 ≤ LINE_MAX)%nat;
  co_headers : map_Forall field_ok (headers_ (or_req r));
  co_cookies : map_Forall cookie_plain (cookies_ (or_req r));
  co_cookie_line : Forall (λ h, (length (header_line h) + 2 ≤ LINE_MAX)%nat) (as_cookies (cookies_ (or_req r)));
  co_type : 10 ∉ sent_type r ∧ trimmed (sent_type r) ∧ (length (sent_type r) + 16 ≤ LINE_MAX)%nat;
  co_form : sent_body r ≠ [] → is_form (sent_type r) = is_form_request r && nothing (content_ (or_req r));
  co_form_body : is_form_request r = true → or_parameters r ≠ ∅ → content_ (or_req r) = [];
  co_size : Z.of_nat (length (sent_body r)) ≤ maxBodySize
}.

Lemma nothing_spec {A} (l : list A) : nothing l = true ↔ l = [].
Proof. by destruct l. Qed.
Lemma nothing_false {A} (l : list A) : nothing l = false ↔ l ≠ [].
Proof. by destruct l. Qed.
Lemma nothing_app {A} (l k : list A) : nothing (l ++ k) = nothing l && nothing k.
Proof. by destruct l. Qed.

Lemma form_text_nothing m : m ≠ ∅ → nothing (form_text order m) = false.
Proof.
  intros Hm. rewrite form_text_pieces. destruct (order m) as [|p ps] eqn:E.
  - exfalso. apply Hm. pose proof (Horder m) as H. rewrite E in H. apply Permutation_nil_l in H.
    by apply map_to_list_empty_iff.
  - destruct ps as [|p' ps]; [cbn [pieces_text] | rewrite pieces_text_cons by done]; unfold piece; by destruct (urlEncodeComponent p.1).
Qed.

(** Where a character of an encoder's output comes from. *)
Lemma encoder_chars (keep : Z → bool) l c :
  c ∈ (l ≫= λ d, if d =? 32 then [43] else if keep d then [d] else 37 :: charToHex d) →
  encoded c = true ∨ (keep c = true ∧ c ∈ l).
Proof.
  induction l as [|d l IH]; cbn [mbind list_bind]; [set_solver|]. rewrite elem_of_app. intros [Hin|Hin]; [|set_solver].
  destruct (d =? 32); [left; by apply list_elem_of_singleton in Hin as ->|]. destruct (keep d) eqn:E.
  - apply list_elem_of_singleton in Hin as ->. right. split; [done|]. apply elem_of_cons. by left.
  - left. exact (proj1 (Forall_forall _ _) (charToHex_encoded d) c (proj1 (list_elem_of_In _ _) Hin)).
Qed.

Lemma spelling_plain maxBodySize r c : client_ok maxBodySize r → c ∈ [10; 32; 63] → c ∉ spelling r.
Proof.
  intros Hr Hc. rewrite !elem_of_cons, elem_of_nil in Hc. unfold spelling. destruct (nothing _).
  { destruct Hc as [-> | [-> | [-> | []]]]; apply (bool_decide_unpack _); by vm_compute. }
  pose proof (co_mark _ _ Hr) as Hm. pose proof (co_spelling _ _ Hr) as Hs. destruct (or_pathEncode r); [|naive_solver].
  intros [He|[Hk Hin]]%encoder_chars; destruct Hc as [-> | [-> | [-> | []]]]; done.
Qed.

Lemma spelling_slash maxBodySize r : client_ok maxBodySize r → ∃ p, spelling r = 47 :: p.
Proof.
  intros Hr. unfold spelling. destruct (co_path _ _ Hr) as [-> | [p ->]]; [by eexists|]. cbn [nothing].
  destruct (or_pathEncode r); [|by eexists]. by exists (urlEncode p).
Qed.

Lemma spelling_spells maxBodySize r : client_ok maxBodySize r → spells (spelling r) (meant_path r).
Proof.
  intros Hr. unfold spelling, meant_path. destruct (nothing _); [by repeat constructor|].
  pose proof (co_spelling _ _ Hr) as Hs. destruct (or_pathEncode r); [by apply urlEncode_spells|].
  destruct Hs as ((d & Hd) & _). by rewrite (urlDecode_spells _ _ Hd).
Qed.

Lemma form_text_plain m c : c ∈ [10; 32] → c ∉ form_text order m.
Proof.
  intros Hc. rewrite form_text_pieces. assert (Hp : ∀ p, c ∉ piece p).
  { intros p. unfold piece. rewrite elem_of_app, elem_of_cons. intros [H|[H|H]]; [|set_solver|];
      revert H; apply component_without; set_solver. }
  induction (order m) as [|p ps IH]; [set_solver|]. destruct ps as [|p' ps]; [apply Hp|].
  rewrite pieces_text_cons, elem_of_app, elem_of_cons by done. intros [H|[H|H]]; [by apply Hp in H | set_solver | done].
Qed.

Lemma sent_query_plain maxBodySize r c : client_ok maxBodySize r → c ∈ [10; 32] → c ∉ sent_query r.
Proof.
  intros Hr Hc. destruct (co_query _ _ Hr) as [H1 H2]. assert (Hq : c ∉ query_ (or_req r)) by set_solver.
  unfold sent_query. destruct (_ && _); [|done]. rewrite elem_of_app. intros [H|H]; [|by apply form_text_plain in H].
  destruct (nothing _); set_solver.
Qed.
(** ** The bytes are those of the request on the wire *)

Lemma method_word_text m : m ≠ Invalid → method_word m = Some (method_text m ++ [32]).
Proof. by destruct m. Qed.

Definition query_text (r : OutRequest) : list Z := if nothing (sent_query r) then [] else 63 :: sent_query r.

(** The target is completed with the parameters that belong there. *)
Lemma put_parameters_target maxBodySize r :
  client_ok maxBodySize r →
  let word := method_text (method_ (or_req r)) ++ [32] in
  let q := query_ (or_req r) in
  put_parameters order r ((word ++ spelling r) ++ (if nothing q then [] else str "?" ++ q)) =
  ((word ++ spelling r) ++ query_text r,
   if sends_parameters r && is_form_request r then form_text order (or_parameters r) else []).
Proof.
  intros Hr word q. unfold put_parameters, query_text, sent_query. rewrite (co_pass _ _ Hr). cbn [negb andb].
  fold (sends_parameters r) (is_form_request r) q. clearbody q. destruct (sends_parameters r) eqn:Hsend; cbn [andb].
  2:{ destruct q; done. }
  destruct (is_form_request r) eqn:Hform; cbn [negb]; [by destruct q|].
  assert (Hne : nothing (form_text order (or_parameters r)) = false).
  { apply form_text_nothing. unfold sends_parameters in Hsend. apply andb_true_iff in Hsend as [H _].
    by apply negb_true_iff, bool_decide_eq_false in H. }
  assert (Hno : 63 ∉ word ++ spelling r).
  { rewrite elem_of_app. intros [H|H].
    - revert H. unfold word. destruct (method_ (or_req r)); apply (bool_decide_unpack _); by vm_compute.
    - by eapply spelling_plain in H; [|done|set_solver]. }
  destruct q as [|c q']; cbn [nothing].
  - rewrite app_nil_r, find_none, Nat.eqb_refl by done. rewrite <- app_assoc. cbn [app]. by rewrite Hne.
  - change (str "?" ++ c :: q') with (63 :: c :: q'). rewrite find_app by done.
    rewrite (length_app (word ++ spelling r)). cbn [length]. rewrite !(proj2 (Nat.eqb_neq _ _)) by lia.
    cbn [nothing app]. by rewrite <- !app_assoc.
Qed.

Lemma field_line k v : header_line (as_field (k, v)) ++ CRLF = k ++ str ": " ++ v ++ CRLF.
Proof. unfold header_line. cbn [header_name header_text as_field fst snd]. rewrite app_nil_r, <- app_assoc. done. Qed.

Definition lines (hs : list wire_header) : list Z := hs ≫= λ h, header_line h ++ CRLF.

Lemma lines_app a b : lines (a ++ b) = lines a ++ lines b.
Proof. apply bind_app. Qed.

Lemma field_lines fs : (fs ≫= λ '(k, v), k ++ str ": " ++ v ++ CRLF) = lines (as_field <$> fs).
Proof.
  induction fs as [|[k v] fs IH]; [done|]. cbn [mbind list_bind fmap list_fmap]. rewrite IH.
  change (lines (as_field (k, v) :: (as_field <$> fs))) with ((header_line (as_field (k, v)) ++ CRLF) ++ lines (as_field <$> fs)).
  by rewrite field_line.
Qed.

Lemma announce_lines maxBodySize r content :
  client_ok maxBodySize r → maxBodySize < 2 ^ 62 → content ++ content_ (or_req r) = sent_body r →
  announce r content = lines (as_field <$> client_fields r).
Proof.
  intros Hr Hmax E. unfold announce, client_fields, sent_type. rewrite (co_pass _ _ Hr).
  assert (Hn : negb (nothing content) || negb (nothing (content_ (or_req r))) = negb (nothing (sent_body r))).
  { rewrite <- E, nothing_app. by destruct (nothing content). }
  rewrite Hn, <- length_app, E. pose proof (co_size _ _ Hr). rewrite wrapU64_small by lia.
  change (str "content-length: ") with (str "content-length" ++ str ": ").
  change (str "content-length: 0") with (str "content-length" ++ str ": " ++ str "0").
  change (str "content-type: ") with (str "content-type" ++ str ": ").
  rewrite <- field_lines. destruct (nothing (sent_body r)), (expects_body (method_ (or_req r))), (nothing (or_contentTypeString r));
    cbn [negb andb app mbind list_bind]; rewrite ?app_nil_r, <- ?app_assoc; done.
Qed.

Lemma cookies_bytes cookies :
  put_cookies order cookies = lines (as_cookies cookies).
Proof.
  unfold put_cookies, as_cookies. destruct (bool_decide_reflect (cookies = ∅)) as [|Hne]; [done|]. unfold lines. cbn [mbind list_bind].
  rewrite app_nil_r. unfold header_line. cbn [header_name header_text]. rewrite app_nil_r.
  set (f := λ '(k, v), k ++ str "=" ++ v ++ str ";").
  assert (Hf : ∀ ps, ps ≠ [] → ps ≫= f = cookies_text ((λ p, ([], p.1, p.2)) <$> ps) ++ [59]).
  { induction ps as [|[k v] ps IH]; [done|]. intros _. destruct ps as [|p ps].
    - cbn [mbind list_bind f fmap list_fmap cookies_text cookie_text app fst snd]. rewrite app_nil_r.
      change (str "=" ++ v ++ str ";") with ((61 :: v) ++ [59]). by rewrite app_assoc.
    - change (((k, v) :: p :: ps) ≫= f) with (f (k, v) ++ ((p :: ps) ≫= f)). rewrite IH by done.
      cbn [f fmap list_fmap cookies_text cookie_text app fst snd].
      change (str "=" ++ v ++ str ";") with ((61 :: v) ++ [59]). rewrite <- !app_assoc. done. }
  assert (Hord : order cookies ≠ []).
  { intros E. apply Hne. pose proof (Horder cookies) as H. rewrite E in H. apply Permutation_nil_l in H. by apply map_to_list_empty_iff. }
  rewrite (Hf _ Hord). set (t := cookies_text _). rewrite app_assoc, (length_app _ [59]). cbn [length]. rewrite Nat.add_sub.
  rewrite take_app_length. done.
Qed.

Lemma wire_body_bytes r : body_bytes (w_body (wire_of r)) = sent_body r.
Proof. cbn [wire_of w_body]. destruct (sent_body r), (expects_body _); done. Qed.

Lemma wire_payload r : payload (w_body (wire_of r)) = sent_body r.
Proof. cbn [wire_of w_body]. destruct (sent_body r), (expects_body _); done. Qed.

Lemma wire_target r : target (wire_of r) = spelling r ++ query_text r.
Proof. unfold target, query_text. cbn [wire_of w_spelling w_query]. by destruct (sent_query r). Qed.

Lemma append_encode maxBodySize r :
  client_ok maxBodySize r → maxBodySize < 2 ^ 62 → appendToBuffer order r = encode (wire_of r).
Proof.
  intros Hr Hmax. unfold appendToBuffer, encode. rewrite method_word_text by apply Hr.
  fold (spelling r). rewrite (put_parameters_target maxBodySize) by done. cbn [w_method w_headers wire_of].
  destruct (version_ (or_req r)) eqn:Hv; [by destruct (co_version _ _ Hr)| |];
    unfold put_upload; rewrite (co_pass _ _ Hr); cbn [negb andb];
    set (content := if sends_parameters r && is_form_request r then form_text order (or_parameters r) else []);
    assert (E : (if bool_decide (or_contentType r = CT_MULTIPART_FORM_DATA)
      then match or_upload r with Some (boundary, files) => content ++ upload_text order r boundary files | None => content end
      else content) = content ++ upload_body r)
      by (unfold upload_body; destruct (bool_decide _); [destruct (or_upload r) as [[]|]|]; by rewrite ?app_nil_r);
    rewrite E, (announce_lines maxBodySize r (content ++ upload_body r)) by done;
    rewrite cookies_bytes, field_lines; fold (lines ((as_field <$> client_fields r ++ order (headers_ (or_req r))) ++ as_cookies (cookies_ (or_req r))));
    rewrite lines_app, fmap_app, lines_app, wire_body_bytes; unfold request_line; rewrite wire_target; cbn [wire_of w_version]; rewrite Hv;
    unfold sent_body; fold content; rewrite <- !app_assoc; done.
Qed.
(** ** It is well-formed *)

Lemma dec_length f z : (length (str (dec_fuel f z)) ≤ f)%nat.
Proof.
  revert z. induction f as [|f IH]; intros z; cbn [dec_fuel]; [done|]. destruct (z <? 10); [cbn; lia|].
  rewrite str_app, length_app. specialize (IH (z / 10)). change (length (str (String (digit z) ""))) with 1%nat. lia.
Qed.

Lemma line_max n : (n ≤ 100)%nat → (n ≤ LINE_MAX)%nat.
Proof. intros Hn. transitivity 100%nat; [done|]. apply Nat.leb_le. vm_compute. reflexivity. Qed.

(** A field that can be sent. *)
Definition sendable (f : list Z * list Z) : Prop :=
  tolower <$> f.1 = f.1 ∧ 58 ∉ f.1 ∧ 10 ∉ f.1 ∧ 10 ∉ f.2 ∧ trimmed f.2 ∧ (length f.1 + length f.2 + 4 ≤ LINE_MAX)%nat ∧
  f.1 ∉ (str <$> ["transfer-encoding"; "cookie"; "expect"]%string).

Lemma client_fields_sendable maxBodySize r :
  client_ok maxBodySize r → maxBodySize < 2 ^ 62 → Forall sendable (client_fields r).
Proof.
  intros Hr Hmax. pose proof (co_size _ _ Hr). destruct (co_type _ _ Hr) as (Ht1 & Ht2 & Ht3).
  assert (Hk : ∀ k v, k = str "content-length" ∨ k = str "content-type" → 10 ∉ v → trimmed v →
    (length v + 18 ≤ LINE_MAX)%nat ∨ k = str "content-type" → (length k + length v + 4 ≤ LINE_MAX)%nat → sendable (k, v)).
  { intros k v Hk Hv1 Hv2 _ Hl. unfold sendable. cbn [fst snd].
    destruct Hk as [-> | ->]; refine (conj eq_refl (conj _ (conj _ (conj Hv1 (conj Hv2 (conj Hl _))))));
      apply (bool_decide_unpack _); by vm_compute. }
  destruct (dec_numeral (Z.of_nat (length (sent_body r)))) as [Hn _]; [lia|].
  pose proof (dec_length 40 (Z.of_nat (length (sent_body r)))) as Hlen. fold (dec (Z.of_nat (length (sent_body r)))) in Hlen.
  unfold client_fields. apply Forall_app_2.
  - destruct (nothing (sent_body r)).
    + destruct (expects_body _); [|done]. apply List.Forall_cons; [|done].
      apply Hk; [by left | apply (bool_decide_unpack _); by vm_compute | by split | left; apply line_max; cbn; lia | apply line_max; cbn; lia].
    + apply List.Forall_cons; [|done]. unfold to_string. apply Hk; [by left | by eapply numeral_no_lf | by apply numeral_trimmed | |].
      * left. apply line_max. lia.
      * apply line_max. change (length (str "content-length")) with 14%nat. lia.
  - destruct (_ && _); [done|]. apply List.Forall_cons; [|done].
    apply Hk; [by right | done | done | by right |]. change (length (str "content-type")) with 12%nat. lia.
Qed.

Lemma own_headers_sendable maxBodySize r : client_ok maxBodySize r → Forall sendable (order (headers_ (or_req r))).
Proof.
  intros Hr. rewrite Horder. pose proof (co_headers _ _ Hr) as H. rewrite map_Forall_to_list in H.
  eapply List.Forall_impl; [|exact H]. intros [k v] (H1 & H2 & H3 & H4 & H5 & H6 & H7).
  refine (conj H1 (conj H2 (conj H3 (conj H4 (conj H5 (conj H6 _)))))). intros Hin. apply H7. revert Hin. cbn. set_solver.
Qed.

Lemma sendable_header f : sendable f → header_ok (as_field f) ∧ line_ok (header_line (as_field f)).
Proof.
  destruct f as [k v]. intros (H1 & H2 & H3 & H4 & H5 & H6 & H7). cbn [fst snd] in *. split.
  - split; [done|]. change (blank [32] ∧ blank [] ∧ trimmed v ∧ tolower <$> k ≠ str "cookie").
    refine (conj _ (conj _ (conj H5 _))); [by repeat constructor | by constructor|]. rewrite H1. intros ->.
    apply H7. apply (bool_decide_unpack _). by vm_compute.
  - unfold line_ok, header_line. cbn [header_name header_text as_field fst snd]. rewrite app_nil_r. split.
    + cbn [app]. rewrite elem_of_app, !elem_of_cons. intros [?|[?|[?|?]]]; done.
    + rewrite length_app. cbn [length app]. lia.
Qed.

(** White space at the ends of a list of cookies is white space at the ends of a name or value. *)
Lemma trim_end_last l : (∀ c, list.last l = Some c → isspace c = false) → trim_end l = l.
Proof.
  intros H. unfold trim_end. destruct (reverse l) as [|c t] eqn:E.
  - apply (f_equal reverse) in E. by rewrite reverse_involutive in E.
  - assert (El : l = reverse t ++ [c]) by (apply (f_equal reverse) in E; by rewrite reverse_involutive, reverse_cons in E).
    cbn [drop_space]. rewrite (H c) by (by rewrite El, list.last_snoc). by rewrite <- E, reverse_involutive.
Qed.

Lemma trimmed_last l c : trimmed l → list.last l = Some c → isspace c = false.
Proof.
  intros [_ Ht] Hl. destruct (list.last_Some l c) as [[t ->] _]; [done|]. unfold trim_end in Ht.
  rewrite reverse_app in Ht. change (reverse [c]) with [c] in Ht. cbn [app drop_space] in Ht.
  destruct (isspace c) eqn:E; [|done]. exfalso.
  assert (Hle : ∀ l, (length (drop_space l) ≤ length l)%nat).
  { clear. induction l as [|d l IH]; cbn; [done|]. destruct (isspace d); cbn; lia. }
  apply (f_equal length) in Ht. rewrite length_reverse, length_app in Ht. specialize (Hle (reverse t)).
  rewrite length_reverse in Hle. cbn [length] in Ht. lia.
Qed.

Lemma cookie_text_trimmed p :
  cookie_plain p.1 p.2 →
  (∀ t, drop_space (cookie_text ([], p.1, p.2) ++ t) = cookie_text ([], p.1, p.2) ++ t) ∧
  (∀ c, list.last (cookie_text ([], p.1, p.2)) = Some c → isspace c = false) ∧ 10 ∉ cookie_text ([], p.1, p.2).
Proof.
  intros (Hk & Hv & _ & _ & _ & Hk10 & Hv10). unfold cookie_text. cbn [app]. split_and!.
  - intros t. rewrite <- app_assoc. destruct p.1 as [|c k] eqn:E; [done|]. apply drop_space_app; [apply Hk | done].
  - intros c. rewrite last_app, list.last_cons. destruct (list.last p.2) eqn:E; [|by intros [= <-]].
    intros [= <-]. by eapply trimmed_last.
  - rewrite elem_of_app, elem_of_cons. intros [?|[?|?]]; done.
Qed.

Lemma cookies_trimmed cs : Forall (λ p, cookie_plain p.1 p.2) cs →
  trimmed (cookies_text ((λ p, ([], p.1, p.2)) <$> cs)) ∧ 10 ∉ cookies_text ((λ p, ([], p.1, p.2)) <$> cs).
Proof.
  intros Hcs.
  assert (Hl : (∀ c, list.last (cookies_text ((λ p, ([], p.1, p.2)) <$> cs)) = Some c → isspace c = false) ∧
    10 ∉ cookies_text ((λ p, ([], p.1, p.2)) <$> cs)).
  { induction Hcs as [|p cs Hp Hcs [IH1 IH2]]; [set_solver|]. destruct (cookie_text_trimmed p Hp) as (_ & H2 & H3).
    destruct cs as [|p' cs]; [done|]. cbn [fmap list_fmap] in *.
    set (rest := ([], p'.1, p'.2) :: ((λ p : list Z * list Z, ([], p.1, p.2)) <$> cs)) in *. clearbody rest.
    change (cookies_text ((([], p.1, p.2) : cookie) :: rest)) with
      (match rest with [] => cookie_text ([], p.1, p.2) | _ => cookie_text ([], p.1, p.2) ++ 59 :: cookies_text rest end).
    destruct rest as [|x rest]; [done|]. set (text := cookies_text (x :: rest)) in *. split.
    - intros c. rewrite last_app, list.last_cons. destruct (list.last text) eqn:E; [|by intros [= <-]]. by apply IH1.
    - rewrite elem_of_app, elem_of_cons. intros [?|[?|?]]; done. }
  destruct Hl as [H1 H2]. split; [|done]. split; [|by apply trim_end_last].
  destruct Hcs as [|p cs Hp _]; [done|]. destruct (cookie_text_trimmed p Hp) as (H & _).
  destruct cs as [|p' cs]; [|apply H]. rewrite <- (app_nil_r (cookies_text _)). apply H.
Qed.

Lemma cookie_header_ok maxBodySize r :
  client_ok maxBodySize r → Forall (λ h, header_ok h ∧ line_ok (header_line h)) (as_cookies (cookies_ (or_req r))).
Proof.
  intros Hr. pose proof (co_cookie_line _ _ Hr) as Hlen. revert Hlen. unfold as_cookies. destruct (bool_decide _); [done|].
  intros Hlen. apply Forall_cons_1 in Hlen as [Hlen _].
  assert (Hcs : Forall (λ p, cookie_plain p.1 p.2) (order (cookies_ (or_req r)))).
  { rewrite Horder. pose proof (co_cookies _ _ Hr) as H. rewrite map_Forall_to_list in H.
    eapply List.Forall_impl; [|exact H]. by intros [k v]. }
  destruct (cookies_trimmed _ Hcs) as [H1 H2]. apply List.Forall_cons; [|done]. split; [|split].
  - split; [apply (bool_decide_unpack _); by vm_compute|].
    refine (conj _ (conj _ (conj H1 (conj eq_refl _)))); [by repeat constructor | by constructor|].
    apply Forall_fmap. eapply List.Forall_impl; [|exact Hcs].
    intros [k v] (Hk & Hv & ? & ? & ? & _). cbn [fst snd] in *. unfold compose. cbn.
    refine (conj _ (conj (proj1 Hk) (conj (proj1 Hv) _))); [by constructor|]. split_and!; try done; set_solver.
  - unfold header_line. cbn [header_name header_text]. rewrite app_nil_r, elem_of_app, elem_of_cons, elem_of_app.
    intros [H|[H|[H|H]]]; [|done | | done]; revert H; apply (bool_decide_unpack _); by vm_compute.
  - exact Hlen.
Qed.
Lemma order_map m : (list_to_map (order m) : gmap (list Z) (list Z)) = m.
Proof.
  transitivity (list_to_map (map_to_list m) : gmap (list Z) (list Z)); [|apply list_to_map_to_list].
  apply list_to_map_proper; [|done]. rewrite Horder. apply NoDup_fst_map_to_list.
Qed.

Lemma order_map_reverse m : (list_to_map (reverse (order m)) : gmap (list Z) (list Z)) = m.
Proof. apply reverse_map, Horder. Qed.

Definition client_headers (r : OutRequest) : list (list Z * list Z) := client_fields r ++ order (headers_ (or_req r)).

Lemma client_headers_sendable maxBodySize r :
  client_ok maxBodySize r → maxBodySize < 2 ^ 62 → Forall sendable (client_headers r).
Proof. intros Hr Hmax. apply Forall_app_2; [by eapply client_fields_sendable | by eapply own_headers_sendable]. Qed.

Lemma fields_as_field fs : Forall sendable fs → fields (as_field <$> fs) = fs.
Proof.
  induction 1 as [|[k v] fs (Hk & _) _ IH]; [done|]. cbn [fst] in Hk.
  change (fields (as_field <$> (k, v) :: fs)) with ((tolower <$> k, v) :: fields (as_field <$> fs)). by rewrite Hk, IH.
Qed.

Lemma fields_wire maxBodySize r :
  client_ok maxBodySize r → maxBodySize < 2 ^ 62 → fields (w_headers (wire_of r)) = client_headers r.
Proof.
  intros Hr Hmax. pose proof (client_headers_sendable _ _ Hr Hmax) as Hs. cbn [wire_of w_headers]. unfold fields.
  rewrite omap_app. fold (fields (as_field <$> client_fields r ++ order (headers_ (or_req r)))) (fields (as_cookies (cookies_ (or_req r)))).
  fold (client_headers r).
  assert (E : fields (as_cookies (cookies_ (or_req r))) = []) by (unfold as_cookies; by destruct (bool_decide _)).
  rewrite E, app_nil_r. by apply fields_as_field.
Qed.

Lemma cookie_pairs_wire r : cookie_pairs (w_headers (wire_of r)) = order (cookies_ (or_req r)).
Proof.
  cbn [wire_of w_headers]. unfold cookie_pairs. rewrite bind_app.
  assert (E : ∀ fs, (as_field <$> fs) ≫= (λ h, match h with WCookies _ _ cs _ => cookie_pair <$> cs | _ => [] end) = [])
    by (induction fs; done).
  rewrite E. cbn [app]. unfold as_cookies. destruct (bool_decide_reflect (cookies_ (or_req r) = ∅)) as [->|].
  - pose proof (Horder ∅) as H. rewrite map_to_list_empty in H. by apply Permutation_nil_r in H as ->.
  - cbn [mbind list_bind]. rewrite app_nil_r, <- list_fmap_compose. clear E. induction (order (cookies_ (or_req r))) as [|[k v] l IH]; [done|].
    cbn in *. by rewrite IH.
Qed.

Lemma header_map_wire maxBodySize r :
  client_ok maxBodySize r → maxBodySize < 2 ^ 62 →
  header_map (wire_of r) = list_to_map (client_fields r) ∪ headers_ (or_req r).
Proof.
  intros Hr Hmax. unfold header_map. rewrite (fields_wire maxBodySize) by done. unfold client_headers.
  by rewrite list_to_map_app, order_map.
Qed.

Lemma own_header_none maxBodySize r k :
  client_ok maxBodySize r → k ∈ (str <$> ["content-length"; "content-type"; "transfer-encoding"; "cookie"; "expect"]%string) →
  headers_ (or_req r) !! k = None.
Proof.
  intros Hr Hk. destruct (headers_ (or_req r) !! k) as [v|] eqn:E; [|done].
  apply (co_headers _ _ Hr) in E as (_ & _ & _ & _ & _ & _ & H). done.
Qed.

Lemma client_fields_map r :
  (list_to_map (client_fields r) : gmap (list Z) (list Z)) =
  (if nothing (sent_body r)
   then if expects_body (method_ (or_req r)) then {[str "content-length" := str "0"]} else ∅
   else {[str "content-length" := to_string (Z.of_nat (length (sent_body r)))]}) ∪
  (if nothing (or_contentTypeString r) && nothing (sent_body r) then ∅ else {[str "content-type" := sent_type r]}).
Proof.
  unfold client_fields. rewrite list_to_map_app.
  destruct (nothing (sent_body r)), (expects_body (method_ (or_req r))), (nothing (or_contentTypeString r));
    cbn [andb list_to_map foldr uncurry]; by rewrite ?insert_empty.
Qed.

Lemma wire_announced maxBodySize r : client_ok maxBodySize r → maxBodySize < 2 ^ 62 → announced (wire_of r).
Proof.
  intros Hr Hmax. unfold announced. rewrite (header_map_wire maxBodySize) by done. rewrite client_fields_map.
  pose proof (own_header_none _ _ (str "content-length") Hr ltac:(apply (bool_decide_unpack _); by vm_compute)) as H1.
  pose proof (own_header_none _ _ (str "transfer-encoding") Hr ltac:(apply (bool_decide_unpack _); by vm_compute)) as H2.
  assert (Hne : str "content-type" ≠ str "content-length" ∧ str "content-length" ≠ str "transfer-encoding" ∧ str "content-type" ≠ str "transfer-encoding")
    by (split_and!; apply (bool_decide_unpack _); by vm_compute). destruct Hne as (N1 & N2 & N3).
  pose proof (co_size _ _ Hr). cbn [wire_of w_body].
  destruct (nothing (sent_body r)) eqn:Hb; cbn [andb].
  - apply nothing_spec in Hb. destruct (expects_body (method_ (or_req r))) eqn:He; cbn [negb andb].
    + exists (str "0"). split; [|rewrite Hb; split; [|done]; split; [done|]].
      * by apply lookup_union_Some_l, lookup_union_Some_l, lookup_singleton_eq.
      * apply List.Forall_cons; [exists 0; by vm_compute | done].
    + rewrite !lookup_union_None. split_and!; try done; rewrite ?lookup_empty; try done; destruct (nothing _); cbn [andb];
        rewrite ?lookup_empty, ?lookup_singleton_ne by done; done.
  - destruct (dec_numeral (Z.of_nat (length (sent_body r)))) as [Hn Hv]; [lia|].
    exists (to_string (Z.of_nat (length (sent_body r)))). unfold to_string at 2 3. split; [|done].
    by apply lookup_union_Some_l, lookup_union_Some_l, lookup_singleton_eq.
Qed.
Lemma wire_well_formed maxBodySize r :
  client_ok maxBodySize r → maxBodySize < 2 ^ 62 → well_formed maxBodySize (wire_of r).
Proof.
  intros Hr Hmax. split.
  - apply Hr.
  - apply Hr.
  - split; [by eapply spelling_spells | by eapply spelling_slash].
  - split; [eapply spelling_plain; [done | set_solver]|]. rewrite wire_target, elem_of_app. unfold query_text.
    intros [H|H]; [eapply spelling_plain in H; [done | done | set_solver]|]. destruct (nothing _); [set_solver|].
    apply elem_of_cons in H as [H|H]; [done|]. eapply sent_query_plain in H; [done | done | set_solver].
  - unfold line_ok, request_line. rewrite wire_target. cbn [wire_of w_version]. split.
    + rewrite elem_of_app, elem_of_cons, elem_of_app. unfold query_text. intros [[H|H]|[H|H]].
      * eapply spelling_plain in H; [done | done | set_solver].
      * destruct (nothing _); [set_solver|]. apply elem_of_cons in H as [H|H]; [done|].
        eapply sent_query_plain in H; [done | done | set_solver].
      * done.
      * revert H. destruct (version_ (or_req r)); apply (bool_decide_unpack _); by vm_compute.
    + pose proof (co_line _ _ Hr). unfold query_text. rewrite !length_app. cbn [length].
      assert (length (version_text (version_ (or_req r))) = 8)%nat by (by destruct (version_ (or_req r))).
      destruct (nothing _); cbn [length]; lia.
  - cbn [wire_of w_headers]. apply Forall_app_2; [|by eapply cookie_header_ok]. apply Forall_fmap.
    eapply List.Forall_impl; [|by eapply client_headers_sendable]. apply sendable_header.
  - by eapply wire_announced.
  - rewrite wire_payload. apply Hr.
  - left. rewrite (fields_wire maxBodySize) by done. unfold last_expect.
    assert (E : filter (λ f, f.1 = str "expect") (client_headers r) = []); [|by rewrite E].
    pose proof (client_headers_sendable _ _ Hr Hmax) as Hs.
    induction Hs as [|f fs (_ & _ & _ & _ & _ & _ & Hf) _ IH]; [done|]. rewrite filter_cons_False; [done|].
    intros E. apply Hf. rewrite E. apply (bool_decide_unpack _). by vm_compute.
Qed.

(** ** The parameters are read back *)

Lemma skip_pieces ps : skip_marks (pieces_text ps) = pieces_text ps.
Proof.
  assert (Hp : ∀ p t, skip_marks (piece p ++ t) = piece p ++ t).
  { intros p t. unfold piece. rewrite <- app_assoc. pose proof (component_encoded p.1) as H.
    destruct (urlEncodeComponent p.1) as [|c l]; [done|]. apply Forall_cons_1 in H as [Hc _].
    apply encoded_char_plain in Hc as [H1 H2]. cbn [app skip_marks]. rewrite H2, (proj2 (Z.eqb_neq c 63)) by set_solver. done. }
  destruct ps as [|p [|p' ps]]; [done | rewrite <- (app_nil_r (pieces_text _)); apply Hp | apply Hp].
Qed.

Lemma order_bytes r maxBodySize : client_ok maxBodySize r →
  Forall (λ p, Forall byte p.1 ∧ Forall byte p.2) (order (or_parameters r)).
Proof.
  intros Hr. rewrite Horder. pose proof (co_parameters _ _ Hr) as H. rewrite map_Forall_to_list in H.
  eapply List.Forall_impl; [|exact H]. by intros [k v].
Qed.

Lemma parse_all_form r maxBodySize m :
  client_ok maxBodySize r → parse_all (form_text order (or_parameters r)) m = or_parameters r ∪ m.
Proof.
  intros Hr. rewrite form_text_pieces, parse_all_pieces by by eapply order_bytes.
  rewrite (fold_insert_reverse id). by rewrite list_fmap_id, order_map_reverse.
Qed.

Lemma parse_form_form r maxBodySize m :
  client_ok maxBodySize r → parse_form (form_text order (or_parameters r)) m = or_parameters r ∪ m.
Proof.
  intros Hr. unfold parse_form. rewrite form_text_pieces, skip_pieces, <- form_text_pieces. by apply (parse_all_form _ maxBodySize).
Qed.

(** What the query alone says. *)
Definition query_parameters (r : OutRequest) : gmap (list Z) (list Z) :=
  if nothing (query_ (or_req r)) then ∅ else parse_form (query_ (or_req r)) ∅.

Lemma skip_marks_app q t : q ≠ [] → skip_marks q = q → skip_marks (q ++ t) = q ++ t.
Proof.
  destruct q as [|c q]; [done|]. intros _. cbn [app skip_marks]. destruct (_ || _); [|done]. intros E. exfalso.
  assert (Hle : ∀ l, (length (skip_marks l) ≤ length l)%nat).
  { clear. induction l as [|d l IH]; cbn; [done|]. destruct (_ || _); cbn; lia. }
  apply (f_equal length) in E. specialize (Hle q). cbn in E. lia.
Qed.

Lemma sent_query_parsed r maxBodySize :
  client_ok maxBodySize r →
  (if nothing (sent_query r) then ∅ else parse_form (sent_query r) ∅) =
  (if sends_parameters r && negb (is_form_request r) then or_parameters r else ∅) ∪ query_parameters r.
Proof.
  intros Hr. unfold sent_query, query_parameters. destruct (sends_parameters r && negb (is_form_request r)) eqn:Hs.
  2:{ by rewrite (left_id_L ∅ (∪)). }
  assert (Hp : or_parameters r ≠ ∅).
  { apply andb_true_iff in Hs as [Hs _]. unfold sends_parameters in Hs. apply andb_true_iff in Hs as [H _].
    by apply negb_true_iff, bool_decide_eq_false in H. }
  rewrite nothing_app, (form_text_nothing _ Hp), andb_false_r. destruct (co_query_ends _ _ Hr) as [Hq1 Hq2].
  destruct (nothing (query_ (or_req r))) eqn:Hq; [by apply (parse_form_form _ maxBodySize)|].
  apply nothing_false in Hq. rewrite <- app_assoc. cbn [app]. unfold parse_form at 1.
  rewrite skip_marks_app by done. fold (parse_all (query_ (or_req r) ++ 38 :: form_text order (or_parameters r)) ∅).
  rewrite parse_all_app, (parse_all_form _ maxBodySize) by done. unfold parse_form. by rewrite Hq1.
Qed.

(** ** What the server gets *)

Definition understood (r : OutRequest) (got : HttpRequestImpl) : Prop :=
  let q := or_req r in
  method_ got = method_ q ∧ version_ got = version_ q ∧ path_ got = meant_path r ∧
  headers_ got = list_to_map (client_fields r) ∪ headers_ q ∧ cookies_ got = cookies_ q ∧
  bodyView got = sent_body r ∧
  keepAlive_ got = match version_ q with
                   | kHttp10 => bool_decide (headers_ q !! str "connection" = Some (str "Keep-Alive") ∨
                                             headers_ q !! str "connection" = Some (str "keep-alive"))
                   | _ => bool_decide (headers_ q !! str "connection" ≠ Some (str "close"))
                   end ∧
  parseParameters got =
    (if bool_decide (or_contentType r = CT_MULTIPART_FORM_DATA) then ∅ else or_parameters r) ∪ query_parameters r.

Lemma understood_flat r got : understood r (flat got) → understood r got.
Proof. done. Qed.
(** A field is looked for in the list as in the map. *)
Lemma existsb_header r v :
  existsb (λ f, bool_decide (f = (str "connection", v))) (client_headers r) =
  bool_decide (headers_ (or_req r) !! str "connection" = Some v).
Proof.
  unfold client_headers. rewrite existsb_app.
  assert (E : existsb (λ f, bool_decide (f = (str "connection", v))) (client_fields r) = false).
  { assert (Hk : ∀ k w, k = str "content-length" ∨ k = str "content-type" → bool_decide ((k, w) = (str "connection", v)) = false)
      by (intros k w [-> | ->]; by apply bool_decide_false).
    unfold client_fields. destruct (nothing (sent_body r)), (expects_body (method_ (or_req r))), (nothing (or_contentTypeString r));
      cbn [andb app existsb]; rewrite ?Hk by (by left || by right); done. }
  rewrite E. cbn [orb]. apply Bool.eq_iff_eq_true. rewrite existsb_exists, bool_decide_eq_true. split.
  - intros (f & Hin & ->%bool_decide_eq_true). apply list_elem_of_In in Hin. rewrite Horder in Hin. by apply elem_of_map_to_list.
  - intros Hv. exists (str "connection", v). split; [|by apply bool_decide_eq_true]. apply list_elem_of_In. rewrite Horder.
    by apply elem_of_map_to_list.
Qed.

Lemma wire_keep_alive r :
  kept_alive (version_ (or_req r)) (client_headers r) (match version_ (or_req r) with kHttp10 => false | _ => true end) =
  match version_ (or_req r) with
  | kHttp10 => bool_decide (headers_ (or_req r) !! str "connection" = Some (str "Keep-Alive") ∨
                            headers_ (or_req r) !! str "connection" = Some (str "keep-alive"))
  | kHttp11 => bool_decide (headers_ (or_req r) !! str "connection" ≠ Some (str "close"))
  | kUnknown => true
  end.
Proof.
  destruct (version_ (or_req r)); unfold kept_alive; cbn [orb andb]; [done| |].
  - assert (E : ∀ l, existsb asks_keep l = existsb (λ f, bool_decide (f = (str "connection", str "Keep-Alive"))) l ||
      existsb (λ f, bool_decide (f = (str "connection", str "keep-alive"))) l).
    { induction l as [|f l IH]; [done|]. cbn [existsb]. rewrite IH. unfold asks_keep.
      generalize (bool_decide (f = (str "connection", str "Keep-Alive"))), (bool_decide (f = (str "connection", str "keep-alive"))).
      intros [] []; cbn; rewrite ?orb_true_r; done. }
    by rewrite E, !existsb_header, bool_decide_or.
  - change asks_close with (λ f, bool_decide (f = (str "connection", str "close"))).
    by rewrite existsb_header, <- bool_decide_not.
Qed.

Lemma sent_content_type r maxBodySize :
  client_ok maxBodySize r → sent_body r ≠ [] →
  default [] ((list_to_map (client_fields r) ∪ headers_ (or_req r)) !! str "content-type") = sent_type r.
Proof.
  intros Hr Hb. rewrite client_fields_map. apply nothing_false in Hb. rewrite Hb, andb_false_r.
  erewrite lookup_union_Some_l; [done|]. rewrite lookup_union_r by (by apply lookup_singleton_ne).
  apply lookup_singleton_eq.
Qed.

(** The body adds the parameters of a form. *)
Lemma body_parameters r maxBodySize m :
  client_ok maxBodySize r →
  (if nothing (sent_body r) then m else if is_form (sent_type r) then parse_form (sent_body r) m else m) =
  (if sends_parameters r && is_form_request r then or_parameters r else ∅) ∪ m.
Proof.
  intros Hr. destruct (nothing (sent_body r)) eqn:Hb.
  - destruct (sends_parameters r && is_form_request r) eqn:Hs; [|by rewrite (left_id_L ∅ (∪))].
    exfalso. apply nothing_spec in Hb. unfold sent_body in Hb. rewrite Hs in Hb.
    apply app_eq_nil in Hb as [Hb _]. apply app_eq_nil in Hb as [Hb _]. apply nothing_spec in Hb.
    rewrite form_text_nothing in Hb; [done|]. apply andb_true_iff in Hs as [Hs _]. unfold sends_parameters in Hs.
    apply andb_true_iff in Hs as [H _]. by apply negb_true_iff, bool_decide_eq_false in H.
  - apply nothing_false in Hb. rewrite (co_form _ _ Hr Hb). destruct (is_form_request r) eqn:Hf; cbn [andb].
    + assert (Hm : bool_decide (or_contentType r = CT_MULTIPART_FORM_DATA) = false).
      { apply bool_decide_eq_true in Hf. rewrite Hf. by apply bool_decide_false. }
      destruct (nothing (content_ (or_req r))) eqn:Hc.
      * unfold sent_body, upload_body in *. rewrite Hm in *. apply nothing_spec in Hc. rewrite Hc, Hf, !app_nil_r in *.
        destruct (sends_parameters r); cbn [andb] in *; [|done]. by apply (parse_form_form _ maxBodySize).
      * assert (E : or_parameters r = ∅).
        { destruct (decide (or_parameters r = ∅)) as [|Hp]; [done|]. rewrite (co_form_body _ _ Hr Hf Hp) in Hc. done. }
        unfold sends_parameters. rewrite E, bool_decide_true by done. cbn [negb andb]. by rewrite (left_id_L ∅ (∪)).
    + rewrite andb_false_r. by rewrite (left_id_L ∅ (∪)).
Qed.

Lemma expected_understood maxBodySize r :
  client_ok maxBodySize r → maxBodySize < 2 ^ 62 → understood r (expected (wire_of r)).
Proof.
  intros Hr Hmax.
  assert (Hh : final_headers (wire_of r) = list_to_map (client_fields r) ∪ headers_ (or_req r)).
  { unfold final_headers. rewrite (header_map_wire maxBodySize) by done. cbn [wire_of w_body]. by destruct (_ && _). }
  assert (Hq : default [] (w_query (wire_of r)) = sent_query r) by (cbn [wire_of w_query]; by destruct (sent_query r)).
  unfold understood. cbn [expected method_ version_ path_ headers_ cookies_ keepAlive_ bodyView cacheFilePtr_ content_ default query_].
  split_and!; [done | done | done | done | | apply wire_payload | |].
  - by rewrite cookie_pairs_wire, order_map_reverse.
  - rewrite (fields_wire maxBodySize) by done. cbn [wire_of w_version]. rewrite wire_keep_alive.
    pose proof (co_version _ _ Hr). by destruct (version_ (or_req r)).
  - unfold parseParameters, parse_into, getHeaderBy, bodyView. cbn [expected cacheFilePtr_ content_ default query_ headers_].
    rewrite Hq, wire_payload, Hh, (sent_query_parsed _ maxBodySize) by done.
    transitivity (if nothing (sent_body r)
      then (if sends_parameters r && negb (is_form_request r) then or_parameters r else ∅) ∪ query_parameters r
      else if is_form (sent_type r)
           then parse_form (sent_body r) ((if sends_parameters r && negb (is_form_request r) then or_parameters r else ∅) ∪ query_parameters r)
           else (if sends_parameters r && negb (is_form_request r) then or_parameters r else ∅) ∪ query_parameters r).
    { destruct (nothing (sent_body r)) eqn:Hb; [done|]. apply nothing_false in Hb. by rewrite (sent_content_type _ maxBodySize). }
    rewrite (body_parameters _ maxBodySize) by done. unfold sends_parameters.
    destruct (bool_decide_reflect (or_parameters r = ∅)) as [->|], (bool_decide (or_contentType r = CT_MULTIPART_FORM_DATA)),
      (is_form_request r); cbn [negb andb]; by rewrite ?(left_id_L ∅ (∪)).
Qed.
End Wire.

(** ** Properties *)


(** A request with a path to encode, a query, a parameter of any bytes, a
    header and a cookie; and a form. *)
Definition ask : OutRequest :=
  setParameter (str "k&") [0; 255; 32]
    (with_req (λ r, set_fields {[str "host" := str "x"]} {[str "sid" := str "42"]} None true
      (setQuery (str "q=1") (setPath_string (str "/a b%") r))) newHttpRequest).
Definition fill : OutRequest := setParameter (str "name") (str "J=1&K") newHttpFormPostRequest.

Ltac line_max_it := apply line_max; vm_compute; lia.

Lemma ask_ok : client_ok map_to_list (2 ^ 20) ask.
Proof.
  split.
  - discriminate.
  - discriminate.
  - reflexivity.
  - right. by eexists.
  - decide_it.
  - change (Forall byte (str "/a b%")). unfold byte. decide_it.
  - split; decide_it.
  - split; [reflexivity | discriminate].
  - change (map_Forall (λ k v, Forall byte k ∧ Forall byte v) ({[str "k&" := [0; 255; 32]]} : gmap (list Z) (list Z))).
    apply map_Forall_singleton. unfold byte. decide_it.
  - line_max_it.
  - apply map_Forall_singleton.
    refine (conj eq_refl (conj _ (conj _ (conj _ (conj (conj eq_refl eq_refl) (conj _ _)))))); [decide_it | decide_it | decide_it | line_max_it | decide_it].
  - apply map_Forall_singleton.
    refine (conj (conj eq_refl eq_refl) (conj (conj eq_refl eq_refl) _)). split_and!; decide_it.
  - apply List.Forall_cons; [line_max_it | apply List.Forall_nil].
  - split; [decide_it|]. split; [split; reflexivity | line_max_it].
  - intros H. exfalso. apply H. by vm_compute.
  - discriminate.
  - vm_compute. discriminate.
Qed.

Lemma fill_ok : client_ok map_to_list (2 ^ 20) fill.
Proof.
  split.
  - discriminate.
  - discriminate.
  - reflexivity.
  - by left.
  - decide_it.
  - apply List.Forall_nil.
  - split; decide_it.
  - split; [reflexivity | discriminate].
  - change (map_Forall (λ k v, Forall byte k ∧ Forall byte v) ({[str "name" := str "J=1&K"]} : gmap (list Z) (list Z))).
    apply map_Forall_singleton. unfold byte. decide_it.
  - line_max_it.
  - apply map_Forall_empty.
  - apply map_Forall_empty.
  - apply List.Forall_nil.
  - split; [decide_it|]. split; [split; reflexivity | line_max_it].
  - intros _. by vm_compute.
  - done.
  - vm_compute. discriminate.
Qed.

Definition sent_bytes : list Z := appendToBuffer map_to_list ask ++ appendToBuffer map_to_list fill.

