(* ===== verification/MultiPart.v ===== *)
(** * Uploads

    [MultiPartParser] of src/src/drogon/lib/src/MultiPart.cc and [parseLine] of
    src/src/drogon/lib/src/utils/ParsingUtils.h: the files and parameters of a
    multipart request.  The writer is ClientRequest.

    [None] is a step outside the content: a read before its first byte, or a
    part whose end lies before its beginning.  The byte behind the content is
    read as NUL. *)

From stdpp Require Import base gmap list strings numbers.
From Stdlib Require Import ZArith Lia.
From S2P Require Import Prelude StaticFiles MsgBuffer WsFrame CDouble HttpRequest HttpParser HttpDelivery Handshake MediaTypes ClientRequest ClientDelivery.

(** [std::search], [std::string::find]: [None] when there is none. *)
Fixpoint search (p s : list Z) : option nat :=
  if is_prefix p s then Some 0%nat else match s with [] => None | _ :: s => S <$> search p s end.

Definition parseLine (line : list Z) : list Z * list Z :=
  let p := find 58 line in
  if (p <? length line)%nat then
    (take p line, match drop (p + 1) line with 32 :: v => v | v => v end)
  else ([], []).

Record HttpFile := {
  hf_itemName : list Z;
  hf_fileName : list Z;
  hf_content : list Z;
  hf_contentType : ContentType;
  hf_transferEncoding : list Z
}.
Definition new_file : HttpFile :=
  {| hf_itemName := []; hf_fileName := []; hf_content := []; hf_contentType := CT_NONE; hf_transferEncoding := [] |}.

Record MultiPartParser := { mp_files : list HttpFile; mp_parameters : gmap (list Z) (list Z) }.
Definition new_multipart : MultiPartParser := {| mp_files := []; mp_parameters := ∅ |}.

Definition name_file (item name content : list Z) (f : HttpFile) : HttpFile :=
  {| hf_itemName := item; hf_fileName := name; hf_content := content; hf_contentType := hf_contentType f;
     hf_transferEncoding := hf_transferEncoding f |}.
Definition type_file (t : ContentType) (f : HttpFile) : HttpFile :=
  {| hf_itemName := hf_itemName f; hf_fileName := hf_fileName f; hf_content := hf_content f; hf_contentType := t;
     hf_transferEncoding := hf_transferEncoding f |}.
Definition encode_file (e : list Z) (f : HttpFile) : HttpFile :=
  {| hf_itemName := hf_itemName f; hf_fileName := hf_fileName f; hf_content := hf_content f;
     hf_contentType := hf_contentType f; hf_transferEncoding := e |}.

(** A name, quoted or up to a semicolon, and what follows. *)
Definition token (l : list Z) : list Z * list Z :=
  match l with
  | 34 :: t => (take (find 34 t) t, drop (find 34 t) t)
  | _ => (take (find 59 l) l, drop (find 59 l) l)
  end.

Definition before_semicolon (v : list Z) : list Z := take (find 59 v) v.

(** The header lines of a part; [body] is what follows them.  Each line shortens the head. *)
Fixpoint entity_lines (fuel : nat) (head body : list Z) (file : HttpFile) (p : MultiPartParser) : Z * MultiPartParser :=
  match fuel with
  | O => (-1, p)
  | S fuel =>
      if nothing head then
        if nothing (hf_fileName file) then (-1, p)
        else (0, {| mp_files := mp_files p ++ [file]; mp_parameters := mp_parameters p |})
      else
        let lineEnd := default (length head) (search CRLF head) in
        let '(k, value) := parseLine (take lineEnd head) in
        let head := drop (lineEnd + 2) head in
        if nothing k || nothing value then (-1, p)
        else
          let key := tolower <$> k in
          if decide (key = str "content-disposition") then
            match search (str "name=") value with
            | None => (-1, p)
            | Some namePos =>
                let '(name, rest) := token (drop (namePos + 5) value) in
                match search (str "filename=") rest with
                | None => (0, {| mp_files := mp_files p; mp_parameters := emplace name body (mp_parameters p) |})
                | Some fileNamePos =>
                    let '(fName, _) := token (drop (fileNamePos + 9) rest) in
                    entity_lines fuel head body (name_file name fName body file) p
                end
            end
          else if decide (key = str "content-type") then
            entity_lines fuel head body (type_file (parseContentType (before_semicolon value)) file) p
          else if decide (key = str "content-transfer-encoding") then
            entity_lines fuel head body (encode_file (before_semicolon value) file) p
          else entity_lines fuel head body file p
  end.

Definition parseEntity (entity : list Z) (p : MultiPartParser) : Z * MultiPartParser :=
  match search (CRLF ++ CRLF) entity with
  | None => (-1, p)
  | Some headEnd => entity_lines (S (length entity)) (take (headEnd + 2) entity) (drop (headEnd + 4) entity) new_file p
  end.

Definition find_from (boundary content : list Z) (pos : nat) : option nat :=
  Nat.add pos <$> search boundary (drop pos content).

(** The loop over the boundaries; the position of each is behind the last one's. *)
Fixpoint parse_loop (fuel : nat) (boundary content : list Z) (pos2 : option nat) (p : MultiPartParser)
    : option (Z * MultiPartParser) :=
  match fuel, pos2 with
  | _, None => Some (0, p)
  | O, _ => None
  | S fuel, Some pos =>
      let pos1 := (pos + length boundary)%nat in
      let pos1 := if bool_decide (take 2 (drop pos1 content) = CRLF) then (pos1 + 2)%nat else pos1 in
      match find_from boundary content pos1 with
      | None => Some (0, p)
      | Some pos2 =>
          if (pos2 <? 4)%nat then None
          else
            let flag := bool_decide (take 4 (drop (pos2 - 4) content) = CRLF ++ str "--") in
            let last := if flag then (pos2 - 4)%nat else pos2 in
            if (last <? pos1)%nat then None
            else
              match parseEntity (take (last - pos1) (drop pos1 content)) p with
              | (0, p) => parse_loop fuel boundary content (Some pos2) p
              | (_, p) => Some (-1, p)
              end
      end
  end.

(** [parse(req, boundaryData, boundaryLen)] *)
Definition parse_content (boundary content : list Z) (p : MultiPartParser) : option (Z * MultiPartParser) :=
  let boundary :=
    if (2 <? length boundary)%nat && bool_decide (list.head boundary = Some 34)
    then take (length boundary - 2) (tail boundary) else boundary in
  parse_loop (S (length content)) boundary content (search boundary content) p.

(** [parse(req)] *)
Definition parse (req : HttpRequestImpl) (p : MultiPartParser) : option (Z * MultiPartParser) :=
  match method_ req with
  | Post | Put | Patch =>
      let contentType := getHeaderBy (str "content-type") req in
      let pos := find 59 contentType in
      if negb (pos <? length contentType)%nat then Some (-1, p)
      else if negb (bool_decide (tolower <$> take pos contentType = str "multipart/form-data")) then Some (-1, p)
      else
        match search (str "boundary=") contentType with
        | None => Some (-1, p)
        | Some pos => parse_content (before_semicolon (drop (pos + 9) contentType)) (bodyView req) p
        end
  | _ => Some (-1, p)
  end.

(** [getFilesMap]: of several files of one item the first. *)
Definition getFilesMap (p : MultiPartParser) : gmap (list Z) HttpFile :=
  list_to_map ((λ f, (hf_itemName f, f)) <$> mp_files p).

(** ** Examples *)

Definition CR : string := String (Ascii.ascii_of_nat 13) (String (Ascii.ascii_of_nat 10) EmptyString).
Definition dq : string := String (Ascii.ascii_of_nat 34) EmptyString.
Definition part (disposition body : string) : list Z :=
  str ("--XXXX" ++ CR ++ "Content-Disposition: form-data; " ++ disposition ++ CR ++ CR ++ body ++ CR).

Example two_parts :
  parse_content (str "XXXX") (part ("name=" ++ dq ++ "a" ++ dq) "1" ++ part ("name=f; filename=g.txt") "data" ++ str "--XXXX--") new_multipart =
  Some (0, {| mp_files := [name_file (str "f") (str "g.txt") (str "data") new_file]; mp_parameters := {[str "a" := str "1"]} |}).
Proof. by vm_compute. Qed.

(** The name is looked for by its five characters, which end those of the file
    name: with the file name first the file is taken for a parameter. *)
Example file_name_first :
  parse_content (str "XXXX") (part ("filename=" ++ dq ++ "g.txt" ++ dq ++ "; name=" ++ dq ++ "f" ++ dq) "data" ++ str "--XXXX--") new_multipart =
  Some (0, {| mp_files := []; mp_parameters := {[str "g.txt" := str "data"]} |}).
Proof. by vm_compute. Qed.

(** An empty part ends before it begins; a short boundary is compared with what is before the content. *)
Example empty_part_outside :
  parse_content (str "XXXX") (str ("--XXXX" ++ CR ++ "--XXXX--")) new_multipart = None.
Proof. by vm_compute. Qed.
Example short_boundary_outside : parse_content (str "a") (str "aa") new_multipart = None.
Proof. by vm_compute. Qed.

(** A sender's names are not escaped: this one brings a file along. *)
Example name_brings_a_file :
  let name := str ("x" ++ dq ++ "; filename=" ++ dq ++ "y") in
  parse_content (str "BBBB") (upload_text map_to_list (setParameter name (str "v") (newFileUploadRequest (str "BBBB") [])) (str "BBBB") [])
    new_multipart =
  Some (0, {| mp_files := [name_file (str "x") (str "y") (str "v") new_file]; mp_parameters := ∅ |}).
Proof. by vm_compute. Qed.

(** ** Searching *)

Lemma is_prefix_app p t : is_prefix p (p ++ t) = true.
Proof. induction p as [|c p IH]; cbn; [by destruct t|]. by rewrite Z.eqb_refl. Qed.

Lemma is_prefix_length p s t : is_prefix p (s ++ t) = true → (length p ≤ length s)%nat → is_prefix p s = true.
Proof.
  revert s. induction p as [|a p IH]; intros [|b s]; cbn; [done | done | lia|].
  rewrite !andb_true_iff. intros [H1 H2] Hl. split; [done|]. apply IH; [done | lia].
Qed.

(** A prefix that is longer than [s] takes the character behind it. *)
Lemma is_prefix_long p s c t : is_prefix p (s ++ c :: t) = true → (length s < length p)%nat → c ∈ p.
Proof.
  revert s. induction p as [|a p IH]; intros [|b s]; cbn [app is_prefix length]; [lia | lia | |].
  - rewrite andb_true_iff. intros [->%Z.eqb_eq _] _. set_solver.
  - rewrite andb_true_iff. intros [_ H] Hl. apply elem_of_cons. right. apply (IH s); [done | lia].
Qed.

Lemma search_step p c s : is_prefix p (c :: s) = false → search p (c :: s) = S <$> search p s.
Proof. intros H. cbn [search]. by rewrite H. Qed.

Lemma search_here p t : search p (p ++ t) = Some 0%nat.
Proof. pose proof (is_prefix_app p t) as H. by destruct (p ++ t); cbn [search]; rewrite H. Qed.

Lemma fmap_add_0 (o : option nat) : Nat.add 0 <$> o = o.
Proof. by destruct o. Qed.

Lemma fmap_S_add n (o : option nat) : S <$> (Nat.add n <$> o) = Nat.add (S n) <$> o.
Proof. by destruct o. Qed.

(** Characters that are not the first one. *)
Lemma search_past c p l t : c ∉ l → search (c :: p) (l ++ t) = Nat.add (length l) <$> search (c :: p) t.
Proof.
  induction l as [|x l IH]; intros Hc; [by rewrite fmap_add_0|]. apply not_elem_of_cons in Hc as [Hx Hl]. cbn [app].
  rewrite search_step by (cbn; by rewrite (proj2 (Z.eqb_neq c x))). rewrite IH by done. apply fmap_S_add.
Qed.

Lemma search_none c p l : c ∉ l → search (c :: p) l = None.
Proof. intros Hc. rewrite <- (app_nil_r l), search_past by done. done. Qed.

(** A text without [p], and something behind it that starts with a character not in [p]. *)
Lemma search_clean p e c t : search p e = None → c ∉ p → search p (e ++ c :: t) = Nat.add (length e) <$> search p (c :: t).
Proof.
  intros He Hc. induction e as [|x e IH]; [by rewrite fmap_add_0|]. cbn [app].
  assert (Hx : is_prefix p (x :: e) = false) by (cbn [search] in He; by destruct (is_prefix p (x :: e))).
  rewrite search_step in He by done. rewrite search_step.
  - rewrite IH by (by destruct (search p e)). apply fmap_S_add.
  - destruct (is_prefix p (x :: e ++ c :: t)) eqn:E; [|done]. exfalso.
    change (x :: e ++ c :: t) with ((x :: e) ++ c :: t) in E. destruct (decide (length p ≤ length (x :: e))%nat) as [Hl|Hl].
    + apply is_prefix_length in E; [congruence | done].
    + apply is_prefix_long in E; [done | lia].
Qed.

(** ** Parts *)

(** The part of a parameter, and what the parser makes of it. *)
Definition parameter_entity (p : list Z * list Z) : list Z :=
  str "content-disposition: form-data; name=" ++ quote ++ p.1 ++ quote ++ CRLF ++ CRLF ++ p.2.
Definition file_head (f : UploadFile) : list Z :=
  str "content-disposition: form-data; name=" ++ quote ++ uf_itemName f ++ quote ++
  str "; filename=" ++ quote ++ uf_fileName f ++ quote.
Definition type_line (f : UploadFile) : list Z :=
  if bool_decide (uf_contentType f = CT_NONE) then [] else CRLF ++ str "content-type: " ++ contentTypeToMime (uf_contentType f).
Definition file_entity (f : UploadFile) : list Z := file_head f ++ type_line f ++ CRLF ++ CRLF ++ file_bytes f.

Definition add_parameter (p : list Z * list Z) (mp : MultiPartParser) : MultiPartParser :=
  {| mp_files := mp_files mp; mp_parameters := emplace p.1 p.2 (mp_parameters mp) |}.

(** The file as the server has it. *)
Definition received (f : UploadFile) : HttpFile :=
  {| hf_itemName := uf_itemName f; hf_fileName := uf_fileName f; hf_content := file_bytes f;
     hf_contentType := parseContentType (contentTypeToMime (uf_contentType f)); hf_transferEncoding := [] |}.
Definition add_file (f : UploadFile) (mp : MultiPartParser) : MultiPartParser :=
  {| mp_files := mp_files mp ++ [received f]; mp_parameters := mp_parameters mp |}.

(** A name that stays between its quotes. *)
Definition name_ok (n : list Z) : Prop := 34 ∉ n ∧ 13 ∉ n ∧ 10 ∉ n.

Lemma search_head_end l t : 13 ∉ l → search (CRLF ++ CRLF) (l ++ CRLF ++ CRLF ++ t) = Some (length l).
Proof.
  intros Hl. unfold CRLF. cbn [app]. rewrite (search_past 13 [10; 13; 10] l) by done.
  change (13 :: 10 :: 13 :: 10 :: t) with ([13; 10; 13; 10] ++ t). rewrite search_here. cbn. f_equal. lia.
Qed.

Lemma search_two_lines l1 l2 t :
  13 ∉ l1 → 13 ∉ l2 → l2 ≠ [] →
  search (CRLF ++ CRLF) ((l1 ++ CRLF ++ l2) ++ CRLF ++ CRLF ++ t) = Some (length (l1 ++ CRLF ++ l2)).
Proof.
  intros H1 H2 Hne. rewrite <- !app_assoc. change (CRLF ++ CRLF) with (13 :: [10; 13; 10]). rewrite search_past by done.
  change (CRLF ++ l2 ++ CRLF ++ CRLF ++ t) with (13 :: 10 :: l2 ++ CRLF ++ CRLF ++ t).
  assert (Hp : is_prefix [13; 10; 13; 10] (13 :: 10 :: l2 ++ CRLF ++ CRLF ++ t) = false).
  { destruct l2 as [|c l2]; [done|]. apply not_elem_of_cons in H2 as [Hc _]. cbn [is_prefix app]. by rewrite (proj2 (Z.eqb_neq 13 c) Hc). }
  rewrite search_step by done. rewrite search_step by done.
  change [13; 10; 13; 10] with (CRLF ++ CRLF). rewrite search_head_end by done.
  by rewrite !length_app.
Qed.

Lemma search_line_end l t : 13 ∉ l → search CRLF (l ++ CRLF ++ t) = Some (length l).
Proof. intros Hl. unfold CRLF. rewrite search_past by done. rewrite search_here. cbn. f_equal. lia. Qed.

Lemma token_quoted n t : 34 ∉ n → token (34 :: n ++ 34 :: t) = (n, 34 :: t).
Proof. intros Hn. cbn [token]. by rewrite find_app, take_app_length, drop_app_length. Qed.

(** One line of a head. *)
Lemma entity_line fuel l head body file p :
  13 ∉ l →
  entity_lines (S fuel) (l ++ CRLF ++ head) body file p =
  (let '(k, value) := parseLine l in
   if nothing k || nothing value then (-1, p)
   else
     let key := tolower <$> k in
     if decide (key = str "content-disposition") then
       match search (str "name=") value with
       | None => (-1, p)
       | Some namePos =>
           let '(name, rest) := token (drop (namePos + 5) value) in
           match search (str "filename=") rest with
           | None => (0, {| mp_files := mp_files p; mp_parameters := emplace name body (mp_parameters p) |})
           | Some fileNamePos =>
               let '(fName, _) := token (drop (fileNamePos + 9) rest) in
               entity_lines fuel head body (name_file name fName body file) p
           end
       end
     else if decide (key = str "content-type") then
       entity_lines fuel head body (type_file (parseContentType (before_semicolon value)) file) p
     else if decide (key = str "content-transfer-encoding") then
       entity_lines fuel head body (encode_file (before_semicolon value) file) p
     else entity_lines fuel head body file p).
Proof.
  intros Hl. cbn [entity_lines]. assert (Hn : nothing (l ++ CRLF ++ head) = false) by (by destruct l). rewrite Hn.
  rewrite search_line_end by done. change (default _ (Some (length l))) with (length l). rewrite take_app_length.
  assert (E : drop (length l + 2) (l ++ CRLF ++ head) = head).
  { rewrite app_assoc. apply drop_app_length'. rewrite length_app. done. }
  by rewrite E.
Qed.

Lemma parse_head head body mp :
  search (CRLF ++ CRLF) (head ++ CRLF ++ CRLF ++ body) = Some (length head) →
  parseEntity (head ++ CRLF ++ CRLF ++ body) mp =
  entity_lines (S (length (head ++ CRLF ++ CRLF ++ body))) (head ++ CRLF) body new_file mp.
Proof.
  intros Hs. unfold parseEntity. rewrite Hs. f_equal.
  - rewrite (app_assoc head). apply take_app_length'. by rewrite length_app.
  - rewrite !(app_assoc). apply drop_app_length'. rewrite !length_app. cbn. lia.
Qed.

(** The line that names an item, and a file. *)
Lemma parse_disposition n t :
  parseLine (str "content-disposition: form-data; name=" ++ quote ++ n ++ quote ++ t) =
  (str "content-disposition", str "form-data; name=" ++ quote ++ n ++ quote ++ t).
Proof. reflexivity. Qed.

Lemma search_name n t : search (str "name=") (str "form-data; name=" ++ quote ++ n ++ quote ++ t) = Some 11%nat.
Proof. reflexivity. Qed.

Lemma drop_name n t : drop (11 + 5) (str "form-data; name=" ++ quote ++ n ++ quote ++ t) = 34 :: n ++ 34 :: t.
Proof. reflexivity. Qed.

Lemma disposition_no_cr n t : 13 ∉ n → 13 ∉ t → 13 ∉ str "content-disposition: form-data; name=" ++ quote ++ n ++ quote ++ t.
Proof.
  intros Hn Ht. rewrite !elem_of_app. intros [H|[H|[H|[H|H]]]]; [|set_solver | done | set_solver | done].
  revert H. apply (bool_decide_unpack _). by vm_compute.
Qed.

Lemma parse_parameter p mp :
  name_ok p.1 → parseEntity (parameter_entity p) mp = (0, add_parameter p mp).
Proof.
  intros (Hq & Hr & Hn). unfold parameter_entity.
  set (l := str "content-disposition: form-data; name=" ++ quote ++ p.1 ++ quote ++ []).
  assert (Hl : 13 ∉ l) by (apply disposition_no_cr; [done | set_solver]).
  assert (El : str "content-disposition: form-data; name=" ++ quote ++ p.1 ++ quote ++ CRLF ++ CRLF ++ p.2 = l ++ CRLF ++ CRLF ++ p.2)
    by (unfold l; by rewrite <- !app_assoc).
  rewrite El, parse_head by by apply search_head_end.
  change (l ++ CRLF) with (l ++ CRLF ++ []). rewrite entity_line by done. unfold l.
  rewrite parse_disposition. change (nothing (str "content-disposition")) with false.
  change (nothing (str "form-data; name=" ++ quote ++ p.1 ++ quote ++ [])) with false. cbn [orb].
  rewrite decide_True by done. rewrite search_name, drop_name, token_quoted by done. done.
Qed.

Lemma before_semicolon_idem v : parseContentType (before_semicolon v) = parseContentType v.
Proof.
  unfold parseContentType, before_semicolon. assert (E : take (find 59 (take (find 59 v) v)) (take (find 59 v) v) = take (find 59 v) v).
  { apply take_ge. assert (59 ∉ take (find 59 v) v) as Hn; [|rewrite (find_none _ _ Hn); lia].
    clear. induction v as [|c v IH]; cbn [find]; [set_solver|]. destruct (Z.eqb_spec c 59); [set_solver|].
    rewrite firstn_cons. by rewrite not_elem_of_cons. }
  by rewrite E.
Qed.

Lemma mime_no_cr t : 13 ∉ contentTypeToMime t.
Proof.
  intros H. pose proof (proj1 (Forall_forall _ _) (mime_plain t) 13 (proj1 (list_elem_of_In _ _) H)) as (_ & _ & Hn). done.
Qed.

Lemma parse_file f mp :
  name_ok (uf_itemName f) → name_ok (uf_fileName f) → uf_fileName f ≠ [] →
  parseEntity (file_entity f) mp = (0, add_file f mp).
Proof.
  intros (Hq1 & Hr1 & _) (Hq2 & Hr2 & _) Hne. unfold file_entity.
  assert (Hl : 13 ∉ file_head f).
  { apply disposition_no_cr; [done|]. rewrite !elem_of_app. intros [H|[H|[H|H]]]; [|set_solver | done | set_solver].
    revert H. apply (bool_decide_unpack _). by vm_compute. }
  assert (Hline : ∀ fuel head body,
    entity_lines (S fuel) (file_head f ++ CRLF ++ head) body new_file mp =
    entity_lines fuel head body (name_file (uf_itemName f) (uf_fileName f) body new_file) mp).
  { intros fuel head body. rewrite entity_line by done. unfold file_head. rewrite parse_disposition.
    change (nothing (str "content-disposition")) with false.
    set (rest := str "; filename=" ++ quote ++ uf_fileName f ++ quote).
    change (nothing (str "form-data; name=" ++ quote ++ uf_itemName f ++ quote ++ rest)) with false. cbn [orb].
    rewrite decide_True by done. rewrite search_name, drop_name, token_quoted by done.
    change (search (str "filename=") (34 :: rest)) with (Some 3%nat). cbv beta iota.
    change (drop (3 + 9) (34 :: rest)) with (34 :: uf_fileName f ++ 34 :: []). rewrite token_quoted by done. done. }
  assert (Hend : ∀ fuel file, hf_fileName file = uf_fileName f →
    entity_lines (S fuel) [] (file_bytes f) file mp = (0, {| mp_files := mp_files mp ++ [file]; mp_parameters := mp_parameters mp |})).
  { intros fuel file E. cbn [entity_lines nothing]. rewrite E. by destruct (uf_fileName f). }
  unfold type_line, add_file, received. destruct (bool_decide_reflect (uf_contentType f = CT_NONE)) as [->|Ht].
  - cbn [app]. rewrite parse_head by by apply search_head_end.
    change (file_head f ++ CRLF) with (file_head f ++ CRLF ++ []). rewrite Hline. rewrite (length_app (file_head f)), Nat.add_comm.
    change (length (CRLF ++ CRLF ++ file_bytes f) + length (file_head f))%nat
      with (S (S (2 + length (file_bytes f) + length (file_head f))))%nat.
    rewrite Hend by done. done.
  - assert (Hno : parseLine (str "content-type: " ++ contentTypeToMime (uf_contentType f)) =
      (str "content-type", contentTypeToMime (uf_contentType f))) by reflexivity.
    set (l2 := str "content-type: " ++ contentTypeToMime (uf_contentType f)) in *.
    assert (Hl2 : 13 ∉ l2).
    { unfold l2. rewrite elem_of_app. intros [H|H]; [|by apply mime_no_cr in H]. revert H. apply (bool_decide_unpack _). by vm_compute. }
    assert (El : file_head f ++ (CRLF ++ l2) ++ CRLF ++ CRLF ++ file_bytes f = (file_head f ++ CRLF ++ l2) ++ CRLF ++ CRLF ++ file_bytes f)
      by by rewrite <- !app_assoc.
    rewrite El, parse_head by (apply search_two_lines; [done | done | by destruct (contentTypeToMime (uf_contentType f))]).
    replace ((file_head f ++ CRLF ++ l2) ++ CRLF) with (file_head f ++ CRLF ++ l2 ++ CRLF ++ []) by by rewrite <- !app_assoc.
    rewrite Hline.
    rewrite (length_app (file_head f ++ _)), Nat.add_comm. 
    change (length (CRLF ++ CRLF ++ file_bytes f) + length (file_head f ++ CRLF ++ l2))%nat
      with (S (S (2 + length (file_bytes f) + length (file_head f ++ CRLF ++ l2))))%nat.
    rewrite entity_line, Hno by done.
    change (nothing (str "content-type")) with false. cbn [orb]. destruct (nothing (contentTypeToMime (uf_contentType f))) eqn:En.
    { exfalso. revert En. by destruct (uf_contentType f). }
    rewrite decide_False, decide_True by done. rewrite Hend by done. by rewrite before_semicolon_idem.
Qed.

(** ** The loop *)

(** A boundary that keeps clear of what stands around it, like the letters and
    digits a client draws. *)
Definition boundary_ok (boundary : list Z) : Prop :=
  boundary ≠ [] ∧ Forall (λ c, c ∉ [10; 13; 32; 34; 45; 59]) boundary.

(** What follows a boundary: the parts, each up to the next one. *)
Fixpoint after_boundary (boundary : list Z) (entities : list (list Z)) : list Z :=
  match entities with
  | [] => str "--"
  | e :: es => CRLF ++ e ++ CRLF ++ str "--" ++ boundary ++ after_boundary boundary es
  end.

Lemma boundary_without boundary c : boundary_ok boundary → c ∈ [10; 13; 32; 34; 45; 59] → c ∉ boundary.
Proof.
  intros [_ Hb] Hc Hin. exact (proj1 (Forall_forall _ _) Hb c (proj1 (list_elem_of_In _ _) Hin) Hc).
Qed.

(** The next boundary is the one behind the part. *)
Lemma search_next boundary e t :
  boundary_ok boundary → search boundary e = None →
  search boundary (e ++ CRLF ++ str "--" ++ boundary ++ t) = Some (length e + 4)%nat.
Proof.
  intros Hb He. assert (Hn : ∀ c, c ∈ [10; 13; 32; 34; 45; 59] → c ∉ boundary) by (intros c; by apply boundary_without).
  change (CRLF ++ str "--" ++ boundary ++ t) with (13 :: [10; 45; 45] ++ boundary ++ t).
  rewrite search_clean by (done || apply Hn; set_solver).
  destruct boundary as [|b boundary]; [by destruct Hb|].
  change (13 :: [10; 45; 45] ++ (b :: boundary) ++ t) with ([13; 10; 45; 45] ++ (b :: boundary) ++ t).
  rewrite search_past; [|pose proof (Hn 10 ltac:(set_solver)); pose proof (Hn 13 ltac:(set_solver)); pose proof (Hn 45 ltac:(set_solver)); set_solver].
  by rewrite search_here.
Qed.

Lemma drop_at {A} n (l k : list A) : n = length l → drop n (l ++ k) = k.
Proof. intros ->. apply drop_app_length. Qed.

Lemma loop_step fuel boundary pre e es p p' :
  boundary_ok boundary → search boundary e = None → parseEntity e p = (0, p') →
  parse_loop (S fuel) boundary (pre ++ boundary ++ after_boundary boundary (e :: es)) (Some (length pre)) p =
  parse_loop fuel boundary (pre ++ boundary ++ after_boundary boundary (e :: es))
    (Some (length (pre ++ boundary ++ CRLF ++ e ++ CRLF ++ str "--"))) p'.
Proof.
  intros Hb He Hp. cbn [parse_loop]. set (rest := boundary ++ after_boundary boundary es).
  assert (Hc : pre ++ boundary ++ after_boundary boundary (e :: es) =
    (pre ++ boundary) ++ CRLF ++ e ++ CRLF ++ str "--" ++ rest) by (cbn [after_boundary]; by rewrite <- app_assoc).
  rewrite Hc. set (content := (pre ++ boundary) ++ _).
  assert (H1 : drop (length pre + length boundary) content = CRLF ++ e ++ CRLF ++ str "--" ++ rest)
    by (apply drop_at; by rewrite length_app).
  assert (H2 : drop (length pre + length boundary + 2) content = e ++ CRLF ++ str "--" ++ rest).
  { unfold content. rewrite (app_assoc _ CRLF). apply drop_at. by rewrite !length_app. }
  rewrite H1, bool_decide_true by done. unfold find_from. rewrite H2. unfold rest at 1. rewrite search_next by done.
  cbn [fmap option_fmap option_map]. set (pos1 := (length pre + length boundary + 2)%nat) in *.
  rewrite (proj2 (Nat.ltb_ge _ _)) by lia. replace (pos1 + (length e + 4) - 4)%nat with (pos1 + length e)%nat by lia.
  assert (H3 : drop (pos1 + length e) content = CRLF ++ str "--" ++ rest).
  { unfold content. rewrite (app_assoc _ CRLF), (app_assoc _ e). apply drop_at. rewrite !length_app. unfold pos1. cbn. lia. }
  rewrite H3, bool_decide_true by done. rewrite (proj2 (Nat.ltb_ge _ _)) by lia.
  replace (pos1 + length e - pos1)%nat with (length e) by lia. rewrite take_app_length, Hp. f_equal. f_equal.
  rewrite !length_app. unfold pos1. cbn. lia.
Qed.

Lemma loop_end fuel boundary pre p :
  boundary_ok boundary → parse_loop (S fuel) boundary (pre ++ boundary ++ after_boundary boundary []) (Some (length pre)) p = Some (0, p).
Proof.
  intros Hb. pose proof (boundary_without _ 45 Hb ltac:(set_solver)) as H45. cbn [parse_loop after_boundary].
  assert (H1 : drop (length pre + length boundary) (pre ++ boundary ++ str "--") = str "--").
  { rewrite app_assoc. apply drop_at. by rewrite length_app. }
  rewrite H1, bool_decide_false by done. unfold find_from. rewrite H1.
  destruct boundary as [|b boundary]; [by destruct Hb|]. apply not_elem_of_cons in H45 as [H45 _].
  rewrite search_none; [done|]. intros Hin. apply H45. revert Hin. change (str "--") with [45; 45]. set_solver.
Qed.

(** Each part with what it does to the parser. *)
Lemma loop_parts boundary steps fuel pre p :
  boundary_ok boundary →
  Forall (λ s, search boundary s.1 = None ∧ ∀ p, parseEntity s.1 p = (0, s.2 p)) steps → (length steps < fuel)%nat →
  parse_loop fuel boundary (pre ++ boundary ++ after_boundary boundary (steps.*1)) (Some (length pre)) p =
  Some (0, fold_left (λ p s, s.2 p) steps p).
Proof.
  intros Hb Hs. revert fuel pre p. induction Hs as [|[e eff] steps [He Hp] _ IH]; intros fuel pre p Hf.
  - destruct fuel; [lia|]. by apply loop_end.
  - destruct fuel as [|fuel]; [cbn in Hf; lia|]. cbn [fmap list_fmap fst snd] in *. rewrite (loop_step _ _ _ _ _ _ (eff p)) by done.
    cbn [fold_left snd]. rewrite <- IH with (fuel := fuel) (pre := pre ++ boundary ++ CRLF ++ e ++ CRLF ++ str "--") by (cbn in Hf; lia).
    f_equal. cbn [after_boundary]. by rewrite <- !app_assoc.
Qed.

(** ** The whole content *)

Lemma delimited boundary es :
  (es ≫= λ e, str "--" ++ boundary ++ CRLF ++ e ++ CRLF) ++ str "--" ++ boundary ++ str "--" =
  str "--" ++ boundary ++ after_boundary boundary es.
Proof.
  induction es as [|e es IH]; [done|]. cbn [mbind list_bind after_boundary]. rewrite <- !app_assoc.
  change (list_bind _ _ _) with (es ≫= λ e, str "--" ++ boundary ++ CRLF ++ e ++ CRLF). by rewrite IH.
Qed.

Section Upload.
Context (order : gmap (list Z) (list Z) → list (list Z * list Z)).
Context (Horder : ∀ m, order m ≡ₚ map_to_list m).

Definition parts (r : OutRequest) (files : list UploadFile) : list (list Z * (MultiPartParser → MultiPartParser)) :=
  ((λ p, (parameter_entity p, add_parameter p)) <$> order (getParameters r)) ++
  ((λ f, (file_entity f, add_file f)) <$> files).

Lemma upload_text_parts r boundary files :
  upload_text order r boundary files = str "--" ++ boundary ++ after_boundary boundary ((parts r files).*1).
Proof.
  unfold parts. rewrite fmap_app, <- !list_fmap_compose. rewrite <- delimited, bind_app. unfold upload_text. rewrite <- app_assoc.
  assert (H : ∀ A (f g : A → list Z) (l : list A), (∀ x, g x = str "--" ++ boundary ++ CRLF ++ f x ++ CRLF) →
    l ≫= g = (f <$> l) ≫= λ e, str "--" ++ boundary ++ CRLF ++ e ++ CRLF).
  { intros A f g l Hg. induction l as [|x l IH]; [done|]. cbn [mbind list_bind fmap list_fmap]. by rewrite Hg, IH. }
  f_equal; [|f_equal]; apply H.
  - intros [k v]. unfold parameter_part, parameter_entity, compose. cbn [fst snd]. by rewrite <- !app_assoc.
  - intros f. unfold file_part, file_entity, file_head, type_line, compose. cbn [fst].
    destruct (bool_decide _); by rewrite <- ?app_assoc.
Qed.

Lemma parameters_collected ps p :
  fold_left (λ p s, s.2 p) ((λ q, (parameter_entity q, add_parameter q)) <$> ps) p =
  {| mp_files := mp_files p; mp_parameters := mp_parameters p ∪ list_to_map ps |}.
Proof.
  revert p. induction ps as [|[k v] ps IH]; intros [fs m]; cbn [fmap list_fmap fold_left snd].
  - cbn. by rewrite (right_id_L ∅ (∪)).
  - rewrite IH. unfold add_parameter. cbn [mp_files mp_parameters fst snd]. rewrite emplace_union, <- (assoc_L (∪)).
    cbn [list_to_map foldr uncurry]. by rewrite insert_union_singleton_l.
Qed.

Lemma files_collected fs p :
  fold_left (λ p s, s.2 p) ((λ f, (file_entity f, add_file f)) <$> fs) p =
  {| mp_files := mp_files p ++ (received <$> fs); mp_parameters := mp_parameters p |}.
Proof.
  revert p. induction fs as [|f fs IH]; intros [gs m]; cbn [fmap list_fmap fold_left snd].
  - cbn. by rewrite app_nil_r.
  - rewrite IH. unfold add_file. cbn [mp_files mp_parameters]. by rewrite <- app_assoc.
Qed.

(** An upload whose names stay between their quotes and whose parts do not hold the boundary. *)
Record upload_ok (r : OutRequest) (boundary : list Z) (files : list UploadFile) : Prop := {
  uo_method : method_ (or_req r) = Post ∨ method_ (or_req r) = Put ∨ method_ (or_req r) = Patch;
  uo_type : or_contentType r = CT_MULTIPART_FORM_DATA;
  uo_string : or_contentTypeString r = str "multipart/form-data; boundary=" ++ boundary;
  uo_upload : or_upload r = Some (boundary, files);
  uo_content : content_ (or_req r) = [];
  uo_boundary : boundary_ok boundary;
  uo_parameters : map_Forall (λ k v, name_ok k ∧ search boundary (parameter_entity (k, v)) = None) (getParameters r);
  uo_files : Forall (λ f, name_ok (uf_itemName f) ∧ name_ok (uf_fileName f) ∧ uf_fileName f ≠ [] ∧
                          search boundary (file_entity f) = None) files
}.

Lemma parts_ok r boundary files :
  upload_ok r boundary files →
  Forall (λ s, search boundary s.1 = None ∧ ∀ p, parseEntity s.1 p = (0, s.2 p)) (parts r files).
Proof.
  intros Hu. unfold parts. apply Forall_app_2; apply Forall_fmap.
  - rewrite Horder. pose proof (uo_parameters _ _ _ Hu) as H. rewrite map_Forall_to_list in H.
    eapply List.Forall_impl; [|exact H]. intros [k v] [Hn Hs]. split; [done|]. intros p. by apply parse_parameter.
  - eapply List.Forall_impl; [|exact (uo_files _ _ _ Hu)]. intros f (H1 & H2 & H3 & H4). split; [done|]. intros p. by apply parse_file.
Qed.

Lemma content_parsed r boundary files :
  upload_ok r boundary files →
  parse_content boundary (upload_text order r boundary files) new_multipart =
  Some (0, {| mp_files := received <$> files; mp_parameters := getParameters r |}).
Proof.
  intros Hu. pose proof (uo_boundary _ _ _ Hu) as Hb. unfold parse_content.
  assert (Eb : bool_decide (list.head boundary = Some 34) = false).
  { apply bool_decide_false. pose proof (boundary_without _ 34 Hb ltac:(set_solver)) as H34.
    destruct boundary as [|b boundary]; [done|]. intros [= ->]. apply H34. set_solver. }
  rewrite Eb, andb_false_r, upload_text_parts.
  assert (Es : search boundary (str "--" ++ boundary ++ after_boundary boundary ((parts r files).*1)) = Some 2%nat).
  { pose proof (boundary_without _ 45 Hb ltac:(set_solver)) as H45. destruct boundary as [|b boundary]; [by destruct Hb|].
    apply not_elem_of_cons in H45 as [H45 _]. rewrite search_past; [by rewrite search_here|].
    change (str "--") with [45; 45]. set_solver. }
  rewrite Es. change 2%nat with (length (str "--")). rewrite loop_parts; [|done | by apply parts_ok|].
  - f_equal. f_equal. unfold parts. rewrite fold_left_app, parameters_collected, files_collected. cbn.
    by rewrite (left_id_L ∅ (∪)), (order_map order Horder).
  - assert (H : ∀ es, (length es ≤ length (after_boundary boundary es))%nat).
    { induction es as [|e es IH]; cbn [after_boundary length]; [lia|]. rewrite !length_app. cbn. lia. }
    specialize (H ((parts r files).*1)). rewrite length_fmap in H. rewrite !length_app. lia.
Qed.
End Upload.

(** ** Properties *)


(** Two files and a parameter. *)
Definition photo : UploadFile :=
  {| uf_data := Some [137; 80; 0; 13; 10]; uf_disk := None; uf_fileName := str "p.png"; uf_itemName := str "photo"; uf_contentType := CT_IMAGE_PNG |}.
Definition note : UploadFile :=
  {| uf_data := None; uf_disk := Some (str "hello"); uf_fileName := str "n.txt"; uf_itemName := str "note"; uf_contentType := CT_NONE |}.
Definition upload_demo : OutRequest := setParameter (str "a b") (str "--") (newFileUploadRequest (str "k3yW0rd") [photo; note]).

Lemma upload_demo_ok : upload_ok upload_demo (str "k3yW0rd") [photo; note].
Proof.
  split.
  - by left.
  - done.
  - done.
  - done.
  - done.
  - split; [done | decide_it].
  - change (map_Forall (λ k v, name_ok k ∧ search (str "k3yW0rd") (parameter_entity (k, v)) = None)
      ({[str "a b" := str "--"]} : gmap (list Z) (list Z))).
    apply map_Forall_singleton. split; [unfold name_ok; decide_it | by vm_compute].
  - each ltac:(split_and!; [unfold name_ok; decide_it | unfold name_ok; decide_it | done | by vm_compute]).
Qed.

Lemma upload_demo_sent : client_ok map_to_list (2 ^ 20) upload_demo.
Proof.
  split.
  - discriminate.
  - discriminate.
  - reflexivity.
  - by left.
  - decide_it.
  - apply List.Forall_nil.
  - split; decide_it.
  - split; [reflexivity | discriminate].
  - change (map_Forall (λ k v, Forall byte k ∧ Forall byte v) ({[str "a b" := str "--"]} : gmap (list Z) (list Z))).
    apply map_Forall_singleton. unfold byte. decide_it.
  - line_max_it.
  - apply map_Forall_empty.
  - apply map_Forall_empty.
  - apply List.Forall_nil.
  - split; [decide_it|]. split; [split; reflexivity | line_max_it].
  - intros _. by vm_compute.
  - done.
  - vm_compute. discriminate.
Qed.

