(* ===== verification/HttpClient.v ===== *)
(** * The HTTP client

    [HttpClientImpl] of src/src/drogon/lib/src/HttpClientImpl.cc over the
    [TcpClient] of src/src/drogon/trantor/net/TcpClient.cc: requests that wait
    for a connection or a turn in the pipeline, responses, time-outs, errors,
    closing and name resolution.

    User callbacks run inside the client's loops and may send requests from
    there, so the control stack is part of the state: a frame for each loop or
    function that is suspended in a callback.  What the parser finds in a
    segment ([outcome]), what the connector and the resolver report and when is
    open.  A request is known by the number of its call; encoding it is
    ClientRequest, parsing responses ResponseParser. *)

From stdpp Require Import base list numbers option.
From Stdlib Require Import ZArith Lia.
From S2P Require Import Prelude.

(** ** Data *)

Inductive ReqResult := Ok | BadResponse | NetworkFailure | BadServerAddress | Timeout | HandshakeError | InvalidCertificate | EncryptionFailure.

#[export] Instance ReqResult_eq_dec : EqDecision ReqResult.
Proof. solve_decision. Defined.

(** [serverAddr_], [domain_] and [isDomainName_] as the client was made. *)
Inductive Address := ValidIp | InvalidIp | DomainName.

(** A call of [sendRequest]: the request object, whether it has a time-out, and [timeoutFlag]. *)
Record Call := { c_req : nat; c_timed : bool; c_flag : bool }.

(** A [TcpClient] makes one connection.  [t_expect] is a parser that waits for
    the end of the connection ([kExpectClose]), [t_closing] a shutdown that waits
    for the output to go ([closeOnEmpty_]). *)
Inductive ConnStatus := Connecting | Connected | Disconnecting | Disconnected.

#[export] Instance ConnStatus_eq_dec : EqDecision ConnStatus.
Proof. solve_decision. Defined.

Record Tcp := { t_status : ConnStatus; t_expect : bool; t_closing : bool }.

(** What [parseResponse] finds: a response, nonsense, or the end of the data.
    The parser shuts the connection down where it begins to wait for its end
    ([expect]), and also where it then finds that the request was a HEAD ([shut]). *)
Inductive outcome := MResp (shut close : bool) | MBad | MPart (expect : bool).

Inductive frame :=
| KUser (i : nat)                        (* the callback of a call *)
| KSetup                                 (* [createTcpClient], after the assignment *)
| KConnect                               (* [TcpClient::connect] *)
| KResolve                               (* [Resolver::resolve] *)
| KRecv (k : nat) (outs : list outcome)  (* the loop of [onRecvMessage] *)
| KHandle (k : nat) (close : bool)       (* [handleResponse], after the callback *)
| KFail                                  (* the last loop of [handleResponse] *)
| KDisc (k : nat)                        (* the connection callback, disconnected *)
| KClosed (k : nat)                      (* the same, after [tcpClientPtr_.reset()] *)
| KClosePath                             (* the same, after [handleResponse] *)
| KErrPipe (r : ReqResult)               (* the loops of [onError] *)
| KErrBuf (r : ReqResult)
| KDns                                   (* the loop after a failed resolution *)
| KDnsPop.

Inductive event :=
| ESent (k i : nat)                      (* call [i]'s request goes to connection [k] *)
| EGot (k i : nat)                       (* a response of connection [k] is taken for call [i] *)
| EHalf (k : nat)                        (* shut down, but not to wait for the end of a response *)
| ECall (i : nat) (r : ReqResult).       (* the user's callback is called *)

#[export] Instance event_eq_dec : EqDecision event.
Proof. solve_decision. Defined.

Record Client := {
  calls : list Call;
  tcp : option nat;                      (* [tcpClientPtr_] *)
  tcps : list Tcp;
  pipe : list nat;                       (* [pipeliningCallbacks_] *)
  buffer : list nat;                     (* [requestsBuffer_] *)
  dns : bool;
  stack : list frame;
  crashed : bool;
  trace : list event
}.

Definition new_client : Client :=
  {| calls := []; tcp := None; tcps := []; pipe := []; buffer := []; dns := false; stack := []; crashed := false; trace := [] |}.

Definition set_calls (l : list Call) (w : Client) : Client :=
  {| calls := l; tcp := tcp w; tcps := tcps w; pipe := pipe w; buffer := buffer w; dns := dns w; stack := stack w;
     crashed := crashed w; trace := trace w |}.
Definition set_tcp (t : option nat) (w : Client) : Client :=
  {| calls := calls w; tcp := t; tcps := tcps w; pipe := pipe w; buffer := buffer w; dns := dns w; stack := stack w;
     crashed := crashed w; trace := trace w |}.
Definition set_tcps (l : list Tcp) (w : Client) : Client :=
  {| calls := calls w; tcp := tcp w; tcps := l; pipe := pipe w; buffer := buffer w; dns := dns w; stack := stack w;
     crashed := crashed w; trace := trace w |}.
Definition set_queues (p b : list nat) (w : Client) : Client :=
  {| calls := calls w; tcp := tcp w; tcps := tcps w; pipe := p; buffer := b; dns := dns w; stack := stack w;
     crashed := crashed w; trace := trace w |}.
Definition set_dns (d : bool) (w : Client) : Client :=
  {| calls := calls w; tcp := tcp w; tcps := tcps w; pipe := pipe w; buffer := buffer w; dns := d; stack := stack w;
     crashed := crashed w; trace := trace w |}.
Definition set_stack (s : list frame) (w : Client) : Client :=
  {| calls := calls w; tcp := tcp w; tcps := tcps w; pipe := pipe w; buffer := buffer w; dns := dns w; stack := s;
     crashed := crashed w; trace := trace w |}.
Definition crash (w : Client) : Client :=
  {| calls := calls w; tcp := tcp w; tcps := tcps w; pipe := pipe w; buffer := buffer w; dns := dns w; stack := [];
     crashed := true; trace := trace w |}.
Definition emit (e : event) (w : Client) : Client :=
  {| calls := calls w; tcp := tcp w; tcps := tcps w; pipe := pipe w; buffer := buffer w; dns := dns w; stack := stack w;
     crashed := crashed w; trace := trace w ++ [e] |}.

Definition push (f : frame) (w : Client) : Client := set_stack (f :: stack w) w.
Definition pop (w : Client) : Client := set_stack (tail (stack w)) w.

Definition no_call : Call := {| c_req := 0; c_timed := false; c_flag := false |}.
Definition call_of (i : nat) (w : Client) : Call := default no_call (calls w !! i).
Definition no_tcp : Tcp := {| t_status := Disconnected; t_expect := false; t_closing := false |}.
Definition new_tcp : Tcp := {| t_status := Connecting; t_expect := false; t_closing := false |}.
Definition tcp_of (k : nat) (w : Client) : Tcp := default no_tcp (tcps w !! k).
Definition status (k : nat) (w : Client) : ConnStatus := t_status (tcp_of k w).
Definition expects (k : nat) (w : Client) : bool := t_expect (tcp_of k w).
Definition closing (k : nat) (w : Client) : bool := t_closing (tcp_of k w).
Definition set_status (k : nat) (s : ConnStatus) (w : Client) : Client :=
  set_tcps (alter (λ t, {| t_status := s; t_expect := t_expect t; t_closing := t_closing t |}) k (tcps w)) w.
Definition set_expect (k : nat) (e : bool) (w : Client) : Client :=
  set_tcps (alter (λ t, {| t_status := t_status t; t_expect := e; t_closing := t_closing t |}) k (tcps w)) w.
Definition set_closing (k : nat) (w : Client) : Client :=
  set_tcps (alter (λ t, {| t_status := t_status t; t_expect := t_expect t; t_closing := true |}) k (tcps w)) w.
Definition flag (i : nat) (w : Client) : Client :=
  set_calls (alter (λ c, {| c_req := c_req c; c_timed := c_timed c; c_flag := true |}) i (calls w)) w.

(** ** The client's functions *)

Section Operations.
Context (address : Address) (pipeliningDepth : nat).

(** The callback of a call; with a time-out it does nothing after the first time. *)
Definition invoke (i : nat) (r : ReqResult) (w : Client) : Client :=
  if c_timed (call_of i w) then
    if c_flag (call_of i w) then w else push (KUser i) (emit (ECall i r) (flag i w))
  else push (KUser i) (emit (ECall i r) w).

(** [handleClose] of a connection: the connection callback comes first. *)
Definition handleClose (k : nat) (w : Client) : Client := push (KDisc k) (set_status k Disconnected w).

(** [~TcpClient]: an open connection is closed at once, a connector stopped. *)
Definition destroy (old : option nat) (w : Client) : Client :=
  match old with
  | None => w
  | Some k =>
      match status k w with
      | Connecting => set_status k Disconnected w
      | Connected | Disconnecting => handleClose k w
      | Disconnected => w
      end
  end.

(** [tcpClientPtr_.reset()] *)
Definition reset (w : Client) : Client := destroy (tcp w) (set_tcp None w).

(** [createTcpClient]: the new client is assigned, which destroys the old one,
    and then set up through [tcpClientPtr_]. *)
Definition createTcpClient (w : Client) : Client :=
  destroy (tcp w)
    (push KSetup (set_tcp (Some (length (tcps w))) (set_tcps (tcps w ++ [new_tcp]) w))).

Definition onError (r : ReqResult) (w : Client) : Client := push (KErrPipe r) w.

(** [sendReq] and the push to the pipeline. *)
Definition send_now (k i : nat) (w : Client) : Client := emit (ESent k i) (set_queues (pipe w ++ [i]) (buffer w) w).
Definition wait (i : nat) (w : Client) : Client := set_queues (pipe w) (buffer w ++ [i]) w.

Definition sendRequestInLoop (req : nat) (timed : bool) (w : Client) : Client :=
  let i := length (calls w) in
  let w := set_calls (calls w ++ [{| c_req := req; c_timed := timed; c_flag := false |}]) w in
  match tcp w with
  | None =>
      let w := wait i w in
      match address with
      | ValidIp => createTcpClient w
      | InvalidIp => invoke i BadServerAddress (set_queues (pipe w) (tail (buffer w)) w)
      | DomainName => if dns w then w else push KResolve (set_dns true w)
      end
  | Some k =>
      match status k w with
      | Connecting | Disconnected => wait i w
      | Connected | Disconnecting =>
          if (length (pipe w) <=? pipeliningDepth)%nat && bool_decide (buffer w = []) then send_now k i w else wait i w
      end
  end.

(** [handleResponse]: the first request of the pipeline is answered. *)
Definition handleResponse (k : nat) (close : bool) (w : Client) : Client :=
  match pipe w with
  | [] => crash w
  | i :: rest => invoke i Ok (push (KHandle k close) (emit (EGot k i) (set_queues rest (buffer w) w)))
  end.

Definition after_response (k : nat) (close : bool) (w : Client) : Client :=
  match status k w with
  | Connected =>
      match buffer w with
      | i :: rest => send_now k i (set_queues (pipe w) rest w)
      | [] => if close && bool_decide (pipe w = []) then reset w else w
      end
  | _ => push KFail w
  end.

(** The loop of the connection callback, when connected. *)
Fixpoint send_waiting (fuel : nat) (k : nat) (w : Client) : Client :=
  match fuel, buffer w with
  | S fuel, i :: rest =>
      if (length (pipe w) <=? pipeliningDepth)%nat then send_waiting fuel k (send_now k i (set_queues (pipe w) rest w)) else w
  | _, _ => w
  end.

(** [TcpConnectionImpl::shutdown]; [gone] when the output has gone. *)
Definition shutdown (gone : bool) (k : nat) (w : Client) : Client :=
  match status k w with
  | Connected => if gone then set_status k Disconnecting w else set_closing k w
  | _ => w
  end.

(** The top frame goes on.  A parser that waits for the end takes all the data. *)
Definition run (gone : bool) (w : Client) : Client :=
  match stack w with
  | [] | KUser _ :: _ => w
  | KSetup :: _ => match tcp w with None => crash w | Some _ => push KConnect (pop w) end
  | KConnect :: _ | KResolve :: _ => pop w
  | KRecv k [] :: _ => pop w
  | KRecv k (o :: outs) :: _ =>
      match pipe w with
      | [] => shutdown gone k (emit (EHalf k) (pop w))
      | _ =>
          if expects k w then pop w
          else
            match o with
            | MResp shut close =>
                let w := push (KRecv k outs) (pop w) in
                handleResponse k close (if shut then shutdown gone k (emit (EHalf k) w) else w)
            | MBad => onError BadResponse (pop w)
            | MPart expect => if expect then shutdown gone k (set_expect k true (pop w)) else pop w
            end
      end
  | KHandle k close :: _ => after_response k close (pop w)
  | KFail :: _ =>
      match pipe w with
      | [] => pop w
      | i :: rest => invoke i NetworkFailure (set_queues rest (buffer w) w)
      end
  | KDisc k :: _ =>
      if expects k w then
        match pipe w with
        | [] => crash w
        | _ => reset (push (KClosed k) (set_expect k false (pop w)))
        end
      else onError NetworkFailure (pop w)
  | KClosed k :: _ => handleResponse k true (push KClosePath (pop w))
  | KClosePath :: _ => if bool_decide (buffer w = []) then pop w else createTcpClient (pop w)
  | KErrPipe r :: _ =>
      match pipe w with
      | [] => push (KErrBuf r) (pop w)
      | i :: rest => invoke i r (set_queues rest (buffer w) w)
      end
  | KErrBuf r :: _ =>
      match buffer w with
      | [] => reset (pop w)
      | i :: rest => invoke i r (set_queues (pipe w) rest w)
      end
  | KDns :: _ =>
      match buffer w with
      | [] => pop w
      | i :: _ => invoke i BadServerAddress (push KDnsPop w)
      end
  | KDnsPop :: _ =>
      match buffer w with
      | [] => crash w
      | _ :: rest => set_queues (pipe w) rest (pop w)
      end
  end.

(** The timer of a call: the first waiting request that is the same object is taken out. *)
Definition timeout (i : nat) (w : Client) : Client :=
  let same j := bool_decide (c_req (call_of j w) = c_req (call_of i w)) in
  let erased := match list_find same (buffer w) with Some (n, _) => delete n (buffer w) | None => buffer w end in
  push (KUser i) (emit (ECall i Timeout) (set_queues (pipe w) erased (flag i w))).

(** The resolver's answer. *)
Definition resolved (found : bool) (w : Client) : Client :=
  let w := set_dns false w in
  if found then createTcpClient w else push KDns w.

(** ** The steps

    Outside of callbacks the loop takes the next event.  A timer lives while
    the client holds the callback of its call. *)
Definition idle (w : Client) : Prop := stack w = [].
Definition up (k : nat) (w : Client) : Prop := status k w = Connected ∨ status k w = Disconnecting.

Inductive step (tls : bool) : Client → Client → Prop :=
| SSend req timed w : idle w ∨ (∃ i s, stack w = KUser i :: s) → step tls w (sendRequestInLoop req timed w)
| SReturn i s w : stack w = KUser i :: s → step tls w (pop w)
| SRun gone w : step tls w (run gone w)
| SRefused k s w : stack w = KConnect :: s → tcp w = Some k → step tls w (onError BadServerAddress (pop w))
| SFound found s w : stack w = KResolve :: s → step tls w (resolved found (pop w))
| SConnected k w :
    idle w → tcp w = Some k → status k w = Connecting →
    step tls w (send_waiting (length (buffer w)) k (set_status k Connected w))
| SConnectError k w : idle w → tcp w = Some k → status k w = Connecting → step tls w (onError BadServerAddress w)
| SMessage k outs w : idle w → up k w → step tls w (push (KRecv k outs) w)
| SDrained k w : idle w → status k w = Connected → closing k w = true → step tls w (set_status k Disconnecting w)
| SClosed k w : idle w → up k w → step tls w (handleClose k w)
| STimeout i w :
    idle w → i ∈ pipe w ++ buffer w → c_timed (call_of i w) = true → c_flag (call_of i w) = false → step tls w (timeout i w)
| SResolved found w : idle w → dns w = true → step tls w (resolved found w)
| STlsError k r w : tls = true → idle w → tcp w = Some k → up k w → step tls w (onError r w).
End Operations.
