(* ===== verification/Pipelining.v ===== *)
(** * Responses in the order of the requests

    One HTTP connection of the server:
    src/src/drogon/lib/src/HttpServer.cc, [onRequests] and [handleResponse],
    with the pipeline of src/src/drogon/lib/src/HttpRequestParser.cc.  A
    client may send several requests before it reads a response; handlers
    answer at once, later, from the connection's loop or (as drogonR does)
    from another thread, in any order and possibly more than once.

    The connection is a transition system; [started] is the sequence of the
    requests handed to handlers and [answered] the response each request's
    [responseSent_] flag let through.  [sent] is what went to
    [sendResponses].  drogonR registers no advices, so the advice hooks of
    [onRequests] let every request pass and are left out, as are compression
    and sessions, which do not touch the order. *)

From stdpp Require Import base gmap list numbers.
From Stdlib Require Import ZArith Lia.
From S2P Require Import Prelude.

Section Pipelining.
(** The responses. *)
Context {R : Type}.

(** ** The pipeline of a connection *)

(** A request (its id) with the response it has got and whether it was a HEAD. *)
Definition entry : Type := Z * (option R * bool).

Definition pushRequestToPipelining (req : Z) (isHeadMethod : bool) (pl : list entry) : list entry :=
  pl ++ [(req, (None, isHeadMethod))].

(** Also tells whether the response is the first in the pipeline. *)
Fixpoint pushResponseToPipelining (req : Z) (resp : R) (pl : list entry) : list entry * bool :=
  match pl with
  | [] => ([], false)
  | (q, (r, h)) :: pl' =>
      if q =? req then ((q, (Some resp, h)) :: pl', true)
      else ((q, (r, h)) :: fst (pushResponseToPipelining req resp pl'), false)
  end.

Fixpoint popReadyResponses (pl : list entry) (buffer : list (R * bool)) : list entry * list (R * bool) :=
  match pl with
  | (_, (Some r, h)) :: pl' => popReadyResponses pl' (buffer ++ [(r, h)])
  | _ => (pl, buffer)
  end.

(** ** The connection *)

(** Where the loop thread is: outside [onRequests], between two iterations of
    its loop, or inside the handler of a request. *)
Inductive phase :=
| Idle
| Next (rest : list (Z * bool))
| In (req : Z) (isHeadMethod reqPipelined respReady : bool) (rest : list (Z * bool)).

Record Conn := {
  requestPipelining_ : list entry;
  responseBuffer_ : list (R * bool);
  sent : list (R * bool);
  tasks : list (Z * R);
  connected : bool;
  stopWorking_ : bool;
  ph : phase;
  started : list (Z * bool);
  answered : gmap Z R
}.

Definition set_pipe (pl : list entry) (buf : list (R * bool)) (c : Conn) : Conn :=
  {| requestPipelining_ := pl; responseBuffer_ := buf; sent := sent c; tasks := tasks c;
     connected := connected c; stopWorking_ := stopWorking_ c; ph := ph c; started := started c;
     answered := answered c |}.
Definition set_sent (out : list (R * bool)) (c : Conn) : Conn :=
  {| requestPipelining_ := requestPipelining_ c; responseBuffer_ := responseBuffer_ c; sent := out;
     tasks := tasks c; connected := connected c; stopWorking_ := stopWorking_ c; ph := ph c;
     started := started c; answered := answered c |}.
Definition set_tasks (ts : list (Z * R)) (c : Conn) : Conn :=
  {| requestPipelining_ := requestPipelining_ c; responseBuffer_ := responseBuffer_ c; sent := sent c;
     tasks := ts; connected := connected c; stopWorking_ := stopWorking_ c; ph := ph c;
     started := started c; answered := answered c |}.
Definition set_phase (p : phase) (c : Conn) : Conn :=
  {| requestPipelining_ := requestPipelining_ c; responseBuffer_ := responseBuffer_ c; sent := sent c;
     tasks := tasks c; connected := connected c; stopWorking_ := stopWorking_ c; ph := p;
     started := started c; answered := answered c |}.
Definition set_answered (m : gmap Z R) (c : Conn) : Conn :=
  {| requestPipelining_ := requestPipelining_ c; responseBuffer_ := responseBuffer_ c; sent := sent c;
     tasks := tasks c; connected := connected c; stopWorking_ := stopWorking_ c; ph := ph c;
     started := started c; answered := m |}.
Definition add_started (r : Z * bool) (c : Conn) : Conn :=
  {| requestPipelining_ := requestPipelining_ c; responseBuffer_ := responseBuffer_ c; sent := sent c;
     tasks := tasks c; connected := connected c; stopWorking_ := stopWorking_ c; ph := ph c;
     started := started c ++ [r]; answered := answered c |}.

(** [conn->shutdown()], or the peer is gone: [connected()] is false from now on. *)
Definition disconnect (stop : bool) (c : Conn) : Conn :=
  {| requestPipelining_ := requestPipelining_ c; responseBuffer_ := responseBuffer_ c; sent := sent c;
     tasks := tasks c; connected := false; stopWorking_ := stop || stopWorking_ c; ph := ph c;
     started := started c; answered := answered c |}.

Definition new_conn : Conn :=
  {| requestPipelining_ := []; responseBuffer_ := []; sent := []; tasks := []; connected := true;
     stopWorking_ := false; ph := Idle; started := []; answered := ∅ |}.

(** [*loopFlagPtr]: [onRequests] has not reached its end. *)
Definition loopFlag (c : Conn) : bool := match ph c with Idle => false | _ => true end.

(** [*respReadyPtr = true] *)
Definition respReady (c : Conn) : Conn :=
  match ph c with In q h p _ rest => set_phase (In q h p true rest) c | _ => c end.

(** ** [onRequests] *)

(** Up to the loop; [parsed] is [numberOfRequestsParsed()], and a limit of 0 means none. *)
Definition onRequests (keepalive pipelining parsed : Z) (requests : list (Z * bool)) (c : Conn) : Conn :=
  if (0 <? keepalive) && (keepalive <=? parsed) then disconnect true c
  else if (0 <? pipelining) &&
          (pipelining <=? Z.of_nat (length (requestPipelining_ c) + length requests)) then disconnect true c
  else if negb (connected c) then c
  else set_phase (Next requests) c.

(** The head of an iteration, up to the call of the handler. *)
Definition begin_request (c : Conn) : Conn :=
  match ph c with
  | Next ((req, isHeadMethod) :: rest) =>
      let c := add_started (req, isHeadMethod) c in
      match requestPipelining_ c with
      | [] => set_phase (In req isHeadMethod false false rest) c
      | pl => set_phase (In req isHeadMethod true false rest)
                (set_pipe (pushRequestToPipelining req isHeadMethod pl) (responseBuffer_ c) c)
      end
  | _ => c
  end.

(** The end of an iteration, after the handler returned. *)
Definition end_request (c : Conn) : Conn :=
  match ph c with
  | In req isHeadMethod reqPipelined ready rest =>
      let c := if negb reqPipelined && negb ready
               then set_pipe (pushRequestToPipelining req isHeadMethod (requestPipelining_ c)) (responseBuffer_ c) c
               else c in
      set_phase (Next rest) c
  | _ => c
  end.

(** After the loop: the responses gathered meanwhile are sent together. *)
Definition end_requests (c : Conn) : Conn :=
  match ph c with
  | Next [] =>
      let c := set_phase Idle c in
      match connected c, responseBuffer_ c with
      | true, (_ :: _) as buf => set_sent (sent c ++ buf) (set_pipe (requestPipelining_ c) [] c)
      | _, _ => c
      end
  | _ => c
  end.

(** ** [handleResponse] *)

(** The part that runs on the connection's loop, in [handleResponse] itself. *)
Definition deliver_in_loop (req : Z) (isHeadMethod : bool) (resp : R) (c : Conn) : Conn :=
  match requestPipelining_ c with
  | [] => respReady (set_pipe [] (responseBuffer_ c ++ [(resp, isHeadMethod)]) c)
  | pl =>
      let '(pl', first) := pushResponseToPipelining req resp pl in
      if first then
        let '(pl'', buf) := popReadyResponses pl' (responseBuffer_ c) in
        if loopFlag c then set_pipe pl'' buf c
        else set_sent (sent c ++ buf) (set_pipe pl'' [] c)
      else set_pipe pl' (responseBuffer_ c) c
  end.

Definition handleResponse (inLoop : bool) (req : Z) (isHeadMethod : bool) (resp : R) (c : Conn) : Conn :=
  if negb (connected c) then c
  else
    match answered c !! req with
    | Some _ => c
    | None =>
        let c := set_answered (<[req := resp]> (answered c)) c in
        if inLoop then deliver_in_loop req isHeadMethod resp c
        else set_tasks (tasks c ++ [(req, resp)]) c
    end.

(** The lambda another thread's response queues on the loop. *)
Definition run_task (c : Conn) : Conn :=
  match tasks c with
  | [] => c
  | (req, resp) :: ts =>
      let c := set_tasks ts c in
      if negb (connected c) then c
      else
        let '(pl', first) := pushResponseToPipelining req resp (requestPipelining_ c) in
        if first then
          let '(pl'', responses) := popReadyResponses pl' [] in
          set_sent (sent c ++ responses) (set_pipe pl'' (responseBuffer_ c) c)
        else set_pipe pl' (responseBuffer_ c) c
  end.

(** ** Runs of a connection

    The loop thread runs one callback at a time: a batch of requests, a
    queued lambda, or some other callback in which a handler answers.  Other
    threads answer whenever they like, after their handler was called. *)
Inductive step : Conn → Conn → Prop :=
| st_batch keepalive pipelining parsed requests c :
    ph c = Idle → NoDup (requests.*1) → (∀ q, q ∈ requests.*1 → q ∉ (started c).*1) →
    step c (onRequests keepalive pipelining parsed requests c)
| st_begin c : step c (begin_request c)
| st_end c : step c (end_request c)
| st_ends c : step c (end_requests c)
| st_answer inLoop req isHeadMethod resp c :
    (req, isHeadMethod) ∈ started c → (inLoop = true → ∀ rest, ph c ≠ Next rest) →
    step c (handleResponse inLoop req isHeadMethod resp c)
| st_task c : ph c = Idle → step c (run_task c)
| st_disconnect c : step c (disconnect false c).
End Pipelining.
#[global] Arguments entry R : clear implicits.
#[global] Arguments Conn R : clear implicits.

(** ** Lemmas on the pipeline *)

Section Lemmas.
Context {R : Type}.
Implicit Types (c : Conn R) (pl : list (entry R)).

(** The requests of a pipeline, with their HEAD flags. *)
Definition reqs pl : list (Z * bool) := (λ e, (e.1, e.2.2)) <$> pl.

Definition is_ready (e : entry R) : Prop := is_Some e.2.1.

(** The first entry waits for its response. *)
Definition head_waits pl : Prop := match pl with [] => True | e :: _ => e.2.1 = None end.

Lemma reqs_app pl1 pl2 : reqs (pl1 ++ pl2) = reqs pl1 ++ reqs pl2.
Proof. apply fmap_app. Qed.

Lemma push_spec req resp pl1 o h pl2 :
  req ∉ (reqs pl1).*1 →
  pushResponseToPipelining req resp (pl1 ++ (req, (o, h)) :: pl2) =
    (pl1 ++ (req, (Some resp, h)) :: pl2, bool_decide (pl1 = [])).
Proof.
  induction pl1 as [|[q [r h']] pl1 IH]; intros Hq; cbn.
  - by rewrite Z.eqb_refl.
  - cbn in Hq. apply not_elem_of_cons in Hq as [Hne Hq].
    destruct (Z.eqb_spec q req); [congruence|]. by rewrite IH.
Qed.

Lemma pop_spec pl buf :
  ∃ out pl', popReadyResponses pl buf = (pl', buf ++ ((λ e, (e.1.2, e.2)) <$> out)) ∧
    pl = ((λ e, (e.1.1, (Some e.1.2, e.2))) <$> out) ++ pl' ∧ head_waits pl'.
Proof.
  revert buf. induction pl as [|[q [[r|] h]] pl IH]; intros buf.
  - exists [], []. cbn. by rewrite app_nil_r.
  - destruct (IH (buf ++ [(r, h)])) as (out & pl' & E & -> & Hw). exists ((q, r, h) :: out), pl'.
    cbn. rewrite E, <- app_assoc. done.
  - exists [], ((q, (None, h)) :: pl). cbn. by rewrite app_nil_r.
Qed.

(** ** The invariant *)

(** The request whose handler runs and which is in no queue. *)
Definition current c : list (Z * bool) :=
  match ph c with In q h false false _ => [(q, h)] | _ => [] end.

Definition upcoming c : list (Z * bool) :=
  match ph c with Idle => [] | Next rest => rest | In _ _ _ _ rest => rest end.

(** [done]: the requests whose responses are sent or about to be. *)
Record inv (done : list (Z * bool)) c : Prop := {
  i_fresh : NoDup ((started c ++ upcoming c).*1);
  i_split : started c = done ++ reqs (requestPipelining_ c) ++ current c;
  i_out : Forall2 (λ qh rh, answered c !! qh.1 = Some rh.1 ∧ qh.2 = rh.2) done (sent c ++ responseBuffer_ c);
  i_ready : ∀ q r h, (q, (Some r, h)) ∈ requestPipelining_ c → answered c !! q = Some r;
  i_head : head_waits (requestPipelining_ c);
  i_direct : ∀ q h b rest, ph c = In q h false b rest → requestPipelining_ c = [];
  i_tasks : NoDup ((tasks c).*1) ∧ ∀ q r, (q, r) ∈ tasks c → answered c !! q = Some r ∧
      q ∉ done.*1 ∧ (∀ r' h, (q, (Some r', h)) ∉ requestPipelining_ c);
  i_known : ∀ q r, answered c !! q = Some r → q ∈ (started c).*1;
  i_kept : connected c = true → ∀ q r, answered c !! q = Some r →
      (q, r) ∈ tasks c ∨ q ∈ done.*1 ∨ ∃ h, (q, (Some r, h)) ∈ requestPipelining_ c;
  i_idle : ph c = Idle → connected c = true → responseBuffer_ c = []
}.

Lemma done_answered done c q : inv done c → q ∈ done.*1 → is_Some (answered c !! q).
Proof.
  intros Hi Hq. pose proof (i_out _ _ Hi) as Ho. apply list_elem_of_fmap in Hq as ([q' h] & -> & Hq).
  apply list_elem_of_lookup in Hq as [i Hi']. apply (Forall2_lookup_l _ _ _ _ _ Ho) in Hi' as (rh & _ & E & _).
  cbn in *. by rewrite E.
Qed.

Lemma pipelining_init : inv [] (new_conn (R := R)).
Proof.
  split; cbn; try done; try constructor.
  - intros q r h Hq. by apply not_elem_of_nil in Hq.
  - constructor.
  - intros q r Hq. by apply not_elem_of_nil in Hq.
Qed.

(** Between the moment a response is let through and the moment it is in the
    pipeline: request [q] has the response [r], which is nowhere yet. *)
Record inv_but (q : Z) (r : R) (done : list (Z * bool)) c : Prop := {
  b_fresh : NoDup ((started c ++ upcoming c).*1);
  b_split : started c = done ++ reqs (requestPipelining_ c) ++ current c;
  b_out : Forall2 (λ qh rh, answered c !! qh.1 = Some rh.1 ∧ qh.2 = rh.2) done (sent c ++ responseBuffer_ c);
  b_ready : ∀ q r h, (q, (Some r, h)) ∈ requestPipelining_ c → answered c !! q = Some r;
  b_head : head_waits (requestPipelining_ c);
  b_direct : ∀ q h b rest, ph c = In q h false b rest → requestPipelining_ c = [];
  b_tasks : NoDup ((tasks c).*1) ∧ ∀ q r, (q, r) ∈ tasks c → answered c !! q = Some r ∧
      q ∉ done.*1 ∧ (∀ r' h, (q, (Some r', h)) ∉ requestPipelining_ c);
  b_known : ∀ q r, answered c !! q = Some r → q ∈ (started c).*1;
  b_kept : connected c = true → ∀ q' r', q' ≠ q → answered c !! q' = Some r' →
      (q', r') ∈ tasks c ∨ q' ∈ done.*1 ∨ ∃ h, (q', (Some r', h)) ∈ requestPipelining_ c;
  b_idle : ph c = Idle → connected c = true → responseBuffer_ c = [];
  b_answered : answered c !! q = Some r;
  b_task : q ∉ (tasks c).*1;
  b_absent : q ∉ done.*1 ∧ ∀ r' h, (q, (Some r', h)) ∉ requestPipelining_ c
}.

(** The requests and the responses of a list of ready entries. *)
Definition ready_entries (out : list (Z * R * bool)) : list (entry R) := (λ e, (e.1.1, (Some e.1.2, e.2))) <$> out.
Definition ready_reqs (out : list (Z * R * bool)) : list (Z * bool) := (λ e, (e.1.1, e.2)) <$> out.
Definition ready_resps (out : list (Z * R * bool)) : list (R * bool) := (λ e, (e.1.2, e.2)) <$> out.

Lemma reqs_ready out : reqs (ready_entries out) = ready_reqs out.
Proof. unfold reqs, ready_entries, ready_reqs. by rewrite <- list_fmap_compose. Qed.

Lemma ready_reqs_elem out q : q ∈ (ready_reqs out).*1 → ∃ r h, (q, (Some r, h)) ∈ ready_entries out.
Proof.
  unfold ready_reqs, ready_entries. rewrite <- list_fmap_compose. intros ([[q' r] h] & -> & Hq)%list_elem_of_fmap.
  exists r, h. cbn. apply list_elem_of_fmap. by exists (q', r, h).
Qed.

(** The response goes into its place, and the ready entries at the front leave the pipeline. *)
Lemma inv_place q r done c pl1 h pl2 out pl' c2 :
  inv_but q r done c →
  requestPipelining_ c = pl1 ++ (q, (None, h)) :: pl2 →
  pl1 ++ (q, (Some r, h)) :: pl2 = ready_entries out ++ pl' → head_waits pl' →
  requestPipelining_ c2 = pl' → tasks c2 = tasks c → connected c2 = connected c → ph c2 = ph c →
  started c2 = started c → answered c2 = answered c →
  sent c2 ++ responseBuffer_ c2 = sent c ++ responseBuffer_ c ++ ready_resps out →
  (ph c = Idle → connected c = true → responseBuffer_ c2 = []) →
  inv (done ++ ready_reqs out) c2.
Proof.
  intros Hi Hpl Hout Hw Ep Et Ec Eph Es Ea Esent Hidle.
  assert (Hsub : ∀ q' r' h', (q', (Some r', h')) ∈ ready_entries out ++ pl' →
    (q' = q ∧ r' = r) ∨ (q', (Some r', h')) ∈ requestPipelining_ c).
  { intros q' r' h'. rewrite <- Hout, Hpl, !elem_of_app, !elem_of_cons.
    intros [?|[[= -> -> ->]|?]]; auto. }
  assert (Hans : ∀ q' r' h', (q', (Some r', h')) ∈ ready_entries out ++ pl' → answered c !! q' = Some r').
  { intros q' r' h' [[-> ->]|Hin]%Hsub; [by eapply b_answered|by eapply b_ready]. }
  assert (Hcur : upcoming c2 = upcoming c ∧ current c2 = current c)
    by (unfold upcoming, current; by rewrite Eph).
  destruct Hcur as [Eu Ecur]. destruct (b_tasks _ _ _ _ Hi) as [Hnd Ht].
  split.
  - rewrite Es, Eu. by eapply b_fresh.
  - rewrite Es, Ep, Ecur, (b_split _ _ _ _ Hi), Hpl, <- app_assoc. f_equal. rewrite app_assoc. f_equal.
    rewrite <- reqs_ready, <- reqs_app, <- Hout, !reqs_app. done.
  - rewrite Ea, Esent, app_assoc. apply Forall2_app; [by eapply b_out|].
    unfold ready_reqs, ready_resps. apply Forall2_fmap, Forall_Forall2_diag, Forall_forall.
    intros [[q' r'] h'] Hin. cbn. split; [|done]. apply (Hans q' r' h').
    apply elem_of_app. left. apply list_elem_of_fmap. exists (q', r', h'). split; [done|].
    by apply list_elem_of_In.
  - rewrite Ep, Ea. intros q' r' h' Hin. apply (Hans q' r' h'). apply elem_of_app. by right.
  - by rewrite Ep.
  - intros q' h' b rest E. rewrite Eph in E. rewrite (b_direct _ _ _ _ Hi _ _ _ _ E) in Hpl. by destruct pl1.
  - rewrite Et, Ea. split; [done|]. intros q' r' Hin. destruct (Ht q' r' Hin) as (H1 & H2 & H3).
    assert (Hq : q' ≠ q) by (intros ->; apply (b_task _ _ _ _ Hi), list_elem_of_fmap; by exists (q, r')).
    assert (Hno : ∀ r2 h2, (q', (Some r2, h2)) ∉ ready_entries out ++ pl').
    { intros r2 h2 [[? _]|?]%Hsub; [done|]. by eapply H3. }
    split_and!; [done| |].
    + rewrite fmap_app, elem_of_app. intros [?|(r2 & h2 & Hr)%ready_reqs_elem]; [done|].
      apply (Hno r2 h2), elem_of_app. by left.
    + rewrite Ep. intros r2 h2 Hr. apply (Hno r2 h2), elem_of_app. by right.
  - rewrite Ea, Es. by eapply b_known.
  - rewrite Ec, Ea, Et, Ep. intros Hc q' r' Hq'.
    assert (Hin : (∃ h', (q', (Some r', h')) ∈ ready_entries out ++ pl') →
      (q', r') ∈ tasks c ∨ q' ∈ (done ++ ready_reqs out).*1 ∨ ∃ h0, (q', (Some r', h0)) ∈ pl').
    { intros [h' [He|He]%elem_of_app]; right; [left|right; by exists h'].
      rewrite fmap_app, elem_of_app. right. unfold ready_entries in He.
      apply list_elem_of_fmap in He as ([[a b] d] & [= -> -> ->] & He).
      apply list_elem_of_fmap. exists (a, d). split; [done|]. apply list_elem_of_fmap. by exists (a, b, d). }
    rewrite <- Hout in Hin. destruct (decide (q' = q)) as [->|Hne].
    { apply Hin. rewrite (b_answered _ _ _ _ Hi) in Hq'. injection Hq' as <-.
      exists h. rewrite elem_of_app, elem_of_cons. auto. }
    destruct (b_kept _ _ _ _ Hi Hc q' r' Hne Hq') as [?|[?|[h' Hh]]]; [by left| |].
    + right. left. rewrite fmap_app, elem_of_app. by left.
    + apply Hin. exists h'. rewrite Hpl, elem_of_app, elem_of_cons in Hh.
      rewrite elem_of_app, elem_of_cons. destruct Hh as [?|[?|?]]; auto. congruence.
  - rewrite Eph, Ec. done.
Qed.

(** A request that is waiting has its place in the pipeline. *)
Lemma find_place q r done c :
  inv_but q r done c → q ∉ (current c).*1 →
  ∃ pl1 h pl2, requestPipelining_ c = pl1 ++ (q, (None, h)) :: pl2 ∧ q ∉ (reqs pl1).*1.
Proof.
  intros Hi Hcur. destruct (b_absent _ _ _ _ Hi) as [Hd Hs].
  pose proof (b_known _ _ _ _ Hi q r (b_answered _ _ _ _ Hi)) as Hq.
  pose proof (b_fresh _ _ _ _ Hi) as Hnd.
  rewrite (b_split _ _ _ _ Hi), !fmap_app, !elem_of_app in Hq. destruct Hq as [?|[Hq|?]]; [done| |done].
  unfold reqs in Hq. rewrite <- list_fmap_compose in Hq.
  apply list_elem_of_fmap in Hq as ([q' [o h]] & -> & He). cbn in *.
  apply list_elem_of_split in He as (pl1 & pl2 & He). exists pl1, h, pl2.
  assert (o = None) as ->.
  { destruct o as [r'|]; [|done]. exfalso. apply (Hs r' h). rewrite He, elem_of_app, elem_of_cons. auto. }
  split; [done|]. intros Hin. rewrite (b_split _ _ _ _ Hi), He, reqs_app, !fmap_app in Hnd.
  cbn in Hnd. rewrite !list.NoDup_app in Hnd.
  destruct Hnd as ((_ & _ & (_ & Hnd & _) & _) & _). apply (Hnd q' Hin). by left.
Qed.

Lemma push_pop q r done c :
  inv_but q r done c → q ∉ (current c).*1 →
  requestPipelining_ c ≠ [] ∧
  let '(pl', first) := pushResponseToPipelining q r (requestPipelining_ c) in
  if first then
    ∀ b0, ∃ out pl'', popReadyResponses pl' b0 = (pl'', b0 ++ ready_resps out) ∧
      ∀ c2, requestPipelining_ c2 = pl'' → tasks c2 = tasks c → connected c2 = connected c → ph c2 = ph c →
        started c2 = started c → answered c2 = answered c →
        sent c2 ++ responseBuffer_ c2 = sent c ++ responseBuffer_ c ++ ready_resps out →
        (ph c = Idle → connected c = true → responseBuffer_ c2 = []) →
        inv (done ++ ready_reqs out) c2
  else inv done (set_pipe pl' (responseBuffer_ c) c).
Proof.
  intros Hi Hcur. destruct (find_place q r done c Hi Hcur) as (pl1 & h & pl2 & Hpl & Hq).
  split; [rewrite Hpl; by destruct pl1|]. rewrite Hpl, push_spec by done.
  case_bool_decide as Hfirst.
  - intros b0. destruct (pop_spec (pl1 ++ (q, (Some r, h)) :: pl2) b0) as (out & pl' & E & Hout & Hw).
    exists out, pl'. split; [done|]. intros c2 ? ? ? ? ? ? ? ?.
    by apply (inv_place q r done c pl1 h pl2 out pl' c2).
  - rewrite <- (app_nil_r done). change [] with (ready_reqs []).
    apply (inv_place q r done c pl1 h pl2 [] (pl1 ++ (q, (Some r, h)) :: pl2)); try done.
    + pose proof (b_head _ _ _ _ Hi) as Hh. rewrite Hpl in Hh. by destruct pl1.
    + cbn. by rewrite app_nil_r.
    + cbn. by apply (b_idle _ _ _ _ Hi).
Qed.

(** ** Every step keeps the invariant *)

Lemma mark_answered q r done c :
  inv done c → answered c !! q = None → q ∈ (started c).*1 →
  inv_but q r done (set_answered (<[q := r]> (answered c)) c).
Proof.
  intros Hi Hq Hst.
  assert (Hne : ∀ q' r', answered c !! q' = Some r' → <[q := r]> (answered c) !! q' = Some r').
  { intros q' r' Hq'. rewrite lookup_insert_ne; [done|]. congruence. }
  destruct (i_tasks _ _ Hi) as [Hnd Ht]. split; cbn.
  - apply (i_fresh _ _ Hi).
  - apply (i_split _ _ Hi).
  - eapply Forall2_impl; [|apply (i_out _ _ Hi)]. cbn. intros qh rh [H1 H2]. auto.
  - intros q' r' h Hin. apply Hne. by eapply i_ready.
  - apply (i_head _ _ Hi).
  - apply (i_direct _ _ Hi).
  - split; [done|]. intros q' r' Hin. destruct (Ht q' r' Hin) as (H1 & H2 & H3). auto.
  - intros q' r'. destruct (decide (q' = q)) as [->|Hn]; [done|]. rewrite lookup_insert_ne by done.
    apply (i_known _ _ Hi).
  - intros Hc q' r' Hn. rewrite lookup_insert_ne by done. by apply (i_kept _ _ Hi).
  - apply (i_idle _ _ Hi).
  - by rewrite lookup_insert_eq.
  - intros ([q' r'] & -> & Hin)%list_elem_of_fmap. destruct (Ht _ _ Hin) as (H1 & _). cbn in *. congruence.
  - split; [intros Hd; apply (done_answered _ _ _ Hi) in Hd as [? ?]; congruence|].
    intros r' h Hin. apply (i_ready _ _ Hi) in Hin. congruence.
Qed.

Lemma direct_response q h r done c :
  inv_but q r done c → (q, h) ∈ started c → requestPipelining_ c = [] →
  inv (done ++ [(q, h)]) (respReady (set_pipe [] (responseBuffer_ c ++ [(r, h)]) c)).
Proof.
  intros Hi Hin Hpl. destruct (b_absent _ _ _ _ Hi) as [Hd _].
  pose proof (b_split _ _ _ _ Hi) as Hs. rewrite Hpl in Hs. cbn in Hs. rewrite Hs in Hin.
  apply elem_of_app in Hin as [Hin|Hin]; [exfalso; apply Hd, list_elem_of_fmap; by exists (q, h)|].
  unfold current in Hin, Hs. destruct (ph c) as [|rest|q0 h0 [] [] rest] eqn:Eph;
    try (by apply not_elem_of_nil in Hin). apply list_elem_of_singleton in Hin as [= <- <-].
  unfold respReady. cbn [ph set_pipe]. rewrite Eph.
  pose proof (b_fresh _ _ _ _ Hi) as Hf. unfold upcoming in Hf. rewrite Eph in Hf.
  destruct (b_tasks _ _ _ _ Hi) as [Hnd Ht].
  split; cbn; [done| | | | | | | | |done].
  - by rewrite app_nil_r.
  - rewrite app_assoc. apply Forall2_app; [apply (b_out _ _ _ _ Hi)|]. repeat constructor. apply (b_answered _ _ _ _ Hi).
  - intros ? ? ? Hx. by apply not_elem_of_nil in Hx.
  - done.
  - done.
  - split; [done|]. intros q' r' Hq'. destruct (Ht q' r' Hq') as (H1 & H2 & _). split_and!; [done| |].
    + rewrite fmap_app, elem_of_app. cbn. intros [?| ->%list_elem_of_singleton]; [done|].
      apply (b_task _ _ _ _ Hi), list_elem_of_fmap. by exists (q, r').
    + intros ? ? Hx. by apply not_elem_of_nil in Hx.
  - apply (b_known _ _ _ _ Hi).
  - intros Hc q' r' Hq'. destruct (decide (q' = q)) as [->|Hn].
    + right. left. rewrite fmap_app, elem_of_app. right. by left.
    + destruct (b_kept _ _ _ _ Hi Hc q' r' Hn Hq') as [?|[?|[h' Hx]]]; [by left| |].
      * right. left. rewrite fmap_app, elem_of_app. by left.
      * rewrite Hpl in Hx. by apply not_elem_of_nil in Hx.
Qed.

Lemma queued_response q r done c :
  inv_but q r done c → inv done (set_tasks (tasks c ++ [(q, r)]) c).
Proof.
  intros Hi. destruct (b_tasks _ _ _ _ Hi) as [Hnd Ht]. destruct (b_absent _ _ _ _ Hi) as [Hd Hs].
  split; cbn.
  - apply (b_fresh _ _ _ _ Hi).
  - apply (b_split _ _ _ _ Hi).
  - apply (b_out _ _ _ _ Hi).
  - apply (b_ready _ _ _ _ Hi).
  - apply (b_head _ _ _ _ Hi).
  - apply (b_direct _ _ _ _ Hi).
  - split.
    + rewrite fmap_app. cbn. apply list.NoDup_app. split_and!; [done| |apply NoDup_singleton].
      intros x Hx ->%list_elem_of_singleton. by apply (b_task _ _ _ _ Hi).
    + intros q' r' [Hin|[= -> ->]%list_elem_of_singleton]%elem_of_app; [by apply Ht|].
      split_and!; [apply (b_answered _ _ _ _ Hi)|done|done].
  - apply (b_known _ _ _ _ Hi).
  - intros Hc q' r' Hq'. destruct (decide (q' = q)) as [->|Hn].
    + left. rewrite (b_answered _ _ _ _ Hi) in Hq'. injection Hq' as <-. apply elem_of_app. right. by left.
    + destruct (b_kept _ _ _ _ Hi Hc q' r' Hn Hq') as [?|[?|?]]; [left; apply elem_of_app; by left|by right; left|by right; right].
  - apply (b_idle _ _ _ _ Hi).
Qed.

Lemma inv_answer inLoop q h r done c :
  inv done c → (q, h) ∈ started c → (inLoop = true → ∀ rest, ph c ≠ Next rest) →
  ∃ done', inv done' (handleResponse inLoop q h r c).
Proof.
  intros Hi Hin Hph. unfold handleResponse. destruct (connected c) eqn:Ec; [|by exists done]. cbn [negb].
  destruct (answered c !! q) as [r0|] eqn:Ea; [by exists done|].
  assert (Hst : q ∈ (started c).*1) by (apply list_elem_of_fmap; by exists (q, h)).
  pose proof (mark_answered q r done c Hi Ea Hst) as Hb. set (c1 := set_answered _ c) in *.
  destruct inLoop; [|exists done; by apply queued_response].
  unfold deliver_in_loop. destruct (requestPipelining_ c1) as [|e pl] eqn:Epl.
  { exists (done ++ [(q, h)]). by apply direct_response. }
  assert (Hcur : q ∉ (current c1).*1).
  { unfold current. destruct (ph c1) as [|rest|q0 h0 [] [] rest] eqn:Eph; try by apply not_elem_of_nil.
    rewrite (b_direct _ _ _ _ Hb _ _ _ _ Eph) in Epl. done. }
  destruct (push_pop q r done c1 Hb Hcur) as [_ Hpp]. rewrite Epl in Hpp.
  destruct (pushResponseToPipelining q r (e :: pl)) as [pl' first]. destruct first; [|by exists done].
  destruct (Hpp (responseBuffer_ c1)) as (out & pl'' & -> & Hc2).
  exists (done ++ ready_reqs out). destruct (loopFlag c1) eqn:Ef; apply Hc2; cbn; try done.
  - intros Eph. unfold loopFlag in Ef. cbn in Ef. by rewrite Eph in Ef.
  - by rewrite app_nil_r.
Qed.

Lemma inv_task done c : inv done c → ph c = Idle → ∃ done', inv done' (run_task c).
Proof.
  intros Hi Hph. unfold run_task. destruct (tasks c) as [|[q r] ts] eqn:Et; [by exists done|].
  destruct (i_tasks _ _ Hi) as [Hnd Ht]. rewrite Et in Hnd. cbn in Hnd. apply list.NoDup_cons in Hnd as [Hq Hnd].
  destruct (Ht q r) as (Ha & Hd & Hs); [rewrite Et; by left|].
  assert (Hts : ∀ q' r', (q', r') ∈ ts → (q', r') ∈ tasks c) by (intros; rewrite Et; by right).
  cbn [connected set_tasks]. destruct (connected c) eqn:Ec; cbn [negb].
  - assert (Hb : inv_but q r done (set_tasks ts c)).
    { destruct Hi as [Hf Hsp Ho Hr Hh Hdi _ Hk Hke Hid]. split; cbn; try done.
      - split; [done|]. intros q' r' Hin. apply Ht. auto.
      - intros _ q' r' Hn Hq'. destruct (Hke Ec q' r' Hq') as [Hin|[?|?]]; [|by right; left|by right; right].
        left. rewrite Et in Hin. apply elem_of_cons in Hin as [[= -> ->]|?]; done. }
    destruct (push_pop q r done _ Hb) as [_ Hpp].
    { unfold current. cbn. rewrite Hph. by apply not_elem_of_nil. }
    cbn [requestPipelining_ set_tasks] in Hpp |- *.
    destruct (pushResponseToPipelining q r (requestPipelining_ c)) as [pl' first]. destruct first; [|by exists done].
    destruct (Hpp []) as (out & pl'' & -> & Hc2). exists (done ++ ready_reqs out). apply Hc2; cbn; try done.
    + rewrite (i_idle _ _ Hi Hph Ec). by rewrite app_nil_r.
    + intros _ _. by apply (i_idle _ _ Hi).
  - exists done. destruct Hi as [Hf Hsp Ho Hr Hh Hdi _ Hk Hke Hid]. split; cbn; try done.
    + split; [done|]. intros q' r' Hin. apply Ht. auto.
    + by rewrite Ec.
Qed.

Lemma inv_disconnect stop done c : inv done c → inv done (disconnect stop c).
Proof. intros []. by split. Qed.

Lemma inv_batch keepalive pipelining parsed requests done c :
  inv done c → ph c = Idle → NoDup (requests.*1) → (∀ q, q ∈ requests.*1 → q ∉ (started c).*1) →
  inv done (onRequests keepalive pipelining parsed requests c).
Proof.
  intros Hi Hph Hnd Hfresh. unfold onRequests.
  case_if; [by apply inv_disconnect|]. case_if; [by apply inv_disconnect|]. case_if; [done|].
  destruct Hi as [Hf Hsp Ho Hr Hh Hdi Ht Hk Hke Hid]. unfold current, upcoming in *. rewrite Hph in *.
  rewrite app_nil_r in Hf. split; cbn; try done.
  rewrite fmap_app. apply list.NoDup_app. split_and!; [done| |done]. intros q Hq Hq'. by apply (Hfresh q).
Qed.

Lemma inv_begin done c : inv done c → inv done (begin_request c).
Proof.
  intros Hi. unfold begin_request. destruct (ph c) as [|[|[q h] rest]|] eqn:Hph; try done.
  destruct Hi as [Hf Hsp Ho Hr Hh Hdi [Htn Ht] Hk Hke Hid]. unfold current, upcoming in *. rewrite Hph in *.
  rewrite app_nil_r in Hsp. cbn [requestPipelining_ add_started].
  assert (Hf' : NoDup (((started c ++ [(q, h)]) ++ rest).*1)) by (by rewrite <- app_assoc).
  assert (Hk' : ∀ q' r, answered c !! q' = Some r → q' ∈ ((started c ++ [(q, h)]).*1)).
  { intros q' r Hq. rewrite fmap_app, elem_of_app. left. by eapply Hk. }
  destruct (requestPipelining_ c) as [|e pl] eqn:Epl.
  - split; cbn; try done; rewrite ?Epl; try done. unfold current. cbn. rewrite Hsp. cbn. by rewrite app_nil_r.
  - unfold pushRequestToPipelining.
    assert (Hnew : ∀ q' r h', (q', (Some r, h')) ∈ (e :: pl) ++ [(q, (None, h))] → (q', (Some r, h')) ∈ e :: pl).
    { intros q' r h' [?|[=]%list_elem_of_singleton]%elem_of_app. done. }
    split; cbn [requestPipelining_ responseBuffer_ sent tasks connected ph started answered set_phase set_pipe add_started]; try done.
    + unfold current. cbn [ph set_phase]. rewrite reqs_app, app_nil_r, Hsp, <- app_assoc. done.
    + intros q' r h' Hin%Hnew. by eapply Hr.
    + split; [done|]. intros q' r Hin. destruct (Ht q' r Hin) as (H1 & H2 & H3). split_and!; [done|done|].
      intros r' h' Hx%Hnew. by eapply H3.
    + intros Hc q' r Hq. destruct (Hke Hc q' r Hq) as [?|[?|[h' Hx]]]; [by left|by right; left|].
      right. right. exists h'. apply elem_of_app. by left.
Qed.

Lemma inv_end done c : inv done c → inv done (end_request c).
Proof.
  intros Hi. unfold end_request. destruct (ph c) as [| |q h p b rest] eqn:Hph; try done.
  destruct Hi as [Hf Hsp Ho Hr Hh Hdi [Htn Ht] Hk Hke Hid]. unfold current, upcoming in *. rewrite Hph in *.
  destruct p, b; cbn [negb andb]; try (rewrite app_nil_r in Hsp; split; cbn; try done; unfold current; cbn; by rewrite app_nil_r).
  pose proof (Hdi _ _ _ _ eq_refl) as Epl. rewrite Epl in *. split; cbn; rewrite ?Epl; try done.
  - intros q' r h' [=]%list_elem_of_singleton.
  - split; [done|]. intros q' r Hin. destruct (Ht q' r Hin) as (H1 & H2 & _). split_and!; [done|done|].
    by intros r' h' [=]%list_elem_of_singleton.
  - intros Hc q' r Hq. destruct (Hke Hc q' r Hq) as [?|[?|[h' Hx]]]; [by left|by right; left|].
    by apply not_elem_of_nil in Hx.
Qed.

Lemma inv_ends done c : inv done c → inv done (end_requests c).
Proof.
  intros Hi. unfold end_requests. destruct (ph c) as [|[|]|] eqn:Hph; try done.
  destruct Hi as [Hf Hsp Ho Hr Hh Hdi Ht Hk Hke Hid]. unfold current, upcoming in *. rewrite Hph in *.
  cbn [connected responseBuffer_ set_phase]. destruct (connected c) eqn:Ec, (responseBuffer_ c) as [|x buf] eqn:Eb;
    (split; cbn; rewrite ?Ec, ?Eb; try done). by rewrite app_nil_r.
Qed.

Lemma pipelining_step done c c' : inv done c → step c c' → ∃ done', inv done' c'.
Proof.
  intros Hi Hs. destruct Hs as [ka pi pa rq c Hph Hnd Hf|c|c|c|inl q h r c Hin Hph|c Hph|c].
  - exists done. by apply inv_batch.
  - exists done. by apply inv_begin.
  - exists done. by apply inv_end.
  - exists done. by apply inv_ends.
  - by eapply inv_answer.
  - by eapply inv_task.
  - exists done. by apply inv_disconnect.
Qed.

Lemma pipelining_reach c : reachable step (new_conn (R := R)) c → ∃ done, inv done c.
Proof.
  apply (reachable_invariant step (λ c, ∃ done, inv done c)); [exists []; apply pipelining_init|].
  intros a b [done Ha] Hab. by eapply pipelining_step.
Qed.
End Lemmas.

(** ** Properties *)

(** [out] answers the requests [rs], in their order: the response of each is
    the one its [responseSent_] flag let through, rendered for its method. *)
Definition answers {R} (c : Conn R) (rs : list (Z * bool)) (out : list (R * bool)) : Prop :=
  Forall2 (λ q r, answered c !! q.1 = Some r.1 ∧ q.2 = r.2) rs out.

(** C26. Responses go out in the order of the requests: on every connection,
    whatever batches of requests arrive, whenever and from whichever thread
    handlers answer, twice or never, and whether or not the connection is
    lost meanwhile, what has been handed to [sendResponses] answers the first
    requests of the connection, one response each, in request order.  And
    nothing ready is held back: while the connection is up and its loop is
    idle with no lambda queued, the first request not answered on the wire is
    one whose handler has given no response. *)
Theorem responses_in_order {R} (c : Conn R) :
  reachable step new_conn c →
  ∃ rs rest, started c = rs ++ rest ∧ NoDup (started c).*1 ∧
    (∃ out, answers c rs (sent c ++ out)) ∧
    (connected c = true → ph c = Idle → tasks c = [] → answers c rs (sent c) ∧
       match rest with [] => True | q :: _ => answered c !! q.1 = None end).
Proof.
  intros [done Hi]%pipelining_reach. exists done, (reqs (requestPipelining_ c) ++ current c).
  pose proof (i_fresh _ _ Hi) as Hf. rewrite fmap_app, list.NoDup_app in Hf.
  split_and!; [apply (i_split _ _ Hi)|apply Hf|exists (responseBuffer_ c); apply (i_out _ _ Hi)|].
  intros Hc Hph Ht. pose proof (i_out _ _ Hi) as Ho. rewrite (i_idle _ _ Hi Hph Hc), app_nil_r in Ho.
  split; [done|]. unfold current. rewrite Hph, app_nil_r.
  destruct (requestPipelining_ c) as [|[q [o h]] pl] eqn:Epl; [done|]. cbn.
  pose proof (i_head _ _ Hi) as Hh. rewrite Epl in Hh. cbn in Hh. subst o.
  destruct (answered c !! q) as [r|] eqn:Ea; [|done]. exfalso.
  pose proof (i_split _ _ Hi) as Hsp. rewrite Epl in Hsp. cbn in Hsp.
  destruct Hf as (Hf & _). rewrite Hsp, fmap_app, list.NoDup_app in Hf. destruct Hf as (_ & Hd & Hp). cbn in Hd, Hp.
  apply list.NoDup_cons in Hp as [Hp _].
  destruct (i_kept _ _ Hi Hc q r Ea) as [Hin|[Hin|[h' Hin]]].
  - rewrite Ht in Hin. by apply not_elem_of_nil in Hin.
  - apply (Hd q Hin). by left.
  - rewrite Epl in Hin. apply elem_of_cons in Hin as [[=]|Hin]. apply Hp.
    rewrite fmap_app, elem_of_app. left. apply list_elem_of_fmap. exists (q, h'). split; [done|].
    apply list_elem_of_fmap. by exists (q, (Some r, h')).
Qed.

(** Two pipelined requests, the second (a HEAD) answered first. *)
Definition pl_received : Conn Z := onRequests 0 0 2 [(1, false); (2, true)] new_conn.
Definition pl_handled : Conn Z := begin_request (end_request (begin_request pl_received)).
Definition pl_answered2 : Conn Z := end_requests (end_request (handleResponse true 2 true 20 pl_handled)).
Definition pl_answered1 : Conn Z := handleResponse false 1 false 10 pl_answered2.
Definition pl_finished : Conn Z := run_task pl_answered1.

Example late_response_first :
  sent pl_answered2 = [] ∧ sent pl_finished = [(10, false); (20, true)].
Proof. done. Qed.

Lemma pl_finished_reachable : reachable step new_conn pl_finished.
Proof.
  assert (H1 : steps step 1 new_conn pl_received).
  { apply steps_one. apply (st_batch 0 0 2 [(1, false); (2, true)]); [done| |].
    - apply (bool_decide_unpack _). vm_compute. exact I.
    - intros q Hq. apply not_elem_of_nil. }
  assert (H2 : steps step 4 new_conn pl_handled)
    by (eapply steps_snoc; [eapply steps_snoc; [eapply steps_snoc; [exact H1|apply st_begin]|apply st_end]|apply st_begin]).
  assert (H3 : steps step 7 new_conn pl_answered2).
  { eapply steps_snoc; [eapply steps_snoc; [eapply steps_snoc; [exact H2|]|apply st_end]|apply st_ends].
    apply st_answer; [right; left|]. by intros _ rest [=]. }
  exists 9%nat. eapply steps_snoc; [eapply steps_snoc; [exact H3|]|by apply st_task].
  apply st_answer; [left|done].
Qed.

Lemma responses_in_order_witness :
  ∃ rs rest, started pl_finished = rs ++ rest ∧ NoDup (started pl_finished).*1 ∧
    (∃ out, answers pl_finished rs (sent pl_finished ++ out)) ∧
    (connected pl_finished = true → ph pl_finished = Idle → tasks pl_finished = [] →
       answers pl_finished rs (sent pl_finished) ∧
       match rest with [] => True | q :: _ => answered pl_finished !! q.1 = None end).
Proof. apply (responses_in_order pl_finished). apply pl_finished_reachable. Defined.
