(* ===== verification/RequestFlow.v ===== *)
(** * A request through the server

    From [HttpServer::onHttpRequest] to the response's hand-over to the
    pipeline (src/src/drogon/lib/src/HttpServer.cc): the observers and advices
    of src/src/drogon/lib/src/AOPAdvice.cc, routing, request streams, the
    middlewares of MiddlewaresFunction.cc, CORS, the response cache and the
    handler, for HTTP requests and WebSocket upgrades.

    The code is in continuation-passing style: user code (an advice, a
    middleware, a handler) is entered with the closures it may call, at once or
    later, from any thread, each as often as it likes.  Closures are data
    ([callback]); the log [acts] holds every entry into user code with the
    closures it was given.  A closure whose captures were moved away by an
    earlier call throws instead; such a call changes nothing, so the model lets
    every call do what a first one does.

    Response objects are shared, so they live in a store: a cached response is
    one object for all the requests it answers. *)

From stdpp Require Import base list numbers option strings gmap.
From Stdlib Require Import ZArith Lia.
From S2P Require Import Prelude CDouble StaticFiles MsgBuffer HttpRequest ResponseRender Handshake.

(** ** Configuration *)

Inductive phase := PreRouting | PostRouting | PreHandling.

#[export] Instance phase_eq_dec : EqDecision phase.
Proof. solve_decision. Defined.

(** [ControllerBinderBase]: the middlewares' number, and whether it takes a request stream. *)
Record Binder := { bd_middlewares : nat; bd_isStreamHandler : bool; bd_corsMethods : list Z }.

Inductive RouteResult := Success (b : nat) | MethodNotAllowed | NotFound.

(** What is registered with [app()]; the routers are parameters here. *)
Record App := {
  ap_advices : phase → nat;
  ap_binder : nat → Binder;
  ap_route : HttpRequestImpl → RouteResult;
  ap_routeWs : HttpRequestImpl → RouteResult;
  ap_isUsingCustomErrorHandler : bool;
  ap_customErrorHandler : Z → HttpRequestImpl → HttpResponseImpl;
  ap_notFoundPage : HttpResponseImpl;     (* the view [drogon::NotFound] *)
  ap_homePage : list Z
}.

(** ** State *)

Record RespObj := { ro_resp : HttpResponseImpl; expiredTime_ : Z; creationDate_ : Z }.

Inductive callback :=
| CFinal                                  (* the lambda of [onRequests] *)
| CPreRouting (k : callback)              (* of [onHttpRequest], [onWebsocketRequest] *)
| CPostRouting (b : nat) (k : callback)   (* of [requestPostRouting] *)
| CPreHandling (b : nat) (k : callback)   (* of [requestPreHandling] *)
| CHandler (b : nat) (k : callback)       (* of [httpRequestHandling], [websocketRequestHandling] *)
| CPost (b i : nat) (k : callback).       (* [userPostCb] of a middleware, which holds [k] *)

(** User code that was entered, with the closures it holds. *)
Inductive activation :=
| AAdvice (ph : phase) (i : nat) (c : callback)
| AMiddleware (b i : nat) (outer : callback)
| APost (b i : nat) (outer : callback) (resp : option nat)
| AHandler (b : nat) (c : callback)
| AStatic (c : callback).

Inductive event :=
| EObservers (ph : phase)
| EAdvice (ph : phase) (i : nat)
| EPass (ph : phase) (i : nat)            (* an advice called its chain callback *)
| ENull (ph : phase)                      (* an advice answered with a null response *)
| EMiddleware (b i : nat)
| ENext (b i : nat)                       (* a middleware called [nextCb] *)
| EPost (b i : nat)
| EHandler (b : nat)
| EReturned (b r : nat)                   (* a handler's response *)
| ECached (b r : nat) (now : Z)
| EPostHandling (r : nat)
| EStatic
| ENewConnection (b : nat)
| ESend (r : nat)
| EUpgrade (r : nat).                     (* the answer to a WebSocket upgrade *)

#[export] Instance callback_eq_dec : EqDecision callback.
Proof. solve_decision. Defined.
#[export] Instance activation_eq_dec : EqDecision activation.
Proof. solve_decision. Defined.
#[export] Instance event_eq_dec : EqDecision event.
Proof. solve_decision. Defined.

Inductive ReqStreamStatus := SNone | SOpen | SFinish | SError.

Record Flow := {
  fl_req : HttpRequestImpl;
  fl_ws : bool;
  fl_customCORS : bool;
  fl_stream : ReqStreamStatus;
  fl_streamFinishCb : option (nat * callback);
  fl_connected : bool;
  fl_responseSent : bool
}.

Record World := {
  flows : list Flow;
  store : list RespObj;
  cache : gmap nat nat;                   (* [responseCache_] of the binders *)
  page404 : option nat;                   (* [thread404Pages] *)
  acts : list (nat * activation);
  queued : list (nat * activation);       (* chain calls handed to the loop *)
  now : Z;
  trace : list (nat * event)
}.

Definition new_world (t : Z) : World :=
  {| flows := []; store := []; cache := ∅; page404 := None; acts := []; queued := []; now := t; trace := [] |}.

Definition set_flows (fs : list Flow) (w : World) : World :=
  {| flows := fs; store := store w; cache := cache w; page404 := page404 w; acts := acts w; queued := queued w;
     now := now w; trace := trace w |}.
Definition set_store (st : list RespObj) (w : World) : World :=
  {| flows := flows w; store := st; cache := cache w; page404 := page404 w; acts := acts w; queued := queued w;
     now := now w; trace := trace w |}.
Definition set_cache (c : gmap nat nat) (w : World) : World :=
  {| flows := flows w; store := store w; cache := c; page404 := page404 w; acts := acts w; queued := queued w;
     now := now w; trace := trace w |}.
Definition set_acts (a : list (nat * activation)) (w : World) : World :=
  {| flows := flows w; store := store w; cache := cache w; page404 := page404 w; acts := a; queued := queued w;
     now := now w; trace := trace w |}.
Definition set_queued (q : list (nat * activation)) (w : World) : World :=
  {| flows := flows w; store := store w; cache := cache w; page404 := page404 w; acts := acts w; queued := q; now := now w; trace := trace w |}.
Definition set_now (t : Z) (w : World) : World :=
  {| flows := flows w; store := store w; cache := cache w; page404 := page404 w; acts := acts w; queued := queued w; now := t; trace := trace w |}.
Definition set_page404 (r : nat) (w : World) : World :=
  {| flows := flows w; store := store w; cache := cache w; page404 := Some r; acts := acts w; queued := queued w;
     now := now w; trace := trace w |}.
Definition emit (f : nat) (e : event) (w : World) : World :=
  {| flows := flows w; store := store w; cache := cache w; page404 := page404 w; acts := acts w; queued := queued w; now := now w;
     trace := trace w ++ [(f, e)] |}.

Definition no_flow : Flow :=
  {| fl_req := new_request; fl_ws := false; fl_customCORS := false; fl_stream := SNone; fl_streamFinishCb := None;
     fl_connected := false; fl_responseSent := true |}.
Definition flow (f : nat) (w : World) : Flow := default no_flow (flows w !! f).
Definition upd_flow (f : nat) (g : Flow → Flow) (w : World) : World := set_flows (alter g f (flows w)) w.

Definition set_stream (s : ReqStreamStatus) (cb : option (nat * callback)) (fl : Flow) : Flow :=
  {| fl_req := fl_req fl; fl_ws := fl_ws fl; fl_customCORS := fl_customCORS fl; fl_stream := s;
     fl_streamFinishCb := cb; fl_connected := fl_connected fl; fl_responseSent := fl_responseSent fl |}.
Definition set_conn (c sent : bool) (fl : Flow) : Flow :=
  {| fl_req := fl_req fl; fl_ws := fl_ws fl; fl_customCORS := fl_customCORS fl; fl_stream := fl_stream fl;
     fl_streamFinishCb := fl_streamFinishCb fl; fl_connected := c; fl_responseSent := sent |}.
Definition set_req (r : HttpRequestImpl) (cors : bool) (fl : Flow) : Flow :=
  {| fl_req := r; fl_ws := fl_ws fl; fl_customCORS := cors; fl_stream := fl_stream fl;
     fl_streamFinishCb := fl_streamFinishCb fl; fl_connected := fl_connected fl; fl_responseSent := fl_responseSent fl |}.

Definition no_resp : RespObj := {| ro_resp := newHttpResponse; expiredTime_ := -1; creationDate_ := 0 |}.
Definition resp_of (r : nat) (w : World) : RespObj := default no_resp (store w !! r).
Definition upd_resp (r : nat) (g : HttpResponseImpl → HttpResponseImpl) (w : World) : World :=
  set_store (alter (λ o, {| ro_resp := g (ro_resp o); expiredTime_ := expiredTime_ o; creationDate_ := creationDate_ o |})
    r (store w)) w.

(** A new response object. *)
Definition alloc (o : RespObj) (w : World) : nat * World := (length (store w), set_store (store w ++ [o]) w).
Definition make_resp (r : HttpResponseImpl) (expired : Z) (w : World) : nat * World :=
  alloc {| ro_resp := r; expiredTime_ := expired; creationDate_ := now w |} w.

(** [newNotFoundResponse] on an I/O thread, when no custom page is set: one
    object for all the requests of the thread. *)
Definition newNotFoundResponse (app : App) (f : nat) (w : World) : nat * World :=
  if ap_isUsingCustomErrorHandler app then make_resp (ap_customErrorHandler app 404 (fl_req (flow f w))) (-1) w
  else match page404 w with
       | Some r => (r, w)
       | None => let '(r, w1) := make_resp (set_code 404 (ap_notFoundPage app)) 0 w in (r, set_page404 r w1)
       end.

(** ** Writing responses *)

Definition set_version (v : Version) (r : HttpResponseImpl) : HttpResponseImpl :=
  {| rs_version := v; rs_statusCode := rs_statusCode r;
     rs_closeConnection := match v with kHttp10 => true | _ => rs_closeConnection r end;
     rs_contentTypeString := rs_contentTypeString r; rs_headers := rs_headers r; rs_body := rs_body r;
     rs_asyncStream := rs_asyncStream r; rs_stream := rs_stream r; rs_sendfile := rs_sendfile r |}.
Definition set_close (on : bool) (r : HttpResponseImpl) : HttpResponseImpl :=
  {| rs_version := rs_version r; rs_statusCode := rs_statusCode r; rs_closeConnection := on;
     rs_contentTypeString := rs_contentTypeString r; rs_headers := rs_headers r; rs_body := rs_body r;
     rs_asyncStream := rs_asyncStream r; rs_stream := rs_stream r; rs_sendfile := rs_sendfile r |}.
Definition set_content_type (t : list Z) (r : HttpResponseImpl) : HttpResponseImpl :=
  {| rs_version := rs_version r; rs_statusCode := rs_statusCode r; rs_closeConnection := rs_closeConnection r;
     rs_contentTypeString := t; rs_headers := rs_headers r; rs_body := rs_body r;
     rs_asyncStream := rs_asyncStream r; rs_stream := rs_stream r; rs_sendfile := rs_sendfile r |}.

(** [handleResponse] up to the pipeline; sessions and compression change no
    field that matters here. *)
Definition handleResponse (f : nat) (response : option nat) (w : World) : World :=
  match response with
  | None => w
  | Some r =>
      let fl := flow f w in
      if negb (fl_connected fl) then w
      else if fl_responseSent fl then w
      else emit f (ESend r)
             (upd_resp r (λ o, set_close (negb (keepAlive_ (fl_req fl))) (set_version (version_ (fl_req fl)) o))
               (upd_flow f (set_conn true true) w))
  end.

(** The callback of a WebSocket upgrade: it sends at once and has no guard. *)
Definition sendUpgrade (f : nat) (resp0 : option nat) (w : World) : World :=
  match resp0 with
  | Some r => if fl_connected (flow f w) then emit f (EUpgrade r) w else w
  | None => w
  end.

(** ** The stages

    [answer] calls the callback [k] with a response. *)
Section Stages.
Context (app : App).
Context (f : nat) (k : callback) (answer : nat → World → World).

Definition enter (a : activation) (w : World) : World :=
  emit f (match a with
          | AAdvice ph i _ => EAdvice ph i
          | AMiddleware b i _ => EMiddleware b i
          | APost b i _ _ => EPost b i
          | AHandler b _ => EHandler b
          | AStatic _ => EStatic
          end) (set_acts (acts w ++ [(f, a)]) w).

(** A response made by [answer_with] and given to the callback. *)
Definition answer_with (r : HttpResponseImpl) (expired : Z) (w : World) : World :=
  let '(id, w1) := make_resp r expired w in answer id w1.

Definition handleInvalidHttpMethod (w : World) : World :=
  let req := fl_req (flow f w) in
  answer_with (ap_customErrorHandler app (match method_ req with Options => 403 | _ => 405 end) req) (-1) w.

Definition options_response (allowMethods : list Z) (req : HttpRequestImpl) : HttpResponseImpl :=
  let orig := getHeaderBy (str "origin") req in
  let hs := getHeaderBy (str "access-control-request-headers") req in
  let resp :=
    add_header (str "Access-Control-Allow-Methods") allowMethods
      (add_header (str "Access-Control-Allow-Origin") (match orig with [] => str "*" | _ => orig end)
        (add_header (str "Allow") allowMethods (set_content_type (str "text/plain; charset=utf-8") newHttpResponse))) in
  match hs with [] => resp | _ => add_header (str "Access-Control-Allow-Headers") hs resp end.

Definition handleHttpOptions (b : nat) (w : World) : World :=
  answer_with (options_response (bd_corsMethods (ap_binder app b)) (fl_req (flow f w))) (-1) w.

(** Whether a cached response may still be used. *)
Definition fresh (o : RespObj) (t : Z) : bool :=
  (expiredTime_ o =? 0) || (t <? creationDate_ o + expiredTime_ o * 1000000).

Definition httpRequestHandling (b : nat) (w : World) : World :=
  match cache w !! b with
  | Some r =>
      if fresh (resp_of r w) (now w)
      then answer r (emit f (EPostHandling r) (emit f (ECached b r (now w)) w))
      else enter (AHandler b (CHandler b k)) (set_cache (delete b (cache w)) w)
  | None => enter (AHandler b (CHandler b k)) w
  end.

(** The upgrade's answer, its advices and its callback, then the controller. *)
Definition websocketRequestHandling (b : nat) (w : World) : World :=
  let '(r, w1) := make_resp (Handshake.handleRequest (repeat 0 64) (fl_req (flow f w))) (-1) (emit f (EHandler b) w) in
  emit f (ENewConnection b) (answer r (emit f (EPostHandling r) w1)).

Definition handling (b : nat) (w : World) : World :=
  if fl_ws (flow f w) then websocketRequestHandling b w else httpRequestHandling b w.

Definition requestPreHandling (b : nat) (w : World) : World :=
  match method_ (fl_req (flow f w)), fl_customCORS (flow f w) with
  | Options, false => handleHttpOptions b w
  | _, _ =>
      let w1 := emit f (EObservers PreHandling) w in
      match ap_advices app PreHandling with
      | O => handling b w1
      | _ => enter (AAdvice PreHandling 0 (CPreHandling b k)) w1
      end
  end.

Definition requestPassMiddlewares (b : nat) (w : World) : World :=
  match bd_middlewares (ap_binder app b) with
  | O => requestPreHandling b w
  | _ => enter (AMiddleware b 0 k) w
  end.

Definition passPostRouting (b : nat) (w : World) : World :=
  let w1 := emit f (EObservers PostRouting) w in
  match ap_advices app PostRouting with
  | O => requestPassMiddlewares b w1
  | _ => enter (AAdvice PostRouting 0 (CPostRouting b k)) w1
  end.

Definition quitStreamMode (w : World) : World := upd_flow f (λ fl, set_stream SNone (fl_streamFinishCb fl) fl) w.

Definition bad_request (w : World) : World :=
  let w1 := quitStreamMode w in
  answer_with (ap_customErrorHandler app 400 (fl_req (flow f w1))) (-1) w1.

(** A handler that takes no stream waits for the whole body. *)
Definition requestPostRouting (b : nat) (w : World) : World :=
  if bd_isStreamHandler (ap_binder app b) then passPostRouting b w
  else
    match fl_stream (flow f w) with
    | SNone => passPostRouting b w
    | SFinish => passPostRouting b (quitStreamMode w)
    | SOpen => upd_flow f (λ fl, set_stream SOpen (Some (b, k)) fl) w
    | SError => bad_request w
    end.

Definition httpRequestRouting (w : World) : World :=
  match ap_route app (fl_req (flow f w)) with
  | Success b => requestPostRouting b w
  | MethodNotAllowed => handleInvalidHttpMethod w
  | NotFound =>
      let req := fl_req (flow f w) in
      let home := bool_decide (path_ req = str "/") && negb (bool_decide (ap_homePage app = [])) in
      enter (AStatic k)
        (if home then upd_flow f (λ fl, set_req (setPath_string (str "/" ++ ap_homePage app) (fl_req fl)) (fl_customCORS fl) fl) w
         else w)
  end.

Definition websocketRequestRouting (w : World) : World :=
  match ap_routeWs app (fl_req (flow f w)) with
  | Success b => requestPostRouting b w
  | MethodNotAllowed => handleInvalidHttpMethod w
  | NotFound => let '(r, w1) := newNotFoundResponse app f w in answer r (upd_resp r (set_close true) w1)
  end.

Definition routing (w : World) : World :=
  if fl_ws (flow f w) then websocketRequestRouting w else httpRequestRouting w.
End Stages.

(** ** Calling closures *)
Section Run.
Context (app : App).

(** The response a handler gave goes into the cache, if it may. *)
Definition cache_response (b r : nat) (w : World) : World :=
  let o := resp_of r w in
  if (0 <=? expiredTime_ o) && negb (rs_statusCode (ro_resp o) =? 404) then set_cache (<[b := r]> (cache w)) w else w.

(** A callback is called with a response, or with a null pointer. *)
Fixpoint call (f : nat) (c : callback) (resp : option nat) (w : World) : World :=
  match c with
  | CFinal => if fl_ws (flow f w) then sendUpgrade f resp w else handleResponse f resp w
  | CPreRouting k =>
      match resp with
      | Some _ => call f k resp w
      | None => routing app f k (λ r, call f k (Some r)) w
      end
  | CPostRouting b k =>
      match resp with
      | Some _ => call f k resp w
      | None => requestPassMiddlewares app f k (λ r, call f k (Some r)) b w
      end
  | CPreHandling b k =>
      match resp with
      | Some _ => call f k resp w
      | None => handling f k (λ r, call f k (Some r)) b w
      end
  | CHandler b k =>
      match resp with
      | Some r => call f k resp (emit f (EPostHandling r) (cache_response b r (emit f (EReturned b r) w)))
      | None => w
      end
  | CPost b i k => enter f (APost b i k resp) w
  end.

(** [doAdviceChain] *)
Definition doAdviceChain (f : nat) (ph : phase) (index : nat) (c : callback) (w : World) : World :=
  if (index <? ap_advices app ph)%nat then enter f (AAdvice ph index c) w else call f c None w.

(** [passMiddlewareChains] *)
Definition passMiddlewareChains (f b index : nat) (outer : callback) (w : World) : World :=
  if (index <? bd_middlewares (ap_binder app b))%nat then enter f (AMiddleware b index outer) w
  else requestPreHandling app f outer (λ r, call f outer (Some r)) b w.

(** An advice calls its chain callback. *)
Definition chain (f : nat) (ph : phase) (i : nat) (c : callback) (w : World) : World :=
  doAdviceChain f ph (S i) c (emit f (EPass ph i) w).

(** A middleware calls its [nextCb] with [post]. *)
Definition next (f b i : nat) (post : callback) (w : World) : World :=
  passMiddlewareChains f b (S i) post (emit f (ENext b i) w).

(** User code calls the response callback it was given. *)
Definition respond (f : nat) (a : activation) (resp : option nat) (w : World) : World :=
  match a with
  | AAdvice ph _ c => call f c resp (match resp with None => emit f (ENull ph) w | Some _ => w end)
  | AMiddleware _ _ c | APost _ _ c _ | AStatic c => call f c resp w
  | AHandler _ c => call f c resp w
  end.

(** [onHttpRequest] and [onWebsocketRequest]; sessions are left out. *)
Definition onRequest (f : nat) (w : World) : World :=
  let fl := flow f w in
  let req := fl_req fl in
  let star := bool_decide (path_ req = str "*") || bool_decide (path_ req = str "/*") in
  if negb (fl_ws fl) && match method_ req with Options => star | _ => false end then
    let '(r, w1) := make_resp (add_header (str "Allow") (str "GET,HEAD,POST,PUT,DELETE,OPTIONS,PATCH")
                      (set_content_type (str "text/plain; charset=utf-8") newHttpResponse)) 0 w in
    call f CFinal (Some r) w1
  else
    let w1 := emit f (EObservers PreRouting) w in
    match ap_advices app PreRouting with
    | O => routing app f CFinal (λ r, call f CFinal (Some r)) w1
    | _ => enter f (AAdvice PreRouting 0 (CPreRouting CFinal)) w1
    end.

(** The loop of [onRequests] takes the next request. *)
Definition new_flow (req : HttpRequestImpl) (ws : bool) (stream : ReqStreamStatus) : Flow :=
  {| fl_req := req; fl_ws := ws; fl_customCORS := false; fl_stream := stream; fl_streamFinishCb := None;
     fl_connected := true; fl_responseSent := false |}.
Definition take_request (req : HttpRequestImpl) (ws : bool) (stream : ReqStreamStatus) (w : World) : World :=
  onRequest (length (flows w)) (set_flows (flows w ++ [new_flow req ws stream]) w).

(** [streamFinish] and [streamError], and the callback that waited for them. *)
Definition stream_ends (ok : bool) (f : nat) (w : World) : World :=
  let cb := fl_streamFinishCb (flow f w) in
  let w1 := upd_flow f (set_stream (if ok then SFinish else SError) None) w in
  match cb with
  | None => w1
  | Some (b, k) =>
      let answer r := call f k (Some r) in
      if ok then requestPostRouting app f k answer b (quitStreamMode f w1) else bad_request app f answer w1
  end.

(** The loop runs the next chain call another thread handed to it. *)
Definition run_queued (w : World) : World :=
  match queued w with
  | [] => w
  | (f, AAdvice ph i c) :: q => chain f ph i c (set_queued q w)
  | (f, AMiddleware b i post) :: q => next f b i post (set_queued q w)
  | _ :: q => set_queued q w
  end.

(** What a middleware may pass to [nextCb]: its own callback, or code of its own around it. *)
Definition post_of (wrap : bool) (b i : nat) (outer : callback) : callback := if wrap then CPost b i outer else outer.

(** Requests come in; user code, which may hold on to all it was ever given,
    answers, passes on and makes responses; streams and connections end. *)
Inductive step : World → World → Prop :=
| SRequest req ws stream w : step w (take_request req ws stream w)
| SRespond f a resp w :
    (f, a) ∈ acts w → (∀ r, resp = Some r → (r < length (store w))%nat) → step w (respond f a resp w)
| SChain f ph i c w : (f, AAdvice ph i c) ∈ acts w → step w (chain f ph i c w)
| SChainQueue f ph i c w : (f, AAdvice ph i c) ∈ acts w → step w (set_queued (queued w ++ [(f, AAdvice ph i c)]) w)
| SNext f b i outer wrap w : (f, AMiddleware b i outer) ∈ acts w → step w (next f b i (post_of wrap b i outer) w)
| SNextQueue f b i outer wrap w :
    (f, AMiddleware b i outer) ∈ acts w →
    step w (set_queued (queued w ++ [(f, AMiddleware b i (post_of wrap b i outer))]) w)
| SQueued w : step w (run_queued w)
| SResponse resp expired w : step w (make_resp resp expired w).2
| SNotFound f w : step w (newNotFoundResponse app f w).2
| SCORS f w : step w (upd_flow f (λ fl, set_req (fl_req fl) true fl) w)
| SStream ok f w : fl_stream (flow f w) = SOpen → step w (stream_ends ok f w)
| SClose f w : step w (upd_flow f (λ fl, set_conn false (fl_responseSent fl) fl) w)
| STime t w : now w ≤ t → step w (set_now t w).
End Run.

(** ** An observation *)

Definition get_request (path : list Z) (k : bool) : HttpRequestImpl :=
  HttpRequest.set_version kHttp11 k (set_target path [] [] (set_method Get new_request)).

(** With no pages of its own, a server answers unknown paths with one object
    per thread.  [handleResponse] writes the connection header into it, so that
    of two pipelined requests, the first to keep the connection and the second
    to close it, the first one's response closes the connection as well: the
    second response is never sent. *)
Definition not_found_app : App :=
  {| ap_advices _ := 0%nat; ap_binder _ := {| bd_middlewares := 0; bd_isStreamHandler := false; bd_corsMethods := [] |};
     ap_route _ := NotFound; ap_routeWs _ := NotFound; ap_isUsingCustomErrorHandler := false;
     ap_customErrorHandler code _ := set_code code newHttpResponse;
     ap_notFoundPage := newHttpResponse; ap_homePage := [] |}.

(** The static file router finds nothing. *)
Definition serve_missing (path : list Z) (keep : bool) (w : World) : World :=
  let f := length (flows w) in
  let '(r, w1) := newNotFoundResponse not_found_app f (take_request not_found_app (get_request path keep) false SNone w) in
  respond not_found_app f (AStatic CFinal) (Some r) w1.

Example shared_404_closes_early :
  let w := serve_missing (str "/b") false (serve_missing (str "/a") true (new_world 0)) in
  let sent := omap (λ '(_, e), match e with ESend r => Some (ro_resp (resp_of r w), false) | _ => None end) (trace w) in
  sent = [(set_close true (set_code 404 newHttpResponse), false); (set_close true (set_code 404 newHttpResponse), false)] ∧
  ∃ bytes, sendResponses map_to_list [] None true sent = [CSend bytes; CShutdown] ∧
    bytes = (renderToBuffer map_to_list [] None (set_close true (set_code 404 newHttpResponse))).2.
Proof. split; [by vm_compute|]. eexists. split; [vm_compute; reflexivity | by vm_compute]. Qed.
