(* ===== verification/FlowOrder.v ===== *)
(** * What a handler may rely on

    The invariant of [RequestFlow]: how far a request has come when user code
    is entered with a closure, and what that closure may lead to. *)

From stdpp Require Import base list numbers option strings gmap.
From Stdlib Require Import ZArith Lia.
From S2P Require Import Prelude CDouble StaticFiles MsgBuffer HttpRequest ResponseRender Handshake RequestFlow.

(** ** What must have happened before *)

Section Order.
Context (app : App).

(** The first [n] advices of a phase have passed the request on, or one of
    them has answered with a null response, which skips the others. *)
Definition passed (tr : list (nat * event)) (f : nat) (ph : phase) (n : nat) : Prop :=
  (∀ i, (i < n)%nat → (f, EPass ph i) ∈ tr) ∨ (f, ENull ph) ∈ tr.
Definition passed_all tr f ph : Prop := passed tr f ph (ap_advices app ph).

(** The first [n] middlewares of a binder have called the next one. *)
Definition nexted (tr : list (nat * event)) (f b n : nat) : Prop := ∀ i, (i < n)%nat → (f, ENext b i) ∈ tr.
Definition nexted_all tr f b : Prop := nexted tr f b (bd_middlewares (ap_binder app b)).

(** A handler may see the request. *)
Definition guarded tr f b : Prop :=
  passed_all tr f PreRouting ∧ passed_all tr f PostRouting ∧ nexted_all tr f b ∧ passed_all tr f PreHandling.

Definition need (tr : list (nat * event)) (fe : nat * event) : Prop :=
  let '(f, e) := fe in
  match e with
  | EHandler b => guarded tr f b
  | ECached b r _ => guarded tr f b ∧ ∃ g, (g, EReturned b r) ∈ tr
  | EMiddleware b i => passed_all tr f PreRouting ∧ passed_all tr f PostRouting ∧ nexted tr f b i
  | EAdvice ph i =>
      passed tr f ph i ∧ (ph ≠ PreRouting → passed_all tr f PreRouting) ∧
      (ph = PreHandling → passed_all tr f PostRouting ∧ ∃ b, nexted_all tr f b)
  | ESend _ => ∀ r, (f, ESend r) ∉ tr
  | _ => True
  end.

(** ** Invariant *)

Definition phase_of (c : callback) : option phase :=
  match c with
  | CPreRouting _ => Some PreRouting
  | CPostRouting _ _ => Some PostRouting
  | CPreHandling _ _ => Some PreHandling
  | _ => None
  end.

(** What a closure relies on when it goes on with the request; the callbacks
    inside are on the way out. *)
Fixpoint good (tr : list (nat * event)) (f : nat) (c : callback) : Prop :=
  match c with
  | CFinal => True
  | CPreRouting k => phase_of k = None ∧ good tr f k
  | CPostRouting b k => passed_all tr f PreRouting ∧ phase_of k = None ∧ good tr f k
  | CPreHandling b k =>
      passed_all tr f PreRouting ∧ passed_all tr f PostRouting ∧ nexted_all tr f b ∧ phase_of k = None ∧ good tr f k
  | CHandler b k => guarded tr f b ∧ phase_of k = None ∧ good tr f k
  | CPost _ _ k => phase_of k = None ∧ good tr f k
  end.

Definition outward (tr : list (nat * event)) (f : nat) (c : callback) : Prop := phase_of c = None ∧ good tr f c.

Definition act_ok (tr : list (nat * event)) (f : nat) (a : activation) : Prop :=
  match a with
  | AAdvice ph i c => passed tr f ph i ∧ phase_of c = Some ph ∧ good tr f c
  | AMiddleware b i c => passed_all tr f PreRouting ∧ passed_all tr f PostRouting ∧ nexted tr f b i ∧ outward tr f c
  | APost _ _ c _ | AHandler _ c | AStatic c => outward tr f c
  end.

(** The response was returned by the handler and may be kept. *)
Definition cacheable (w : World) (b r : nat) : Prop :=
  (∃ g, (g, EReturned b r) ∈ trace w) ∧ (r < length (store w))%nat ∧
  0 ≤ expiredTime_ (resp_of r w) ∧ rs_statusCode (ro_resp (resp_of r w)) ≠ 404.

Record inv (w : World) : Prop := {
  in_entries : every_entry need (trace w);
  in_acts f a : (f, a) ∈ acts w ++ queued w → act_ok (trace w) f a;
  in_waiting f b k : fl_streamFinishCb (flow f w) = Some (b, k) → passed_all (trace w) f PreRouting ∧ outward (trace w) f k;
  in_sent f r : (f, ESend r) ∈ trace w → (f < length (flows w))%nat ∧ fl_responseSent (flow f w) = true;
  in_cache b r : cache w !! b = Some r → cacheable w b r;
  in_cached f b r t : (f, ECached b r t) ∈ trace w → cacheable w b r ∧ fresh (resp_of r w) t = true;
  in_page r : page404 w = Some r → (r < length (store w))%nat
}.

(** *** More has happened *)

Lemma passed_mono tr tr' f ph n : tr ⊆ tr' → passed tr f ph n → passed tr' f ph n.
Proof. intros Ht [H|H]; [left; auto | right; auto]. Qed.

Lemma nexted_mono tr tr' f b n : tr ⊆ tr' → nexted tr f b n → nexted tr' f b n.
Proof. intros Ht H i Hi. auto. Qed.

Lemma guarded_mono tr tr' f b : tr ⊆ tr' → guarded tr f b → guarded tr' f b.
Proof. intros Ht (? & ? & ? & ?). split_and!; by (eapply passed_mono || eapply nexted_mono). Qed.

Lemma good_mono tr tr' f c : tr ⊆ tr' → good tr f c → good tr' f c.
Proof.
  intros Ht. induction c as [|k IH|b k IH|b k IH|b k IH|b i k IH]; cbn; [done|tauto|..|tauto].
  - intros (? & ?). split; [by eapply passed_mono | tauto].
  - intros (? & ? & ? & ?). split_and!; [by eapply passed_mono.. | by eapply nexted_mono | tauto | tauto].
  - intros (? & ?). split; [by eapply guarded_mono | tauto].
Qed.

Lemma outward_mono tr tr' f c : tr ⊆ tr' → outward tr f c → outward tr' f c.
Proof. intros Ht [? ?]. split; [done | by eapply good_mono]. Qed.

Lemma act_ok_mono tr tr' f a : tr ⊆ tr' → act_ok tr f a → act_ok tr' f a.
Proof.
  intros Ht. destruct a; cbn; try (by apply outward_mono).
  - intros (? & ? & ?). split_and!; [by eapply passed_mono | done | by eapply good_mono].
  - intros (? & ? & ? & ?). split_and!; [by eapply passed_mono.. | by eapply nexted_mono | by eapply outward_mono].
Qed.

(** *** The primitives *)

Lemma flow_upd f g h w :
  flow h (upd_flow f g w) = if decide (h = f ∧ (f < length (flows w))%nat) then g (flow f w) else flow h w.
Proof.
  unfold flow, upd_flow. cbn. destruct (decide (h = f ∧ _)) as [[-> Hf]|Hn].
  - rewrite list_lookup_alter_eq. apply lookup_lt_is_Some in Hf as [fl Hfl]. by rewrite Hfl.
  - destruct (decide (h = f)) as [->|Hne]; [|by rewrite list_lookup_alter_ne].
    rewrite list_lookup_alter_eq. destruct (flows w !! f) eqn:E; [|done].
    destruct Hn. split; [done|]. by eapply lookup_lt_Some.
Qed.

(** The response's part that no stage changes. *)
Definition meta (o : RespObj) : Z * Z * Z := (expiredTime_ o, creationDate_ o, rs_statusCode (ro_resp o)).

Lemma resp_upd r g x w :
  (∀ o, rs_statusCode (g o) = rs_statusCode o) → meta (resp_of x (upd_resp r g w)) = meta (resp_of x w).
Proof.
  intros Hg. unfold resp_of, upd_resp. cbn. destruct (decide (x = r)) as [->|Hne]; [|by rewrite list_lookup_alter_ne].
  rewrite list_lookup_alter_eq. destruct (store w !! r); [|done]. cbn. unfold meta. cbn. by rewrite Hg.
Qed.

Lemma resp_alloc o x w : (x < length (store w))%nat → resp_of x (alloc o w).2 = resp_of x w.
Proof. intros Hx. unfold resp_of, alloc. cbn. by rewrite lookup_app_l. Qed.

Lemma cacheable_meta w w' b r :
  trace w ⊆ trace w' → (length (store w) ≤ length (store w'))%nat →
  ((r < length (store w))%nat → meta (resp_of r w') = meta (resp_of r w)) → cacheable w b r → cacheable w' b r.
Proof.
  intros Ht Hl Hm ((g & Hg) & Hr & He & Hs). specialize (Hm Hr). unfold meta in Hm. injection Hm as E1 E2 E3.
  split_and!; [by exists g; auto | lia | by rewrite E1 | by rewrite E3].
Qed.

Lemma fresh_meta o o' t : meta o' = meta o → fresh o' t = fresh o t.
Proof. unfold meta, fresh. by intros [= -> -> _]. Qed.

Lemma inv_emit f e w :
  inv w → need (trace w) (f, e) →
  (∀ r, e = ESend r → (f < length (flows w))%nat ∧ fl_responseSent (flow f w) = true) →
  (∀ b r t, e = ECached b r t → cacheable w b r ∧ fresh (resp_of r w) t = true) →
  inv (emit f e w).
Proof.
  intros [H1 H2 H3 H4 H5 H6 H7] Hn Hs Hc. assert (Ht : trace w ⊆ trace (emit f e w)) by (cbn; set_solver).
  assert (Hcache : ∀ b r, cacheable w b r → cacheable (emit f e w) b r) by (intros; by eapply cacheable_meta).
  constructor.
  - by apply every_entry_snoc.
  - intros g a Ha. eapply act_ok_mono; [done | by apply H2].
  - intros g b k Hw. destruct (H3 g b k Hw). split; [by eapply passed_mono | by eapply outward_mono].
  - intros g r. cbn. rewrite elem_of_app, list_elem_of_singleton. intros [Hr|[= -> <-]]; [by eapply H4 | by eapply Hs].
  - intros b r Hb. by apply Hcache, H5.
  - intros g b r t. cbn. rewrite elem_of_app, list_elem_of_singleton. intros [Hr|[= -> <-]].
    + destruct (H6 _ _ _ _ Hr). auto.
    + destruct (Hc _ _ _ eq_refl). auto.
  - done.
Qed.

(** Most events only record. *)
Definition is_plain (e : event) : bool :=
  match e with EHandler _ | ECached _ _ _ | EMiddleware _ _ | EAdvice _ _ | ESend _ => false | _ => true end.

Lemma inv_plain f e w : is_plain e = true → inv w → inv (emit f e w).
Proof. intros He Hw. apply inv_emit; [done | by destruct e | by intros r -> | by intros b r t ->]. Qed.

Lemma inv_need f e w :
  match e with ECached _ _ _ | ESend _ => false | _ => true end = true → inv w → need (trace w) (f, e) → inv (emit f e w).
Proof. intros He Hw Hn. apply inv_emit; [done | done | by intros r -> | by intros b r t ->]. Qed.

Lemma inv_enter f a w :
  inv w → act_ok (trace w) f a →
  match a with
  | AAdvice ph i _ => need (trace w) (f, EAdvice ph i)
  | AMiddleware b i _ => need (trace w) (f, EMiddleware b i)
  | AHandler b _ => guarded (trace w) f b
  | _ => True
  end → inv (enter f a w).
Proof.
  intros Hw Ha Hn. apply inv_need; [by destruct a | | by destruct a].
  destruct Hw as [H1 H2 H3 H4 H5 H6 H7]. constructor; try done.
  intros g b. cbn. rewrite <- (assoc_L (++)), elem_of_app, elem_of_app, list_elem_of_singleton.
  intros [Hb|[[= -> ->]|Hb]]; [apply H2, elem_of_app; by left | done | apply H2, elem_of_app; by right].
Qed.

Lemma inv_queue q w :
  inv w → (∀ g b, (g, b) ∈ q → act_ok (trace w) g b) → inv (set_queued q w).
Proof.
  intros [H1 H2 H3 H4 H5 H6 H7] Hq. constructor; try done.
  intros g b. cbn. rewrite elem_of_app. intros [Hb|Hb]; [apply H2, elem_of_app; by left | by apply Hq].
Qed.

Lemma inv_flow f g w :
  inv w → (∀ fl, fl_responseSent fl = true → fl_responseSent (g fl) = true) →
  (∀ b k, fl_streamFinishCb (g (flow f w)) = Some (b, k) →
     fl_streamFinishCb (flow f w) = Some (b, k) ∨ passed_all (trace w) f PreRouting ∧ outward (trace w) f k) →
  inv (upd_flow f g w).
Proof.
  intros [H1 H2 H3 H4 H5 H6 H7] Hs Hc. constructor; try done.
  - intros h b k. rewrite flow_upd. destruct (decide _) as [[-> _]|]; [|apply H3].
    intros [?|?]%Hc; [by apply (H3 f b) | done].
  - intros h r Hr. destruct (H4 h r Hr) as [Hl Hsent]. split; [cbn; by rewrite length_alter|].
    rewrite flow_upd. destruct (decide _) as [[-> _]|]; auto.
Qed.

Lemma inv_store st w :
  inv w → (length (store w) ≤ length st)%nat →
  (∀ r, (r < length (store w))%nat → meta (resp_of r (set_store st w)) = meta (resp_of r w)) →
  inv (set_store st w).
Proof.
  intros [H1 H2 H3 H4 H5 H6 H7] Hl Hm. constructor; try done.
  - intros b r Hb. apply (cacheable_meta w); [done | done | by apply Hm | by apply H5].
  - intros g b r t Hr. destruct (H6 _ _ _ _ Hr) as [Hc Hf]. split.
    + apply (cacheable_meta w); [done | done | by apply Hm | done].
    + rewrite <- Hf. apply fresh_meta, Hm. by destruct Hc as (_ & ? & _).
  - intros r Hr. cbn. specialize (H7 r Hr). lia.
Qed.

Lemma inv_alloc o w : inv w → inv (alloc o w).2.
Proof.
  intros Hw. apply inv_store; [done | rewrite length_app; lia|]. intros r Hr.
  change (set_store (store w ++ [o]) w) with (alloc o w).2. by rewrite resp_alloc.
Qed.

Lemma inv_resp r g w : (∀ o, rs_statusCode (g o) = rs_statusCode o) → inv w → inv (upd_resp r g w).
Proof.
  intros Hg Hw. apply inv_store; [done | by rewrite length_alter|]. intros x _. by apply (resp_upd r g x w).
Qed.

Lemma inv_cache c w : inv w → (∀ b r, c !! b = Some r → cacheable w b r) → inv (set_cache c w).
Proof. intros [H1 H2 H3 H4 H5 H6 H7] Hc. by constructor. Qed.

Lemma inv_page r w : inv w → (r < length (store w))%nat → inv (set_page404 r w).
Proof. intros [H1 H2 H3 H4 H5 H6 H7] Hr. constructor; try done. by intros r' [= <-]. Qed.

Lemma inv_notFound f w :
  inv w → let rw := newNotFoundResponse app f w in
  inv rw.2 ∧ trace w ⊆ trace rw.2 ∧ (rw.1 < length (store rw.2))%nat.
Proof.
  intros Hw. cbv zeta. unfold newNotFoundResponse.
  assert (Hlen : ∀ o, (length (store w) < length (store w ++ [o : RespObj]))%nat) by (intros; rewrite length_app; cbn; lia).
  destruct (ap_isUsingCustomErrorHandler app).
  - split_and!; [by apply inv_alloc | done | apply Hlen].
  - destruct (page404 w) as [r|] eqn:Hp.
    + split_and!; [done | done | by apply (in_page _ Hw)].
    + split_and!; [|done | apply Hlen]. apply inv_page; [by apply inv_alloc | apply Hlen].
Qed.

(** *** The stages *)

Section Stage_invariants.
Context (f : nat) (k : callback) (answer : nat → World → World) (t0 : list (nat * event)).
Context (Hanswer : ∀ r w, inv w → t0 ⊆ trace w → (r < length (store w))%nat → inv (answer r w)).
Context (Hk : outward t0 f k).

Local Lemma good_k tr : t0 ⊆ tr → outward tr f k.
Proof. intros Ht. by eapply outward_mono. Qed.

Lemma inv_answer_with r e w : inv w → t0 ⊆ trace w → inv (answer_with answer r e w).
Proof.
  intros Hw Ht. unfold answer_with, make_resp, alloc. apply Hanswer; [by apply inv_alloc | done|].
  cbn. rewrite length_app. cbn. lia.
Qed.

Lemma inv_handling b w : inv w → t0 ⊆ trace w → guarded (trace w) f b → inv (handling f k answer b w).
Proof.
  intros Hw Ht Hg. unfold handling. destruct (fl_ws (flow f w)).
  - unfold websocketRequestHandling. apply inv_plain; [done|]. apply Hanswer.
    + apply inv_plain; [done|]. apply inv_alloc. by apply inv_need.
    + cbn. set_solver.
    + cbn. rewrite length_app. cbn. lia.
  - unfold httpRequestHandling.
    destruct (cache w !! b) as [r|] eqn:Hc.
    + pose proof (in_cache _ Hw b r Hc) as Hcb. destruct (fresh _ _) eqn:Hfr.
      * apply Hanswer; [|cbn; set_solver | by destruct Hcb as (_ & ? & _)].
        apply inv_plain; [done|]. apply inv_emit; [done | | done | by intros ? ? ? [= <- <- <-]].
        split; [done|]. by destruct Hcb as (? & _).
      * apply inv_enter; [|split; [done|split; [done | by apply good_k]] | done].
        apply inv_cache; [done|]. intros b' r' [_ Hr]%lookup_delete_Some. by apply (in_cache _ Hw).
    + apply inv_enter; [done | split; [done|split; [done | by apply good_k]] | done].
Qed.

Lemma inv_requestPreHandling b w :
  inv w → t0 ⊆ trace w → passed_all (trace w) f PreRouting → passed_all (trace w) f PostRouting → nexted_all (trace w) f b →
  inv (requestPreHandling app f k answer b w).
Proof.
  intros Hw Ht Hp1 Hp2 Hn. unfold requestPreHandling.
  set (w1 := emit f (EObservers PreHandling) w).
  assert (Hsub : trace w ⊆ trace w1) by (cbn; set_solver).
  assert (Hgo : inv (match ap_advices app PreHandling with
    | O => handling f k answer b w1 | S _ => enter f (AAdvice PreHandling 0 (CPreHandling b k)) w1 end)).
  { assert (Hw1 : inv w1) by by apply inv_plain.
    assert (passed_all (trace w1) f PreRouting) by by eapply passed_mono.
    assert (passed_all (trace w1) f PostRouting) by by eapply passed_mono.
    assert (nexted_all (trace w1) f b) by by eapply nexted_mono.
    destruct (ap_advices app PreHandling) eqn:Hnum.
    - apply inv_handling; [done | by etrans|]. split_and!; [done..|]. left. rewrite Hnum. lia.
    - apply inv_enter; [done | |].
      + split; [left; lia|]. split; [done|]. cbn. do 3 (split; [done|]). apply good_k. by etrans.
      + split_and!; [left; lia | done | eauto]. }
  destruct (method_ (fl_req (flow f w))), (fl_customCORS (flow f w)); try done. by apply inv_answer_with.
Qed.

Lemma inv_requestPassMiddlewares b w :
  inv w → t0 ⊆ trace w → passed_all (trace w) f PreRouting → passed_all (trace w) f PostRouting →
  inv (requestPassMiddlewares app f k answer b w).
Proof.
  intros Hw Ht Hp1 Hp2. unfold requestPassMiddlewares. destruct (bd_middlewares _) eqn:Hnum.
  - apply inv_requestPreHandling; try done. unfold nexted_all. rewrite Hnum. intros i Hi. lia.
  - apply inv_enter; [done|split_and!; [done..| |by apply good_k]|split_and!; [done..|]]; intros i Hi; lia.
Qed.

Lemma inv_passPostRouting b w :
  inv w → t0 ⊆ trace w → passed_all (trace w) f PreRouting → inv (passPostRouting app f k answer b w).
Proof.
  intros Hw Ht Hp. unfold passPostRouting. set (w1 := emit f (EObservers PostRouting) w).
  assert (Hw1 : inv w1) by by apply inv_plain. assert (Hsub : trace w ⊆ trace w1) by (cbn; set_solver).
  assert (passed_all (trace w1) f PreRouting) by by eapply passed_mono.
  destruct (ap_advices app PostRouting) eqn:Hnum.
  - apply inv_requestPassMiddlewares; [done | by etrans | done|]. left. rewrite Hnum. lia.
  - apply inv_enter; [done | |].
    + split; [left; lia|]. split; [done|]. cbn. split; [done|]. apply good_k. by etrans.
    + split_and!; [left; lia | done | done].
Qed.

Lemma inv_quit w : inv w → inv (quitStreamMode f w).
Proof. intros Hw. apply inv_flow; [done | done | by left]. Qed.

Lemma inv_bad_request w : inv w → t0 ⊆ trace w → inv (bad_request app f answer w).
Proof. intros Hw Ht. apply inv_answer_with; [by apply inv_quit | done]. Qed.

Lemma inv_requestPostRouting b w :
  inv w → t0 ⊆ trace w → passed_all (trace w) f PreRouting → inv (requestPostRouting app f k answer b w).
Proof.
  intros Hw Ht Hp. unfold requestPostRouting. destruct (bd_isStreamHandler _); [by apply inv_passPostRouting|].
  destruct (fl_stream _).
  - by apply inv_passPostRouting.
  - apply inv_flow; [done | done|]. intros b' k' [= <- <-]. right. split; [done | by apply good_k].
  - apply inv_passPostRouting; [by apply inv_quit | done | done].
  - by apply inv_bad_request.
Qed.

Lemma inv_routing w :
  inv w → t0 ⊆ trace w → passed_all (trace w) f PreRouting → inv (routing app f k answer w).
Proof.
  intros Hw Ht Hp. unfold routing, websocketRequestRouting, httpRequestRouting, handleInvalidHttpMethod.
  destruct (fl_ws _).
  - destruct (ap_routeWs _ _); [by apply inv_requestPostRouting | by apply inv_answer_with|].
    destruct (newNotFoundResponse app f w) as [r w1] eqn:Hr.
    pose proof (inv_notFound f w Hw) as H1. cbv zeta in H1. rewrite Hr in H1. cbn [fst snd] in H1.
    destruct H1 as (Hw1 & Hs1 & Hl1). apply Hanswer; [by apply inv_resp | by etrans | cbn; by rewrite length_alter].
  - destruct (ap_route _ _); [by apply inv_requestPostRouting | by apply inv_answer_with|].
    apply inv_enter; [|by apply good_k; case_match | done].
    case_match; [|done]. apply inv_flow; [done | done | by left].
Qed.
End Stage_invariants.

(** *** Calls and steps *)

Lemma inv_handleResponse f resp w : inv w → inv (handleResponse f resp w).
Proof.
  intros Hw. unfold handleResponse. destruct resp as [r|]; [|done].
  destruct (fl_connected _) eqn:Hc; [|done]. destruct (fl_responseSent _) eqn:Hs; [done|]. cbn [negb].
  assert (Hf : (f < length (flows w))%nat).
  { unfold flow in Hc. destruct (flows w !! f) eqn:E; [by eapply lookup_lt_Some | done]. }
  apply inv_emit; [|intros r' Hr'| |done].
  - apply inv_resp; [done|]. apply inv_flow; [done | done | by left].
  - apply (in_sent _ Hw) in Hr' as [_ Hr']. congruence.
  - intros _ _. split; [cbn; by rewrite length_alter|].
    change (fl_responseSent (flow f (upd_flow f (set_conn true true) w)) = true).
    rewrite flow_upd, decide_True; done.
Qed.

Lemma inv_sendUpgrade f resp w : inv w → inv (sendUpgrade f resp w).
Proof.
  intros Hw. unfold sendUpgrade. destruct resp as [r|]; [|done]. destruct (fl_connected _); [|done]. by apply inv_plain.
Qed.

Lemma inv_cache_response b r w :
  inv w → (r < length (store w))%nat → (∃ g, (g, EReturned b r) ∈ trace w) → inv (cache_response b r w).
Proof.
  intros Hw Hr Hret. unfold cache_response. destruct (_ && _) eqn:Hc; [|done].
  apply andb_true_iff in Hc as [He Hs]. apply Z.leb_le in He. apply negb_true_iff, Z.eqb_neq in Hs.
  apply inv_cache; [done|]. intros b' r'. destruct (decide (b' = b)) as [->|Hb].
  - rewrite lookup_insert_eq. by intros [= <-].
  - rewrite lookup_insert_ne by done. apply (in_cache _ Hw).
Qed.

(** A closure that is called with null goes on only when its phase is over. *)
Definition may_go_on (tr : list (nat * event)) (f : nat) (c : callback) (resp : option nat) : Prop :=
  match resp, phase_of c with None, Some ph => passed_all tr f ph | _, _ => True end.

Definition resp_ok (resp : option nat) (w : World) : Prop := ∀ r, resp = Some r → (r < length (store w))%nat.

Lemma inv_call f c resp w :
  inv w → good (trace w) f c → may_go_on (trace w) f c resp → resp_ok resp w → inv (call app f c resp w).
Proof.
  revert resp w. induction c as [|k IH|b k IH|b k IH|b k IH|b i k IH]; intros resp w Hw Hg Hgo Hr; cbn [call].
  { case_match; [by apply inv_sendUpgrade | by apply inv_handleResponse]. }
  1-3: assert (Hgk : outward (trace w) f k) by (cbn in Hg; unfold outward; tauto).
  1-3: assert (Ha : ∀ r w', inv w' → trace w ⊆ trace w' → (r < length (store w'))%nat → inv (call app f k (Some r) w'))
    by (intros r w' Hw' Ht' Hr'; apply IH; [done | eapply good_mono; [done | apply Hgk] | done | by intros ? [= <-]]).
  1-3: destruct resp as [r|]; [by apply Ha; [..|apply Hr]|].
  - by eapply inv_routing.
  - destruct Hg. by eapply inv_requestPassMiddlewares.
  - destruct Hg as (? & ? & ? & ?). by eapply inv_handling.
  - destruct resp as [r|]; [|done]. destruct Hg as (Hg & Hph & Hgk).
    set (w1 := emit f (EReturned b r) w). assert (Hw1 : inv w1) by by apply inv_plain.
    assert (Hlen : (r < length (store w))%nat) by by apply Hr.
    assert (Hw2 : inv (cache_response b r w1)).
    { apply inv_cache_response; [done | done|]. exists f. cbn. set_solver. }
    assert (Ht : trace w ⊆ trace (cache_response b r w1)).
    { unfold cache_response. case_match; cbn; set_solver. }
    apply IH; [by apply inv_plain | eapply good_mono; [|done]; cbn; set_solver | done|].
    intros ? [= <-]. cbn. unfold cache_response. by case_match.
  - by apply inv_enter.
Qed.

(** A callback on the way out may be called with anything. *)
Lemma inv_outward f c resp w t :
  inv w → t ⊆ trace w → outward t f c → resp_ok resp w → inv (call app f c resp w).
Proof.
  intros Hw Ht [Hph Hg] Hr. apply inv_call; [done | by eapply good_mono| |done].
  unfold may_go_on. rewrite Hph. by destruct resp.
Qed.

Lemma inv_doAdviceChain f ph i c w :
  inv w → act_ok (trace w) f (AAdvice ph i c) → inv (doAdviceChain app f ph i c w).
Proof.
  intros Hw (Hp & Hph & Hg). unfold doAdviceChain. destruct (Nat.ltb_spec i (ap_advices app ph)) as [Hi|Hi].
  - apply inv_enter; [done | done|]. split; [done|]. destruct c; cbn in *; simplify_eq.
    + by split.
    + split; [tauto | done].
    + destruct Hg as (? & ? & ? & ?). split; [done | eauto].
  - apply inv_call; [done | done| |done]. unfold may_go_on. rewrite Hph. destruct Hp as [Hp|Hp]; [left|by right].
    intros j Hj. apply Hp. lia.
Qed.

Lemma inv_chain f ph i c w : inv w → act_ok (trace w) f (AAdvice ph i c) → inv (chain app f ph i c w).
Proof.
  intros Hw (Hp & Hph & Hg). unfold chain. apply inv_doAdviceChain; [by apply inv_plain|].
  split_and!; [|done | eapply good_mono; [|done]; cbn; set_solver].
  destruct Hp as [Hp|Hp]; [left | right; cbn; set_solver]. intros j Hj. cbn. apply elem_of_app.
  destruct (decide (j = i)) as [->|Hne]; [right; by left | left; apply Hp; lia].
Qed.

Lemma inv_next f b i post w : inv w → act_ok (trace w) f (AMiddleware b i post) → inv (next app f b i post w).
Proof.
  intros Hw (Hp1 & Hp2 & Hn & Hg). unfold next, passMiddlewareChains. set (w1 := emit f (ENext b i) w).
  assert (Hw1 : inv w1) by by apply inv_plain. assert (Ht : trace w ⊆ trace w1) by (cbn; set_solver).
  assert (passed_all (trace w1) f PreRouting) by by eapply passed_mono.
  assert (passed_all (trace w1) f PostRouting) by by eapply passed_mono.
  assert (Hg1 : outward (trace w1) f post) by by eapply outward_mono.
  assert (Hn1 : nexted (trace w1) f b (S i)).
  { intros j Hj. cbn. apply elem_of_app. destruct (decide (j = i)) as [->|Hne]; [right; by left | left; apply Hn; lia]. }
  destruct (Nat.ltb_spec (S i) (bd_middlewares (ap_binder app b))) as [Hi|Hi].
  - apply inv_enter; [done | |]; cbn [act_ok need]; auto.
  - eapply (inv_requestPreHandling _ _ _ (trace w1)); [|done | done | done | done | done |].
    + intros r w' Hw' Ht' Hr'. by eapply inv_outward; [..|intros ? [= <-]].
    + intros j Hj. apply Hn1. unfold nexted_all in *. lia.
Qed.

Lemma inv_respond f a resp w :
  inv w → act_ok (trace w) f a → resp_ok resp w → inv (respond app f a resp w).
Proof.
  intros Hw Ha Hr. destruct a as [ph i c|b i c|b i c r0|b c|c]; cbn [respond]; [|by eapply inv_outward; [..|apply Ha|]..].
  destruct Ha as (Hp & Hph & Hg). destruct resp as [r|]; [by apply inv_call|].
  apply inv_call; [by apply inv_plain | eapply good_mono; [|done]; cbn; set_solver| |done].
  unfold may_go_on. rewrite Hph. right. cbn. set_solver.
Qed.

Lemma act_ok_post tr f wrap b i outer :
  act_ok tr f (AMiddleware b i outer) → act_ok tr f (AMiddleware b i (post_of wrap b i outer)).
Proof. intros (? & ? & ? & Hg). split_and!; try done. by destruct wrap. Qed.

Lemma inv_run_queued w : inv w → inv (run_queued app w).
Proof.
  intros Hw. unfold run_queued. destruct (queued w) as [|[f a] q] eqn:Hq; [done|].
  assert (Hin : ∀ g b, (g, b) ∈ (f, a) :: q → act_ok (trace w) g b).
  { intros g b Hb. apply (in_acts _ Hw), elem_of_app. right. by rewrite Hq. }
  assert (Hw1 : inv (set_queued q w)) by (apply inv_queue; [done|]; intros g b Hb; apply Hin; by right).
  destruct a; try done; [apply inv_chain | apply inv_next]; try done; apply Hin; by left.
Qed.

Lemma inv_onRequest f w : inv w → inv (onRequest app f w).
Proof.
  intros Hw. unfold onRequest. case_match.
  - unfold make_resp, alloc. apply inv_call; [by apply inv_alloc | done | done|].
    intros r [= <-]. cbn. rewrite length_app. cbn. lia.
  - set (w1 := emit f (EObservers PreRouting) w). assert (Hw1 : inv w1) by by apply inv_plain.
    destruct (ap_advices app PreRouting) eqn:Hn.
    + apply (inv_routing _ _ _ (trace w1)); [|done | done | done | left; rewrite Hn; lia].
      intros r w' Hw' Ht' Hr'. by apply inv_call; [..|intros ? [= <-]].
    + apply inv_enter; [done | |]; split_and!; try done; left; lia.
Qed.

Lemma inv_take_request req ws stream w : inv w → inv (take_request app req ws stream w).
Proof.
  intros Hw. apply inv_onRequest. destruct Hw as [H1 H2 H3 H4 H5 H6 H7].
  assert (Hfl : ∀ f, flow f (set_flows (flows w ++ [new_flow req ws stream]) w) = flow f w ∨
    (length (flows w) ≤ f)%nat ∧ flow f (set_flows (flows w ++ [new_flow req ws stream]) w) ∈ [new_flow req ws stream; no_flow]).
  { intros f. unfold flow. cbn. destruct (Nat.lt_ge_cases f (length (flows w))); [left; by rewrite lookup_app_l|].
    right. split; [done|]. rewrite lookup_app_r by done. destruct (f - length (flows w))%nat as [|[|?]]; cbn; set_solver. }
  constructor; try done.
  - intros f b k Hcb. destruct (Hfl f) as [E|[_ E]]; [rewrite E in Hcb; by apply (H3 f b)|].
    rewrite !elem_of_cons, elem_of_nil in E. destruct E as [E|[E|[]]]; by rewrite E in Hcb.
  - intros f r Hr. destruct (H4 f r Hr) as [Hl Hs]. split; [cbn; rewrite length_app; lia|].
    destruct (Hfl f) as [->|[? _]]; [done | lia].
Qed.

Lemma inv_stream_ends ok f w : inv w → inv (stream_ends app ok f w).
Proof.
  intros Hw. unfold stream_ends.
  assert (Hw1 : inv (upd_flow f (set_stream (if ok then SFinish else SError) None) w)) by by apply inv_flow.
  destruct (fl_streamFinishCb (flow f w)) as [[b k]|] eqn:Hcb; [|done].
  destruct (in_waiting _ Hw _ _ _ Hcb) as [Hp Hk].
  assert (Ha : ∀ r w', inv w' → trace w ⊆ trace w' → (r < length (store w'))%nat → inv (call app f k (Some r) w'))
    by (intros r w' Hw' Ht' Hr'; by eapply inv_outward; [..|intros ? [= <-]]).
  destruct ok.
  - by eapply (inv_requestPostRouting _ _ _ (trace w)); [..|apply inv_quit| |].
  - by eapply (inv_bad_request _ _ (trace w)).
Qed.

Lemma flow_step_inv w w' : inv w → step app w w' → inv w'.
Proof.
  intros Hw Hstep. destruct Hstep as [req ws stream w|f a resp w Ha Hr|f ph i c w Ha|f ph i c w Ha|f b i outer wrap w Ha
    |f b i outer wrap w Ha|w|resp e w|f w|f w|ok f w Hs|f w|t w Ht].
  - by apply inv_take_request.
  - apply inv_respond; [done | | done]. apply (in_acts _ Hw), elem_of_app. by left.
  - apply inv_chain; [done|]. apply (in_acts _ Hw), elem_of_app. by left.
  - apply inv_queue; [done|]. intros g a [Hg|[= -> ->]%list_elem_of_singleton]%elem_of_app;
      apply (in_acts _ Hw), elem_of_app; [by right | by left].
  - apply inv_next; [done|]. by apply act_ok_post, (in_acts _ Hw), elem_of_app; left.
  - apply inv_queue; [done|]. intros g a [Hg|[= -> ->]%list_elem_of_singleton]%elem_of_app.
    + apply (in_acts _ Hw), elem_of_app. by right.
    + by apply act_ok_post, (in_acts _ Hw), elem_of_app; left.
  - by apply inv_run_queued.
  - by apply inv_alloc.
  - by apply inv_notFound.
  - apply inv_flow; [done | done | by left].
  - by apply inv_stream_ends.
  - apply inv_flow; [done | done | by left].
  - destruct Hw. by constructor.
Qed.

Lemma reachable_flow_inv t w : reachable (step app) (new_world t) w → inv w.
Proof.
  apply reachable_invariant; [|intros; by eapply flow_step_inv].
  constructor; try done.
  - apply every_entry_nil.
  - intros f a Ha. by apply elem_of_nil in Ha.
  - intros f r Hr. by apply elem_of_nil in Hr.
  - intros f b r u Hr. by apply elem_of_nil in Hr.
Qed.
End Order.

(** ** Properties *)


