(* ===== verification/FlowFunction.v ===== *)
(** * The function a request's way computes

    [RequestFlow] with user code that cooperates, against a plain definition:
    the composition of what advices, middlewares and handlers answer. *)

From stdpp Require Import base list numbers option strings gmap.
From Stdlib Require Import ZArith Lia.
From S2P Require Import Prelude CDouble StaticFiles MsgBuffer HttpRequest ResponseRender Handshake RequestFlow.

(** ** Cooperative user code

    Advices that answer or pass on, middlewares that answer or wrap what comes
    back, handlers that answer: the whole machinery then computes a plain
    function of the request. *)

Record Users := {
  u_advice : phase → nat → HttpRequestImpl → option HttpResponseImpl;
  u_pre : nat → nat → HttpRequestImpl → option HttpResponseImpl;
  u_post : nat → nat → HttpResponseImpl → HttpResponseImpl;
  u_handler : nat → HttpRequestImpl → HttpResponseImpl * Z;
  u_static : HttpRequestImpl → HttpResponseImpl
}.

Section Cooperative.
Context (app : App) (u : Users).

Definition reply (f : nat) (c : callback) (o : HttpResponseImpl) (expired : Z) (w : World) : World :=
  let '(r, w1) := make_resp o expired w in call app f c (Some r) w1.

(** What the user code does when it is entered. *)
Definition react (f : nat) (a : activation) (w : World) : World :=
  let req := fl_req (flow f w) in
  match a with
  | AAdvice ph i c =>
      match u_advice u ph i req with Some o => reply f c o (-1) w | None => chain app f ph i c w end
  | AMiddleware b i outer =>
      match u_pre u b i req with Some o => reply f outer o (-1) w | None => next app f b i (CPost b i outer) w end
  | APost b i outer (Some r) => reply f outer (u_post u b i (ro_resp (resp_of r w))) (-1) w
  | APost _ _ _ None => w
  | AHandler b c => let '(o, e) := u_handler u b req in reply f c o e w
  | AStatic c => reply f c (u_static u req) (-1) w
  end.

(** The entries into user code from the [n]th on. *)
Fixpoint serve (fuel n : nat) (w : World) : World :=
  match fuel with
  | O => w
  | S fuel => match acts w !! n with Some (f, a) => serve fuel (S n) (react f a w) | None => w end
  end.

(** *** The function *)

Fixpoint first_answer (ph : phase) (req : HttpRequestImpl) (i n : nat) : option HttpResponseImpl :=
  match n with
  | O => None
  | S n => match u_advice u ph i req with Some o => Some o | None => first_answer ph req (S i) n end
  end.

Fixpoint onion (b : nat) (req : HttpRequestImpl) (core : HttpResponseImpl) (i n : nat) : HttpResponseImpl :=
  match n with
  | O => core
  | S n => match u_pre u b i req with Some o => o | None => u_post u b i (onion b req core (S i) n) end
  end.

Section Answer.
(** What the cache holds for a binder that may still be used. *)
Context (cached : nat → option HttpResponseImpl) (req : HttpRequestImpl).

Definition after_advices (ph : phase) (o : HttpResponseImpl) : HttpResponseImpl :=
  default o (first_answer ph req 0 (ap_advices app ph)).

Definition core (b : nat) : HttpResponseImpl :=
  match method_ req with
  | Options => options_response (bd_corsMethods (ap_binder app b)) req
  | _ => after_advices PreHandling (default (u_handler u b req).1 (cached b))
  end.

Definition routed : HttpResponseImpl :=
  match ap_route app req with
  | Success b => after_advices PostRouting (onion b req (core b) 0 (bd_middlewares (ap_binder app b)))
  | MethodNotAllowed => ap_customErrorHandler app (match method_ req with Options => 403 | _ => 405 end) req
  | NotFound =>
      u_static u (if bool_decide (path_ req = str "/") && negb (bool_decide (ap_homePage app = []))
                  then setPath_string (str "/" ++ ap_homePage app) req else req)
  end.

Definition answer_of : HttpResponseImpl :=
  if match method_ req with Options => bool_decide (path_ req = str "*") || bool_decide (path_ req = str "/*") | _ => false end
  then add_header (str "Allow") (str "GET,HEAD,POST,PUT,DELETE,OPTIONS,PATCH")
         (set_content_type (str "text/plain; charset=utf-8") newHttpResponse)
  else after_advices PreRouting routed.
End Answer.

(** What [handleResponse] writes into the response. *)
Definition finish (req : HttpRequestImpl) (o : HttpResponseImpl) : HttpResponseImpl :=
  set_close (negb (keepAlive_ req)) (set_version (version_ req) o).

(** *** The machinery computes it *)

Definition cache_view (w : World) (b : nat) : option HttpResponseImpl :=
  match cache w !! b with Some r => if fresh (resp_of r w) (now w) then Some (ro_resp (resp_of r w)) else None | None => None end.

(** The request is under way, and all entries into user code so far are done. *)
Record ready (f : nat) (req : HttpRequestImpl) (cached : nat → option HttpResponseImpl) (n : nat) (w : World) : Prop := {
  rd_flow : flows w !! f = Some (new_flow req false SNone);
  rd_acts : length (acts w) = n;
  rd_cache b r : cache w !! b = Some r → (r < length (store w))%nat;
  rd_view b : cache_view w b = cached b
}.

Definition delivers (f : nat) (o : HttpResponseImpl) (n : nat) (w : World) : Prop :=
  ∃ fuel r, list.last (trace (serve fuel n w)) = Some (f, ESend r) ∧ ro_resp (resp_of r (serve fuel n w)) = o.

Lemma delivers_step f o n w g a : acts w !! n = Some (g, a) → delivers f o (S n) (react g a w) → delivers f o n w.
Proof. intros Ha (fuel & r & H1 & H2). exists (S fuel), r. cbn [serve]. by rewrite Ha. Qed.

(** The way out. *)
Fixpoint posts (c : callback) (o : HttpResponseImpl) : HttpResponseImpl :=
  match c with
  | CFinal => o
  | CPost b i k => posts k (u_post u b i o)
  | CPreRouting k | CPostRouting _ k | CPreHandling _ k | CHandler _ k => posts k o
  end.

Lemma ready_flow f req cached n w : ready f req cached n w → flow f w = new_flow req false SNone.
Proof. intros [H _ _ _]. unfold flow. by rewrite H. Qed.

(** On the way out only the flow matters. *)
Definition going_out (f : nat) (req : HttpRequestImpl) (n : nat) (w : World) : Prop :=
  flows w !! f = Some (new_flow req false SNone) ∧ length (acts w) = n.

Lemma entered f a n w : length (acts w) = n → acts (enter f a w) !! n = Some (f, a).
Proof. intros <-. unfold enter. cbn. rewrite lookup_app_r by done. by rewrite Nat.sub_diag. Qed.

Lemma resp_new o w : resp_of (length (store w)) (alloc o w).2 = o.
Proof. unfold resp_of, alloc. cbn. rewrite lookup_app_r by done. by rewrite Nat.sub_diag. Qed.

Lemma call_out f req c r o n w :
  going_out f req n w → (r < length (store w))%nat → ro_resp (resp_of r w) = o →
  delivers f (finish req (posts c o)) n (call app f c (Some r) w).
Proof.
  revert r o n w. induction c as [|k IH|b k IH|b k IH|b k IH|b i k IH]; intros r o n w [Hf Hn] Hr Ho;
    cbn [call posts]; try by (apply IH; [split|..]).
  - assert (Hfl : flow f w = new_flow req false SNone) by (unfold flow; by rewrite Hf).
    rewrite Hfl. cbn [fl_ws new_flow]. unfold handleResponse. rewrite Hfl. cbn [fl_connected fl_responseSent new_flow negb].
    exists O, r. cbn [serve]. split; [cbn; by rewrite last_snoc|].
    unfold resp_of, upd_resp, emit. cbn. rewrite list_lookup_alter_eq. unfold resp_of in Ho.
    apply lookup_lt_is_Some in Hr as [x Hx]. rewrite Hx in *. cbn in *. by rewrite Ho.
  - apply IH; [|cbn; unfold cache_response; by case_match|].
    + split; cbn; unfold cache_response; by case_match.
    + rewrite <- Ho. unfold resp_of, emit, cache_response. cbn. by case_match.
  - eapply delivers_step; [by apply entered|]. cbn [react]. unfold reply, make_resp.
    set (w1 := enter f (APost b i k (Some r)) w). unfold alloc.
    change (resp_of r w1) with (resp_of r w). rewrite Ho.
    match goal with |- delivers _ _ _ (call _ _ _ _ ?w2) => set (w2' := w2) end.
    apply IH; [split; [done | cbn; rewrite length_app; cbn; lia] | cbn; rewrite length_app; cbn; lia|].
    pose proof (resp_new {| ro_resp := u_post u b i o; expiredTime_ := -1; creationDate_ := now w1 |} w1) as E.
    unfold alloc in E. cbn [snd] in E. unfold w2'. by rewrite E.
Qed.

Lemma reply_out f req c o e n w :
  going_out f req n w → delivers f (finish req (posts c o)) n (reply f c o e w).
Proof.
  intros [Hf Hn]. unfold reply, make_resp. set (x := {| ro_resp := o; expiredTime_ := e; creationDate_ := now w |}).
  pose proof (resp_new x w) as Hx. unfold alloc in *. cbn [snd] in Hx.
  apply call_out; [by split | cbn; rewrite length_app; cbn; lia | by rewrite Hx].
Qed.

Lemma ready_out f req cached n w : ready f req cached n w → going_out f req n w.
Proof. intros []. by split. Qed.

Lemma ready_emit f req cached n w g e : ready f req cached n w → ready f req cached n (emit g e w).
Proof. by intros []. Qed.

Lemma ready_enter f req cached n w a : ready f req cached n w → ready f req cached (S n) (enter f a w).
Proof. intros [H1 H2 H3 H4]. constructor; try done. cbn. rewrite length_app. cbn. lia. Qed.

Lemma going_enter f req n w a : going_out f req n w → going_out f req (S n) (enter f a w).
Proof. intros [H1 H2]. split; [done|]. cbn. rewrite length_app. cbn. lia. Qed.

Section Forward.
Context (f : nat) (req : HttpRequestImpl) (cached : nat → option HttpResponseImpl).
Local Notation sends := (λ o, delivers f (finish req o)).
Local Notation answer k := (λ r, call app f k (Some r)).

(** Entering user code and going on with what it does. *)
Lemma react_out a o n w :
  ready f req cached n w →
  (∀ w', w' = enter f a w → ready f req cached (S n) w' → fl_req (flow f w') = req → sends o (S n) (react f a w')) →
  sends o n (enter f a w).
Proof.
  intros Hw Hr. pose proof (ready_enter f req cached n w a Hw) as Hw'.
  eapply delivers_step; [apply entered, Hw|]. apply Hr; [done | done|]. by rewrite (ready_flow _ _ _ _ _ Hw').
Qed.

Lemma chain_out ph c X :
  (∀ n w, ready f req cached n w → sends X n (call app f c None w)) →
  ∀ m i n w, (i + m = ap_advices app ph)%nat → ready f req cached n w →
  sends (default X (posts c <$> first_answer ph req i m)) n (doAdviceChain app f ph i c w).
Proof.
  intros HX. induction m as [|m IH]; intros i n w Him Hw; unfold doAdviceChain.
  - rewrite (proj2 (Nat.ltb_ge _ _)) by lia. by apply HX.
  - rewrite (proj2 (Nat.ltb_lt _ _)) by lia. apply react_out; [done|]. intros w' _ Hw' Hreq.
    cbn [react first_answer]. rewrite Hreq. destruct (u_advice u ph i req) as [o|].
    + by apply reply_out, (ready_out _ _ cached).
    + apply IH; [lia | by apply ready_emit].
Qed.

(** A whole phase, which may be empty. *)
Lemma phase_out ph c k X w n :
  posts c = posts k → (∀ n w, ready f req cached n w → sends (posts k X) n (call app f c None w)) → ready f req cached n w →
  sends (posts k (after_advices req ph X)) n
    (match ap_advices app ph with O => call app f c None w | S _ => enter f (AAdvice ph 0 c) w end).
Proof.
  intros Hc HX Hw. pose proof (chain_out ph c (posts k X) HX (ap_advices app ph) 0 n w eq_refl Hw) as Hch.
  unfold doAdviceChain in Hch. unfold after_advices. rewrite Hc in Hch.
  replace (default (posts k X) (posts k <$> first_answer ph req 0 (ap_advices app ph)))
    with (posts k (default X (first_answer ph req 0 (ap_advices app ph)))) in Hch by (by destruct (first_answer _ _ _ _)).
  by destruct (ap_advices app ph).
Qed.

Lemma answer_with_out k o e n w : ready f req cached n w → sends (posts k o) n (answer_with (answer k) o e w).
Proof. intros Hw. by apply (reply_out f req k o e), (ready_out _ _ cached). Qed.

Lemma handling_out b k n w :
  ready f req cached n w → sends (posts k (default (u_handler u b req).1 (cached b))) n (handling f k (answer k) b w).
Proof.
  intros Hw. unfold handling. rewrite (ready_flow _ _ _ _ _ Hw). cbn [fl_ws new_flow]. unfold httpRequestHandling.
  pose proof (rd_view _ _ _ _ _ Hw b) as Hv. unfold cache_view in Hv.
  assert (Hh : ∀ w', going_out f req n w' → cached b = None → fl_req (flow f w') = req →
    sends (posts k (default (u_handler u b req).1 (cached b))) n (enter f (AHandler b (CHandler b k)) w')).
  { intros w' Hw' -> Hreq. eapply delivers_step; [apply entered, Hw'|]. cbn [react].
    change (fl_req (flow f (enter f (AHandler b (CHandler b k)) w'))) with (fl_req (flow f w')). rewrite Hreq.
    destruct (u_handler u b req) as [o e]. cbn [fst default]. by apply (reply_out f req (CHandler b k)), going_enter. }
  destruct (cache w !! b) as [r|] eqn:Hc.
  - destruct (fresh (resp_of r w) (now w)) eqn:Hf.
    + rewrite <- Hv. cbn [default]. apply call_out; [by apply ready_out in Hw | by apply (rd_cache _ _ _ _ _ Hw b) | done].
    + apply Hh; [by apply ready_out in Hw | done|].
      change (fl_req (flow f w) = req). by rewrite (ready_flow _ _ _ _ _ Hw).
  - apply Hh; [by apply ready_out in Hw | done|]. by rewrite (ready_flow _ _ _ _ _ Hw).
Qed.

Lemma requestPreHandling_out b k n w :
  ready f req cached n w → sends (posts k (core cached req b)) n (requestPreHandling app f k (answer k) b w).
Proof.
  intros Hw. unfold requestPreHandling, core. rewrite (ready_flow _ _ _ _ _ Hw). cbn [fl_req fl_customCORS new_flow].
  assert (Hgo : sends (posts k (after_advices req PreHandling (default (u_handler u b req).1 (cached b)))) n
    (match ap_advices app PreHandling with
     | O => handling f k (answer k) b (emit f (EObservers PreHandling) w)
     | S _ => enter f (AAdvice PreHandling 0 (CPreHandling b k)) (emit f (EObservers PreHandling) w) end)).
  { apply (phase_out PreHandling (CPreHandling b k)); [done| |by apply ready_emit].
    intros n' w' Hw'. by apply handling_out. }
  destruct (method_ req); try exact Hgo.
  unfold handleHttpOptions. rewrite (ready_flow _ _ _ _ _ Hw). by apply answer_with_out.
Qed.

Lemma middlewares_out b : ∀ m i outer n w,
  (i + m = bd_middlewares (ap_binder app b))%nat → ready f req cached n w →
  sends (posts outer (onion b req (core cached req b) i m)) n (passMiddlewareChains app f b i outer w).
Proof.
  induction m as [|m IH]; intros i outer n w Him Hw; unfold passMiddlewareChains.
  - rewrite (proj2 (Nat.ltb_ge _ _)) by lia. by apply requestPreHandling_out.
  - rewrite (proj2 (Nat.ltb_lt _ _)) by lia. apply react_out; [done|]. intros w' _ Hw' Hreq.
    cbn [react onion]. rewrite Hreq. destruct (u_pre u b i req) as [o|].
    + by apply reply_out, (ready_out _ _ cached).
    + apply (IH (S i) (CPost b i outer)); [lia | by apply ready_emit].
Qed.

Lemma requestPassMiddlewares_out b k n w :
  ready f req cached n w →
  sends (posts k (onion b req (core cached req b) 0 (bd_middlewares (ap_binder app b)))) n
    (requestPassMiddlewares app f k (answer k) b w).
Proof.
  intros Hw. pose proof (middlewares_out b (bd_middlewares (ap_binder app b)) 0 k n w eq_refl Hw) as Hm.
  unfold passMiddlewareChains in Hm. unfold requestPassMiddlewares. by destruct (bd_middlewares (ap_binder app b)).
Qed.

Lemma requestPostRouting_out b k n w :
  ready f req cached n w →
  sends (posts k (after_advices req PostRouting (onion b req (core cached req b) 0 (bd_middlewares (ap_binder app b))))) n
    (requestPostRouting app f k (answer k) b w).
Proof.
  intros Hw. unfold requestPostRouting. rewrite (ready_flow _ _ _ _ _ Hw). cbn [fl_stream new_flow].
  assert (Hgo : sends (posts k (after_advices req PostRouting
    (onion b req (core cached req b) 0 (bd_middlewares (ap_binder app b))))) n (passPostRouting app f k (answer k) b w)).
  { apply (phase_out PostRouting (CPostRouting b k)); [done| |by apply ready_emit].
    intros n' w' Hw'. by apply requestPassMiddlewares_out. }
  by destruct (bd_isStreamHandler _).
Qed.

Lemma routing_out k n w :
  ready f req cached n w → sends (posts k (routed cached req)) n (routing app f k (answer k) w).
Proof.
  intros Hw. unfold routing, httpRequestRouting, routed, handleInvalidHttpMethod.
  rewrite (ready_flow _ _ _ _ _ Hw). cbn [fl_ws fl_req fl_customCORS new_flow].
  destruct (ap_route app req); [by apply requestPostRouting_out | by apply answer_with_out|].
  destruct (_ && _).
  - set (req' := setPath_string (str "/" ++ ap_homePage app) req).
    set (w1 := upd_flow f _ w).
    assert (Hf1 : flows w1 !! f = Some (new_flow req' false SNone)).
    { unfold w1, upd_flow. cbn. rewrite list_lookup_alter_eq, (rd_flow _ _ _ _ _ Hw). done. }
    assert (Hn1 : length (acts w1) = n) by apply Hw.
    eapply delivers_step; [by apply entered|]. cbn [react].
    assert (Hg : going_out f req' (S n) (enter f (AStatic k) w1)) by (by apply going_enter).
    replace (fl_req (flow f (enter f (AStatic k) w1))) with req'; [by apply (reply_out f req' k)|].
    unfold flow, enter. cbn. by rewrite list_lookup_alter_eq, (rd_flow _ _ _ _ _ Hw).
  - apply react_out; [done|]. intros w' _ Hw' Hreq. cbn [react]. rewrite Hreq. by apply reply_out, (ready_out _ _ cached).
Qed.

Lemma onRequest_out n w :
  ready f req cached n w → sends (answer_of cached req) n (onRequest app f w).
Proof.
  intros Hw. unfold onRequest, answer_of. rewrite (ready_flow _ _ _ _ _ Hw). cbn [fl_ws fl_req new_flow negb andb].
  destruct (match method_ req with Options => _ | _ => false end).
  - by apply (reply_out f req CFinal), (ready_out _ _ cached).
  - apply (phase_out PreRouting (CPreRouting CFinal) CFinal); [done| |by apply ready_emit].
    intros n' w' Hw'. by apply routing_out.
Qed.
End Forward.
End Cooperative.

(** ** Properties *)


(** ** Witnesses *)

Definition demo_app : App :=
  {| ap_advices ph := match ph with PreHandling => 0 | _ => 1 end%nat;
     ap_binder _ := {| bd_middlewares := 2; bd_isStreamHandler := false; bd_corsMethods := str "GET" |};
     ap_route r := if bool_decide (path_ r = str "/x") then Success 0 else NotFound;
     ap_routeWs _ := NotFound; ap_isUsingCustomErrorHandler := false;
     ap_customErrorHandler code _ := set_code code newHttpResponse;
     ap_notFoundPage := newHttpResponse; ap_homePage := [] |}.

Definition demo_users : Users :=
  {| u_advice _ _ _ := None; u_pre _ _ _ := None;
     u_post _ i o := add_header (str "X-Mw") (str (dec (Z.of_nat i))) o;
     u_handler _ _ := (newHttpResponse, -1); u_static _ := set_code 404 newHttpResponse |}.


