(* ===== verification/EventLoop.v ===== *)
(** * The event loop's queue of functions

    [trantor::MpscQueue] (src/src/drogon/trantor/utils/LockFreeQueue.h), a
    lock-free list with any number of producers and one consumer, and the part
    of [trantor::EventLoop] (src/src/drogon/trantor/net/EventLoop.cc) built on
    it: [queueInLoop], [wakeup] and [wakeupRead], [doRunInLoopFuncs], [quit],
    [runOnQuit] and [loop].

    Both are modelled at the grain of their atomic operations.  A producer's
    [enqueue] is two steps, the exchange of [head_] and the store of the
    predecessor's [next_], between which anything may happen; the loop's thread
    polls, reads its event descriptor, runs the channels' callbacks and then
    the functions.  Functions are numbers.  What epoll reports besides the
    wake-up is left open: polling may return at any time. *)

From stdpp Require Import base list numbers option.
From Stdlib Require Import ZArith Lia.
From S2P Require Import Prelude.

(** ** The queue *)

Module Mpsc.

(** A node, with its state in memory: [freed] after [delete]. *)
Record node := { dataPtr_ : option Z; next_ : option nat; freed : bool }.

Record Queue := { heap : list node; head_ : nat; tail_ : nat }.

(** The constructor: one node without data. *)
Definition new_queue : Queue :=
  {| heap := [{| dataPtr_ := None; next_ := None; freed := false |}]; head_ := 0; tail_ := 0 |}.

(** [new BufferNode(input)] and [head_.exchange(node)]: the previous head, and the node. *)
Definition exchange (x : Z) (q : Queue) : (nat * nat) * Queue :=
  let n := length (heap q) in
  ((head_ q, n),
   {| heap := heap q ++ [{| dataPtr_ := Some x; next_ := None; freed := false |}]; head_ := n; tail_ := tail_ q |}).

Definition set_next (n : nat) (d : node) : node := {| dataPtr_ := dataPtr_ d; next_ := Some n; freed := freed d |}.

(** [prevhead->next_.store(node)]: [None] when the node has been deleted. *)
Definition link (pn : nat * nat) (q : Queue) : option Queue :=
  d ← heap q !! pn.1;
  if freed d then None
  else Some {| heap := <[pn.1 := set_next pn.2 d]> (heap q); head_ := head_ q; tail_ := tail_ q |}.

Definition next_of_tail (q : Queue) : option nat := d ← heap q !! tail_ q; next_ d.

Definition empty (q : Queue) : bool := match next_of_tail q with None => true | Some _ => false end.

(** [dequeue]: the outer option is [false]; the node the tail leaves is deleted. *)
Definition dequeue (q : Queue) : option (option Z * Queue) :=
  t ← heap q !! tail_ q;
  n ← next_ t;
  d ← heap q !! n;
  Some (dataPtr_ d,
        {| heap := <[tail_ q := {| dataPtr_ := dataPtr_ t; next_ := next_ t; freed := true |}]>
                     (<[n := {| dataPtr_ := None; next_ := next_ d; freed := freed d |}]> (heap q));
           head_ := head_ q; tail_ := n |}).

(** *** What the list looks like

    [items] are the values in the order of the exchanges and [pending] the
    producers between their two steps. *)
Record shape (items : list Z) (pending : list (nat * nat)) (q : Queue) : Prop := {
  sh_length : length (heap q) = S (length items);
  sh_head : head_ q = length items;
  sh_tail : (tail_ q ≤ length items)%nat;
  sh_node : ∀ i d, heap q !! i = Some d →
    freed d = bool_decide (i < tail_ q)%nat ∧
    ((tail_ q < i)%nat → dataPtr_ d = items !! (i - 1)%nat) ∧
    (next_ d = Some (S i) ∧ (i, S i) ∉ pending ∧ (i < length items)%nat ∨
     next_ d = None ∧ (tail_ q ≤ i)%nat ∧ ((i, S i) ∈ pending ∨ i = length items));
  sh_pending : ∀ p n, (p, n) ∈ pending → n = S p ∧ (n ≤ length items)%nat;
  sh_nodup : base.NoDup pending
}.

Lemma new_shape : shape [] [] new_queue.
Proof.
  constructor; cbn; try done; [| by intros p n ?%elem_of_nil | by apply list.NoDup_nil].
  intros i d Hi. destruct i as [|i]; [|done]. injection Hi as <-. cbn. split_and!; [done | lia|].
  right. split_and!; [done | lia | by right].
Qed.

Lemma exchange_shape x items pending q pn q' :
  shape items pending q → exchange x q = (pn, q') → shape (items ++ [x]) (pending ++ [pn]) q'.
Proof.
  intros [Hlen Hhead Htail Hnode Hp Hnd] [= <- <-]. rewrite Hlen, Hhead.
  assert (Hnew : (length items, S (length items)) ∉ pending) by (intros Hx; apply Hp in Hx; lia).
  constructor; cbn [heap head_ tail_]; rewrite ?length_app; cbn [length]; try lia.
  - intros i d Hi. apply lookup_app_Some in Hi as [Hi|[Hi Hd]].
    + destruct (Hnode _ _ Hi) as (H1 & H2 & H3). pose proof (lookup_lt_Some _ _ _ Hi). split_and!; [done | |].
      * intros Hlt. rewrite (H2 Hlt). symmetry. apply lookup_app_l. lia.
      * rewrite elem_of_app, list_elem_of_singleton. destruct H3 as [(? & ? & ?)|(? & ? & [?| ->])].
        -- left. split_and!; [done | | lia]. intros [?|[= ?]]; [done | lia].
        -- right. auto.
        -- right. auto.
    + rewrite Hlen in Hi, Hd. apply list_lookup_singleton_Some in Hd as [Hz <-]. cbn.
      assert (i = S (length items)) as -> by lia. split_and!.
      * symmetry. apply bool_decide_eq_false. lia.
      * intros _. cbn. by rewrite Nat.sub_0_r, list_lookup_middle.
      * right. split_and!; [done | lia | right; lia].
  - intros p n. rewrite elem_of_app, list_elem_of_singleton. intros [Hx|[= -> ->]]; [apply Hp in Hx|]; lia.
  - apply list.NoDup_app. split_and!; [done | | apply list.NoDup_singleton].
    by intros y Hy ->%list_elem_of_singleton.
Qed.

(** A producer's second step finds its node: it is never one that was deleted. *)
Lemma link_shape items pending q p n :
  shape items pending q → (p, n) ∈ pending →
  ∃ q', link (p, n) q = Some q' ∧ tail_ q' = tail_ q ∧ (tail_ q ≤ p)%nat ∧
        (∀ l1 l2, pending = l1 ++ (p, n) :: l2 → shape items (l1 ++ l2) q').
Proof.
  intros [Hlen Hhead Htail Hnode Hp Hnd] Hin. destruct (Hp _ _ Hin) as [-> Hle].
  destruct (lookup_lt_is_Some_2 (heap q) p) as [d Hd]; [lia|].
  destruct (Hnode _ _ Hd) as (Hf & Hdata & [(_ & ? & _)|(Hnx & Htp & _)]); [done|].
  rewrite bool_decide_eq_false_2 in Hf by lia. unfold link. cbn. rewrite Hd. cbn. rewrite Hf.
  eexists. split_and!; [done | done | done|]. intros l1 l2 ->.
  apply list.NoDup_app in Hnd as (Hn1 & Hn12 & Hn2). apply list.NoDup_cons in Hn2 as [Hnot Hn2].
  constructor; cbn; rewrite ?length_insert; try done.
  - intros i e Hi. destruct (decide (i = p)) as [->|Hne].
    + rewrite list_lookup_insert_eq in Hi by (by apply lookup_lt_Some in Hd). injection Hi as <-. cbn.
      split_and!; [rewrite Hf; symmetry; apply bool_decide_eq_false; lia | done |]. left. split_and!; [done | | lia].
      rewrite elem_of_app. intros [Hx|Hx]; [|done]. apply (Hn12 _ Hx). by left.
    + rewrite list_lookup_insert_ne in Hi by done. destruct (Hnode _ _ Hi) as (H1 & H2 & H3). split_and!; [done | done|].
      rewrite elem_of_app, elem_of_cons in H3. rewrite elem_of_app.
      assert (Hx : (i, S i) ≠ (p, S p)) by congruence. tauto.
  - intros a b Hab. apply Hp. rewrite elem_of_app, elem_of_cons. rewrite elem_of_app in Hab. tauto.
  - apply list.NoDup_app. split_and!; [done | | done]. intros x Hx Hx2. apply (Hn12 x Hx). by right.
Qed.

Lemma dequeue_shape items pending q :
  shape items pending q →
  match dequeue q with
  | Some (o, q') => o = items !! tail_ q ∧ is_Some o ∧ tail_ q' = S (tail_ q) ∧ shape items pending q'
  | None => empty q = true ∧ (tail_ q = length items ∨ (tail_ q, S (tail_ q)) ∈ pending)
  end.
Proof.
  intros [Hlen Hhead Htail Hnode Hp Hnd]. unfold dequeue, empty, next_of_tail.
  destruct (lookup_lt_is_Some_2 (heap q) (tail_ q)) as [t Ht]; [lia|]. rewrite Ht. cbn.
  destruct (Hnode _ _ Ht) as (Hf & _ & [(Hnx & Hnp & Hlt)|(Hnx & _ & Hor)]); rewrite Hnx; cbn; [|tauto].
  destruct (lookup_lt_is_Some_2 (heap q) (S (tail_ q))) as [d Hd]; [lia|]. rewrite Hd. cbn.
  destruct (Hnode _ _ Hd) as (Hfd & Hdata & Hnd'). specialize (Hdata ltac:(lia)). cbn in Hdata. rewrite Nat.sub_0_r in Hdata.
  split_and!; [done | rewrite Hdata; by apply lookup_lt_is_Some_2 | done |].
  constructor; cbn; rewrite ?length_insert; try done.
  intros i e Hi. destruct (decide (i = tail_ q)) as [->|Hne].
  { rewrite list_lookup_insert_eq in Hi by (rewrite length_insert; lia). injection Hi as <-. cbn. split_and!.
    - symmetry. apply bool_decide_eq_true. lia.
    - lia.
    - left. split_and!; done. }
  rewrite list_lookup_insert_ne in Hi by done. destruct (decide (i = S (tail_ q))) as [->|Hne2].
  - rewrite list_lookup_insert_eq in Hi by lia. injection Hi as <-. cbn. split_and!.
    + rewrite Hfd. by rewrite !bool_decide_eq_false_2 by lia.
    + lia.
    + destruct Hnd' as [?|(? & ? & ?)]; [by left | right; split_and!; [done | lia | done]].
  - rewrite list_lookup_insert_ne in Hi by done. destruct (Hnode _ _ Hi) as (H1 & H2 & H3). split_and!.
    + rewrite H1. apply bool_decide_ext. lia.
    + intros. apply H2. lia.
    + destruct H3 as [?|(? & ? & ?)]; [by left | right; split_and!; [done | lia | done]].
Qed.

End Mpsc.

(** ** The loop *)

Import Mpsc.

(** Where [loop()] is: not called; at [while (!quit_)]; in [poll]; handling the
    active channels, with the wake-up descriptor still to be read or not; in
    [doRunInLoopFuncs]; running [funcsOnQuit_]; returned. *)
Inductive phase := NotLooping | Testing | Polling | Handling (woken : bool) | Running | Quitting | Finished.

Record EventLoop := {
  ph : phase;
  quit_ : bool;
  funcs_ : Queue;
  linking : list (nat * nat);       (* other threads between the two steps of [enqueue] *)
  own : option (nat * nat);         (* the loop's thread between them *)
  wakers : nat;                     (* threads about to write the descriptor *)
  wakeupFd_ : Z;                    (* the counter of the event descriptor *)
  funcsOnQuit_ : Queue;
  quitLinking : list (nat * nat);
  queued : list Z;                  (* everything exchanged into [funcs_], in order *)
  ran : list Z;                     (* everything run *)
  quitQueued : list Z;
  quitRan : list Z
}.

Definition new_loop : EventLoop :=
  {| ph := NotLooping; quit_ := false; funcs_ := new_queue; linking := []; own := None; wakers := 0; wakeupFd_ := 0;
     funcsOnQuit_ := new_queue; quitLinking := []; queued := []; ran := []; quitQueued := []; quitRan := [] |}.

(** [looping_] *)
Definition looping_ (l : EventLoop) : bool :=
  match ph l with Testing | Polling | Handling _ | Running => true | _ => false end.

Definition set_phase (p : phase) (l : EventLoop) : EventLoop :=
  {| ph := p; quit_ := quit_ l; funcs_ := funcs_ l; linking := linking l; own := own l; wakers := wakers l;
     wakeupFd_ := wakeupFd_ l; funcsOnQuit_ := funcsOnQuit_ l; quitLinking := quitLinking l; queued := queued l;
     ran := ran l; quitQueued := quitQueued l; quitRan := quitRan l |}.

Definition set_quit (b : bool) (l : EventLoop) : EventLoop :=
  {| ph := ph l; quit_ := b; funcs_ := funcs_ l; linking := linking l; own := own l; wakers := wakers l;
     wakeupFd_ := wakeupFd_ l; funcsOnQuit_ := funcsOnQuit_ l; quitLinking := quitLinking l; queued := queued l;
     ran := ran l; quitQueued := quitQueued l; quitRan := quitRan l |}.

Definition set_queue (q : Queue) (lk : list (nat * nat)) (o : option (nat * nat)) (qd rn : list Z) (l : EventLoop)
    : EventLoop :=
  {| ph := ph l; quit_ := quit_ l; funcs_ := q; linking := lk; own := o; wakers := wakers l;
     wakeupFd_ := wakeupFd_ l; funcsOnQuit_ := funcsOnQuit_ l; quitLinking := quitLinking l; queued := qd;
     ran := rn; quitQueued := quitQueued l; quitRan := quitRan l |}.

Definition set_quit_queue (q : Queue) (lk : list (nat * nat)) (qd rn : list Z) (l : EventLoop) : EventLoop :=
  {| ph := ph l; quit_ := quit_ l; funcs_ := funcs_ l; linking := linking l; own := own l; wakers := wakers l;
     wakeupFd_ := wakeupFd_ l; funcsOnQuit_ := q; quitLinking := lk; queued := queued l; ran := ran l;
     quitQueued := qd; quitRan := rn |}.

Definition set_wake (w : nat) (fd : Z) (l : EventLoop) : EventLoop :=
  {| ph := ph l; quit_ := quit_ l; funcs_ := funcs_ l; linking := linking l; own := own l; wakers := w;
     wakeupFd_ := fd; funcsOnQuit_ := funcsOnQuit_ l; quitLinking := quitLinking l; queued := queued l; ran := ran l;
     quitQueued := quitQueued l; quitRan := quitRan l |}.

(** [queueInLoop(f)] in another thread, or before [loop()]: the exchange, ... *)
Definition queue_exchange (f : Z) (l : EventLoop) : EventLoop :=
  let '(pn, q) := exchange f (funcs_ l) in set_queue q (linking l ++ [pn]) (own l) (queued l ++ [f]) (ran l) l.

(** ... the link, after which the thread is about to call [wakeup()], ... *)
Definition queue_link (i : nat) (l : EventLoop) : option EventLoop :=
  pn ← linking l !! i;
  q ← link pn (funcs_ l);
  Some (set_wake (S (wakers l)) (wakeupFd_ l) (set_queue q (delete i (linking l)) (own l) (queued l) (ran l) l)).

(** ... and [wakeup()]. *)
Definition wakeup (l : EventLoop) : EventLoop := set_wake (pred (wakers l)) (wakeupFd_ l + 1) l.

(** [queueInLoop(f)] in the loop's thread while it loops: no [wakeup()]. *)
Definition own_exchange (f : Z) (l : EventLoop) : EventLoop :=
  let '(pn, q) := exchange f (funcs_ l) in set_queue q (linking l) (Some pn) (queued l ++ [f]) (ran l) l.

Definition own_link (l : EventLoop) : option EventLoop :=
  pn ← own l; q ← link pn (funcs_ l); Some (set_queue q (linking l) None (queued l) (ran l) l).

(** [quit()], from another thread or from the loop's own. *)
Definition quit (inLoop : bool) (l : EventLoop) : EventLoop :=
  let l1 := set_quit true l in if inLoop then l1 else set_wake (S (wakers l1)) (wakeupFd_ l1) l1.

(** [runOnQuit(f)]: its two steps. *)
Definition onquit_exchange (f : Z) (l : EventLoop) : EventLoop :=
  let '(pn, q) := exchange f (funcsOnQuit_ l) in
  set_quit_queue q (quitLinking l ++ [pn]) (quitQueued l ++ [f]) (quitRan l) l.

Definition onquit_link (i : nat) (l : EventLoop) : option EventLoop :=
  pn ← quitLinking l !! i;
  q ← link pn (funcsOnQuit_ l);
  Some (set_quit_queue q (delete i (quitLinking l)) (quitQueued l) (quitRan l) l).

(** [loop()]: its start, the test of [quit_], the return of [poll]. *)
Definition start_loop (l : EventLoop) : EventLoop := set_phase Testing (set_quit false l).
Definition test_quit (l : EventLoop) : EventLoop := set_phase (if quit_ l then Quitting else Polling) l.
Definition poll_return (l : EventLoop) : EventLoop := set_phase (Handling (0 <? wakeupFd_ l)) l.

(** [wakeupRead]: reading the descriptor resets its counter. *)
Definition wakeupRead (l : EventLoop) : EventLoop := set_phase (Handling false) (set_wake (wakers l) 0 l).

(** [doRunInLoopFuncs]: one turn of the inner loop; the end of the outer one. *)
Definition run_one (l : EventLoop) : option EventLoop :=
  '(f, q) ← dequeue (funcs_ l);
  f ← f;
  Some (set_queue q (linking l) (own l) (queued l) (ran l ++ [f]) l).

Definition run_end (l : EventLoop) : EventLoop := if empty (funcs_ l) then set_phase Testing l else l.

(** After the loop: a turn of [while (funcsOnQuit_.dequeue(f))], and the return. *)
Definition quit_one (l : EventLoop) : EventLoop :=
  match dequeue (funcsOnQuit_ l) with
  | Some (Some f, q) => set_quit_queue q (quitLinking l) (quitQueued l) (quitRan l ++ [f]) l
  | _ => set_phase Finished l
  end.

(** The loop's thread takes its steps one at a time, and none while it is
    inside [enqueue]. *)
Inductive step : EventLoop → EventLoop → Prop :=
| LExchange f l : step l (queue_exchange f l)
| LLink i l l' : queue_link i l = Some l' → step l l'
| LWakeup l : (0 < wakers l)%nat → step l (wakeup l)
| LOwnExchange f l : own l = None → (∃ b, ph l = Handling b) ∨ ph l = Running → step l (own_exchange f l)
| LOwnLink l l' : own_link l = Some l' → step l l'
| LQuit l : step l (quit false l)
| LOwnQuit l : own l = None → looping_ l = true → ph l ≠ Polling → ph l ≠ Testing → step l (quit true l)
| LOnQuitExchange f l : step l (onquit_exchange f l)
| LOnQuitLink i l l' : onquit_link i l = Some l' → step l l'
| LStart l : own l = None → ph l = NotLooping → step l (start_loop l)
| LTest l : own l = None → ph l = Testing → step l (test_quit l)
| LPoll l : own l = None → ph l = Polling → step l (poll_return l)
| LRead l : own l = None → ph l = Handling true → step l (wakeupRead l)
| LHandled l : own l = None → ph l = Handling false → step l (set_phase Running l)
| LRun l l' : own l = None → ph l = Running → run_one l = Some l' → step l l'
| LRunEnd l : own l = None → ph l = Running → step l (run_end l)
| LThrow l : own l = None → (∃ b, ph l = Handling b) ∨ ph l = Running → step l (set_phase Quitting l)
| LQuitOne l : own l = None → ph l = Quitting → step l (quit_one l).

(** ** Invariant *)

Definition pend (l : EventLoop) : list (nat * nat) := linking l ++ option_list (own l).

(** Someone has written the descriptor, or is about to. *)
Definition signalled (l : EventLoop) : Prop := 0 < wakeupFd_ l ∨ (0 < wakers l)%nat.

Definition before_poll (p : phase) : Prop := p = NotLooping ∨ p = Testing ∨ p = Polling.

Record inv (l : EventLoop) : Prop := {
  iv_queue : shape (queued l) (pend l) (funcs_ l);
  iv_ran : ran l = take (tail_ (funcs_ l)) (queued l);
  iv_own : is_Some (own l) → (∃ b, ph l = Handling b) ∨ ph l = Running;
  iv_wake : before_poll (ph l) → empty (funcs_ l) = false → signalled l;
  iv_stop : ph l = Polling → quit_ l = true → signalled l;
  iv_fd : 0 ≤ wakeupFd_ l;
  iv_onquit : shape (quitQueued l) (quitLinking l) (funcsOnQuit_ l);
  iv_quitran : quitRan l = take (tail_ (funcsOnQuit_ l)) (quitQueued l)
}.

Lemma shape_perm items p p' q : shape items p q → p ≡ₚ p' → shape items p' q.
Proof.
  intros [H1 H2 H3 H4 H5 H6] Hp. constructor; try done.
  - intros i d Hi. by setoid_rewrite <- Hp; apply H4.
  - intros a n. rewrite <- Hp. apply H5.
  - by rewrite <- Hp.
Qed.

Lemma exchange_tail x items pending q pn q' :
  shape items pending q → exchange x q = (pn, q') → tail_ q' = tail_ q ∧ empty q' = empty q.
Proof.
  intros Hs [= <- <-]. split; [done|]. unfold empty, next_of_tail. cbn.
  rewrite lookup_app_l by (rewrite (sh_length _ _ _ Hs); pose proof (sh_tail _ _ _ Hs); lia). done.
Qed.

Lemma take_grow (l : list Z) x n : (n ≤ length l)%nat → take n (l ++ [x]) = take n l.
Proof. intros. by apply take_app_le. Qed.

(** Taking the [i]-th producer through its second step. *)
Lemma link_nth items pending q i pn q' :
  shape items pending q → pending !! i = Some pn → link pn q = Some q' →
  shape items (delete i pending) q' ∧ tail_ q' = tail_ q.
Proof.
  intros Hs Hi Hl. destruct pn as [p n]. pose proof (take_drop_middle _ _ _ Hi) as Hcut.
  destruct (link_shape items pending q p n Hs) as (q2 & Hq2 & Ht & _ & Hsh); [by apply list_elem_of_lookup_2 in Hi|].
  rewrite Hl in Hq2. injection Hq2 as <-. split; [|done]. rewrite delete_take_drop. by apply Hsh.
Qed.

Lemma new_loop_inv : inv new_loop.
Proof. constructor; try done; try apply new_shape. intros [? [=]]. Qed.

Lemma queue_exchange_inv f l : inv l → inv (queue_exchange f l).
Proof.
  intros [H1 H2 H3 H4 H5 H6 H7 H8]. unfold queue_exchange. destruct (exchange f (funcs_ l)) as [pn q] eqn:Hx.
  destruct (exchange_tail _ _ _ _ _ _ H1 Hx) as [Ht He]. pose proof (exchange_shape _ _ _ _ _ _ H1 Hx) as Hs.
  constructor; cbn; try done.
  - apply (shape_perm _ _ _ _ Hs). unfold pend. cbn. by rewrite <- !app_assoc, (Permutation_app_comm [pn]).
  - rewrite Ht, take_grow by apply H1. done.
  - by rewrite He.
Qed.

Lemma own_exchange_inv f l :
  inv l → own l = None → (∃ b, ph l = Handling b) ∨ ph l = Running → inv (own_exchange f l).
Proof.
  intros [H1 H2 H3 H4 H5 H6 H7 H8] Ho Hp. unfold own_exchange. destruct (exchange f (funcs_ l)) as [pn q] eqn:Hx.
  destruct (exchange_tail _ _ _ _ _ _ H1 Hx) as [Ht He]. pose proof (exchange_shape _ _ _ _ _ _ H1 Hx) as Hs.
  constructor; cbn; try done.
  - apply (shape_perm _ _ _ _ Hs). unfold pend. cbn. by rewrite Ho, app_nil_r.
  - rewrite Ht, take_grow by apply H1. done.
  - by rewrite He.
Qed.

Lemma queue_link_inv i l l' : inv l → queue_link i l = Some l' → inv l'.
Proof.
  intros [H1 H2 H3 H4 H5 H6 H7 H8]. unfold queue_link. destruct (linking l !! i) as [pn|] eqn:Hi; [|done]. cbn.
  destruct (link pn (funcs_ l)) as [q|] eqn:Hl; [|done]. cbn. intros [= <-].
  assert (Hi' : pend l !! i = Some pn) by (unfold pend; by apply lookup_app_l_Some).
  destruct (link_nth _ _ _ _ _ _ H1 Hi' Hl) as [Hs Ht]. constructor; cbn; try done.
  - unfold pend in *. cbn. rewrite delete_take_drop in *. pose proof (lookup_lt_Some _ _ _ Hi).
    rewrite take_app_le, drop_app_le, app_assoc in Hs by lia. done.
  - by rewrite Ht.
  - intros _ _. right. cbn. lia.
  - intros _ _. right. cbn. lia.
Qed.

Lemma own_link_inv l l' : inv l → own_link l = Some l' → inv l'.
Proof.
  intros [H1 H2 H3 H4 H5 H6 H7 H8]. unfold own_link. destruct (own l) as [pn|] eqn:Ho; [|done]. cbn.
  destruct (link pn (funcs_ l)) as [q|] eqn:Hl; [|done]. cbn. intros [= <-].
  assert (Hi : pend l !! length (linking l) = Some pn) by (unfold pend; rewrite Ho; by apply list_lookup_middle).
  destruct (link_nth _ _ _ _ _ _ H1 Hi Hl) as [Hs Ht]. constructor; cbn; try done.
  - unfold pend in *. rewrite Ho in Hs. cbn in Hs. rewrite delete_take_drop in Hs.
    rewrite take_app_length, drop_ge in Hs by (rewrite length_app; cbn; lia). done.
  - by rewrite Ht.
  - intros Hb. destruct (H3 ltac:(by eexists)) as [[b Hp]|Hp]; rewrite Hp in Hb; by destruct Hb as [|[|]].
Qed.

Lemma run_one_inv l l' : inv l → ph l = Running → run_one l = Some l' → inv l'.
Proof.
  intros [H1 H2 H3 H4 H5 H6 H7 H8] Hp. unfold run_one. pose proof (dequeue_shape _ _ _ H1) as Hd.
  destruct (dequeue (funcs_ l)) as [[o q]|]; [|done]. cbn. destruct Hd as (Ho & _ & Ht & Hs).
  destruct o as [f|]; [|done]. cbn. intros [= <-]. constructor; cbn; try done.
  - rewrite Ht, H2. symmetry. by apply take_S_r.
  - rewrite Hp. by intros [|[|]].
Qed.

(** A step of the loop's thread that touches neither queue. *)
Lemma phase_inv p l :
  inv l → (is_Some (own l) → (∃ b, p = Handling b) ∨ p = Running) →
  (before_poll p → empty (funcs_ l) = false → signalled l) → (p = Polling → quit_ l = true → signalled l) →
  inv (set_phase p l).
Proof. intros [H1 H2 H3 H4 H5 H6 H7 H8] ? ? ?. by constructor. Qed.

Lemma quit_one_inv l : inv l → own l = None → ph l = Quitting → inv (quit_one l).
Proof.
  intros Hi Ho Hp. pose proof Hi as [H1 H2 H3 H4 H5 H6 H7 H8]. unfold quit_one.
  assert (Hend : inv (set_phase Finished l)).
  { apply phase_inv; [done | by rewrite Ho; intros [? ?] | by intros [|[|]] | done]. }
  pose proof (dequeue_shape _ _ _ H7) as Hd. destruct (dequeue (funcsOnQuit_ l)) as [[[f|] q]|]; [|done|done].
  destruct Hd as (Hf & _ & Ht & Hs). constructor; cbn; try done.
  rewrite Ht, H8. symmetry. by apply take_S_r.
Qed.

Lemma onquit_exchange_inv f l : inv l → inv (onquit_exchange f l).
Proof.
  intros [H1 H2 H3 H4 H5 H6 H7 H8]. unfold onquit_exchange. destruct (exchange f (funcsOnQuit_ l)) as [pn q] eqn:Hx.
  destruct (exchange_tail _ _ _ _ _ _ H7 Hx) as [Ht _]. constructor; cbn; try done.
  - by apply (exchange_shape f _ _ (funcsOnQuit_ l)).
  - rewrite Ht, take_grow by apply H7. done.
Qed.

Lemma onquit_link_inv i l l' : inv l → onquit_link i l = Some l' → inv l'.
Proof.
  intros [H1 H2 H3 H4 H5 H6 H7 H8]. unfold onquit_link. destruct (quitLinking l !! i) as [pn|] eqn:Hi; [|done]. cbn.
  destruct (link pn (funcsOnQuit_ l)) as [q|] eqn:Hl; [|done]. cbn. intros [= <-].
  destruct (link_nth _ _ _ _ _ _ H7 Hi Hl) as [Hs Ht]. constructor; cbn; try done. by rewrite Ht.
Qed.

Lemma step_inv l l' : inv l → step l l' → inv l'.
Proof.
  intros Hi Hstep. pose proof Hi as [H1 H2 H3 H4 H5 H6 H7 H8]. destruct Hstep as
    [f l|i l l' Hx|l Hw|f l Ho Hp|l l' Hx|l|l Ho Hl Hp1 Hp2|f l|i l l' Hx|l Ho Hp|l Ho Hp|l Ho Hp|l Ho Hp|l Ho Hp
    |l l' Ho Hp Hx|l Ho Hp|l Ho Hp|l Ho Hp].
  - by apply queue_exchange_inv.
  - by apply (queue_link_inv i l).
  - constructor; try done; cbn; try lia; intros; left; cbn; lia.
  - by apply own_exchange_inv.
  - by apply (own_link_inv l).
  - constructor; try done; intros; right; cbn; lia.
  - by constructor.
  - by apply onquit_exchange_inv.
  - by apply (onquit_link_inv i l).
  - unfold start_loop. rewrite Hp in H4. constructor; try done; cbn; [by rewrite Ho; intros [? ?]|].
    intros _. apply H4. by left.
  - unfold test_quit. destruct (quit_ l) eqn:Hq; apply phase_inv; try done; try (by rewrite Ho; intros [? ?]).
    + by intros [|[|]].
    + intros _. apply H4. rewrite Hp. right. by left.
    + by rewrite Hq.
  - apply phase_inv; try done; [by left; eexists | by intros [|[|]]].
  - constructor; try done; cbn; [by left; eexists | by intros [|[|]]].
  - apply phase_inv; try done; [by right | by intros [|[|]]].
  - by apply (run_one_inv l).
  - unfold run_end. destruct (empty (funcs_ l)) eqn:He; [|done].
    apply phase_inv; try done; [by rewrite Ho; intros [? ?] | by rewrite He].
  - apply phase_inv; try done; [by rewrite Ho; intros [? ?] | by intros [|[|]]].
  - by apply quit_one_inv.
Qed.

Lemma reachable_inv l : reachable step new_loop l → inv l.
Proof. apply reachable_invariant; [apply new_loop_inv | by intros a b; apply step_inv]. Qed.

(** ** Draining *)

(** [doRunInLoopFuncs] while nobody queues anything. *)
Fixpoint run_all (fuel : nat) (l : EventLoop) : EventLoop :=
  match fuel with
  | O => l
  | S fuel => match run_one l with Some l' => run_all fuel l' | None => l end
  end.

Lemma pend_nil l : own l = None → linking l = [] → pend l = [].
Proof. intros H1 H2. unfold pend. by rewrite H1, H2. Qed.

Lemma run_one_progress l :
  inv l → own l = None → linking l = [] →
  match run_one l with
  | Some l' => own l' = None ∧ linking l' = [] ∧ ph l' = ph l ∧ queued l' = queued l ∧
               tail_ (funcs_ l') = S (tail_ (funcs_ l))
  | None => ran l = queued l ∧ empty (funcs_ l) = true
  end.
Proof.
  intros Hi Ho Hl. pose proof (iv_queue _ Hi) as Hs. rewrite (pend_nil _ Ho Hl) in Hs. unfold run_one.
  pose proof (dequeue_shape _ _ _ Hs) as Hd. destruct (dequeue (funcs_ l)) as [[o q]|].
  - destruct Hd as (_ & [f ->] & Ht & _). cbn. done.
  - destruct Hd as [He [Ht|?%elem_of_nil]]; [|done]. split; [|done]. by rewrite (iv_ran _ Hi), Ht, firstn_all.
Qed.

Lemma run_all_done fuel : ∀ l,
  inv l → ph l = Running → own l = None → linking l = [] → (length (queued l) - tail_ (funcs_ l) < fuel)%nat →
  reachable step l (run_all fuel l) ∧ ran (run_all fuel l) = queued l ∧ empty (funcs_ (run_all fuel l)) = true.
Proof.
  induction fuel as [|fuel IH]; intros l Hi Hp Ho Hl Hf; [lia|]. cbn.
  pose proof (run_one_progress l Hi Ho Hl) as H1. destruct (run_one l) as [l'|] eqn:Hr.
  - destruct H1 as (Ho' & Hl' & Hp' & Hq' & Ht'). pose proof (run_one_inv _ _ Hi Hp Hr) as Hi'.
    pose proof (sh_tail _ _ _ (iv_queue _ Hi')) as Hb. rewrite Hq', Ht' in Hb.
    destruct (IH l') as ([n Hn] & H2 & H3); try done; [congruence | rewrite Hq', Ht'; lia|].
    rewrite <- Hq'. split_and!; try done. exists (n + 1)%nat. apply (steps_trans _ _ _ _ l'); [|done].
    apply steps_one. by apply (LRun l l').
  - destruct H1. split_and!; try done. apply reach_refl.
Qed.

(** ** Properties *)

(** C16. Functions given to [queueInLoop] run once each, in the order of their
    exchanges: what has run is a prefix of what was queued, whatever the
    interleaving of the producers' steps with the loop's; the same holds of
    the functions for the end of the loop; and a producer between its two
    steps always finds the node it must link, never one the loop has deleted. *)
Theorem loop_runs_in_order l :
  reachable step new_loop l →
  ran l `prefix_of` queued l ∧ quitRan l `prefix_of` quitQueued l ∧
  (∀ i, (i < length (linking l))%nat → is_Some (queue_link i l)).
Proof.
  intros Hi%reachable_inv. split_and!.
  - rewrite (iv_ran _ Hi). apply prefix_take.
  - rewrite (iv_quitran _ Hi). apply prefix_take.
  - intros i [pn Hpn]%lookup_lt_is_Some_2. unfold queue_link. rewrite Hpn. cbn. destruct pn as [p n].
    destruct (link_shape _ _ _ p n (iv_queue _ Hi)) as (q & -> & _); [|by eexists].
    unfold pend. apply elem_of_app. left. by apply list_elem_of_lookup_2 in Hpn.
Qed.



(** Two threads, the second of which finishes first: the function it queued
    waits for the first thread's link, whose wake-up is still to come. *)
Definition lp1 := queue_exchange 20 (queue_exchange 10 (start_loop new_loop)).
Definition lp2 := default lp1 (queue_link 1 lp1).
Definition lp3 := run_end (set_phase Running (wakeupRead (poll_return (test_quit (wakeup lp2))))).
Definition lp4 := test_quit (default lp3 (queue_link 0 lp3)).
Definition lp5 := set_phase Running (wakeupRead (poll_return (wakeup lp4))).

Lemma lp3_reachable : reachable step new_loop lp3.
Proof.
  apply (reach_step (set_phase Running (wakeupRead (poll_return (test_quit (wakeup lp2)))))); [|by apply LRunEnd].
  apply (reach_step (wakeupRead (poll_return (test_quit (wakeup lp2))))); [|by apply LHandled].
  apply (reach_step (poll_return (test_quit (wakeup lp2)))); [|by apply LRead].
  apply (reach_step (test_quit (wakeup lp2))); [|by apply LPoll].
  apply (reach_step (wakeup lp2)); [|by apply LTest].
  apply (reach_step lp2); [|apply LWakeup; apply Nat.ltb_lt; by vm_compute].
  apply (reach_step lp1); [|by apply (LLink 1)].
  apply (reach_step (queue_exchange 10 (start_loop new_loop))); [|apply LExchange].
  apply (reach_step (start_loop new_loop)); [|apply LExchange].
  apply (reach_step new_loop); [|by apply LStart]. apply reach_refl.
Qed.

Lemma lp5_reachable : reachable step new_loop lp5.
Proof.
  apply (reach_step (wakeupRead (poll_return (wakeup lp4)))); [|by apply LHandled].
  apply (reach_step (poll_return (wakeup lp4))); [|by apply LRead].
  apply (reach_step (wakeup lp4)); [|by apply LPoll].
  apply (reach_step lp4); [|apply LWakeup; apply Nat.ltb_lt; by vm_compute].
  apply (reach_step (default lp3 (queue_link 0 lp3))); [|by apply LTest].
  apply (reach_step lp3); [|by apply (LLink 0)]. apply lp3_reachable.
Qed.

Lemma loop_runs_in_order_witness : ran lp5 `prefix_of` [10; 20] ∧ is_Some (queue_link 0 lp3).
Proof.
  split; [exact (proj1 (loop_runs_in_order lp5 lp5_reachable))|].
  apply (proj2 (proj2 (loop_runs_in_order lp3 lp3_reachable))). apply Nat.ltb_lt. by vm_compute.
Defined.



(** ** What the loop does not promise *)

(** [quit()] before [loop()] is forgotten. *)
Example quit_before_loop_forgotten : quit_ (start_loop (quit true new_loop)) = false.
Proof. done. Qed.

(** A function queued when the loop has made its last turn never runs. *)
Example queued_after_last_turn :
  let l0 := test_quit (set_quit true (start_loop new_loop)) in
  let l1 := queue_exchange 10 l0 in
  let l2 := quit_one (default l1 (queue_link 0 l1)) in
  ph l2 = Finished ∧ linking l2 = [] ∧ queued l2 = [10] ∧ ran l2 = [].
Proof. by vm_compute. Qed.
