(* ===== verification/TimerQueue.v ===== *)
(** * Timers

    [trantor::TimerQueue] and [trantor::Timer]
    (src/src/drogon/trantor/net/inner/TimerQueue.cc, Timer.cc), on Linux: the
    heap of timers, the set of the valid timer ids, and the timer descriptor
    that wakes the loop.

    Times are nanoseconds of the steady clock.  [std::priority_queue] is an
    interface, [PriorityQueue], because the order of equal times is left open
    by the library; a sorted list is an instance.  The step relation has the
    loop's thread at the grain of one callback: while it handles a batch of
    expired timers, their callbacks may add and cancel timers. *)

From stdpp Require Import base list numbers option gmap.
From Stdlib Require Import ZArith Lia.
From S2P Require Import Prelude.

(** ** Timers and their heap *)

Record Timer := { id_ : nat; when_ : Z; interval_ : Z }.

(** [repeat_] *)
Definition isRepeat (t : Timer) : bool := 0 <? interval_ t.

(** [restart(now)]; [reset] only restarts timers that repeat. *)
Definition restart (now : Z) (t : Timer) : Timer :=
  {| id_ := id_ t; when_ := if isRepeat t then now + interval_ t else now; interval_ := interval_ t |}.

Class PriorityQueue (Q : Type) := {
  pq_elements : Q → list Timer;
  pq_empty : Q;
  pq_push : Timer → Q → Q;
  pq_top : Q → option Timer;
  pq_pop : Q → Q;
  pq_empty_spec : pq_elements pq_empty = [];
  pq_push_spec t q : pq_elements (pq_push t q) ≡ₚ t :: pq_elements q;
  pq_top_none q : pq_top q = None → pq_elements q = [];
  pq_top_some q t : pq_top q = Some t →
    pq_elements q ≡ₚ t :: pq_elements (pq_pop q) ∧ Forall (λ u, when_ t ≤ when_ u) (pq_elements q)
}.

(** Work handed to the loop by other threads: [runInLoop] queues it. *)
Inductive task := TAdd (t : Timer) | TErase (id : nat).

Inductive event :=
| Added (id : nat)
| Erased (id : nat)
| Ran (t : Timer) (now : Z)
| Done (id : nat).

(** [handleRead] between two callbacks: the timers still to run, the whole
    batch, and its time. *)
Record Round := { todo : list Timer; expired : list Timer; now : Z }.

Section Timers.
Context {Q : Type} `{PriorityQueue Q}.

Record TimerQueue := {
  timers_ : Q;
  timerIdSet_ : gset nat;
  timersCreated_ : nat;
  timerfd_ : option Z;           (* when the descriptor expires *)
  clock : Z;
  funcs : list task;
  round : option Round;
  trace : list event
}.

Definition new_timers (clk : Z) : TimerQueue :=
  {| timers_ := pq_empty; timerIdSet_ := ∅; timersCreated_ := 0; timerfd_ := None; clock := clk; funcs := [];
     round := None; trace := [] |}.

Definition set_heap (h : Q) (ids : gset nat) (tr : list event) (s : TimerQueue) : TimerQueue :=
  {| timers_ := h; timerIdSet_ := ids; timersCreated_ := timersCreated_ s; timerfd_ := timerfd_ s; clock := clock s;
     funcs := funcs s; round := round s; trace := tr |}.

Definition set_fd (fd : option Z) (s : TimerQueue) : TimerQueue :=
  {| timers_ := timers_ s; timerIdSet_ := timerIdSet_ s; timersCreated_ := timersCreated_ s; timerfd_ := fd;
     clock := clock s; funcs := funcs s; round := round s; trace := trace s |}.

Definition set_round (r : option Round) (s : TimerQueue) : TimerQueue :=
  {| timers_ := timers_ s; timerIdSet_ := timerIdSet_ s; timersCreated_ := timersCreated_ s; timerfd_ := timerfd_ s;
     clock := clock s; funcs := funcs s; round := r; trace := trace s |}.

Definition set_work (n : nat) (fs : list task) (s : TimerQueue) : TimerQueue :=
  {| timers_ := timers_ s; timerIdSet_ := timerIdSet_ s; timersCreated_ := n; timerfd_ := timerfd_ s;
     clock := clock s; funcs := fs; round := round s; trace := trace s |}.

Definition pass (dt : Z) (s : TimerQueue) : TimerQueue :=
  {| timers_ := timers_ s; timerIdSet_ := timerIdSet_ s; timersCreated_ := timersCreated_ s; timerfd_ := timerfd_ s;
     clock := clock s + dt; funcs := funcs s; round := round s; trace := trace s |}.

(** [howMuchTimeFromNow], in nanoseconds: whole microseconds, at least 100. *)
Definition howMuchTimeFromNow (when clk : Z) : Z :=
  let microSeconds := Z.quot (when - clk) 1000 in
  (if microSeconds <? 100 then 100 else microSeconds) * 1000.

Definition resetTimerfd (expiration : Z) (s : TimerQueue) : TimerQueue :=
  set_fd (Some (clock s + howMuchTimeFromNow expiration (clock s))) s.

(** [insert]: whether the earliest timer changed. *)
Definition insert (t : Timer) (s : TimerQueue) : bool * TimerQueue :=
  (match pq_top (timers_ s) with None => true | Some u => when_ t <? when_ u end,
   set_heap (pq_push t (timers_ s)) (timerIdSet_ s) (trace s) s).

Definition addTimerInLoop (t : Timer) (s : TimerQueue) : TimerQueue :=
  let s1 := set_heap (timers_ s) ({[id_ t]} ∪ timerIdSet_ s) (trace s ++ [Added (id_ t)]) s in
  let '(earliestChanged, s2) := insert t s1 in
  if earliestChanged then resetTimerfd (when_ t) s2 else s2.

Definition erase (id : nat) (s : TimerQueue) : TimerQueue :=
  set_heap (timers_ s) (timerIdSet_ s ∖ {[id]}) (trace s ++ [Erased id]) s.

(** [addTimer] and [invalidateTimer]: at once in the loop's thread, queued elsewhere. *)
Definition addTimer (inLoop : bool) (when interval : Z) (s : TimerQueue) : nat * TimerQueue :=
  let id := S (timersCreated_ s) in
  let t := {| id_ := id; when_ := when; interval_ := interval |} in
  (id, if inLoop then addTimerInLoop t (set_work id (funcs s) s) else set_work id (funcs s ++ [TAdd t]) s).

Definition invalidateTimer (inLoop : bool) (id : nat) (s : TimerQueue) : TimerQueue :=
  if inLoop then erase id s else set_work (timersCreated_ s) (funcs s ++ [TErase id]) s.

(** The loop runs the next queued function. *)
Definition run_task (s : TimerQueue) : TimerQueue :=
  match funcs s with
  | [] => s
  | TAdd t :: fs => addTimerInLoop t (set_work (timersCreated_ s) fs s)
  | TErase id :: fs => erase id (set_work (timersCreated_ s) fs s)
  end.

(** [getExpired]; each turn takes a timer out of the heap. *)
Fixpoint take_expired (fuel : nat) (now : Z) (h : Q) : list Timer * Q :=
  match fuel with
  | O => ([], h)
  | S fuel =>
      match pq_top h with
      | Some t => if when_ t <? now
                  then let '(ex, h') := take_expired fuel now (pq_pop h) in (t :: ex, h') else ([], h)
      | None => ([], h)
      end
  end.

Definition getExpired (now : Z) (h : Q) : list Timer * Q := take_expired (length (pq_elements h)) now h.

(** [handleRead] up to its loop: the descriptor is read, which disarms it. *)
Definition handleRead (s : TimerQueue) : TimerQueue :=
  let '(ex, h) := getExpired (clock s) (timers_ s) in
  set_round (Some {| todo := ex; expired := ex; now := clock s |})
    (set_fd None (set_heap h (timerIdSet_ s) (trace s) s)).

(** One turn of its loop. *)
Definition run_timer (s : TimerQueue) : TimerQueue :=
  match round s with
  | Some {| todo := t :: ts; expired := ex; now := n |} =>
      set_round (Some {| todo := ts; expired := ex; now := n |})
        (if bool_decide (id_ t ∈ timerIdSet_ s)
         then set_heap (timers_ s) (timerIdSet_ s) (trace s ++ [Ran t n]) s else s)
  | _ => s
  end.

(** [reset(expired, now)] *)
Fixpoint reset_loop (ex : list Timer) (now : Z) (s : TimerQueue) : TimerQueue :=
  match ex with
  | [] => s
  | t :: ex =>
      reset_loop ex now
        (if bool_decide (id_ t ∈ timerIdSet_ s) then
           if isRepeat t then (insert (restart now t) s).2
           else set_heap (timers_ s) (timerIdSet_ s ∖ {[id_ t]}) (trace s ++ [Done (id_ t)]) s
         else s)
  end.

Definition rearm (s : TimerQueue) : TimerQueue :=
  match pq_top (timers_ s) with Some t => resetTimerfd (when_ t) s | None => s end.

Definition reset (ex : list Timer) (now : Z) (s : TimerQueue) : TimerQueue := rearm (reset_loop ex now s).

(** The end of [handleRead]. *)
Definition finish_read (s : TimerQueue) : TimerQueue :=
  match round s with
  | Some {| todo := []; expired := ex; now := n |} => set_round None (reset ex n s)
  | _ => s
  end.

(** [reset()] after a fork: a new descriptor, armed for the earliest timer. *)
Definition resetTimerQueue (s : TimerQueue) : TimerQueue := rearm (set_fd None s).

(** The descriptor is readable. *)
Definition fires (s : TimerQueue) : Prop := match timerfd_ s with Some d => d ≤ clock s | None => False end.

(** Callbacks, channel handlers and queued functions of the loop's thread call
    [addTimer] and [invalidateTimer] at any time; queued functions run outside
    [handleRead]. *)
Inductive step : TimerQueue → TimerQueue → Prop :=
| SPass dt s : 0 ≤ dt → step s (pass dt s)
| SAdd inLoop when interval s : step s (addTimer inLoop when interval s).2
| SInvalidate inLoop id s : step s (invalidateTimer inLoop id s)
| STask s : round s = None → step s (run_task s)
| SRead s : round s = None → fires s → step s (handleRead s)
| SRun s r : round s = Some r → todo r ≠ [] → step s (run_timer s)
| SFinish s r : round s = Some r → todo r = [] → step s (finish_read s)
| SFork s : round s = None → step s (resetTimerQueue s).

(** ** What a run of timers looks like *)

(** The ids that are valid after [tr]. *)
Definition track (ids : gset nat) (e : event) : gset nat :=
  match e with
  | Added id => {[id]} ∪ ids
  | Erased id | Done id => ids ∖ {[id]}
  | Ran _ _ => ids
  end.

Definition alive (tr : list event) : gset nat := fold_left track tr ∅.

(** Every callback that ran belonged to a valid timer whose time had passed,
    and if the timer had run before, it repeats and its interval has passed. *)
Definition on_schedule (tr : list event) : Prop :=
  ∀ l1 t n l2, tr = l1 ++ Ran t n :: l2 →
    id_ t ∈ alive l1 ∧ when_ t < n ∧
    ∀ u m, Ran u m ∈ l1 → id_ u = id_ t → isRepeat u = true ∧ m + interval_ u < n.

Lemma alive_snoc tr e : alive (tr ++ [e]) = track (alive tr) e.
Proof. unfold alive. by rewrite fold_left_app. Qed.

Lemma on_schedule_snoc tr e :
  on_schedule tr →
  (∀ t n, e = Ran t n → id_ t ∈ alive tr ∧ when_ t < n ∧
     ∀ u m, Ran u m ∈ tr → id_ u = id_ t → isRepeat u = true ∧ m + interval_ u < n) →
  on_schedule (tr ++ [e]).
Proof.
  intros Htr He l1 t n l2 Heq. destruct l2 as [|x l2 _] using rev_ind.
  - apply app_inj_2 in Heq as [-> [= ->]]; [by apply He | done].
  - rewrite app_comm_cons, app_assoc in Heq. apply app_inj_2 in Heq as [-> _]; [by eapply Htr | done].
Qed.

(** The runs so far leave room for a run of [t] after [when_ t]. *)
Definition gap (tr : list event) (t : Timer) : Prop :=
  ∀ u m, Ran u m ∈ tr → id_ u = id_ t → isRepeat u = true ∧ interval_ t = interval_ u ∧ m + interval_ u ≤ when_ t.

(** ... or [t] itself ran in the round of time [n]. *)
Definition gap_ran (n : Z) (tr : list event) (t : Timer) : Prop :=
  ∀ u m, Ran u m ∈ tr → id_ u = id_ t →
    u = t ∧ m = n ∨ isRepeat u = true ∧ interval_ t = interval_ u ∧ m + interval_ u ≤ when_ t.

Definition no_run (e : event) : Prop := ∀ t n, e ≠ Ran t n.

Lemma ran_snoc tr e u m : no_run e → Ran u m ∈ tr ++ [e] ↔ Ran u m ∈ tr.
Proof. intros He. rewrite elem_of_app, list_elem_of_singleton. split; [intros [?|<-]; [done | by edestruct He] | by left]. Qed.

Lemma gap_snoc tr e t : no_run e → gap tr t → gap (tr ++ [e]) t.
Proof. intros He Hg u m Hu. apply Hg. by apply ran_snoc in Hu. Qed.

Lemma gap_ran_snoc n tr e t : no_run e → gap_ran n tr t → gap_ran n (tr ++ [e]) t.
Proof. intros He Hg u m Hu. apply Hg. by apply ran_snoc in Hu. Qed.

Lemma on_schedule_no_run tr e : no_run e → on_schedule tr → on_schedule (tr ++ [e]).
Proof. intros He Htr. apply on_schedule_snoc; [done|]. intros t n ->. by edestruct He. Qed.

(** ** Invariant *)

Definition to_add (fs : list task) : list Timer :=
  omap (λ f, match f with TAdd t => Some t | TErase _ => None end) fs.

(** [pend] are the timers a round has taken out of the heap. *)
Record core (pend : list Timer) (s : TimerQueue) : Prop := {
  co_ids : base.NoDup (id_ <$> (pq_elements (timers_ s) ++ pend ++ to_add (funcs s)));
  co_bound : ∀ t, t ∈ pq_elements (timers_ s) ++ pend ++ to_add (funcs s) → (id_ t ≤ timersCreated_ s)%nat;
  co_valid : ∀ i, i ∈ timerIdSet_ s → ∃ t, t ∈ pq_elements (timers_ s) ++ pend ∧ id_ t = i;
  co_alive : timerIdSet_ s = alive (trace s);
  co_trace : on_schedule (trace s);
  co_ran : ∀ u n, Ran u n ∈ trace s → (id_ u ≤ timersCreated_ s)%nat ∧ (∀ t, t ∈ to_add (funcs s) → id_ u ≠ id_ t);
  co_gap : ∀ t, t ∈ pq_elements (timers_ s) → gap (trace s) t
}.

(** The descriptor expires no later than [t] is due, or 100 microseconds from now. *)
Definition armed_for (s : TimerQueue) (t : Timer) : Prop :=
  ∃ d, timerfd_ s = Some d ∧ d ≤ Z.max (when_ t) (clock s + 100000).

Record in_round (r : Round) (s : TimerQueue) : Prop := {
  ro_now : now r ≤ clock s;
  ro_due : ∀ t, t ∈ expired r → when_ t < now r ∧ gap_ran (now r) (trace s) t;
  ro_todo : ∃ ran, expired r = ran ++ todo r ∧ (∀ t, t ∈ ran → Ran t (now r) ∈ trace s ∨ id_ t ∉ timerIdSet_ s);
  ro_gap : ∀ t, t ∈ todo r → gap (trace s) t
}.

Definition inv (s : TimerQueue) : Prop :=
  match round s with
  | None => core [] s ∧ (∀ t, t ∈ pq_elements (timers_ s) → armed_for s t)
  | Some r => core (expired r) s ∧ in_round r s
  end.

Lemma new_timers_inv clk : inv (new_timers clk).
Proof.
  split; [constructor|]; cbn; rewrite ?pq_empty_spec; cbn.
  - apply base.NoDup_nil_2.
  - by intros t ?%elem_of_nil.
  - intros i Hi. by apply elem_of_empty in Hi.
  - done.
  - intros l1 t n l2 Heq. by destruct l1.
  - by intros u n ?%elem_of_nil.
  - by intros t ?%elem_of_nil.
  - by intros t ?%elem_of_nil.
Qed.

(** *** Arming *)

Lemma howMuchTime_bound when clk : clk + howMuchTimeFromNow when clk ≤ Z.max when (clk + 100000).
Proof.
  unfold howMuchTimeFromNow. destruct (Z.ltb_spec (Z.quot (when - clk) 1000) 100) as [?|Hq]; [lia|].
  pose proof (Z.quot_rem' (when - clk) 1000). destruct (decide (0 ≤ when - clk)) as [Hw|Hw].
  - pose proof (Z.rem_bound_pos (when - clk) 1000 Hw ltac:(lia)). lia.
  - assert (Z.quot (when - clk) 1000 ≤ 0); [|lia].
    rewrite <- (Z.opp_involutive (when - clk)), Z.quot_opp_l by lia. pose proof (Z.quot_pos (- (when - clk)) 1000 ltac:(lia) ltac:(lia)). lia.
Qed.

Lemma resetTimerfd_armed e t s : e ≤ when_ t → armed_for (resetTimerfd e s) t.
Proof. intros He. eexists. split; [done|]. cbn. pose proof (howMuchTime_bound e (clock s)). lia. Qed.

Lemma rearm_armed s t : t ∈ pq_elements (timers_ s) → armed_for (rearm s) t.
Proof.
  intros Ht. unfold rearm. destruct (pq_top (timers_ s)) as [u|] eqn:Hu.
  - apply resetTimerfd_armed. apply pq_top_some in Hu as [_ Hmin]. rewrite List.Forall_forall in Hmin.
    apply Hmin. by apply list_elem_of_In.
  - apply pq_top_none in Hu. rewrite Hu in Ht. by apply elem_of_nil in Ht.
Qed.

Lemma armed_mono s s' t : timerfd_ s' = timerfd_ s → clock s ≤ clock s' → armed_for s t → armed_for s' t.
Proof. intros Hf Hc (d & Hd & Hle). exists d. rewrite Hf. split; [done | lia]. Qed.

Lemma rearm_same s : timers_ (rearm s) = timers_ s ∧ timerIdSet_ (rearm s) = timerIdSet_ s ∧ trace (rearm s) = trace s ∧
  funcs (rearm s) = funcs s ∧ timersCreated_ (rearm s) = timersCreated_ s ∧ round (rearm s) = round s ∧ clock (rearm s) = clock s.
Proof. unfold rearm. by destruct (pq_top (timers_ s)). Qed.

(** *** The timers in hand *)

Lemma core_same pend s s' :
  timers_ s' = timers_ s → timerIdSet_ s' = timerIdSet_ s → timersCreated_ s' = timersCreated_ s →
  funcs s' = funcs s → trace s' = trace s → core pend s → core pend s'.
Proof. intros E1 E2 E3 E4 E5 []. constructor; by rewrite ?E1, ?E2, ?E3, ?E4, ?E5. Qed.

(** A new timer becomes valid. *)
Lemma core_added t pend s :
  core pend s → id_ t ∉ id_ <$> (pq_elements (timers_ s) ++ pend ++ to_add (funcs s)) →
  (id_ t ≤ timersCreated_ s)%nat → (∀ u n, Ran u n ∈ trace s → id_ u ≠ id_ t) →
  core (t :: pend) (set_heap (timers_ s) ({[id_ t]} ∪ timerIdSet_ s) (trace s ++ [Added (id_ t)]) s).
Proof.
  intros [H1 H2 H3 H4 H5 H6 H7] Hnew Hle Hrun. assert (Hno : no_run (Added (id_ t))) by done.
  assert (Hp : pq_elements (timers_ s) ++ (t :: pend) ++ to_add (funcs s) ≡ₚ
               t :: pq_elements (timers_ s) ++ pend ++ to_add (funcs s)) by (symmetry; apply Permutation_middle).
  constructor; cbn [set_heap timers_ timerIdSet_ timersCreated_ funcs trace].
  - rewrite Hp. cbn. by apply list.NoDup_cons.
  - intros u. rewrite Hp. intros [->|Hu]%elem_of_cons; [done | by apply H2].
  - intros i [->%elem_of_singleton|(u & Hu & Hi)%H3]%elem_of_union.
    + exists t. split; [apply elem_of_app; right; by left | done].
    + exists u. split; [|done]. rewrite elem_of_app, elem_of_cons. apply elem_of_app in Hu. tauto.
  - by rewrite alive_snoc, H4.
  - by apply on_schedule_no_run.
  - intros u n. rewrite ran_snoc by done. apply H6.
  - intros u Hu. by apply gap_snoc, H7.
Qed.

(** A timer goes (back) into the heap. *)
Lemma core_insert t t' pend s :
  core (t :: pend) s → id_ t' = id_ t → gap (trace s) t' → core pend (insert t' s).2.
Proof.
  intros [H1 H2 H3 H4 H5 H6 H7] Hid Hgap.
  assert (Hp : pq_elements (pq_push t' (timers_ s)) ++ pend ++ to_add (funcs s) ≡ₚ
               t' :: pq_elements (timers_ s) ++ pend ++ to_add (funcs s)) by (by rewrite pq_push_spec).
  assert (Hq : pq_elements (timers_ s) ++ (t :: pend) ++ to_add (funcs s) ≡ₚ
               t :: pq_elements (timers_ s) ++ pend ++ to_add (funcs s)) by (symmetry; apply Permutation_middle).
  constructor; cbn [insert snd set_heap timers_ timerIdSet_ timersCreated_ funcs trace]; try done.
  - rewrite Hp. rewrite Hq in H1. cbn in *. by rewrite Hid.
  - intros u. rewrite Hp. intros [->|Hu]%elem_of_cons; [rewrite Hid; apply H2; rewrite Hq; by left|].
    apply H2. rewrite Hq. by right.
  - intros i (u & Hu & Hi)%H3. rewrite elem_of_app, elem_of_cons in Hu. destruct Hu as [Hu|[->|Hu]].
    + exists u. rewrite elem_of_app, pq_push_spec, elem_of_cons. auto.
    + exists t'. rewrite elem_of_app, pq_push_spec, elem_of_cons. split; [auto | congruence].
    + exists u. rewrite elem_of_app. auto.
  - intros u. rewrite pq_push_spec. intros [->|Hu]%elem_of_cons; [done | by apply H7].
Qed.

(** A timer of the batch that is not put back. *)
Lemma core_drop t pend s : core (t :: pend) s → id_ t ∉ timerIdSet_ s → core pend s.
Proof.
  intros [H1 H2 H3 H4 H5 H6 H7] Ht.
  assert (Hq : pq_elements (timers_ s) ++ (t :: pend) ++ to_add (funcs s) ≡ₚ
               t :: pq_elements (timers_ s) ++ pend ++ to_add (funcs s)) by (symmetry; apply Permutation_middle).
  constructor; try done.
  - rewrite Hq in H1. by apply list.NoDup_cons in H1 as [_ ?].
  - intros u Hu. apply H2. rewrite Hq. by right.
  - intros i Hi. destruct (H3 _ Hi) as (u & Hu & <-). exists u. split; [|done].
    rewrite elem_of_app, elem_of_cons in Hu. rewrite elem_of_app. destruct Hu as [?|[->|?]]; auto. done.
Qed.

(** An id stops being valid. *)
Lemma core_removed e id pend s :
  (e = Erased id ∨ e = Done id) → core pend s →
  core pend (set_heap (timers_ s) (timerIdSet_ s ∖ {[id]}) (trace s ++ [e]) s).
Proof.
  intros He [H1 H2 H3 H4 H5 H6 H7]. assert (Hno : no_run e) by (by destruct He as [-> | ->]).
  constructor; cbn [set_heap timers_ timerIdSet_ timersCreated_ funcs trace]; try done.
  - intros i [Hi _]%elem_of_difference. by apply H3.
  - rewrite alive_snoc, <- H4. by destruct He as [-> | ->].
  - by apply on_schedule_no_run.
  - intros u n. rewrite ran_snoc by done. apply H6.
  - intros u Hu. by apply gap_snoc, H7.
Qed.

(** *** A round in progress *)

Lemma in_round_event e r s s' :
  no_run e → trace s' = trace s ++ [e] → clock s' = clock s →
  (∀ t, t ∈ expired r → id_ t ∉ timerIdSet_ s → id_ t ∉ timerIdSet_ s') →
  in_round r s → in_round r s'.
Proof.
  intros He Htr Hc Hset [H1 H2 (ran & Hex & Hran) H4]. constructor; rewrite ?Htr, ?Hc; try done.
  - intros t Ht. destruct (H2 t Ht). split; [done | by apply gap_ran_snoc].
  - exists ran. split; [done|]. intros t Ht. destruct (Hran t Ht); [left; by apply ran_snoc|].
    right. apply Hset; [|done]. rewrite Hex. apply elem_of_app. by left.
  - intros t Ht. by apply gap_snoc, H4.
Qed.

Lemma in_round_same r s s' :
  trace s' = trace s → clock s ≤ clock s' → timerIdSet_ s' = timerIdSet_ s → in_round r s → in_round r s'.
Proof. intros Htr Hc Hset [H1 H2 H3 H4]. constructor; rewrite ?Htr, ?Hset; try done. lia. Qed.

(** *** Adding and cancelling *)

Definition fresh (t : Timer) (pend : list Timer) (s : TimerQueue) : Prop :=
  id_ t ∉ id_ <$> (pq_elements (timers_ s) ++ pend ++ to_add (funcs s)) ∧
  (id_ t ≤ timersCreated_ s)%nat ∧ (∀ u n, Ran u n ∈ trace s → id_ u ≠ id_ t).

Lemma addTimerInLoop_frame t s :
  timers_ (addTimerInLoop t s) = pq_push t (timers_ s) ∧ trace (addTimerInLoop t s) = trace s ++ [Added (id_ t)] ∧
  timerIdSet_ (addTimerInLoop t s) = {[id_ t]} ∪ timerIdSet_ s ∧
  clock (addTimerInLoop t s) = clock s ∧ round (addTimerInLoop t s) = round s ∧
  (timerfd_ (addTimerInLoop t s) = timerfd_ s ∨ timerfd_ (addTimerInLoop t s) = timerfd_ (resetTimerfd (when_ t) s)).
Proof. unfold addTimerInLoop, insert. cbn. destruct (pq_top _) as [u|]; [destruct (_ <? _)|]; cbn; auto 10. Qed.

Lemma addTimerInLoop_core t pend s : fresh t pend s → core pend s → core pend (addTimerInLoop t s).
Proof.
  intros (H1 & H2 & H3) Hc. unfold addTimerInLoop.
  pose proof (core_insert t t pend _ (core_added t pend s Hc H1 H2 H3) eq_refl) as Hi.
  assert (Hg : gap (trace s ++ [Added (id_ t)]) t).
  { intros u m Hu Hid. apply ran_snoc in Hu; [|done]. by apply H3 in Hu. }
  specialize (Hi Hg). destruct (insert t _) as [[] s2]; cbn in Hi; [|done].
  by eapply core_same, Hi.
Qed.

Lemma addTimerInLoop_armed t u s :
  (∀ u, u ∈ pq_elements (timers_ s) → armed_for s u) →
  u ∈ pq_elements (timers_ (addTimerInLoop t s)) → armed_for (addTimerInLoop t s) u.
Proof.
  intros Harm Hu. destruct (addTimerInLoop_frame t s) as (Ht & _ & _ & Hcl & _ & _).
  rewrite Ht, pq_push_spec in Hu. unfold addTimerInLoop, insert. cbn [timers_ set_heap].
  destruct (pq_top (timers_ s)) as [v|] eqn:Hv.
  - apply pq_top_some in Hv as [Hpop Hmin]. rewrite List.Forall_forall in Hmin.
    assert (Hvarm : armed_for s v) by (apply Harm; rewrite Hpop; by left).
    destruct (Z.ltb_spec (when_ t) (when_ v)).
    + apply resetTimerfd_armed. apply elem_of_cons in Hu as [->|Hu]; [lia|].
      apply list_elem_of_In, Hmin in Hu. lia.
    + destruct Hvarm as (d & Hd & Hle). exists d. split; [done|]. cbn.
      apply elem_of_cons in Hu as [->|Hu]; [lia|]. apply list_elem_of_In, Hmin in Hu. lia.
  - apply pq_top_none in Hv. rewrite Hv in Hu. apply list_elem_of_singleton in Hu as ->. by apply resetTimerfd_armed.
Qed.

Lemma addTimerInLoop_inv t s :
  fresh t (match round s with Some r => expired r | None => [] end) s → inv s → inv (addTimerInLoop t s).
Proof.
  intros Hf Hi. destruct (addTimerInLoop_frame t s) as (_ & Htr & Hset & Hcl & Hr & _). unfold inv in *. rewrite Hr.
  destruct (round s) as [r|]; destruct Hi as [Hc Hi].
  - split; [by apply addTimerInLoop_core|]. eapply (in_round_event (Added (id_ t)) r s); try done.
    intros u Hu Hns. rewrite Hset, not_elem_of_union, elem_of_singleton. split; [|done]. intros Heq.
    destruct Hf as [Hf _]. apply Hf. rewrite <- Heq. apply list_elem_of_fmap. exists u. split; [done|].
    rewrite !elem_of_app. auto.
  - split; [by apply addTimerInLoop_core|]. intros u. by apply addTimerInLoop_armed.
Qed.

Lemma erase_inv id s : inv s → inv (erase id s).
Proof.
  unfold inv. cbn [erase set_heap round]. destruct (round s) as [r|]; intros [Hc Hi].
  - split; [apply core_removed; auto|]. eapply (in_round_event (Erased id) r s); try done.
    intros u _ Hu. cbn. set_solver.
  - split; [apply core_removed; auto|]. intros u Hu. by eapply armed_mono, Hi.
Qed.

(** Work taken from the queue, or work that adds no timer. *)
Lemma core_work n fs pend s :
  (timersCreated_ s ≤ n)%nat → to_add fs `sublist_of` to_add (funcs s) → core pend s → core pend (set_work n fs s).
Proof.
  intros Hn Hsub [H1 H2 H3 H4 H5 H6 H7]. constructor; cbn; try done.
  - eapply sublist_NoDup; [exact H1|]. by apply fmap_sublist, sublist_app, sublist_app.
  - intros t Ht. etransitivity; [apply H2|done]. rewrite !elem_of_app in *.
    destruct Ht as [?|[?|Ht]]; auto. right. right. by eapply elem_of_sublist.
  - intros u k Hu. destruct (H6 u k Hu) as [Hle Hne]. split; [lia|]. intros t Ht. apply Hne. by eapply elem_of_sublist.
Qed.

(** A timer created by another thread waits in the queue. *)
Lemma core_work_add t pend s :
  id_ t = S (timersCreated_ s) → core pend s → core pend (set_work (id_ t) (funcs s ++ [TAdd t]) s).
Proof.
  intros Ht [H1 H2 H3 H4 H5 H6 H7].
  assert (Hto : to_add (funcs s ++ [TAdd t]) = to_add (funcs s) ++ [t]) by (unfold to_add; by rewrite omap_app).
  constructor; cbn [set_work timers_ timerIdSet_ timersCreated_ funcs trace]; rewrite ?Hto; try done.
  - rewrite !app_assoc, fmap_app, <- app_assoc. apply list.NoDup_app. split_and!; [done | | apply list.NoDup_singleton].
    intros i (u & -> & Hu)%list_elem_of_fmap Hi%list_elem_of_singleton. apply H2 in Hu. lia.
  - intros u. rewrite !app_assoc, <- (app_assoc _ pend), elem_of_app, list_elem_of_singleton.
    intros [Hu| ->]; [apply H2 in Hu; lia | done].
  - intros u k Hu. destruct (H6 u k Hu) as [Hle Hne]. split; [lia|].
    intros v. rewrite elem_of_app, list_elem_of_singleton. intros [Hv| ->]; [by apply Hne | lia].
Qed.

(** [core] is all the invariant says about what [set_work] changes. *)
Lemma set_work_inv n fs s :
  inv s → (∀ pend, core pend s → core pend (set_work n fs s)) → inv (set_work n fs s).
Proof.
  unfold inv. cbn [set_work round]. destruct (round s) as [r|]; intros [Hc Hi] Hcore; (split; [by apply Hcore|]).
  - by eapply in_round_same, Hi.
  - intros t Ht. by eapply armed_mono, Hi.
Qed.

Lemma inv_core s : inv s → core (match round s with Some r => expired r | None => [] end) s.
Proof. unfold inv. destruct (round s); by intros []. Qed.

Lemma addTimer_inv inLoop when interval s : inv s → inv (addTimer inLoop when interval s).2.
Proof.
  intros Hi. pose proof (inv_core _ Hi) as Hc. unfold addTimer. set (t := {| id_ := _; when_ := _; interval_ := _ |}).
  destruct inLoop; cbn [snd].
  - apply addTimerInLoop_inv.
    + split_and!; cbn [set_work timers_ funcs timersCreated_ trace round]; [ | done |].
      * intros (u & Heq & Hu)%list_elem_of_fmap. apply (co_bound _ _ Hc) in Hu. cbn in Heq. lia.
      * intros u n Hu. apply (co_ran _ _ Hc) in Hu as [Hu _]. cbn. lia.
    + apply set_work_inv; [done|]. intros pend. apply core_work; [lia | done].
  - apply set_work_inv; [done|]. intros pend. by apply (core_work_add t).
Qed.

Lemma invalidateTimer_inv inLoop id s : inv s → inv (invalidateTimer inLoop id s).
Proof.
  intros Hi. destruct inLoop; [by apply erase_inv|]. apply set_work_inv; [done|]. intros pend. apply core_work; [done|].
  unfold to_add. rewrite omap_app. cbn. by rewrite app_nil_r.
Qed.

Lemma run_task_inv s : inv s → inv (run_task s).
Proof.
  intros Hi. pose proof (inv_core _ Hi) as Hc. unfold run_task. destruct (funcs s) as [|[t|id] fs] eqn:Hf; [done | |].
  - apply addTimerInLoop_inv; cbn [set_work timers_ funcs timersCreated_ trace round].
    + destruct Hc as [H1 H2 H3 H4 H5 H6 H7]. rewrite Hf in *. cbn [to_add omap list_omap] in *.
      rewrite (app_assoc _ _ (t :: _)), <- Permutation_middle, <- (app_assoc _ _ (omap _ _)) in H1.
      cbn in H1. apply list.NoDup_cons in H1 as [H1 _]. split_and!; [done | |].
      * apply H2. rewrite !elem_of_app. right. right. by left.
      * intros u n Hu. apply (H6 u n Hu). by left.
    + apply set_work_inv; [done|]. intros pend. apply core_work; [done|]. rewrite Hf. by apply sublist_cons.
  - apply erase_inv, set_work_inv; [done|]. intros pend. apply core_work; [done|]. by rewrite Hf.
Qed.

(** *** A round *)

Lemma take_expired_spec fuel n : ∀ h ex h',
  take_expired fuel n h = (ex, h') → (length (pq_elements h) ≤ fuel)%nat →
  pq_elements h ≡ₚ ex ++ pq_elements h' ∧ Forall (λ t, when_ t < n) ex ∧ Forall (λ t, n ≤ when_ t) (pq_elements h').
Proof.
  induction fuel as [|fuel IH]; intros h ex h'; cbn [take_expired].
  - intros [= <- <-] Hl. destruct (pq_elements h); [done | cbn in Hl; lia].
  - destruct (pq_top h) as [t|] eqn:Ht.
    + apply pq_top_some in Ht as [Hpop Hmin]. destruct (Z.ltb_spec (when_ t) n).
      * destruct (take_expired fuel n (pq_pop h)) as [ex1 h1] eqn:Hrec. intros [= <- <-] Hl.
        destruct (IH _ _ _ Hrec) as (Hp & H1 & H2).
        { apply Permutation_length in Hpop. cbn in Hpop. lia. }
        split_and!; [by rewrite Hpop, Hp | by constructor | done].
      * intros [= <- <-] _. split_and!; [done | constructor|]. eapply List.Forall_impl; [|exact Hmin]. cbn. lia.
    + intros [= <- <-] _. rewrite (pq_top_none _ Ht). split_and!; [done | constructor | constructor].
Qed.

(** The batch is exactly what is overdue. *)
Lemma getExpired_spec n h ex h' :
  getExpired n h = (ex, h') →
  pq_elements h ≡ₚ ex ++ pq_elements h' ∧ Forall (λ t, when_ t < n) ex ∧ Forall (λ t, n ≤ when_ t) (pq_elements h').
Proof. intros H1. by eapply take_expired_spec. Qed.

Lemma handleRead_inv s : round s = None → inv s → inv (handleRead s).
Proof.
  unfold inv, handleRead. intros -> [[H1 H2 H3 H4 H5 H6 H7] _].
  destruct (getExpired (clock s) (timers_ s)) as [ex h] eqn:Hg. apply getExpired_spec in Hg as (Hp & Hex & Hh).
  cbn [set_round round]. rewrite List.Forall_forall in Hex.
  assert (Hq : pq_elements (timers_ s) ++ to_add (funcs s) ≡ₚ pq_elements h ++ ex ++ to_add (funcs s))
    by (rewrite Hp, app_assoc, (Permutation_app_comm (pq_elements h)); done).
  assert (Hin : ∀ t, t ∈ pq_elements (timers_ s) ↔ t ∈ pq_elements h ++ ex).
  { intros t. rewrite Hp, !elem_of_app. tauto. }
  split; [constructor | constructor]; cbn; try done.
  - by rewrite <- Hq.
  - intros t Ht. apply H2. by rewrite Hq.
  - intros i (t & Ht & Hi)%H3. exists t. rewrite app_nil_r in Ht. by rewrite <- Hin.
  - intros t Ht. apply H7, Hin, elem_of_app. by left.
  - intros t Ht. split; [apply Hex; by apply list_elem_of_In|].
    intros u m Hu Hid. right. apply (H7 t); [apply Hin, elem_of_app; by right | done..].
  - exists []. split; [done|]. by intros t ?%elem_of_nil.
  - intros t Ht. apply H7, Hin, elem_of_app. by right.
Qed.

Lemma run_timer_inv r s : round s = Some r → todo r ≠ [] → inv s → inv (run_timer s).
Proof.
  unfold inv, run_timer. intros -> Htodo [Hc [Hn Hdue (ran & Hex & Hran) Hgap]].
  destruct r as [[|t ts] ex n]; [done|]. cbn [todo expired now] in *. cbn [set_round round].
  assert (Htex : t ∈ ex) by (rewrite Hex; apply elem_of_app; right; by left).
  assert (Hother : ∀ u, u ∈ ts ∨ u ∈ pq_elements (timers_ s) → id_ t ≠ id_ u).
  { intros u Hu Heq. pose proof (co_ids _ _ Hc) as Hnd. rewrite Hex in Hnd.
    assert (Hp : pq_elements (timers_ s) ++ (ran ++ t :: ts) ++ to_add (funcs s) ≡ₚ
                 t :: ts ++ pq_elements (timers_ s) ++ ran ++ to_add (funcs s)).
    { rewrite <- Permutation_middle. cbn. rewrite <- Permutation_middle. apply perm_skip.
      rewrite <- !app_assoc. rewrite (Permutation_app_swap_app ran ts). apply Permutation_app_swap_app. }
    rewrite Hp in Hnd. cbn in Hnd. apply list.NoDup_cons in Hnd as [Hnd _]. apply Hnd. rewrite Heq.
    apply list_elem_of_fmap_2. rewrite !elem_of_app. tauto. }
  destruct (decide (id_ t ∈ timerIdSet_ s)) as [Hin|Hin].
  - rewrite bool_decide_true by done.
    assert (Hnew : ∀ u m, Ran u m ∈ trace s ++ [Ran t n] ↔ Ran u m ∈ trace s ∨ u = t ∧ m = n).
    { intros u m. rewrite elem_of_app, list_elem_of_singleton. naive_solver. }
    destruct (Hdue t Htex) as [Hw _].
    assert (Htgap : gap (trace s) t) by (apply Hgap; by left).
    destruct Hc as [H1 H2 H3 H4 H5 H6 H7]. split; [constructor|constructor]; cbn [set_round set_heap timers_ timerIdSet_ timersCreated_ funcs trace clock now expired todo]; try done.
    + by rewrite alive_snoc.
    + apply on_schedule_snoc; [done|]. intros u m [= <- <-]. rewrite <- H4. split_and!; [done | done|].
      intros v k Hv Hid. destruct (Htgap v k Hv Hid) as (? & ? & ?). split; [done | lia].
    + intros u m. rewrite Hnew. intros [Hu|[-> ->]]; [by apply (H6 u m)|]. split.
      * apply H2. rewrite !elem_of_app. auto.
      * intros v Hv Heq. rewrite (app_assoc _ ex), fmap_app in H1.
        apply list.NoDup_app in H1 as (_ & H1 & _). apply (H1 (id_ t)).
        -- apply list_elem_of_fmap_2, elem_of_app. by right.
        -- rewrite Heq. by apply list_elem_of_fmap_2.
    + intros u Hu v m. rewrite Hnew. intros [Hv|[-> ->]] Hid; [by apply (H7 u)|]. edestruct Hother; eauto.
    + intros u Hu. destruct (Hdue u Hu) as [? Hg]. split; [done|]. intros v m. rewrite Hnew. intros [Hv|[-> ->]] Hid; [by apply Hg|].
      left. split; [|done]. rewrite fmap_app, fmap_app in H1.
      apply list.NoDup_app in H1 as (_ & _ & H1). apply list.NoDup_app in H1 as (H1 & _ & _).
      apply list_elem_of_lookup in Htex as [i Hi]. apply list_elem_of_lookup in Hu as [j Hj].
      assert (i = j) as <-; [|congruence]. apply (NoDup_lookup _ _ _ (id_ t) H1); rewrite list_lookup_fmap; [by rewrite Hi | by rewrite Hj, Hid].
    + exists (ran ++ [t]). split; [by rewrite <- app_assoc|]. intros u. rewrite elem_of_app, list_elem_of_singleton.
      intros [Hu| ->]; [destruct (Hran u Hu); [left; apply Hnew; by left | by right] | left; apply Hnew; by right].
    + intros u Hu v m. rewrite Hnew. intros [Hv|[-> ->]] Hid; [apply (Hgap u); [by right | done..]|]. edestruct Hother; eauto.
  - rewrite bool_decide_false by done. split; [by eapply core_same, Hc|].
    constructor; cbn [set_round timerIdSet_ trace clock now expired todo]; try done.
    + exists (ran ++ [t]). split; [by rewrite <- app_assoc|]. intros u. rewrite elem_of_app, list_elem_of_singleton.
      intros [Hu| ->]; [by apply Hran | by right].
    + intros u Hu. apply Hgap. by right.
Qed.

(** [reset] puts back what repeats, forgets what ran once, drops what was cancelled. *)
Lemma reset_loop_core ex n : ∀ s,
  core ex s → (∀ t, t ∈ ex → when_ t < n ∧ gap_ran n (trace s) t) → core [] (reset_loop ex n s).
Proof.
  induction ex as [|t ex IH]; intros s Hc Hdue; cbn [reset_loop]; [done|].
  assert (Hrest : ∀ u, u ∈ ex → when_ u < n ∧ gap_ran n (trace s) u) by (intros u Hu; apply Hdue; by right).
  destruct (Hdue t ltac:(by left)) as [Hw Hg].
  case_bool_decide as Hin; [|by apply IH; [eapply core_drop|]]. destruct (isRepeat t) eqn:Hrep.
  - apply IH; [|done]. apply (core_insert t); [done | done|]. intros u m Hu Hid. cbn in Hid |- *. rewrite Hrep.
    pose proof (proj1 (Z.ltb_lt _ _) Hrep) as Hpos.
    destruct (Hg u m Hu Hid) as [[-> ->]|(? & ? & ?)]; [split_and!; [done | done | lia] | split_and!; [done | done | lia]].
  - apply IH.
    + apply (core_drop t); [by apply core_removed; [right|]|]. cbn. set_solver.
    + intros u Hu. destruct (Hrest u Hu). split; [done|]. by apply gap_ran_snoc.
Qed.

Lemma finish_read_inv r s : round s = Some r → todo r = [] → inv s → inv (finish_read s).
Proof.
  unfold inv, finish_read. intros -> Htodo [Hc [Hn Hdue _ _]]. destruct r as [td ex n]. cbn in *. subst td.
  cbn [set_round round]. unfold reset. pose proof (reset_loop_core ex n s Hc Hdue) as Hr.
  destruct (rearm_same (reset_loop ex n s)) as (E1 & E2 & E3 & E4 & E5 & E6 & E7). split.
  - by eapply core_same, Hr.
  - intros t Ht. cbn [set_round timers_] in Ht. rewrite E1 in Ht. by apply rearm_armed in Ht.
Qed.

Lemma step_keeps_inv s s' : step s s' → inv s → inv s'.
Proof.
  destruct 1 as [dt s Hdt|b w i s|b id s|s Hr|s Hr Hf|s r Hr Ht|s r Hr Ht|s Hr]; intros Hi.
  - unfold inv in *. cbn [pass round]. destruct (round s); destruct Hi as [Hc Hi]; (split; [by eapply core_same, Hc|]).
    + eapply in_round_same, Hi; try done. cbn. lia.
    + intros t Ht. eapply armed_mono, Hi; try done. cbn. lia.
  - by apply addTimer_inv.
  - by apply invalidateTimer_inv.
  - by apply run_task_inv.
  - by apply handleRead_inv.
  - by eapply run_timer_inv.
  - by eapply finish_read_inv.
  - unfold inv in *. destruct (rearm_same (set_fd None s)) as (E1 & E2 & E3 & E4 & E5 & E6 & E7).
    unfold resetTimerQueue. rewrite E6. cbn [set_fd round]. rewrite Hr in *. destruct Hi as [Hc Hi]. split; [by eapply core_same, Hc|].
    intros t. rewrite E1. cbn. intros Ht. by apply rearm_armed.
Qed.

Lemma timers_reachable_inv clk s : reachable step (new_timers clk) s → inv s.
Proof. apply reachable_invariant; [apply new_timers_inv | intros a b Ha Hab; by eapply step_keeps_inv]. Qed.

(** ** Properties *)


(** C35. No timer is missed.  Between rounds every valid timer is in the heap and
    the descriptor is armed to expire no later than it is due, or within 100
    microseconds; the round that starts then takes exactly the overdue timers,
    and when it ends each of them has run or was cancelled. *)
Theorem timers_never_missed clk s :
  reachable step (new_timers clk) s →
  (round s = None →
    (∀ i, i ∈ timerIdSet_ s → ∃ t, t ∈ pq_elements (timers_ s) ∧ id_ t = i ∧ armed_for s t) ∧
    (∀ t, t ∈ pq_elements (timers_ s) →
      when_ t < clock s ↔ ∃ r, round (handleRead s) = Some r ∧ t ∈ todo r)) ∧
  (∀ r t, round s = Some r → todo r = [] → t ∈ expired r → Ran t (now r) ∈ trace s ∨ id_ t ∉ timerIdSet_ s).
Proof.
  intros Hs%timers_reachable_inv. split.
  - intros Hr. unfold inv in Hs. rewrite Hr in Hs. destruct Hs as [Hc Harm]. split.
    + intros i (t & Ht & Hi)%(co_valid _ _ Hc). rewrite app_nil_r in Ht. exists t. auto.
    + intros t Ht. unfold handleRead. destruct (getExpired (clock s) (timers_ s)) as [ex h] eqn:Hg.
      apply getExpired_spec in Hg as (Hp & Hex & Hh). rewrite List.Forall_forall in Hex, Hh. cbn [set_round round]. split.
      * intros Hw. eexists. split; [done|]. cbn. rewrite Hp, elem_of_app in Ht. destruct Ht as [?|Ht]; [done|].
        apply list_elem_of_In, Hh in Ht. lia.
      * intros (r & [= <-] & Hin). apply Hex. by apply list_elem_of_In.
  - intros r t Hr Htodo Ht. unfold inv in Hs. rewrite Hr in Hs. destruct Hs as [_ [_ _ (ran & Hex & Hran) _]].
    rewrite Htodo, app_nil_r in Hex. apply Hran. by rewrite <- Hex.
Qed.

End Timers.

(** ** An instance: an unsorted list *)

Fixpoint extract (l : list Timer) : option (Timer * list Timer) :=
  match l with
  | [] => None
  | t :: l =>
      match extract l with
      | None => Some (t, [])
      | Some (u, r) => if when_ t <=? when_ u then Some (t, l) else Some (u, t :: r)
      end
  end.

Lemma extract_spec l :
  match extract l with
  | None => l = []
  | Some (u, r) => l ≡ₚ u :: r ∧ Forall (λ v, when_ u ≤ when_ v) l
  end.
Proof.
  induction l as [|t l IH]; cbn; [done|]. destruct (extract l) as [[u r]|].
  - destruct IH as [Hp Hmin]. destruct (Z.leb_spec (when_ t) (when_ u)).
    + split; [done|]. constructor; [lia|]. eapply List.Forall_impl; [|exact Hmin]. cbn. lia.
    + split; [by rewrite Hp, Permutation_swap|]. constructor; [lia | done].
  - subst l. split; [done|]. constructor; [lia | constructor].
Qed.

#[export] Instance list_queue : PriorityQueue (list Timer).
Proof.
  refine {| pq_elements := λ l, l; pq_empty := []; pq_push := cons; pq_top := λ l, fst <$> extract l;
            pq_pop := λ l, match extract l with Some (_, r) => r | None => [] end |}; try done.
  - intros l Hl. pose proof (extract_spec l) as He. by destruct (extract l) as [[]|].
  - intros l t Hl. pose proof (extract_spec l) as He. destruct (extract l) as [[u r]|]; [|done].
    cbn in Hl. injection Hl as ->. done.
Defined.

(** ** A run

    A timer every 500 ms and one after 700 ms, which the first one's callback
    cancels at the first round. *)

Definition tq0 : TimerQueue := new_timers (Q := list Timer) 0.
Definition tq1 := (addTimer true 500000000 500000000 tq0).2.
Definition tq2 := (addTimer false 700000000 0 tq1).2.
Definition tq3 := pass 500100000 (run_task tq2).
Definition tq4 := run_timer (handleRead tq3).
Definition tq5 := finish_read (invalidateTimer true 2 tq4).
Definition tq6 := run_timer (run_timer (handleRead (pass 500100000 tq5))).

Lemma tq2_reachable : reachable step tq0 tq2.
Proof. eapply reach_step; [eapply reach_step; [apply reach_refl | apply SAdd] | apply SAdd]. Qed.

Lemma tq4_reachable : reachable step tq0 tq4.
Proof.
  eapply reach_step; [|by eapply SRun].
  eapply reach_step; [|apply SRead; [done | by vm_compute]].
  eapply reach_step; [|by apply SPass]. eapply reach_step; [apply tq2_reachable | by apply STask].
Qed.

Lemma tq6_reachable : reachable step tq0 tq6.
Proof.
  eapply reach_step; [|by eapply SRun]. eapply reach_step; [|by eapply SRun].
  eapply reach_step; [|apply SRead; [done | by vm_compute]].
  eapply reach_step; [|by apply SPass].
  eapply reach_step; [|by eapply SFinish]. eapply reach_step; [apply tq4_reachable | apply SInvalidate].
Qed.


Lemma timers_never_missed_witness : ∃ t, t ∈ pq_elements (timers_ tq2) ∧ id_ t = 1%nat ∧ armed_for tq2 t.
Proof.
  apply (proj1 (timers_never_missed 0 tq2 tq2_reachable) eq_refl). vm_compute. done.
Defined.

(** A cancellation from the loop's thread overtakes the addition of another
    thread that is still queued: the timer fires although it was cancelled. *)
Example cancelled_before_added :
  let s := (addTimer false 5 0 tq0).2 in
  timerIdSet_ (run_task (invalidateTimer true 1 s)) = {[1%nat]}.
Proof. by vm_compute. Qed.
