(* ===== verification/TimingWheel.v ===== *)
(** * The timing wheel

    [trantor::TimingWheel] (src/src/drogon/trantor/utils/TimingWheel.cc and .h),
    which closes idle connections: a hierarchy of wheels of buckets, the
    [i]-th of which turns every [n^i] ticks.  What is in a bucket is released
    when the bucket is dropped; an entry that is due further away than one
    wheel reaches sits in a higher wheel inside a [CallbackEntry], whose
    destructor puts it into the wheel below.

    The tick interval is one second (the [1.0F] of [TcpServer]), so that
    [delay / ticksInterval_ + 1] is [delay + 1].  An entry is named by a number;
    it is destroyed when no bucket holds it any more.  A bucket is a set of
    pointers: an entry twice in it counts as once, because only membership
    matters. *)

From stdpp Require Import base list numbers option.
From Stdlib Require Import ZArith Lia.
From S2P Require Import Prelude.

Inductive entry :=
| Base (id : nat)
| CallbackEntry (delay i t : nat) (inner : entry).

Section Wheel.
Context (n : nat).                              (* bucketsNumPerWheel_ *)
Hypothesis Hn : (1 < n)%nat.

Record TimingWheel := {
  wheels_ : list (list (list entry));
  ticksCounter_ : nat
}.

(** The constructor: as many wheels as it takes for [n] to the power of their number to reach
    [maxTickNum]; [maxTickNum] turns are enough. *)
Fixpoint count_wheels (fuel maxTickNum ticksNum wheelsNum : nat) : nat :=
  match fuel with
  | O => wheelsNum
  | S fuel => if (ticksNum <? maxTickNum)%nat
              then count_wheels fuel maxTickNum (ticksNum * n) (S wheelsNum) else wheelsNum
  end.

Definition wheels_num (maxTimeout : nat) : nat := count_wheels maxTimeout maxTimeout n 1.

Definition new_wheel (maxTimeout : nat) : TimingWheel :=
  {| wheels_ := replicate (wheels_num maxTimeout) (replicate n []); ticksCounter_ := 0 |}.

(** [wheels_[i][j].insert(e)] *)
Definition put (i j : nat) (e : entry) (ws : list (list (list entry))) : list (list (list entry)) :=
  match ws !! i with
  | Some w => match w !! j with Some b => <[i := <[j := b ++ [e]]> w]> ws | None => ws end
  | None => ws
  end.

(** The loop of [insertEntryInloop] from wheel [i]; [levels] are the wheels left. *)
Fixpoint insert_from (levels i delay t : nat) (e : entry) (ws : list (list (list entry))) :=
  match levels with
  | O => ws
  | S levels' =>
      if (delay <=? n)%nat then put i (delay - 1) e ws
      else match levels' with
           | O => put i (n - 1) e ws
           | _ => insert_from levels' (S i) ((delay + t mod n - 1) / n) (t / n) (CallbackEntry delay i t e) ws
           end
  end.

(** [insertEntry] with a delay in seconds. *)
Definition insertEntry (delay : nat) (e : entry) (w : TimingWheel) : TimingWheel :=
  if (delay =? 0)%nat then w
  else {| wheels_ := insert_from (length (wheels_ w)) 0 (delay + 1) (ticksCounter_ w) e (wheels_ w);
          ticksCounter_ := ticksCounter_ w |}.

(** The bucket [tmp] goes out of scope: its entries are released. *)
Fixpoint release (b : list entry) (ws : list (list (list entry))) : list (list (list entry)) * list nat :=
  match b with
  | [] => (ws, [])
  | Base id :: b => let '(ws', ids) := release b ws in (ws', id :: ids)
  | CallbackEntry delay i t inner :: b =>
      if (0 <? delay)%nat then release b (put i ((delay + t mod n - 1) mod n) inner ws) else release b ws
  end.

(** One wheel of the timer's callback. *)
Definition turn (i t : nat) (ws : list (list (list entry))) : list (list (list entry)) * list nat :=
  if (t mod n ^ i =? 0)%nat then
    match ws !! i with
    | Some (b :: bs) => release b (<[i := bs ++ [[]]]> ws)
    | _ => (ws, [])
    end
  else (ws, []).

Fixpoint turn_all (levels : list nat) (t : nat) (ws : list (list (list entry))) : list (list (list entry)) * list nat :=
  match levels with
  | [] => (ws, [])
  | i :: levels => let '(ws1, ids1) := turn i t ws in let '(ws2, ids2) := turn_all levels t ws1 in (ws2, ids1 ++ ids2)
  end.

(** The callback of [runEvery]; with the numbers of the entries it released. *)
Definition tick (w : TimingWheel) : TimingWheel * list nat :=
  let t := S (ticksCounter_ w) in
  let '(ws, ids) := turn_all (seq 0 (length (wheels_ w))) t (wheels_ w) in
  ({| wheels_ := ws; ticksCounter_ := t |}, ids).

(** ** When an entry is due *)

(** The tick that drops bucket [j] of wheel [i], when [T] ticks have passed. *)
Definition drop_tick (T i j : nat) : nat := n ^ i * (T / n ^ i + j + 1).

(** The tick that releases the entry itself. *)
Fixpoint due (e : entry) (T i j : nat) : nat :=
  match e with
  | Base _ => drop_tick T i j
  | CallbackEntry delay i' t inner => due inner (drop_tick T i j) i' ((delay + t mod n - 1) mod n)
  end.

Fixpoint base (e : entry) : nat := match e with Base id => id | CallbackEntry _ _ _ inner => base inner end.

(** In wheel [i] an entry is wrapped [i] times. *)
Fixpoint wf (i : nat) (e : entry) : Prop :=
  match e with
  | Base _ => i = O
  | CallbackEntry delay i' _ inner => i = S i' ∧ (0 < delay)%nat ∧ wf i' inner
  end.

(** [id] is in the wheels and due at [F]; wheels below [k] have turned to
    tick [T'], the others are still at [T]. *)
Definition holds (T T' k : nat) (ws : list (list (list entry))) (id F : nat) : Prop :=
  ∃ i j w b e, ws !! i = Some w ∧ w !! j = Some b ∧ e ∈ b ∧ base e = id ∧
    due e (if (i <? k)%nat then T' else T) i j = F.

Record shaped (m : nat) (ws : list (list (list entry))) : Prop := {
  sp_levels : length ws = m;
  sp_buckets : ∀ i w, ws !! i = Some w → length w = n;
  sp_wf : ∀ i w j b e, ws !! i = Some w → w !! j = Some b → e ∈ b → wf i e
}.

(** *** Arithmetic of the ticks *)

Lemma pow_pos i : (0 < n ^ i)%nat.
Proof. apply Nat.neq_0_lt_0, Nat.pow_nonzero. lia. Qed.

Lemma drop_after T i j : (T < drop_tick T i j)%nat.
Proof.
  unfold drop_tick. pose proof (pow_pos i). pose proof (Nat.div_mod_eq T (n ^ i)) as Hd.
  pose proof (Nat.mod_upper_bound T (n ^ i) ltac:(lia)). nia.
Qed.

Lemma drop_0 T j : drop_tick T 0 j = (T + j + 1)%nat.
Proof. unfold drop_tick. rewrite Nat.pow_0_r, Nat.div_1_r. lia. Qed.

Lemma due_after e : ∀ T i j, (T < due e T i j)%nat.
Proof.
  induction e as [id|delay i' t inner IH]; intros T i j; cbn; [apply drop_after|].
  etrans; [apply (drop_after T i j) | apply IH].
Qed.

Lemma due_ext e T T' i j j' : drop_tick T i j = drop_tick T' i j' → due e T i j = due e T' i j'.
Proof. intros H. destruct e; cbn; by rewrite H. Qed.

(** A wheel that does not turn at this tick stays as it was. *)
Lemma drop_still T i j : (S T mod n ^ i ≠ 0)%nat → drop_tick (S T) i j = drop_tick T i j.
Proof.
  intros Hm. unfold drop_tick. do 3 f_equal. pose proof (pow_pos i).
  pose proof (Nat.div_mod_eq T (n ^ i)) as H1. pose proof (Nat.div_mod_eq (S T) (n ^ i)) as H2.
  pose proof (Nat.mod_upper_bound T (n ^ i) ltac:(lia)). pose proof (Nat.mod_upper_bound (S T) (n ^ i) ltac:(lia)).
  nia.
Qed.

(** One that turns shifts its buckets by one. *)
Lemma div_turn T i : (S T mod n ^ i = 0)%nat → (S T / n ^ i = S (T / n ^ i) ∧ n ^ i * (S T / n ^ i) = S T)%nat.
Proof.
  intros Hm. pose proof (pow_pos i).
  pose proof (Nat.div_mod_eq T (n ^ i)) as H1. pose proof (Nat.div_mod_eq (S T) (n ^ i)) as H2.
  pose proof (Nat.mod_upper_bound T (n ^ i) ltac:(lia)). nia.
Qed.

Lemma drop_turn T i j : (S T mod n ^ i = 0)%nat → drop_tick (S T) i j = drop_tick T i (S j).
Proof. intros Hm. destruct (div_turn T i Hm) as [H _]. unfold drop_tick. rewrite H. f_equal. lia. Qed.

Lemma drop_now T i : (S T mod n ^ i = 0)%nat → drop_tick T i 0 = S T.
Proof. intros Hm. destruct (div_turn T i Hm) as [H1 H2]. unfold drop_tick. etrans; [|exact H2]. rewrite H1. f_equal. lia. Qed.

(** *** Putting and releasing *)

Lemma put_shaped m i j e ws : shaped m ws → wf i e → shaped m (put i j e ws).
Proof.
  intros [H1 H2 H3] He. unfold put. destruct (ws !! i) as [w|] eqn:Hw; [|done].
  destruct (w !! j) as [b|] eqn:Hb; [|done]. constructor.
  - by rewrite length_insert.
  - intros i' w' Hw'. destruct (decide (i' = i)) as [->|Hne].
    + rewrite list_lookup_insert_eq in Hw' by (by apply lookup_lt_Some in Hw). injection Hw' as <-.
      rewrite length_insert. eauto.
    + rewrite list_lookup_insert_ne in Hw' by done. eauto.
  - intros i' w' j' b' e' Hw' Hb' He'. destruct (decide (i' = i)) as [->|Hne].
    + rewrite list_lookup_insert_eq in Hw' by (by apply lookup_lt_Some in Hw). injection Hw' as <-.
      destruct (decide (j' = j)) as [->|Hnj].
      * rewrite list_lookup_insert_eq in Hb' by (by apply lookup_lt_Some in Hb). injection Hb' as <-.
        apply elem_of_app in He' as [?| ->%list_elem_of_singleton]; [eauto | done].
      * rewrite list_lookup_insert_ne in Hb' by done. eauto.
    + rewrite list_lookup_insert_ne in Hw' by done. eauto.
Qed.

(** Where the entries are after [put]. *)
Lemma put_holds m T T' k i j e ws id F :
  shaped m ws → (i < m)%nat → (j < n)%nat →
  holds T T' k (put i j e ws) id F ↔
  holds T T' k ws id F ∨ base e = id ∧ due e (if (i <? k)%nat then T' else T) i j = F.
Proof.
  intros [H1 H2 H3] Hi Hj. destruct (lookup_lt_is_Some_2 ws i) as [w Hw]; [lia|].
  destruct (lookup_lt_is_Some_2 w j) as [b Hb]; [by rewrite (H2 _ _ Hw)|]. unfold put. rewrite Hw, Hb.
  pose proof (lookup_lt_Some _ _ _ Hw) as Hlw. pose proof (lookup_lt_Some _ _ _ Hb) as Hlb. split.
  - intros (i' & j' & w' & b' & e' & Hw' & Hb' & He' & Hid & HF). destruct (decide (i' = i)) as [->|Hne].
    + rewrite list_lookup_insert_eq in Hw' by done. injection Hw' as <-. destruct (decide (j' = j)) as [->|Hnj].
      * rewrite list_lookup_insert_eq in Hb' by done. injection Hb' as <-.
        apply elem_of_app in He' as [He'| ->%list_elem_of_singleton]; [|by right].
        left. by exists i, j, w, b, e'.
      * rewrite list_lookup_insert_ne in Hb' by done. left. by exists i, j', w, b', e'.
    + rewrite list_lookup_insert_ne in Hw' by done. left. by exists i', j', w', b', e'.
  - intros [(i' & j' & w' & b' & e' & Hw' & Hb' & He' & Hid & HF)|[Hid HF]].
    + destruct (decide (i' = i)) as [->|Hne].
      * rewrite Hw in Hw'. injection Hw' as <-. destruct (decide (j' = j)) as [->|Hnj].
        -- rewrite Hb in Hb'. injection Hb' as <-. exists i, j, (<[j := b ++ [e]]> w), (b ++ [e]), e'.
           rewrite !list_lookup_insert_eq by done. split_and!; try done. apply elem_of_app. by left.
        -- exists i, j', (<[j := b ++ [e]]> w), b', e'.
           rewrite list_lookup_insert_eq, list_lookup_insert_ne by done. done.
      * exists i', j', w', b', e'. by rewrite list_lookup_insert_ne by done.
    + exists i, j, (<[j := b ++ [e]]> w), (b ++ [e]), e. rewrite !list_lookup_insert_eq by done.
      split_and!; try done. apply elem_of_app. right. by apply list_elem_of_singleton.
Qed.

Lemma slot_bound x : (x mod n < n)%nat.
Proof. apply Nat.mod_upper_bound. lia. Qed.

(** A bucket of wheel [i] is dropped at tick [P], which the wheel below has
    already seen: its entries are released or move down, and keep their ticks. *)
Lemma release_spec m T P k i b : ∀ ws ws' ids,
  shaped m ws → (i < m)%nat → (i ≤ k)%nat → (∀ e, e ∈ b → wf i e) → release b ws = (ws', ids) →
  shaped m ws' ∧
  (∀ id F, holds T P k ws' id F ↔
     holds T P k ws id F ∨
     ∃ d i' t inner, CallbackEntry d i' t inner ∈ b ∧ base inner = id ∧ due inner P i' ((d + t mod n - 1) mod n) = F) ∧
  (∀ id, id ∈ ids ↔ Base id ∈ b).
Proof.
  induction b as [|e b IH]; intros ws ws' ids Hs Hi Hik Hb Hr; cbn [release] in Hr.
  { injection Hr as <- <-. split_and!; [done | |]; intros; split; intros H; auto.
    - destruct H as [?|(? & ? & ? & ? & ?%elem_of_nil & _)]; done.
    - by apply elem_of_nil in H.
    - by apply elem_of_nil in H. }
  assert (Hb' : ∀ x, x ∈ b → wf i x) by (intros x Hx; apply Hb; by right).
  destruct e as [id0|d i' t inner].
  - destruct (release b ws) as [ws1 ids1] eqn:Hr1. injection Hr as <- <-.
    destruct (IH _ _ _ Hs Hi Hik Hb' Hr1) as (H1 & H2 & H3). split_and!; [done | |].
    + intros id F. rewrite H2. split; (intros [?|(d & i' & t & inner & Hin & Hrest)]; [by left | right]);
        exists d, i', t, inner; (split; [|done]); [by right | by apply elem_of_cons in Hin as [?|?]].
    + intros id. rewrite !elem_of_cons, H3. split; (intros [?|?]; [left; congruence | by right]).
  - destruct (Hb (CallbackEntry d i' t inner)) as (-> & Hd & Hwf); [by left|].
    rewrite (proj2 (Nat.ltb_lt 0 d)) in Hr by done.
    destruct (IH _ _ _ (put_shaped m i' ((d + t mod n - 1) mod n) inner ws Hs Hwf) Hi Hik Hb' Hr) as (H1 & H2 & H3).
    split_and!; [done | |].
    + intros id F. rewrite H2, (put_holds m) by (done || lia || apply slot_bound).
      rewrite (proj2 (Nat.ltb_lt i' k)) by lia. split.
      * intros [[?|[? ?]]|(d2 & i2 & t2 & in2 & Hin & Hrest)]; [by left | right | right].
        -- exists d, i', t, inner. split; [by left | done].
        -- exists d2, i2, t2, in2. split; [by right | done].
      * intros [?|(d2 & i2 & t2 & in2 & Hin & Hrest)]; [by left; left|].
        apply elem_of_cons in Hin as [[= -> -> -> ->]|Hin]; [left; by right | right]. by exists d2, i2, t2, in2.
    + intros id. rewrite H3, elem_of_cons. split; [by right | by intros [?|?]].
Qed.

(** *** A tick *)

Section Tick.
Context (m T : nat).

(** Dropping the first bucket of wheel [i]: the others move up. *)
Lemma shift_holds i ws b bs id F :
  shaped m ws → ws !! i = Some (b :: bs) → (S T mod n ^ i = 0)%nat →
  holds T (S T) i ws id F ↔
  holds T (S T) (S i) (<[i := bs ++ [[]]]> ws) id F ∨ (∃ e, e ∈ b ∧ base e = id ∧ due e T i 0 = F).
Proof.
  intros [H1 H2 H3] Hw Hm. pose proof (lookup_lt_Some _ _ _ Hw) as Hlw. split.
  - intros (i' & j & w & b' & e & Hw' & Hb' & He & Hid & HF). destruct (decide (i' = i)) as [->|Hne].
    + rewrite Hw in Hw'. injection Hw' as <-. rewrite (proj2 (Nat.ltb_ge i i)) in HF by lia.
      destruct j as [|j]; [injection Hb' as ->; right; by exists e|]. cbn in Hb'. left.
      exists i, j, (bs ++ [[]]), b', e. rewrite list_lookup_insert_eq by done. split_and!; try done.
      * by apply lookup_app_l_Some.
      * rewrite (proj2 (Nat.ltb_lt i (S i))) by lia. rewrite <- HF. by apply due_ext, drop_turn.
    + left. exists i', j, w, b', e. rewrite list_lookup_insert_ne by done. split_and!; try done.
      rewrite <- HF. destruct (Nat.ltb_spec i' i), (Nat.ltb_spec i' (S i)); (done || lia).
  - intros [(i' & j & w & b' & e & Hw' & Hb' & He & Hid & HF)|(e & He & Hid & HF)].
    + destruct (decide (i' = i)) as [->|Hne].
      * rewrite list_lookup_insert_eq in Hw' by done. injection Hw' as <-.
        rewrite (proj2 (Nat.ltb_lt i (S i))) in HF by lia.
        apply lookup_app_Some in Hb' as [Hb'|[_ Hb']]; [|apply list_lookup_singleton_Some in Hb' as [_ <-]; by apply elem_of_nil in He].
        exists i, (S j), (b :: bs), b', e. rewrite (proj2 (Nat.ltb_ge i i)) by lia. split_and!; try done.
        rewrite <- HF. symmetry. by apply due_ext, drop_turn.
      * rewrite list_lookup_insert_ne in Hw' by done. exists i', j, w, b', e. split_and!; try done.
        rewrite <- HF. destruct (Nat.ltb_spec i' i), (Nat.ltb_spec i' (S i)); (done || lia).
    + exists i, 0%nat, (b :: bs), b, e. by rewrite (proj2 (Nat.ltb_ge i i)) by lia.
Qed.

Lemma still_holds i ws id F :
  (S T mod n ^ i ≠ 0)%nat → holds T (S T) (S i) ws id F ↔ holds T (S T) i ws id F.
Proof.
  intros Hm. unfold holds. split; intros (i' & j & w & b & e & Hw & Hb & He & Hid & HF); exists i', j, w, b, e;
    (split_and!; try done); rewrite <- HF; destruct (decide (i' = i)) as [->|Hne].
  all: try (destruct (Nat.ltb_spec i' i), (Nat.ltb_spec i' (S i)); (done || lia)).
  all: rewrite (proj2 (Nat.ltb_ge i i)), (proj2 (Nat.ltb_lt i (S i))) by lia; apply due_ext; by rewrite drop_still.
Qed.

(** Only wheel 0 holds an entry itself, and only its first bucket is due now. *)
Lemma due_now ws id :
  shaped m ws → holds T (S T) 0 ws id (S T) ↔ ∃ w b, ws !! 0%nat = Some w ∧ w !! 0%nat = Some b ∧ Base id ∈ b.
Proof.
  intros [H1 H2 H3]. split.
  - intros (i & j & w & b & e & Hw & Hb & He & Hid & HF). cbn [Nat.ltb Nat.leb] in HF.
    pose proof (H3 _ _ _ _ _ Hw Hb He) as Hwf. destruct e as [id0|d i' t inner]; cbn in *.
    + subst i id0. rewrite drop_0 in HF. assert (j = O) as -> by lia. by exists w, b.
    + pose proof (drop_after T i j). pose proof (due_after inner (drop_tick T i j) i' ((d + t mod n - 1) mod n)). lia.
  - intros (w & b & Hw & Hb & He). exists 0%nat, 0%nat, w, b, (Base id). split_and!; try done. cbn [due Nat.ltb Nat.leb].
    rewrite drop_0. lia.
Qed.

Lemma turn_spec i ws ws' ids :
  shaped m ws → (i < m)%nat → turn i (S T) ws = (ws', ids) →
  shaped m ws' ∧
  (∀ id F, holds T (S T) (S i) ws' id F ↔ holds T (S T) i ws id F ∧ (i = O → F ≠ S T)) ∧
  (∀ id, id ∈ ids ↔ i = O ∧ holds T (S T) 0 ws id (S T)).
Proof.
  intros Hs Hi. unfold turn. destruct (S T mod n ^ i =? 0)%nat eqn:Hm.
  2:{ apply Nat.eqb_neq in Hm. intros [= <- <-].
      assert (Hi0 : i ≠ O) by (intros ->; apply Hm; rewrite Nat.pow_0_r; apply Nat.mod_1_r). split_and!; [done | |].
      - intros id F. rewrite still_holds by done. tauto.
      - intros id. split; [by intros ?%elem_of_nil | by intros [? _]]. }
  apply Nat.eqb_eq in Hm. destruct (lookup_lt_is_Some_2 ws i) as [w Hw]; [by rewrite (sp_levels _ _ Hs)|].
  pose proof (sp_buckets _ _ Hs _ _ Hw) as Hlen. rewrite Hw. destruct w as [|b bs]; [cbn in Hlen; lia|].
  assert (Hb : ∀ e, e ∈ b → wf i e) by (intros e He; by apply (sp_wf _ _ Hs i (b :: bs) 0%nat b e)).
  assert (Hs1 : shaped m (<[i := bs ++ [[]]]> ws)).
  { constructor.
    - rewrite length_insert. apply Hs.
    - intros i' w Hw'. destruct (decide (i' = i)) as [->|Hne].
      + rewrite list_lookup_insert_eq in Hw' by (by apply lookup_lt_Some in Hw). injection Hw' as <-.
        rewrite length_app. cbn in *. lia.
      + rewrite list_lookup_insert_ne in Hw' by done. by apply (sp_buckets _ _ Hs i').
    - intros i' w j b' e Hw' Hb' He. destruct (decide (i' = i)) as [->|Hne].
      + rewrite list_lookup_insert_eq in Hw' by (by apply lookup_lt_Some in Hw). injection Hw' as <-.
        apply lookup_app_Some in Hb' as [Hb'|[_ Hb']];
          [|apply list_lookup_singleton_Some in Hb' as [_ <-]; by apply elem_of_nil in He].
        by apply (sp_wf _ _ Hs i (b :: bs) (S j) b' e).
      + rewrite list_lookup_insert_ne in Hw' by done. by apply (sp_wf _ _ Hs i' w j b' e). }
  intros Hr. destruct (release_spec m T (S T) (S i) i b _ _ _ Hs1 Hi ltac:(lia) Hb Hr) as (H1 & H2 & H3).
  split_and!; [done | |].
  - intros id F. rewrite H2, (shift_holds i ws b bs id F Hs Hw Hm). split.
    + intros [Hh|(d & i' & t & inner & Hin & Hid & HF)].
      * split; [by left|]. intros -> ->. destruct Hh as (i' & j & w' & b' & e & Hw' & Hb' & He & Hid & HF).
        pose proof (due_after e (S T) i' j). pose proof (due_after e T i' j).
        destruct (Nat.ltb_spec i' 1) as [Hi'|Hi']; [lia|].
        pose proof (sp_wf _ _ Hs1 _ _ _ _ _ Hw' Hb' He) as Hwf. destruct e as [|d i2 t inner]; cbn in Hwf; [lia|].
        cbn in HF. pose proof (drop_after T i' j). pose proof (due_after inner (drop_tick T i' j) i2 ((d + t mod n - 1) mod n)). lia.
      * split.
        -- right. exists (CallbackEntry d i' t inner). split_and!; [done | done|]. cbn. by rewrite drop_now.
        -- destruct (Hb _ Hin) as [-> _]. done.
    + intros [[Hh|(e & He & Hid & HF)] Hnow]; [by left|]. destruct e as [id0|d i' t inner].
      * exfalso. pose proof (Hb _ He) as Hwf. cbn in Hwf, HF. apply Hnow; [done|]. by rewrite <- HF, drop_now.
      * right. exists d, i', t, inner. split_and!; [done | done|]. cbn in HF. by rewrite drop_now in HF.
  - intros id. rewrite H3, due_now by done. split.
    + intros He. pose proof (Hb _ He) as Hwf. cbn in Hwf. subst i. split; [done|]. by exists (b :: bs), b.
    + intros (-> & w' & b' & Hw' & Hb' & He). rewrite Hw in Hw'. injection Hw' as <-. by injection Hb' as <-.
Qed.

Lemma turn_all_spec l : ∀ k ws ws' ids,
  shaped m ws → (k + l)%nat = m → turn_all (seq k l) (S T) ws = (ws', ids) →
  shaped m ws' ∧
  (∀ id F, holds T (S T) m ws' id F ↔ holds T (S T) k ws id F ∧ (k = O → l ≠ O → F ≠ S T)) ∧
  (∀ id, id ∈ ids ↔ k = O ∧ l ≠ O ∧ holds T (S T) 0 ws id (S T)).
Proof.
  induction l as [|l IH]; intros k ws ws' ids Hs Hk; cbn.
  - intros [= <- <-]. replace m with k by lia. split_and!; [by replace k with m by lia | tauto |].
    intros id. split; [by intros ?%elem_of_nil | by intros (_ & ? & _)].
  - destruct (turn k (S T) ws) as [ws1 ids1] eqn:H1. destruct (turn_all (seq (S k) l) (S T) ws1) as [ws2 ids2] eqn:H2.
    intros [= <- <-]. destruct (turn_spec k ws ws1 ids1 Hs ltac:(lia) H1) as (Hs1 & Hh1 & Hi1).
    destruct (IH (S k) ws1 ws2 ids2 Hs1 ltac:(lia) H2) as (Hs2 & Hh2 & Hi2). split_and!; [done | |].
    + intros id F. rewrite Hh2, Hh1. split; [intros [[? ?] _]; auto | intros [? ?]; auto].
    + intros id. rewrite elem_of_app, Hi1, Hi2. split; [intros [[? ?]|[? _]]; [auto | done] | intros (? & _ & ?); auto].
Qed.
End Tick.

(** *** Inserting *)

(** The tick that releases an entry dropped by its bucket at tick [P]. *)
Definition due_at (e : entry) (P : nat) : nat :=
  match e with
  | Base _ => P
  | CallbackEntry delay i' t inner => due inner P i' ((delay + t mod n - 1) mod n)
  end.

Lemma due_due_at e T i j : due e T i j = due_at e (drop_tick T i j).
Proof. by destruct e. Qed.

(** The delays that [levels] wheels can hold. *)
Definition fits (levels delay : nat) : Prop :=
  match levels with
  | O => False
  | S O => (delay ≤ n)%nat
  | _ => (delay ≤ n ^ levels + 1)%nat
  end.

Lemma fits_small levels delay : (0 < levels)%nat → (delay ≤ n ^ levels)%nat → fits levels delay.
Proof. destruct levels as [|[|levels]]; cbn [fits]; intros; [lia | by rewrite Nat.pow_1_r in * | lia]. Qed.

Lemma fits_next levels delay t :
  fits (S (S levels)) delay → (n < delay)%nat → fits (S levels) ((delay + t mod n - 1) / n).
Proof.
  intros Hf Hd. cbn [fits] in Hf. apply fits_small; [lia|]. pose proof (slot_bound t) as Hm.
  apply Nat.lt_succ_r, Nat.Div0.div_lt_upper_bound. rewrite Nat.pow_succ_r' in Hf. lia.
Qed.

Lemma carry t delay :
  (0 < delay)%nat →
  (n * (t / n + (delay + t mod n - 1) / n) + (delay + t mod n - 1) mod n + 1 = t + delay)%nat.
Proof.
  intros Hd. pose proof (Nat.div_mod_eq t n). pose proof (Nat.div_mod_eq (delay + t mod n - 1) n). lia.
Qed.

Lemma pow_div_pow i k : (n ^ S i * k / n ^ i = n * k)%nat.
Proof.
  rewrite Nat.pow_succ_r', (Nat.mul_comm n), <- Nat.mul_assoc, Nat.mul_comm.
  apply Nat.div_mul, Nat.pow_nonzero. lia.
Qed.

Lemma insert_from_spec T m levels : ∀ i delay e ws,
  shaped m ws → (i + levels)%nat = m → wf i e → (0 < delay)%nat → fits levels delay →
  let ws' := insert_from levels i delay (T / n ^ i) e ws in
  shaped m ws' ∧
  (∀ id F, holds T T 0 ws' id F ↔
     holds T T 0 ws id F ∨ base e = id ∧ due_at e (n ^ i * (T / n ^ i + delay)) = F).
Proof.
  induction levels as [|levels IH]; intros i delay e ws Hs Hm He Hd Hf; [done|]. cbn [insert_from].
  destruct (Nat.leb_spec delay n) as [Hle|Hgt].
  { split; [by apply put_shaped|]. intros id F. rewrite (put_holds m) by (done || lia). cbn [Nat.ltb Nat.leb].
    rewrite due_due_at. unfold drop_tick. by replace (T / n ^ i + (delay - 1) + 1)%nat with (T / n ^ i + delay)%nat by lia. }
  destruct levels as [|levels]; [cbn in Hf; lia|]. set (t := (T / n ^ i)%nat) in *.
  assert (Hdiv : (t / n)%nat = (T / n ^ S i)%nat).
  { unfold t. rewrite Nat.Div0.div_div, Nat.pow_succ_r'. f_equal. lia. }
  rewrite Hdiv.
  destruct (IH (S i) ((delay + t mod n - 1) / n)%nat (CallbackEntry delay i t e) ws) as [H1 H2]; try done; [lia | | by apply fits_next |].
  { apply Nat.div_str_pos. lia. }
  split; [done|]. intros id F. rewrite H2. cbn [base due_at]. rewrite due_due_at.
  assert (Hdt : drop_tick (n ^ S i * (T / n ^ S i + (delay + t mod n - 1) / n)) i ((delay + t mod n - 1) mod n) =
                (n ^ i * (t + delay))%nat).
  { unfold drop_tick. rewrite pow_div_pow, <- Hdiv, <- (carry t delay) by lia. f_equal. }
  by rewrite Hdt.
Qed.

(** *** The number of wheels *)

Lemma count_wheels_spec fuel M : ∀ w,
  (M ≤ n ^ (w + fuel))%nat →
  (w ≤ count_wheels fuel M (n ^ w) w)%nat ∧ (M ≤ n ^ count_wheels fuel M (n ^ w) w)%nat.
Proof.
  induction fuel as [|fuel IH]; intros w Hf; cbn [count_wheels]; [by rewrite Nat.add_0_r in Hf|].
  destruct (Nat.ltb_spec (n ^ w) M); [|done].
  rewrite Nat.mul_comm, <- Nat.pow_succ_r'. destruct (IH (S w)) as [H1 H2]; [|split; [lia | done]].
  by replace (S w + fuel)%nat with (w + S fuel)%nat by lia.
Qed.

Lemma wheels_num_spec M : (0 < wheels_num M)%nat ∧ (M ≤ n ^ wheels_num M)%nat.
Proof.
  unfold wheels_num. destruct (count_wheels_spec M M 1) as [H1 H2]; [|rewrite Nat.pow_1_r in *; split; [lia | done]].
  pose proof (Nat.pow_gt_lin_r n (1 + M) Hn). lia.
Qed.

(** ** Runs *)

Inductive op := Insert (delay id : nat) | Tick.

(** The wheel with the bookings made, an entry and the tick it was booked for, and the releases. *)
Record Run := { wh : TimingWheel; booked : list (nat * nat); released : list (nat * nat) }.

Definition run_op (o : op) (r : Run) : Run :=
  match o with
  | Insert delay id =>
      {| wh := insertEntry delay (Base id) (wh r);
         booked := if (delay =? 0)%nat then booked r else booked r ++ [(id, ticksCounter_ (wh r) + delay + 1)%nat];
         released := released r |}
  | Tick =>
      let '(w, ids) := tick (wh r) in
      {| wh := w; booked := booked r; released := released r ++ ((λ id, (id, ticksCounter_ w)) <$> ids) |}
  end.

Definition run (maxTimeout : nat) (ops : list op) : Run :=
  fold_left (λ r o, run_op o r) ops {| wh := new_wheel maxTimeout; booked := []; released := [] |}.

(** The entry is in some bucket and will be released at tick [F]. *)
Definition in_wheel (w : TimingWheel) (id F : nat) : Prop :=
  holds (ticksCounter_ w) (ticksCounter_ w) 0 (wheels_ w) id F.

Record on_time (maxTimeout : nat) (r : Run) : Prop := {
  ot_shaped : shaped (wheels_num maxTimeout) (wheels_ (wh r));
  ot_wheel : ∀ id F, in_wheel (wh r) id F ↔ (id, F) ∈ booked r ∧ (ticksCounter_ (wh r) < F)%nat;
  ot_released : ∀ id F, (id, F) ∈ released r ↔ (id, F) ∈ booked r ∧ (F ≤ ticksCounter_ (wh r))%nat
}.

Lemma holds_init T T' ws id F : (∀ i w j b, ws !! i = Some w → w !! j = Some b → b = []) → ¬ holds T T' 0 ws id F.
Proof. intros H (i & j & w & b & e & Hw & Hb & He & _). rewrite (H _ _ _ _ Hw Hb) in He. by apply elem_of_nil in He. Qed.

Lemma new_wheel_on_time M : on_time M {| wh := new_wheel M; booked := []; released := [] |}.
Proof.
  assert (Hempty : ∀ i w j b, replicate (wheels_num M) (replicate n (@nil entry)) !! i = Some w → w !! j = Some b → b = []).
  { intros i w j b Hw Hb. apply lookup_replicate in Hw as [-> _]. by apply lookup_replicate in Hb as [-> _]. }
  constructor; cbn.
  - constructor.
    + by rewrite length_replicate.
    + intros i w Hw. apply lookup_replicate in Hw as [-> _]. by rewrite length_replicate.
    + intros i w j b e Hw Hb He. rewrite (Hempty _ _ _ _ Hw Hb) in He. by apply elem_of_nil in He.
  - intros id F. split; [intros H; by apply (holds_init _ _ _ _ _ Hempty) in H | by intros [?%elem_of_nil _]].
  - intros id F. rewrite !elem_of_nil. tauto.
Qed.

Definition op_fits (maxTimeout : nat) (o : op) : Prop :=
  match o with Insert delay _ => (delay ≤ maxTimeout)%nat | Tick => True end.

(** The wheels reach as far as the timeout: one wheel has a bucket more. *)
Definition roomy (maxTimeout : nat) : Prop := (maxTimeout < n)%nat ∨ (1 < wheels_num maxTimeout)%nat.

Lemma delay_fits M delay : roomy M → (0 < delay ≤ M)%nat → fits (wheels_num M) (delay + 1).
Proof.
  intros Hr Hd. destruct (wheels_num_spec M) as [Hw Hpow].
  destruct (wheels_num M) as [|[|k]] eqn:Hk; cbn [fits]; [lia | |lia].
  destruct Hr; [lia|]. rewrite Hk in *. lia.
Qed.

Lemma tick_spec m w w' ids :
  shaped m (wheels_ w) → (0 < m)%nat → tick w = (w', ids) →
  ticksCounter_ w' = S (ticksCounter_ w) ∧ shaped m (wheels_ w') ∧
  (∀ id F, in_wheel w' id F ↔ in_wheel w id F ∧ F ≠ S (ticksCounter_ w)) ∧
  (∀ id, id ∈ ids ↔ in_wheel w id (S (ticksCounter_ w))).
Proof.
  intros Hs Hm. unfold tick. set (T := ticksCounter_ w).
  destruct (turn_all (seq 0 (length (wheels_ w))) (S T) (wheels_ w)) as [ws ids1] eqn:Ht. intros [= <- <-].
  rewrite (sp_levels _ _ Hs) in Ht. destruct (turn_all_spec m T m 0 _ _ _ Hs eq_refl Ht) as (H1 & H2 & H3).
  assert (Hup : ∀ id F, holds (S T) (S T) 0 ws id F ↔ holds T (S T) m ws id F).
  { intros id F. unfold holds. split; intros (i & j & wl & b & e & Hw & Hb & He & Hid & HF); exists i, j, wl, b, e;
      (split_and!; try done); pose proof (lookup_lt_Some _ _ _ Hw) as Hi; rewrite (sp_levels _ _ H1) in Hi;
      rewrite (proj2 (Nat.ltb_lt i m)) in * by done; done. }
  assert (Hlow : ∀ id F, in_wheel w id F ↔ holds T (S T) 0 (wheels_ w) id F) by done.
  split_and!; [done | done | |].
  - intros id F. rewrite Hlow. unfold in_wheel. cbn [wheels_ ticksCounter_]. rewrite Hup, H2.
    split; [intros [? HF]; split; [done | apply HF; lia] | tauto].
  - intros id. rewrite H3, Hlow. split; [tauto|]. intros ?. split_and!; [done | lia | done].
Qed.

Lemma run_op_on_time M o r : roomy M → op_fits M o → on_time M r → on_time M (run_op o r).
Proof.
  intros Hroom Ho [H1 H2 H3]. destruct (wheels_num_spec M) as [Hw _]. destruct o as [delay id|]; cbn in Ho.
  - unfold run_op. destruct (Nat.eqb_spec delay 0) as [->|Hd]; [by constructor|].
    pose proof (insert_from_spec (ticksCounter_ (wh r)) (wheels_num M) (wheels_num M) 0 (delay + 1) (Base id)
      (wheels_ (wh r)) H1 eq_refl eq_refl ltac:(lia) (delay_fits M delay Hroom ltac:(lia))) as Hi.
    cbn zeta in Hi. rewrite Nat.pow_0_r, Nat.div_1_r in Hi. destruct Hi as [Hs Hh].
    assert (Hwh : wheels_ (insertEntry delay (Base id) (wh r)) =
      insert_from (wheels_num M) 0 (delay + 1) (ticksCounter_ (wh r)) (Base id) (wheels_ (wh r)) ∧
      ticksCounter_ (insertEntry delay (Base id) (wh r)) = ticksCounter_ (wh r)).
    { unfold insertEntry. rewrite (proj2 (Nat.eqb_neq delay 0)) by done. cbn. by rewrite (sp_levels _ _ H1). }
    destruct Hwh as [Hwh Hc]. constructor; cbn [wh booked released]; rewrite ?Hc.
    + by rewrite Hwh.
    + intros id' F. unfold in_wheel in *. rewrite Hc, Hwh, Hh, H2. cbn [base due_at].
      rewrite elem_of_app, list_elem_of_singleton. split.
      * intros [[? ?]|[-> <-]]; [by split; [left|]|]. split; [right; f_equal; lia | lia].
      * intros [[?|[= -> ->]] ?]; [by left | right]. split; [done | lia].
    + intros id' F. rewrite H3, elem_of_app, list_elem_of_singleton. split; [intros [? ?]; split; [by left | done]|].
      intros [[?|[= -> ->]] ?]; [done | lia].
  - unfold run_op. destruct (tick (wh r)) as [w ids] eqn:Ht.
    destruct (tick_spec _ _ _ _ H1 Hw Ht) as (Hc & Hs & Hh & Hi). constructor; cbn [wh booked released]; [done | |].
    + intros id F. rewrite Hh, H2, Hc. split; [intros [[? ?] ?] | intros [? ?]]; (split_and!; (done || lia)).
    + intros id F. rewrite elem_of_app, H3, Hc, list_elem_of_fmap. split.
      * intros [[? ?]|(id' & [= -> ->] & Hid)]; [split; [done | lia]|]. apply Hi, H2 in Hid as [? _]. split; [done | lia].
      * intros [Hb HF]. destruct (decide (F ≤ ticksCounter_ (wh r))%nat) as [?|Hgt]; [by left|].
        right. exists id. assert (F = S (ticksCounter_ (wh r))) as -> by lia. split; [done|].
        apply Hi, H2. split; [done | lia].
Qed.


End Wheel.


(** Three buckets a wheel and timeouts up to 20 ticks: three wheels; a delay of
    15 goes through all of them. *)
Definition demo_ops : list op := [Tick; Tick; Insert 15 7; Insert 1 8] ++ replicate 16 Tick.


(** A single wheel with no bucket to spare drops its longest delay one tick early. *)
Example longest_delay_early : released (run 3 3 ([Insert 3 7] ++ replicate 3 Tick)) = [(7, 3)]%nat.
Proof. by vm_compute. Qed.
