(* ===== verification/BufferNode.v ===== *)
(** * The nodes of a connection's output list

    [trantor::BufferNode] (src/src/drogon/trantor/net/inner/BufferNode.h) and
    its four kinds: bytes in memory (MemBufferNode.cc), a range of a file
    (FileBufferNodeUnix.cc), a callback that produces the bytes
    (StreamBufferNode.cc) and a stream that other code fills while the node is
    already in the list (AsyncStreamBufferNode.cc).

    The [MsgBuffer] inside a memory, stream or asynchronous node is represented by the
    bytes it holds, which is what [MsgBuffer.msgbuffer_refines] shows it to be; the file
    node keeps the buffer itself, because how much it reads depends on the
    room the buffer happens to have.  A stream callback is the list of the
    chunks it will hand over: an empty chunk is its return value 0, which ends
    the stream. *)

From stdpp Require Import base list numbers option.
From Stdlib Require Import ZArith Lia.
From S2P Require Import Prelude MsgBuffer.

Record FileNode := {
  f_isDone : bool;
  sendFd_ : option (list Z);          (* what is left of the file behind the open descriptor *)
  fileBytesToSend_ : Z;
  f_msgBufferPtr_ : option MsgBuffer
}.

Inductive BufferNode :=
| MemBufferNode (isDone : bool) (buffer : list Z)
| FileBufferNode (f : FileNode)
| StreamBufferNode (isDone : bool) (streamCallback : list (list Z)) (msgBuffer : list Z)
| AsyncBufferNode (isDone : bool) (msgBufferPtr : option (list Z)).

Definition isFile (n : BufferNode) : bool := match n with FileBufferNode _ => true | _ => false end.

Definition isStream (n : BufferNode) : bool :=
  match n with StreamBufferNode _ _ _ | AsyncBufferNode _ _ => true | _ => false end.

Definition isAsync (n : BufferNode) : bool := match n with AsyncBufferNode _ _ => true | _ => false end.

Definition isDone (n : BufferNode) : bool :=
  match n with
  | MemBufferNode d _ | StreamBufferNode d _ _ | AsyncBufferNode d _ => d
  | FileBufferNode f => f_isDone f
  end.

Definition set_f_done (d : bool) (f : FileNode) : FileNode :=
  {| f_isDone := d; sendFd_ := sendFd_ f; fileBytesToSend_ := fileBytesToSend_ f;
     f_msgBufferPtr_ := f_msgBufferPtr_ f |}.

(** [done()] *)
Definition done_ (n : BufferNode) : BufferNode :=
  match n with
  | MemBufferNode _ b => MemBufferNode true b
  | FileBufferNode f => FileBufferNode (set_f_done true f)
  | StreamBufferNode _ cb b => StreamBufferNode true cb b
  | AsyncBufferNode _ b => AsyncBufferNode true b
  end.

Definition available (n : BufferNode) : bool :=
  match n with
  | FileBufferNode f => match sendFd_ f with Some _ => true | None => false end
  | AsyncBufferNode d _ => negb d
  | _ => true
  end.

Definition remainingBytes (n : BufferNode) : Z :=
  match n with
  | MemBufferNode d b => if d then 0 else Z.of_nat (length b)
  | FileBufferNode f => if f_isDone f then 0 else fileBytesToSend_ f
  | StreamBufferNode d _ _ => if d then 0 else 1
  | AsyncBufferNode _ b => match b with Some b => Z.of_nat (length b) | None => 0 end
  end.

(** [append]: only the memory and the asynchronous node take bytes. *)
Definition node_append (data : list Z) (n : BufferNode) : BufferNode :=
  match n with
  | MemBufferNode d b => MemBufferNode d (b ++ data)
  | AsyncBufferNode d b => AsyncBufferNode d (Some (default [] b ++ data))
  | _ => n
  end.

(** ** The file node *)

Definition kMaxSendFileBufferSize : Z := 16 * 1024.

Definition no_file : FileNode :=
  {| f_isDone := true; sendFd_ := None; fileBytesToSend_ := 0; f_msgBufferPtr_ := None |}.

(** The constructor; [file] is what [open] finds, [stat_ok] whether [stat] succeeds. *)
Definition newFileBufferNode (file : option (list Z)) (stat_ok : bool) (offset len : Z) : FileNode :=
  if offset <? 0 then no_file
  else match file with
  | None => no_file
  | Some bytes =>
    if negb stat_ok then no_file
    else
      let st_size := Z.of_nat (length bytes) in
      let opened count :=
        {| f_isDone := false; sendFd_ := Some (drop (Z.to_nat offset) bytes);
           fileBytesToSend_ := count; f_msgBufferPtr_ := None |} in
      if len =? 0 then
        if st_size <=? offset then no_file else opened (st_size - offset)
      else if st_size - offset <? len then no_file else opened len
  end.

(** How many bytes [getData] makes room for. *)
Definition file_room (f : FileNode) : nat :=
  Z.to_nat (Z.min kMaxSendFileBufferSize (wrapU64 (fileBytesToSend_ f))).

Definition with_f_buffer (fd : option (list Z)) (b : MsgBuffer) (f : FileNode) : FileNode :=
  {| f_isDone := f_isDone f; sendFd_ := fd; fileBytesToSend_ := fileBytesToSend_ f;
     f_msgBufferPtr_ := Some b |}.

(** [getData]: [read] fills whatever room the buffer has. *)
Definition file_getData (f : FileNode) : option (list Z * FileNode) :=
  let b := match f_msgBufferPtr_ f with Some b => b | None => newMsgBuffer (file_room f) end in
  match sendFd_ f with
  | Some left_ =>
    if (readableBytes b =? 0)%nat && (0 <? fileBytesToSend_ f) then
      b1 ← ensureWritableBytes (file_room f) b;
      b2 ← put (take (writableBytes b1) left_) b1;
      Some (contents b2, with_f_buffer (Some (drop (writableBytes b1) left_)) b2 f)
    else Some (contents b, with_f_buffer (Some left_) b f)
  | None => Some (contents b, with_f_buffer None b f)
  end.

Definition file_retrieve (len : nat) (f : FileNode) : FileNode :=
  {| f_isDone := f_isDone f; sendFd_ := sendFd_ f;
     fileBytesToSend_ := Z.max 0 (fileBytesToSend_ f - Z.of_nat len);
     f_msgBufferPtr_ := retrieve len <$> f_msgBufferPtr_ f |}.

(** ** Taking bytes out *)

Definition getData (n : BufferNode) : list Z * BufferNode :=
  match n with
  | MemBufferNode _ b => (b, n)
  | FileBufferNode f =>
      match file_getData f with Some (data, f') => (data, FileBufferNode f') | None => ([], n) end
  | StreamBufferNode d cb [] =>
      match cb with
      | [] => ([], StreamBufferNode true cb [])
      | [] :: cb' => ([], StreamBufferNode true cb' [])
      | chunk :: cb' => (chunk, StreamBufferNode d cb' chunk)
      end
  | StreamBufferNode _ _ b => (b, n)
  | AsyncBufferNode _ b => (default [] b, n)
  end.

Definition node_retrieve (len : nat) (n : BufferNode) : BufferNode :=
  match n with
  | MemBufferNode d b => MemBufferNode d (drop len b)
  | FileBufferNode f => FileBufferNode (file_retrieve len f)
  | StreamBufferNode d cb b => StreamBufferNode d cb (drop len b)
  | AsyncBufferNode d b => AsyncBufferNode d (drop len <$> b)
  end.

(** ** What a node still holds for the socket *)

(** The chunks of a stream up to the empty one. *)
Fixpoint stream_rest (cb : list (list Z)) : list Z :=
  match cb with [] | [] :: _ => [] | chunk :: cb' => chunk ++ stream_rest cb' end.

Definition file_rest (f : FileNode) : list Z :=
  if f_isDone f then [] else take (Z.to_nat (fileBytesToSend_ f)) (default [] (sendFd_ f)).

Definition rest (n : BufferNode) : list Z :=
  match n with
  | MemBufferNode d b => if d then [] else b
  | FileBufferNode f => file_rest f
  | StreamBufferNode d cb b => if d then [] else b ++ stream_rest cb
  | AsyncBufferNode _ b => default [] b
  end.

(** A file node whose file is still as long as it was. *)
Definition file_ok (f : FileNode) : Prop :=
  0 ≤ fileBytesToSend_ f ≤ Z.of_nat (length (default [] (sendFd_ f))).

Definition node_ok (n : BufferNode) : Prop :=
  match n with FileBufferNode f => file_ok f | MemBufferNode d _ => d = false | _ => True end.

(** ** Lemmas *)

Lemma newFileBufferNode_ok file stat_ok offset len :
  0 ≤ len → file_ok (newFileBufferNode file stat_ok offset len).
Proof.
  intros Hlen. unfold newFileBufferNode, file_ok.
  repeat case_match; bool_to_prop; cbn; try lia; rewrite ?length_drop; lia.
Qed.

Lemma rest_remaining n : node_ok n → remainingBytes n = 0 → rest n = [].
Proof.
  destruct n as [d b|f|d cb b|d b]; cbn; intros Hok Hr.
  - destruct d; [done|]. destruct b; [done|]. cbn in Hr. lia.
  - unfold file_rest. destruct (f_isDone f); [done|]. by rewrite Hr.
  - by destruct d.
  - destruct b as [b|]; cbn; [|done]. destruct b; [done|]. cbn in Hr. lia.
Qed.

Lemma remaining_nonneg n : node_ok n → 0 ≤ remainingBytes n.
Proof.
  destruct n as [d b|f|d cb b|d b]; cbn; intros Hok; repeat case_match; try lia.
  unfold file_ok in Hok. lia.
Qed.

(** [getData] shows the next bytes, moves nothing, and shows none only at the end. *)
Lemma getData_spec n data n' :
  isFile n = false → 0 < remainingBytes n → getData n = (data, n') →
  isFile n' = false ∧ isAsync n' = isAsync n ∧ (node_ok n → node_ok n') ∧
  (data = [] → isAsync n = false ∧ rest n = [] ∧ rest (done_ n') = [] ∧ node_ok (done_ n') ∧
    remainingBytes (done_ n') = 0) ∧
  rest n' = rest n ∧ ∃ more, rest n = data ++ more.
Proof.
  intros Hf Hr Hg. destruct n as [d b|f|d cb b|d b]; cbn in *; [| done | |].
  - destruct d; [lia|]. simplify_eq. cbn. split_and!; try done.
    + intros Hb. subst. cbn in Hr. lia.
    + exists []. by rewrite app_nil_r.
  - destruct d; [lia|]. destruct b as [|z b].
    + destruct cb as [|[|z c] cb]; simplify_eq; cbn; split_and!; try done; try (by exists []); eauto.
    + simplify_eq. cbn. split_and!; try done. by exists (stream_rest cb).
  - simplify_eq. cbn. split_and!; try done.
    + intros Hb. destruct b as [b|]; cbn in *; subst; cbn in Hr; lia.
    + exists []. by rewrite app_nil_r.
Qed.

(** What [retrieve] leaves once [getData] has shown bytes. *)
Lemma retrieve_spec n len data n' :
  isFile n = false → 0 < remainingBytes n → getData n = (data, n') → data ≠ [] → (len ≤ length data)%nat →
  rest (node_retrieve len n') = drop len (rest n) ∧ (node_ok n → node_ok (node_retrieve len n')) ∧
  isFile (node_retrieve len n') = false ∧ isAsync (node_retrieve len n') = isAsync n ∧
  isDone (node_retrieve len n') = isDone n ∧
  ((len < length data)%nat → 0 < remainingBytes (node_retrieve len n')).
Proof.
  intros Hf Hr Hg Hne Hlen. destruct n as [d b|f|d cb b|d b]; cbn in *; [| done | |].
  - destruct d; [lia|]. simplify_eq. cbn. split_and!; try done. rewrite length_drop. lia.
  - destruct d; [lia|]. destruct b as [|z b].
    + destruct cb as [|[|z c] cb]; simplify_eq; cbn [node_retrieve rest isFile isAsync isDone stream_rest app].
      by rewrite app_comm_cons, drop_app_le.
    + simplify_eq. cbn [node_retrieve rest isFile isAsync isDone]. by rewrite drop_app_le.
  - simplify_eq. cbn. destruct b as [b|]; cbn in *; [|lia]. split_and!; try done. rewrite length_drop. lia.
Qed.

(** ** The part of the file that is sent *)

(** A range inside the file is exactly what the node holds. *)
Lemma newFileBufferNode_range bytes offset len :
  0 ≤ offset → 0 < len → offset + len ≤ Z.of_nat (length bytes) →
  file_rest (newFileBufferNode (Some bytes) true offset len) = slice (Z.to_nat offset) (Z.to_nat len) bytes.
Proof.
  intros Ho Hl Hb. unfold newFileBufferNode. rewrite (proj2 (Z.ltb_ge offset 0)) by lia. cbn [negb].
  rewrite (proj2 (Z.eqb_neq len 0)) by lia. rewrite (proj2 (Z.ltb_ge _ len)) by lia. done.
Qed.

(** Length 0 means the file from the offset to its end. *)
Lemma newFileBufferNode_whole bytes offset :
  0 ≤ offset < Z.of_nat (length bytes) →
  file_rest (newFileBufferNode (Some bytes) true offset 0) = drop (Z.to_nat offset) bytes.
Proof.
  intros Ho. unfold newFileBufferNode. rewrite (proj2 (Z.ltb_ge offset 0)) by lia. cbn [negb Z.eqb].
  rewrite (proj2 (Z.leb_gt _ offset)) by lia. unfold file_rest. cbn. rewrite take_ge; [done|].
  rewrite length_drop. lia.
Qed.

(** Without [sendfile] the file is read in pieces of 16 KiB, whatever is left
    of the range: 20000 bytes of a file of 40000 end up as 32768. *)
Definition read_twice (f : FileNode) : option Z :=
  '(d1, f1) ← file_getData f;
  '(d2, f2) ← file_getData (file_retrieve (length d1) f1);
  Some (Z.of_nat (length d1 + length d2)).

Example range_overrun :
  read_twice (newFileBufferNode (Some (replicate (Z.to_nat 40000) 1)) true 0 20000) = Some 32768.
Proof. vm_compute. reflexivity. Qed.
