(* ===== verification/TcpConnection.v ===== *)
(** * A TCP connection's output side and life cycle

    [trantor::TcpConnectionImpl]
    (src/src/drogon/trantor/net/inner/TcpConnectionImpl.cc and .h) without TLS,
    on Linux: the list of output nodes, the channel's interest in reading and
    writing, the status, the calls that arrive through the event loop's queue,
    and the idle timer's entry in the timing wheel.

    Nodes live in a store and are named by their position in it, because an
    asynchronous stream keeps a pointer to its node while the node waits in the
    list.  What the kernel answers to [write] and [sendfile] is an input: every
    operation takes the replies it will meet, one per call; when it makes more
    calls than there are replies the kernel answers [EAGAIN].  Callbacks are
    recorded as events; what they do is a later operation. *)

From stdpp Require Import base list numbers option gmap.
From Stdlib Require Import ZArith Lia.
From S2P Require Import Prelude MsgBuffer BufferNode.

(** ** The kernel *)

Inductive errno := E0 | EWOULDBLOCK | EAGAIN | EPIPE | ECONNRESET | EOTHER.

Record reply := { r_ret : Z; r_errno : errno }.

Definition again : reply := {| r_ret := -1; r_errno := EAGAIN |}.

(** The most bytes one [write] or [sendfile] moves. *)
Definition kMaxSendBytes : Z := 2147479552.   (* 0x7ffff000 *)

(** What the call returns: -1, or at most what it was given. *)
Definition sys_count (len : Z) (r : reply) : Z :=
  Z.max (-1) (Z.min (r_ret r) (Z.min len kMaxSendBytes)).

Definition isEAGAIN (e : errno) : bool :=
  match e with EWOULDBLOCK | EAGAIN | E0 => true | _ => false end.

(** ** State *)

Inductive ConnStatus := Disconnected | Connecting | Connected | Disconnecting.

#[export] Instance ConnStatus_eq_dec : EqDecision ConnStatus.
Proof. solve_decision. Defined.

Inductive conn_event :=
| ConnectionCallback (st : ConnStatus)
| CloseCallback
| UserCloseCallback
| RecvMsgCallback
| HighWaterMark (n : Z)
| ChannelRemoved.

(** The idle timer: [kickoffEntry_] is a weak pointer to an entry the timing
    wheel owns; [entries] holds the living entries with whether their
    connection pointer is still set; [wheel] is the record of insertions. *)
Record Life := {
  now : Z;
  hasWheel : bool;
  idleTimeout_ : Z;
  idleTimeoutBackup_ : Z;
  lastTimingWheelUpdateTime_ : Z;
  kickoffEntry_ : option nat;
  entries : gmap nat bool;
  nextEntry : nat;
  wheel : list (Z * nat)
}.

(** What other threads leave in the loop's queue. *)
Inductive task :=
| TSend (data : list Z)
| TNode (id : nat)                          (* sendFile, sendStream *)
| TAsyncPush (id : nat) (disableKickoff : bool)
| TAsyncData (id : nat) (data : option (list Z))
| TShutdown
| TForceClose.

Record Conn := {
  nodes : list BufferNode;
  writeBufferList_ : list nat;
  reading : bool;
  writing : bool;
  status_ : ConnStatus;
  closeOnEmpty_ : bool;
  bytesSent_ : Z;
  bytesReceived_ : Z;
  highWater : option Z;               (* highWaterMarkCallback_ with highWaterMarkLen_ *)
  life : Life;
  funcs : list task;
  wire : list Z;                      (* what the kernel has accepted *)
  writeClosed : bool;                 (* socketPtr_->closeWrite() was called *)
  events : list conn_event
}.

Definition set_out (ns : list BufferNode) (l : list nat) (c : Conn) : Conn :=
  {| nodes := ns; writeBufferList_ := l; reading := reading c; writing := writing c; status_ := status_ c;
     closeOnEmpty_ := closeOnEmpty_ c; bytesSent_ := bytesSent_ c; bytesReceived_ := bytesReceived_ c;
     highWater := highWater c; life := life c; funcs := funcs c; wire := wire c;
     writeClosed := writeClosed c; events := events c |}.

Definition set_channel (r w : bool) (c : Conn) : Conn :=
  {| nodes := nodes c; writeBufferList_ := writeBufferList_ c; reading := r; writing := w; status_ := status_ c;
     closeOnEmpty_ := closeOnEmpty_ c; bytesSent_ := bytesSent_ c; bytesReceived_ := bytesReceived_ c;
     highWater := highWater c; life := life c; funcs := funcs c; wire := wire c;
     writeClosed := writeClosed c; events := events c |}.

Definition set_status (s : ConnStatus) (closing : bool) (c : Conn) : Conn :=
  {| nodes := nodes c; writeBufferList_ := writeBufferList_ c; reading := reading c; writing := writing c;
     status_ := s; closeOnEmpty_ := closing; bytesSent_ := bytesSent_ c; bytesReceived_ := bytesReceived_ c;
     highWater := highWater c; life := life c; funcs := funcs c; wire := wire c;
     writeClosed := writeClosed c; events := events c |}.

Definition set_life (l : Life) (c : Conn) : Conn :=
  {| nodes := nodes c; writeBufferList_ := writeBufferList_ c; reading := reading c; writing := writing c;
     status_ := status_ c; closeOnEmpty_ := closeOnEmpty_ c; bytesSent_ := bytesSent_ c;
     bytesReceived_ := bytesReceived_ c; highWater := highWater c; life := l; funcs := funcs c; wire := wire c;
     writeClosed := writeClosed c; events := events c |}.

Definition set_funcs (ts : list task) (c : Conn) : Conn :=
  {| nodes := nodes c; writeBufferList_ := writeBufferList_ c; reading := reading c; writing := writing c;
     status_ := status_ c; closeOnEmpty_ := closeOnEmpty_ c; bytesSent_ := bytesSent_ c;
     bytesReceived_ := bytesReceived_ c; highWater := highWater c; life := life c; funcs := ts; wire := wire c;
     writeClosed := writeClosed c; events := events c |}.

(** The kernel takes [bs]. *)
Definition put_wire (bs : list Z) (c : Conn) : Conn :=
  {| nodes := nodes c; writeBufferList_ := writeBufferList_ c; reading := reading c; writing := writing c;
     status_ := status_ c; closeOnEmpty_ := closeOnEmpty_ c;
     bytesSent_ := wrapU64 (bytesSent_ c + Z.of_nat (length bs));
     bytesReceived_ := bytesReceived_ c; highWater := highWater c; life := life c; funcs := funcs c;
     wire := wire c ++ bs; writeClosed := writeClosed c; events := events c |}.

Definition closeWrite (c : Conn) : Conn :=
  {| nodes := nodes c; writeBufferList_ := writeBufferList_ c; reading := reading c; writing := writing c;
     status_ := status_ c; closeOnEmpty_ := closeOnEmpty_ c; bytesSent_ := bytesSent_ c;
     bytesReceived_ := bytesReceived_ c; highWater := highWater c; life := life c; funcs := funcs c;
     wire := wire c; writeClosed := true; events := events c |}.

Definition note (e : list conn_event) (c : Conn) : Conn :=
  {| nodes := nodes c; writeBufferList_ := writeBufferList_ c; reading := reading c; writing := writing c;
     status_ := status_ c; closeOnEmpty_ := closeOnEmpty_ c; bytesSent_ := bytesSent_ c;
     bytesReceived_ := bytesReceived_ c; highWater := highWater c; life := life c; funcs := funcs c;
     wire := wire c; writeClosed := writeClosed c; events := events c ++ e |}.

Definition add_received (n : Z) (c : Conn) : Conn :=
  {| nodes := nodes c; writeBufferList_ := writeBufferList_ c; reading := reading c; writing := writing c;
     status_ := status_ c; closeOnEmpty_ := closeOnEmpty_ c; bytesSent_ := bytesSent_ c;
     bytesReceived_ := wrapU64 (bytesReceived_ c + n); highWater := highWater c; life := life c;
     funcs := funcs c; wire := wire c; writeClosed := writeClosed c; events := events c |}.

(** A channel's [enableWriting], [disableWriting], [enableReading], [disableAll]. *)
Definition enableWriting (c : Conn) : Conn := set_channel (reading c) true c.
Definition disableWriting (c : Conn) : Conn := set_channel (reading c) false c.
Definition enableReading (c : Conn) : Conn := set_channel true (writing c) c.
Definition disableAll (c : Conn) : Conn := set_channel false false c.

Definition put_node (id : nat) (n : BufferNode) (c : Conn) : Conn :=
  set_out (<[id := n]> (nodes c)) (writeBufferList_ c) c.
Definition set_list (l : list nat) (c : Conn) : Conn := set_out (nodes c) l c.
Definition push_back (id : nat) (c : Conn) : Conn := set_list (writeBufferList_ c ++ [id]) c.

(** [std::make_shared]: the new node's name is the next position. *)
Definition alloc (n : BufferNode) (c : Conn) : nat * Conn :=
  (length (nodes c), set_out (nodes c ++ [n]) (writeBufferList_ c) c).

(** A node that does not exist behaves as one that is finished. *)
Definition no_node : BufferNode := MemBufferNode true [].
Definition node_at (c : Conn) (id : nat) : BufferNode := default no_node (nodes c !! id).

(** ** The idle timer *)

Definition MICROS : Z := 1000000.

Definition insertEntry (delay : Z) (e : nat) (l : Life) : Life :=
  {| now := now l; hasWheel := hasWheel l; idleTimeout_ := idleTimeout_ l;
     idleTimeoutBackup_ := idleTimeoutBackup_ l; lastTimingWheelUpdateTime_ := lastTimingWheelUpdateTime_ l;
     kickoffEntry_ := kickoffEntry_ l; entries := entries l; nextEntry := nextEntry l;
     wheel := if delay <=? 0 then wheel l else wheel l ++ [(delay, e)] |}.

Definition set_idle (idle backup last : Z) (k : option nat) (es : gmap nat bool) (nxt : nat) (l : Life) : Life :=
  {| now := now l; hasWheel := hasWheel l; idleTimeout_ := idle; idleTimeoutBackup_ := backup;
     lastTimingWheelUpdateTime_ := last; kickoffEntry_ := k; entries := es; nextEntry := nxt;
     wheel := wheel l |}.

Definition extendLife (c : Conn) : Conn :=
  let l := life c in
  if 0 <? idleTimeout_ l then
    if now l <? lastTimingWheelUpdateTime_ l + MICROS then c
    else
      let l1 := set_idle (idleTimeout_ l) (idleTimeoutBackup_ l) (now l) (kickoffEntry_ l) (entries l)
                  (nextEntry l) l in
      set_life (match kickoffEntry_ l with
                | Some e => if bool_decide (is_Some (entries l !! e)) && hasWheel l
                            then insertEntry (idleTimeout_ l) e l1 else l1
                | None => l1
                end) c
  else c.

(** [entry->reset()] on the entry [kickoffEntry_] points to, when it lives. *)
Definition reset_entry (l : Life) : gmap nat bool :=
  match kickoffEntry_ l with
  | Some e => if bool_decide (is_Some (entries l !! e)) then <[e := false]> (entries l) else entries l
  | None => entries l
  end.

(** [keepAlive] *)
Definition keepAlive (c : Conn) : Conn :=
  let l := life c in
  set_life (set_idle 0 (idleTimeoutBackup_ l) (lastTimingWheelUpdateTime_ l) (kickoffEntry_ l) (reset_entry l)
              (nextEntry l) l) c.

(** [enableKickingOff] *)
Definition new_kickoff (idle backup : Z) (l : Life) : Life :=
  let e := nextEntry l in
  insertEntry idle e
    (set_idle idle backup (lastTimingWheelUpdateTime_ l) (Some e) (<[e := true]> (entries l)) (S e) l).

Definition with_wheel (l : Life) : Life :=
  {| now := now l; hasWheel := true; idleTimeout_ := idleTimeout_ l;
     idleTimeoutBackup_ := idleTimeoutBackup_ l; lastTimingWheelUpdateTime_ := lastTimingWheelUpdateTime_ l;
     kickoffEntry_ := kickoffEntry_ l; entries := entries l; nextEntry := nextEntry l; wheel := wheel l |}.

Definition enableKickingOff (timeout : Z) (c : Conn) : Conn :=
  set_life (new_kickoff timeout (idleTimeoutBackup_ (life c)) (with_wheel (life c))) c.

(** What [sendAsyncStream(true)] does to it, and what the end of the stream restores. *)
Definition suspend_kickoff (c : Conn) : Conn :=
  let l := life c in
  let live := match kickoffEntry_ l with Some e => bool_decide (is_Some (entries l !! e)) | None => false end in
  set_life (set_idle 0 (idleTimeout_ l) (lastTimingWheelUpdateTime_ l)
              (if live then None else kickoffEntry_ l) (reset_entry l) (nextEntry l) l) c.

Definition resume_kickoff (c : Conn) : Conn :=
  let l := life c in
  if (0 <? idleTimeoutBackup_ l) && hasWheel l
  then set_life (new_kickoff (idleTimeoutBackup_ l) 0 l) c else c.

(** ** Writing *)

(** [writeRaw]: [nWritten < static_cast<int>(length)] compares 32-bit integers. *)
Definition writeRaw (r : reply) (data : list Z) (c : Conn) : Z * Conn :=
  let len := Z.of_nat (length data) in
  let nWritten := sys_count len r in
  let c1 := if 0 <? nWritten then put_wire (take (Z.to_nat nWritten) data) c else c in
  if negb (0 <? nWritten) && negb (isEAGAIN (r_errno r)) then (nWritten, c1)
  else
    let nWritten := Z.max 0 nWritten in
    let c2 := if (nWritten <? wrapI32 len) && negb (writing c1) then enableWriting c1 else c1 in
    (nWritten, extendLife c2).

(** [writeInLoop] of a connection without TLS. *)
Definition writeInLoop := writeRaw.

Definition next_reply (ks : list reply) : reply := match ks with r :: _ => r | [] => again end.

(** The kernel moves [n] bytes of the file to the socket. *)
Definition advance_file (n : nat) (f : FileNode) : FileNode :=
  {| f_isDone := f_isDone f; sendFd_ := drop n <$> sendFd_ f; fileBytesToSend_ := fileBytesToSend_ f;
     f_msgBufferPtr_ := f_msgBufferPtr_ f |}.

(** [sendNodeInLoop], the part for files: [sendfile]. *)
Definition send_file_node (r : reply) (id : nat) (f : FileNode) (c : Conn) : Z * Conn :=
  let toSend := remainingBytes (FileBufferNode f) in
  if toSend <=? 0 then (-1, c)
  else
    let left_ := default [] (sendFd_ f) in
    let bytesSent := sys_count (Z.min (Z.min toSend kMaxSendBytes) (Z.of_nat (length left_))) r in
    if (bytesSent <=? 0) && negb (isEAGAIN (r_errno r)) then (-1, c)
    else
      let c1 := if 0 <? bytesSent
                then put_wire (take (Z.to_nat bytesSent) left_)
                       (put_node id (FileBufferNode (file_retrieve (Z.to_nat bytesSent)
                                                       (advance_file (Z.to_nat bytesSent) f))) c)
                else c in
      let c2 := extendLife c1 in
      (bytesSent, if (bytesSent <? toSend) && negb (writing c2) then enableWriting c2 else c2).

(** The loop of [sendNodeInLoop] for the other nodes. *)
Fixpoint send_loop (ks : list reply) (id : nat) (hasSent : Z) (c : Conn) : Z * list reply * Conn :=
  if 0 <? remainingBytes (node_at c id) then
    let '(data, n1) := getData (node_at c id) in
    match data with
    | [] => (hasSent, ks, put_node id (done_ n1) c)
    | _ =>
      let '(nWritten, c1) := writeInLoop (next_reply ks) data (put_node id n1 c) in
      if nWritten <? 0 then (-1, tail ks, c1)
      else
        let c2 := put_node id (node_retrieve (Z.to_nat nWritten) n1) c1 in
        if nWritten <? Z.of_nat (length data) then (hasSent + nWritten, tail ks, c2)
        else match ks with
             | [] => (hasSent + nWritten, [], c2)
             | _ :: ks' => send_loop ks' id (hasSent + nWritten) c2
             end
    end
  else (hasSent, ks, c).

Definition sendNodeInLoop (ks : list reply) (id : nat) (c : Conn) : Z * list reply * Conn :=
  match node_at c id with
  | FileBufferNode f => let '(n, c') := send_file_node (next_reply ks) id f c in (n, tail ks, c')
  | _ => send_loop ks id 0 c
  end.

(** [sendInLoop]: what the kernel did not take joins the last node in memory,
    or a new one behind a file or a stream. *)
Definition last_mem_node (c : Conn) : Conn :=
  match last (writeBufferList_ c) with
  | Some id => if isFile (node_at c id) || isStream (node_at c id)
               then let '(new, c') := alloc (MemBufferNode false []) c in push_back new c' else c
  | None => let '(new, c') := alloc (MemBufferNode false []) c in push_back new c'
  end.

Definition append_to_last (more : list Z) (c : Conn) : Conn :=
  match last (writeBufferList_ c) with
  | Some id => put_node id (node_append more (node_at c id)) c
  | None => c
  end.

Definition check_high_water (c : Conn) : Conn :=
  match last (writeBufferList_ c), highWater c with
  | Some id, Some mark =>
      if mark <? remainingBytes (node_at c id) then note [HighWaterMark (remainingBytes (node_at c id))] c else c
  | _, _ => c
  end.

Definition sendInLoop (r : reply) (data : list Z) (c : Conn) : Conn :=
  if negb (bool_decide (status_ c = Connected)) then c
  else
    let direct := negb (writing c) && bool_decide (writeBufferList_ c = []) in
    let '(sendLen, c1) := if direct then writeInLoop r data c else (0, c) in
    if sendLen <? 0 then c1
    else
      let more := drop (Z.to_nat sendLen) data in
      if (0 <? length more)%nat && bool_decide (status_ c1 = Connected)
      then check_high_water (append_to_last more (last_mem_node c1))
      else c1.

(** What [sendFile] and [sendStream] do with their node in the loop's thread. *)
Definition send_or_queue (ks : list reply) (id : nat) (c : Conn) : Conn :=
  match writeBufferList_ c with
  | [] =>
      let '(n, _, c1) := sendNodeInLoop ks id c in
      if (0 <? remainingBytes (node_at c1 id)) && (0 <=? n) then push_back id c1 else c1
  | _ => push_back id c
  end.

(** The body of [sendAsyncStream] in the loop's thread, and queued from another one. *)
Definition push_async (disableKickoff : bool) (id : nat) (c : Conn) : Conn :=
  push_back id (if disableKickoff then suspend_kickoff c else c).

Definition push_async_queued (ks : list reply) (disableKickoff : bool) (id : nat) (c : Conn) : Conn :=
  let c := if disableKickoff then suspend_kickoff c else c in
  if bool_decide (writeBufferList_ c = []) && (0 <? remainingBytes (node_at c id)) then
    let '(n, _, c1) := sendNodeInLoop ks id c in
    if (0 <=? n) && ((0 <? remainingBytes (node_at c1 id)) || available (node_at c1 id))
    then push_back id c1 else c1
  else push_back id c.

(** [sendAsyncDataInLoop]; [None] is the null pointer that closes the stream. *)
Definition sendAsyncDataInLoop (r : reply) (id : nat) (data : option (list Z)) (c : Conn) : Conn :=
  let at_front := bool_decide (head (writeBufferList_ c) = Some id) in
  match data with
  | Some data =>
      if (0 <? length data)%nat then
        if at_front && (remainingBytes (node_at c id) =? 0) then
          let '(nWritten, c1) := writeInLoop r data c in
          if nWritten <? 0 then c1
          else if nWritten <? Z.of_nat (length data)
          then put_node id (node_append (drop (Z.to_nat nWritten) data) (node_at c1 id)) c1
          else c1
        else put_node id (node_append data (node_at c id)) c
      else c
  | None =>
      let c1 := put_node id (done_ (node_at c id)) c in
      let c2 := if at_front && negb (writing c1) then enableWriting c1 else c1 in
      resume_kickoff c2
  end.

(** ** Closing *)

(** [shutdown], in the loop's thread. *)
Definition shutdown (c : Conn) : Conn :=
  if bool_decide (status_ c = Connected) then
    if negb (bool_decide (writeBufferList_ c = [])) then set_status (status_ c) true c
    else
      let c1 := set_status Disconnecting (closeOnEmpty_ c) c in
      if negb (writing c1) then closeWrite c1 else c1
  else c.

(** The callbacks that are installed: [connectionCallback_], [closeCallback_],
    [userCloseCallback_], [recvMsgCallback_]. *)
Record Callbacks := { cb_connection : bool; cb_close : bool; cb_user : bool; cb_recv : bool }.

Definition handleClose (cb : Callbacks) (c : Conn) : Conn :=
  let c1 := disableAll (set_status Disconnected (closeOnEmpty_ c) c) in
  note ((if cb_connection cb then [ConnectionCallback Disconnected] else [])
        ++ (if cb_close cb then [CloseCallback] else [])
        ++ (if cb_user cb then [UserCloseCallback] else [])) c1.

Definition forceClose (cb : Callbacks) (c : Conn) : Conn :=
  match status_ c with
  | Connected | Disconnecting => handleClose cb (set_status Disconnecting (closeOnEmpty_ c) c)
  | _ => c
  end.

Definition connectEstablished (cb : Callbacks) (c : Conn) : Conn :=
  let c1 := set_status Connected (closeOnEmpty_ c) (enableReading c) in
  if cb_connection cb then note [ConnectionCallback Connected] c1 else c1.

Definition connectDestroyed (c : Conn) : Conn :=
  let c1 := match status_ c with
            | Connected => note [ConnectionCallback Disconnected]
                             (disableAll (set_status Disconnected (closeOnEmpty_ c) c))
            | _ => c
            end in
  note [ChannelRemoved] c1.

(** The destructor of a [KickoffEntry] that the timing wheel drops. *)
Definition drop_entry (cb : Callbacks) (e : nat) (c : Conn) : Conn :=
  let l := life c in
  let c1 := set_life (set_idle (idleTimeout_ l) (idleTimeoutBackup_ l) (lastTimingWheelUpdateTime_ l)
                        (kickoffEntry_ l) (delete e (entries l)) (nextEntry l) l) c in
  match entries l !! e with Some true => forceClose cb c1 | _ => c1 end.

(** ** The channel's callbacks *)

(** [readCallback]; [n] and [e] are what [readFd] returns and leaves in [errno]. *)
Definition readCallback (cb : Callbacks) (n : Z) (e : errno) (c : Conn) : Conn :=
  if n <? 0 then
    match e with EPIPE | ECONNRESET | EAGAIN | EWOULDBLOCK => c | _ => handleClose cb c end
  else
    let c1 := extendLife (if n =? 0 then handleClose cb c else c) in
    if 0 <? n then
      let c2 := add_received n c1 in
      if cb_recv cb then note [RecvMsgCallback] c2 else c2
    else c1.

(** [writeCallback]: the loop over the list.  A node that was sent whole is
    looked at again, so each turn of this recursion is the turn that sends a
    node, if it has bytes, and the turn that removes it. *)
Definition end_of_list (c : Conn) : Conn :=
  let c1 := disableWriting c in
  if closeOnEmpty_ c1 then shutdown c1 else c1.

Fixpoint write_loop (l : list nat) (ks : list reply) (c : Conn) : Conn :=
  match l with
  | [] => end_of_list c
  | id :: l' =>
      let '(n, ks1, c1) := if remainingBytes (node_at c id) =? 0 then (0, ks, c) else sendNodeInLoop ks id c in
      if negb (remainingBytes (node_at c1 id) =? 0) || (n <? 0) then c1
      else if negb (isAsync (node_at c1 id)) || negb (available (node_at c1 id))
      then write_loop l' ks1 (set_list l' c1)
      else disableWriting c1
  end.

Definition writeCallback (ks : list reply) (c : Conn) : Conn :=
  if writing c then write_loop (writeBufferList_ c) ks c else c.

(** [Channel::handleEvent] with this connection's callbacks: a channel that
    waits for nothing is skipped.  [handleError] only logs. *)
Record Revents := { pollhup : bool; pollin : bool; pollpri : bool; pollout : bool }.

Definition handleEvent (cb : Callbacks) (ev : Revents) (n : Z) (e : errno) (ks : list reply) (c : Conn) : Conn :=
  if negb (reading c) && negb (writing c) then c
  else
    let c1 := if pollhup ev && negb (pollin ev) then handleClose cb c else c in
    let c2 := if pollin ev || pollpri ev then readCallback cb n e c1 else c1 in
    if pollout ev then writeCallback ks c2 else c2.

(** ** Calls from any thread *)

Definition queueInLoop (t : task) (c : Conn) : Conn := set_funcs (funcs c ++ [t]) c.

Definition send (inLoop : bool) (r : reply) (data : list Z) (c : Conn) : Conn :=
  if inLoop then sendInLoop r data c else queueInLoop (TSend data) c.

(** [sendFile] of a file that opened, [sendStream]. *)
Definition sendNode (inLoop : bool) (ks : list reply) (n : BufferNode) (c : Conn) : Conn :=
  let '(id, c1) := alloc n c in
  if inLoop then send_or_queue ks id c1 else queueInLoop (TNode id) c1.

Definition sendFile (inLoop : bool) (ks : list reply) (file : option (list Z)) (stat_ok : bool)
    (offset len : Z) (c : Conn) : Conn :=
  let f := newFileBufferNode file stat_ok offset len in
  if negb (available (FileBufferNode f)) then c else sendNode inLoop ks (FileBufferNode f) c.

Definition sendStream (inLoop : bool) (ks : list reply) (callback : list (list Z)) (c : Conn) : Conn :=
  sendNode inLoop ks (StreamBufferNode false callback []) c.

(** The stream that [sendAsyncStream] returns is named by its node. *)
Definition sendAsyncStream (inLoop disableKickoff : bool) (c : Conn) : nat * Conn :=
  let '(id, c1) := alloc (AsyncBufferNode false None) c in
  (id, if inLoop then push_async disableKickoff id c1 else queueInLoop (TAsyncPush id disableKickoff) c1).

(** The callback of an [AsyncStreamImpl]: [send] passes bytes, [close] the null pointer. *)
Definition async_callback (inLoop : bool) (r : reply) (id : nat) (data : option (list Z)) (c : Conn) : bool * Conn :=
  if negb (bool_decide (status_ c = Connected)) then (false, c)
  else (true, if inLoop then sendAsyncDataInLoop r id data c else queueInLoop (TAsyncData id data) c).

Definition run_shutdown (inLoop : bool) (c : Conn) : Conn :=
  if inLoop then shutdown c else queueInLoop TShutdown c.
Definition run_forceClose (cb : Callbacks) (inLoop : bool) (c : Conn) : Conn :=
  if inLoop then forceClose cb c else queueInLoop TForceClose c.

(** The loop runs the next queued function. *)
Definition run_task (cb : Callbacks) (ks : list reply) (c : Conn) : Conn :=
  match funcs c with
  | [] => c
  | t :: ts =>
      let c1 := set_funcs ts c in
      match t with
      | TSend data => sendInLoop (next_reply ks) data c1
      | TNode id => send_or_queue ks id c1
      | TAsyncPush id d => push_async_queued ks d id c1
      | TAsyncData id data => sendAsyncDataInLoop (next_reply ks) id data c1
      | TShutdown => shutdown c1
      | TForceClose => forceClose cb c1
      end
  end.
