(* ===== verification/TcpOrder.v ===== *)
(** * The order of a connection's bytes

    The abstract connection of [TcpConnection]: a slot per call, in the order
    in which the loop's thread executes the calls, holding the bytes the call
    asked for.  [in_order] relates it to the wire and the list of nodes, and
    every elementary change of the list keeps it. *)

From stdpp Require Import base list numbers option gmap.
From Stdlib Require Import ZArith Lia.
From S2P Require Import Prelude MsgBuffer BufferNode TcpConnection.

(** ** Lemmas: writing touches nothing else *)

Record quiet (c c' : Conn) : Prop := {
  q_list : writeBufferList_ c' = writeBufferList_ c;
  q_status : status_ c' = status_ c;
  q_close : closeOnEmpty_ c' = closeOnEmpty_ c;
  q_funcs : funcs c' = funcs c;
  q_closed : writeClosed c' = writeClosed c;
  q_writing : writing c = true → writing c' = true
}.

#[export] Instance quiet_preorder : PreOrder quiet.
Proof.
  split; [by constructor|]. intros c1 c2 c3 [] []. constructor; try congruence. eauto.
Qed.

(** Only the node [id] is touched. *)
Record frame (id : nat) (c c' : Conn) : Prop := {
  fr_quiet : quiet c c';
  fr_length : length (nodes c') = length (nodes c);
  fr_others : ∀ j, j ≠ id → nodes c' !! j = nodes c !! j
}.

#[export] Instance frame_preorder id : PreOrder (frame id).
Proof.
  split; [by constructor|]. intros c1 c2 c3 [Hq1 Hl1 Ho1] [Hq2 Hl2 Ho2]. constructor.
  - by etrans.
  - congruence.
  - intros j Hj. by rewrite Ho2, Ho1.
Qed.

Lemma frame_put id n c : frame id c (put_node id n c).
Proof. constructor; [by constructor | cbn; by rewrite length_insert |]. intros j Hj. cbn. by rewrite list_lookup_insert_ne. Qed.

Lemma node_put id n c : (id < length (nodes c))%nat → node_at (put_node id n c) id = n.
Proof. intros H. unfold node_at. cbn. by rewrite list_lookup_insert_eq. Qed.

Lemma node_other id j c c' : frame id c c' → j ≠ id → node_at c' j = node_at c j.
Proof. intros Hf Hj. unfold node_at. by rewrite (fr_others _ _ _ Hf). Qed.

Lemma extendLife_same c :
  quiet c (extendLife c) ∧ nodes (extendLife c) = nodes c ∧ wire (extendLife c) = wire c ∧
  writing (extendLife c) = writing c.
Proof. unfold extendLife. repeat case_match; by repeat split. Qed.

(** The kernel does its work or asks to wait. *)
Definition healthy (r : reply) : Prop := 0 < r_ret r ∨ isEAGAIN (r_errno r) = true.

Definition fits (bs : list Z) : Prop := Z.of_nat (length bs) ≤ INT_MAX.

Lemma healthy_next ks : Forall healthy ks → healthy (next_reply ks).
Proof. intros H. destruct ks as [|r ks]; [by right | by apply Forall_cons_1 in H as [? _]]. Qed.

Lemma healthy_tail ks : Forall healthy ks → Forall healthy (tail ks).
Proof. intros H. destruct ks; [done | by apply Forall_cons_1 in H as [_ ?]]. Qed.

Lemma writeRaw_spec r data c n c' :
  healthy r → writeRaw r data c = (n, c') →
  0 ≤ n ≤ Z.of_nat (length data) ∧ wire c' = wire c ++ take (Z.to_nat n) data ∧ nodes c' = nodes c ∧ quiet c c' ∧
  (n < Z.of_nat (length data) → fits data → writing c' = true) ∧
  (n = Z.of_nat (length data) → fits data → writing c' = writing c).
Proof.
  intros Hr. unfold writeRaw. set (len := Z.of_nat (length data)). set (k := sys_count len r).
  assert (Hk : -1 ≤ k ≤ len) by (unfold k, sys_count; lia).
  set (c1 := if 0 <? k then put_wire (take (Z.to_nat k) data) c else c).
  assert (Hc1 : quiet c c1 ∧ nodes c1 = nodes c ∧ wire c1 = wire c ++ take (Z.to_nat (Z.max 0 k)) data ∧
                writing c1 = writing c).
  { unfold c1. case_if; bool_to_prop; [by replace (Z.max 0 k) with k by lia|].
    replace (Z.max 0 k) with 0 by lia. cbn. by rewrite take_0, app_nil_r. }
  destruct Hc1 as (Hq1 & Hn1 & Hw1 & Hwr1).
  destruct (negb (0 <? k) && negb (isEAGAIN (r_errno r))) eqn:Hbad; intros Heq.
  - bool_to_prop. injection Heq as <- <-. destruct Hr as [Hr|Hr]; [|congruence].
    assert (len = 0) by (unfold k, sys_count, kMaxSendBytes in *; lia).
    assert (k = 0) by (unfold k, sys_count, kMaxSendBytes in *; lia).
    split_and!; try done; try lia. rewrite Hw1. f_equal. f_equal. lia.
  - injection Heq as <- <-.
    set (c2 := if (Z.max 0 k <? wrapI32 len) && negb (writing c1) then enableWriting c1 else c1).
    assert (Hc2 : quiet c1 c2 ∧ nodes c2 = nodes c1 ∧ wire c2 = wire c1).
    { unfold c2. case_if; by repeat split. }
    destruct Hc2 as (Hq2 & Hn2 & Hw2), (extendLife_same c2) as (Hq3 & Hn3 & Hw3 & Hr3).
    split_and!; try lia; try congruence.
    + by do 2 (etrans; [eassumption|]).
    + intros Hlt Hfit. rewrite Hr3. unfold c2. fold len in Hfit. unfold fits in Hfit.
      rewrite wrapI32_small by (unfold INT_MIN; lia).
      rewrite (proj2 (Z.ltb_lt _ _)) by lia. cbn. destruct (writing c1) eqn:Hw; [done|]. done.
    + intros Hlt Hfit. rewrite Hr3. unfold c2. fold len in Hfit. unfold fits in Hfit.
      rewrite wrapI32_small by (unfold INT_MIN; lia). by rewrite (proj2 (Z.ltb_ge _ _)) by lia.
Qed.

Lemma sys_count_again len : 0 ≤ len → sys_count len again = -1.
Proof. intros H. unfold sys_count, again, kMaxSendBytes. cbn [r_ret]. lia. Qed.

Lemma writeRaw_again data c : fst (writeRaw again data c) = 0.
Proof. unfold writeRaw. rewrite sys_count_again by lia. reflexivity. Qed.

(** ** Lemmas: sending one node *)

Definition node_fits (n : BufferNode) : Prop :=
  match n with
  | MemBufferNode _ b => fits b
  | FileBufferNode _ => True
  | StreamBufferNode _ cb b => Forall fits cb ∧ fits b
  | AsyncBufferNode _ b => fits (default [] b)
  end.

Lemma fits_drop k bs : fits bs → fits (drop k bs).
Proof. unfold fits. rewrite length_drop. lia. Qed.

Lemma getData_fits n data n' : isFile n = false → getData n = (data, n') → node_fits n → fits data ∧ node_fits n'.
Proof.
  assert (H0 : fits []) by (by unfold fits, INT_MAX).
  intros Hf Hg Hn. destruct n as [d b|f|d cb b|d b]; cbn in *; [| done | |]; try by simplify_eq.
  destruct Hn as [Hcb Hb]. destruct b; [|by simplify_eq].
  destruct cb as [|[|z ch] cb]; simplify_eq; cbn; split_and!; try done;
    by apply Forall_cons_1 in Hcb as [? ?].
Qed.

Lemma retrieve_fits k n : node_fits n → node_fits (node_retrieve k n).
Proof.
  destruct n as [d b|f|d cb b|d b]; cbn; try done; try (by apply fits_drop).
  - intros [? ?]. split; [done | by apply fits_drop].
  - destruct b; cbn; [apply fits_drop | done].
Qed.

(** What sending the node [id] may change: some of its bytes move to the wire. *)
Record sent (id : nat) (c c' : Conn) : Prop := {
  s_frame : frame id c c';
  s_bytes : wire c' ++ rest (node_at c' id) = wire c ++ rest (node_at c id);
  s_ok : node_ok (node_at c id) → node_ok (node_at c' id);
  s_async : isAsync (node_at c' id) = isAsync (node_at c id);
  s_done : isAsync (node_at c id) = true → isDone (node_at c' id) = isDone (node_at c id)
}.

#[export] Instance sent_preorder id : PreOrder (sent id).
Proof.
  split; [by constructor|]. intros c1 c2 c3 [Hf1 Hb1 Ho1 Ha1 Hd1] [Hf2 Hb2 Ho2 Ha2 Hd2].
  constructor; try congruence; [by etrans | eauto |].
  intros H. rewrite Hd2, Hd1; congruence.
Qed.

Section SendNode.
Context (id : nat).

(** One turn of the loop: the node's next bytes, as far as the kernel takes them. *)
Lemma send_turn r c data n1 k c1 :
  let c2 := put_node id (node_retrieve (Z.to_nat k) n1) c1 in
  healthy r → (id < length (nodes c))%nat → isFile (node_at c id) = false → 0 < remainingBytes (node_at c id) →
  getData (node_at c id) = (data, n1) → data ≠ [] → writeInLoop r data (put_node id n1 c) = (k, c1) →
  sent id c c2 ∧ 0 ≤ k ≤ Z.of_nat (length data) ∧ isFile (node_at c2 id) = false ∧
  (node_fits (node_at c id) → node_fits (node_at c2 id) ∧ (k < Z.of_nat (length data) → writing c2 = true) ∧
    (k = Z.of_nat (length data) → writing c2 = writing c)) ∧
  (k < Z.of_nat (length data) → 0 < remainingBytes (node_at c2 id)).
Proof.
  intros c2 Hr Hid Hf Hrem Hg Hne Hw.
  apply writeRaw_spec in Hw as (Hk & Hwire & Hn & Hq & Hfit & Hfull); [|done].
  destruct (retrieve_spec _ (Z.to_nat k) _ _ Hf Hrem Hg Hne ltac:(lia)) as (Hrest & Hok & Hf' & Ha & Hd & Hleft).
  destruct (getData_spec _ _ _ Hf Hrem Hg) as (_ & _ & _ & _ & _ & more & Hmore).
  assert (Hlen : (id < length (nodes c1))%nat) by (rewrite Hn; cbn; by rewrite length_insert).
  assert (H2 : node_at c2 id = node_retrieve (Z.to_nat k) n1) by by apply node_put.
  split_and!; try lia.
  - assert (Hfr : frame id c c2).
    { trans (put_node id n1 c); [apply frame_put|]. trans c1; [|apply frame_put].
      constructor; [done | by rewrite Hn | intros; by rewrite Hn]. }
    constructor; rewrite ?H2; try done.
    rewrite Hrest, Hmore, drop_app_le by lia. change (wire c2) with (wire c1). rewrite Hwire. cbn.
    by rewrite <- app_assoc, (app_assoc (take _ _)), take_drop.
  - by rewrite H2.
  - intros Hfits. destruct (getData_fits _ _ _ Hf Hg Hfits) as [Hfd Hf1]. split.
    + rewrite H2. by apply retrieve_fits.
    + split; intros; [by apply Hfit | by apply Hfull].
  - intros Hlt. rewrite H2. apply Hleft. lia.
Qed.

Lemma send_loop_spec ks : ∀ h c n ks' c',
  Forall healthy ks → (id < length (nodes c))%nat → isFile (node_at c id) = false → 0 ≤ h →
  send_loop ks id h c = (n, ks', c') →
  sent id c c' ∧ 0 ≤ n ∧ Forall healthy ks' ∧ isFile (node_at c' id) = false ∧
  (0 < remainingBytes (node_at c' id) → writing c = true ∨ node_fits (node_at c id) → writing c' = true) ∧
  (remainingBytes (node_at c' id) ≤ 0 → node_fits (node_at c id) → writing c' = writing c).
Proof.
  induction ks as [|r ks IH]; intros h c n ks' c' Hks Hid Hf Hh; cbn [send_loop];
    (destruct (0 <? remainingBytes (node_at c id)) eqn:Hrem; bool_to_prop;
      [|intros Heq; injection Heq as <- <- <-; split_and!; [done | done | done | done | lia | done]]).
  all: destruct (getData (node_at c id)) as [data n1] eqn:Hg; destruct data as [|z data'];
    [destruct (getData_spec _ _ _ Hf Hrem Hg) as (Hf1 & Ha1 & _ & Hend & Hr1 & _);
     destruct (Hend eq_refl) as (Ha & Hr0 & Hr2 & Hok2 & Hrem2);
     intros Heq; injection Heq as <- <- <-; rewrite node_put by done; split_and!; try done;
       [constructor; rewrite ?node_put by done; try done; [apply frame_put | cbn; by rewrite Hr2, Hr0 | by destruct n1 | congruence]
       | by destruct n1 | lia]
    | cbv beta iota; set (data := z :: data') in *; assert (Hne : data ≠ []) by done; clearbody data; clear z data'].
  all: match goal with |- context [writeInLoop ?r ?d ?x] => destruct (writeInLoop r d x) as [k c1] eqn:Hw end.
  all: destruct (send_turn _ _ _ _ _ _ (healthy_next _ Hks) Hid Hf Hrem Hg Hne Hw) as (Hs & Hk & Hf2 & Hfit & Hleft).
  all: rewrite (proj2 (Z.ltb_ge k 0)) by lia.
  all: set (c2 := put_node id _ c1) in *.
  all: destruct (k <? Z.of_nat (length data)) eqn:Hlt; bool_to_prop.
  1,3: intros Heq; injection Heq as <- <- <-; split_and!; [done | lia | by apply (healthy_tail _ Hks) | done | | specialize (Hleft Hlt); lia];
    intros _ [Hw0|Hfits]; [by apply (q_writing _ _ (fr_quiet _ _ _ (s_frame _ _ _ Hs))) | by apply Hfit].
  - intros Heq; injection Heq as <- <- <-. exfalso.
    assert (k = 0); [|destruct data; [done | cbn in *; lia]].
    pose proof (writeRaw_again data (put_node id n1 c)) as H0.
    change (writeRaw again) with (writeInLoop (next_reply [])) in H0. by rewrite Hw in H0.
  - intros Heq. apply IH in Heq as (Hs' & Hn & Hks' & Hf' & Hpr & Hend');
      [| by apply Forall_cons_1 in Hks as [_ ?]
       | by rewrite (fr_length _ _ _ (s_frame _ _ _ Hs)) | done | lia].
    split_and!; try done; [by trans c2 | |
      intros Hr0 Hfits; rewrite Hend' by (done || by apply Hfit); apply Hfit; [done | lia]].
    intros Hrem' Hor. apply Hpr; [done|]. destruct Hor as [Hw0|Hfits]; [left; by apply (q_writing _ _ (fr_quiet _ _ _ (s_frame _ _ _ Hs))) | right; by apply Hfit].
Qed.
End SendNode.

Lemma send_file_spec r id f c n c' :
  healthy r → (id < length (nodes c))%nat → node_at c id = FileBufferNode f → file_ok f →
  send_file_node r id f c = (n, c') →
  sent id c c' ∧ (0 ≤ n → 0 < remainingBytes (node_at c' id) → writing c' = true) ∧
  (0 < remainingBytes (node_at c id) → 0 ≤ r_ret r → 0 ≤ n) ∧
  (remainingBytes (node_at c' id) ≤ 0 → writing c' = writing c).
Proof.
  intros Hr Hid Hnode Hok. unfold send_file_node. rewrite Hnode.
  destruct (_ <=? 0) eqn:Hrem; bool_to_prop; [intros Heq; injection Heq as <- <-; split_and!; [done | lia | lia | done]|].
  cbn [remainingBytes] in *. destruct (f_isDone f) eqn:Hd; [lia|]. unfold file_ok in Hok.
  set (left_ := default [] (sendFd_ f)) in *. set (toSend := fileBytesToSend_ f) in *.
  set (k := sys_count _ r). assert (Hk : -1 ≤ k ≤ toSend ∧ k ≤ Z.of_nat (length left_)) by (unfold k, sys_count; lia).
  destruct ((k <=? 0) && negb (isEAGAIN (r_errno r))) eqn:Hbad.
  { intros Heq; injection Heq as <- <-. bool_to_prop. split_and!; [done | lia | | done]. intros _ Hret.
    destruct Hr as [Hr|Hr]; [|congruence]. unfold k, sys_count, kMaxSendBytes in *. lia. }
  set (c1 := if 0 <? k then _ else c). intros Heq. injection Heq as <- <-.
  assert (Hwr1 : writing c1 = writing c) by (unfold c1; by case_if).
  assert (Hc1 : sent id c c1 ∧ remainingBytes (node_at c1 id) = toSend - Z.max 0 k).
  { unfold c1. destruct (0 <? k) eqn:Hpos; bool_to_prop;
      [|split; [done|]; rewrite Hnode; cbn; rewrite Hd; fold toSend; lia].
    set (f' := file_retrieve _ _). change (node_at (put_wire ?b ?x) id) with (node_at x id).
    rewrite node_put by done. split.
    - constructor; change (node_at (put_wire ?b ?x) id) with (node_at x id); rewrite ?node_put, ?Hnode by done; try done.
      + etrans; [apply (frame_put id (FileBufferNode f'))|]. by repeat split.
      + cbn. unfold file_rest, f', file_retrieve, advance_file. cbn. rewrite Hd, <- app_assoc. f_equal.
        fold left_ toSend. assert (Hl : default [] (drop (Z.to_nat k) <$> sendFd_ f) = drop (Z.to_nat k) left_).
        { unfold left_. destruct (sendFd_ f); cbn; [done | by rewrite drop_nil]. }
        rewrite Hl. rewrite take_take_drop. f_equal. lia.
      + intros _. cbn. unfold file_ok, f', file_retrieve, advance_file. cbn. fold toSend.
        unfold left_ in *. destruct (sendFd_ f); cbn in *; rewrite ?length_drop; lia.
    - unfold f', file_retrieve, advance_file. cbn. rewrite Hd. fold toSend. lia. }
  destruct Hc1 as [Hs1 Hrem1], (extendLife_same c1) as (Hq2 & Hn2 & Hw2 & Hr2).
  set (c2 := extendLife c1) in *. set (c3 := if _ && _ then enableWriting c2 else c2).
  assert (Hn3 : nodes c3 = nodes c1 ∧ wire c3 = wire c1 ∧ quiet c2 c3) by (unfold c3; case_if; by repeat split).
  destruct Hn3 as (Hn3 & Hw3 & Hq3).
  assert (Hnode3 : node_at c3 id = node_at c1 id) by (unfold node_at; by rewrite Hn3).
  split_and!.
  - trans c1; [done|]. constructor; rewrite ?Hnode3, ?Hw3; try done.
    constructor; [by trans c2 | by rewrite Hn3 | intros; by rewrite Hn3].
  - rewrite Hnode3, Hrem1. intros Hk0 Hlt. unfold c3. rewrite (proj2 (Z.ltb_lt k toSend)) by lia.
    cbn. by destruct (writing c2) eqn:Hw.
  - intros _ Hret. destruct (0 <? k) eqn:Hpos; bool_to_prop; [lia|]. unfold k, sys_count, kMaxSendBytes in *. lia.
  - rewrite Hnode3, Hrem1. intros Hle. unfold c3. rewrite (proj2 (Z.ltb_ge k toSend)) by lia. by rewrite <- Hwr1.
Qed.

(** [sendNodeInLoop]: a file reports [EAGAIN] as an error, the other nodes do not. *)
Lemma sendNode_spec ks id c n ks' c' :
  Forall healthy ks → (id < length (nodes c))%nat → node_ok (node_at c id) →
  sendNodeInLoop ks id c = (n, ks', c') →
  sent id c c' ∧ Forall healthy ks' ∧
  (0 ≤ n → 0 < remainingBytes (node_at c' id) → writing c = true ∨ node_fits (node_at c id) → writing c' = true) ∧
  (0 < remainingBytes (node_at c id) → isFile (node_at c id) = false ∨ 0 ≤ r_ret (next_reply ks) → 0 ≤ n) ∧
  (remainingBytes (node_at c' id) ≤ 0 → node_fits (node_at c id) → writing c' = writing c).
Proof.
  intros Hks Hid Hok. unfold sendNodeInLoop.
  destruct (node_at c id) as [d b|f|d cb b|d b] eqn:Hnode; intros Heq;
    try (rewrite <- Hnode in *; apply send_loop_spec in Heq as (Hs & Hn & Hk & Hf & Hp & He);
         [split_and!; auto | done | done | by rewrite Hnode | done]).
  destruct (send_file_node _ _ _ _) as [n0 c0] eqn:Hsf. injection Heq as <- <- <-.
  rewrite <- Hnode in *. rewrite Hnode in Hok.
  destruct (send_file_spec _ _ _ _ _ _ (healthy_next _ Hks) Hid Hnode Hok Hsf) as (Hs & Hp & Hnn & He).
  split_and!; auto; [by apply healthy_tail|]. rewrite Hnode in Hnn |- *. intros ? [|]; [done | auto].
Qed.

(** ** The abstract connection: what the calls asked for, in order

    A slot per call: the bytes of a [send], a file or a stream, and for an
    asynchronous stream, named by its node, all the bytes it was given so far.
    The peer is meant to receive the slots one after the other. *)

Notation slots := (list (option nat * list Z)) (only parsing).

Definition ordered_bytes (sp : slots) : list Z := sp ≫= snd.

Definition extend_slot (id : nat) (data : list Z) (sp : slots) : slots :=
  (λ s, if bool_decide (s.1 = Some id) then (s.1, s.2 ++ data) else s) <$> sp.

Definition ask_send (c : Conn) (data : list Z) (sp : slots) : slots :=
  if bool_decide (status_ c = Connected) then sp ++ [(None, data)] else sp.

Definition ask_task (c : Conn) (t : task) (sp : slots) : slots :=
  match t with
  | TSend data => ask_send c data sp
  | TNode id => sp ++ [(None, rest (node_at c id))]
  | TAsyncPush id _ => sp ++ [(Some id, rest (node_at c id))]
  | TAsyncData id (Some data) => extend_slot id data sp
  | _ => sp
  end.

(** What the list still holds. *)
Definition waiting (c : Conn) (ids : list nat) : list Z := ids ≫= λ id, rest (node_at c id).

(** Nodes that are in the list or that a queued function will put there. *)
Definition pushed_by (t : task) : list nat :=
  match t with TNode id | TAsyncPush id _ => [id] | _ => [] end.
Definition owned (c : Conn) : list nat := writeBufferList_ c ++ (funcs c ≫= pushed_by).

(** The invariant of the order. *)
Record in_order (c : Conn) (sp : slots) : Prop := {
  io_bytes : wire c ++ waiting c (writeBufferList_ c) = ordered_bytes sp;
  io_slots : ∀ pre id post, writeBufferList_ c = pre ++ id :: post → isAsync (node_at c id) = true →
    ∃ sp1 b sp2, sp = sp1 ++ (Some id, b) :: sp2 ∧
      ordered_bytes sp1 ++ b = wire c ++ waiting c (pre ++ [id]) ∧
      (∀ j, j ∈ pre → j ∉ omap fst sp2) ∧ (∀ j, j ∈ post → j ∉ omap fst sp1);
  io_nodup : base.NoDup (owned c);
  io_fresh : ∀ id, id ∈ owned c → (id < length (nodes c))%nat;
  io_ok : ∀ id, id ∈ owned c → node_ok (node_at c id);
  io_names : base.NoDup (omap fst sp);
  io_named : ∀ id, id ∈ omap fst sp →
    (id < length (nodes c))%nat ∧ id ∉ (funcs c ≫= pushed_by) ∧ isAsync (node_at c id) = true ∧
    (id ∈ writeBufferList_ c ∨ isDone (node_at c id) = true);
  io_streams : ∀ id d, TAsyncPush id d ∈ funcs c → isAsync (node_at c id) = true;
  io_plain : ∀ id, TNode id ∈ funcs c → isAsync (node_at c id) = false;
  io_open : ∀ id, isAsync (node_at c id) = true → isDone (node_at c id) = false → id ∈ owned c
}.

Lemma waiting_app c l1 l2 : waiting c (l1 ++ l2) = waiting c l1 ++ waiting c l2.
Proof. apply bind_app. Qed.

Lemma waiting_one c id : waiting c [id] = rest (node_at c id).
Proof. unfold waiting. cbn. by rewrite app_nil_r. Qed.

Lemma waiting_ext c c' ids : (∀ id, id ∈ ids → rest (node_at c' id) = rest (node_at c id)) → waiting c' ids = waiting c ids.
Proof.
  intros H. induction ids as [|id ids IH]; [done|]. unfold waiting in *. cbn. rewrite H by set_solver.
  f_equal. apply IH. intros j Hj. apply H. set_solver.
Qed.

Lemma ordered_app sp1 sp2 : ordered_bytes (sp1 ++ sp2) = ordered_bytes sp1 ++ ordered_bytes sp2.
Proof. apply bind_app. Qed.

(** A change of anything but the nodes, the list, the queue and the wire. *)
Definition same_output (c c' : Conn) : Prop :=
  nodes c' = nodes c ∧ writeBufferList_ c' = writeBufferList_ c ∧ funcs c' = funcs c ∧ wire c' = wire c.

Lemma io_same c c' sp : same_output c c' → in_order c sp → in_order c' sp.
Proof.
  intros (Hn & Hl & Hf & Hw) [].
  assert (Hnode : ∀ id, node_at c' id = node_at c id) by (intros; unfold node_at; by rewrite Hn).
  assert (Hwait : ∀ ids, waiting c' ids = waiting c ids) by (intros; apply waiting_ext; intros; by rewrite Hnode).
  assert (Ho : owned c' = owned c) by (unfold owned; by rewrite Hl, Hf).
  constructor; rewrite ?Ho, ?Hl, ?Hw, ?Hf, ?Hn; intros; rewrite ?Hwait, ?Hnode; eauto;
    rewrite Hnode in *; eauto.
Qed.

(** The kinds of the nodes, and which streams are finished, do not change. *)
Definition same_kinds (c c' : Conn) : Prop :=
  ∀ id, isAsync (node_at c' id) = isAsync (node_at c id) ∧
        (isAsync (node_at c id) = true → isDone (node_at c' id) = isDone (node_at c id)) ∧
        (node_ok (node_at c id) → node_ok (node_at c' id)).

Lemma sent_kinds id c c' : sent id c c' → same_kinds c c'.
Proof.
  intros [Hf _ Hok Ha Hd] j. destruct (decide (j = id)) as [->|Hj]; [done|].
  by rewrite (node_other id j c c').
Qed.

Ltac in_list := rewrite ?elem_of_app, ?elem_of_cons, ?elem_of_nil; intuition auto.

(** Bytes move between the list and the wire: the parts of the invariant about
    which nodes are where follow from the list and the queue being the same. *)
Lemma io_moved c c' sp :
  in_order c sp → writeBufferList_ c' = writeBufferList_ c → funcs c' = funcs c →
  length (nodes c') = length (nodes c) → same_kinds c c' →
  wire c' ++ waiting c' (writeBufferList_ c) = ordered_bytes sp →
  (∀ pre id post, writeBufferList_ c = pre ++ id :: post → isAsync (node_at c id) = true →
    wire c' ++ waiting c' (pre ++ [id]) = wire c ++ waiting c (pre ++ [id])) →
  in_order c' sp.
Proof.
  intros [] Hl Hf Hn Hk Hb Hs.
  assert (Ho : owned c' = owned c) by (unfold owned; by rewrite Hl, Hf).
  constructor; rewrite ?Ho, ?Hl, ?Hf, ?Hn; try done.
  - intros pre id post Heq Ha. rewrite (proj1 (Hk id)) in Ha.
    destruct (io_slots0 _ _ _ Heq Ha) as (sp1 & b & sp2 & -> & Hsp & H1 & H2). exists sp1, b, sp2. by rewrite (Hs _ _ _ Heq Ha).
  - intros id Hid. apply Hk, io_ok0, Hid.
  - intros id Hid. destruct (io_named0 id Hid) as (H1 & H2 & H3 & H4). destruct (Hk id) as (Ha & Hd & _).
    rewrite Ha, Hd by done. done.
  - intros id d Hid. rewrite (proj1 (Hk id)). eauto.
  - intros id Hid. rewrite (proj1 (Hk id)). eauto.
  - intros id Ha Hd. destruct (Hk id) as (Ha' & Hd' & _). rewrite Ha' in Ha. rewrite Hd' in Hd by done. eauto.
Qed.

Lemma nodup_list c : base.NoDup (owned c) → base.NoDup (writeBufferList_ c).
Proof. unfold owned. intros H. by apply list.NoDup_app in H as [? _]. Qed.

Lemma io_sent id l c c' sp :
  in_order c sp → writeBufferList_ c = id :: l → sent id c c' → in_order c' sp.
Proof.
  intros Hio Hl Hs. pose proof (s_frame _ _ _ Hs) as Hfr. pose proof (fr_quiet _ _ _ Hfr) as Hq.
  pose proof (nodup_list _ (io_nodup _ _ Hio)) as Hnd. rewrite Hl in Hnd. apply list.NoDup_cons in Hnd as [Hnin _].
  assert (Hpre : ∀ m, (∀ j, j ∈ m → j ≠ id) → wire c' ++ waiting c' (id :: m) = wire c ++ waiting c (id :: m)).
  { intros m Hm. change (id :: m) with ([id] ++ m). rewrite !waiting_app, !waiting_one, !app_assoc, (s_bytes _ _ _ Hs).
    f_equal. apply waiting_ext. intros j Hj. by rewrite (node_other id j c c') by (by auto). }
  apply (io_moved c c' sp); try done; [apply (q_list _ _ Hq) | apply (q_funcs _ _ Hq) | apply (fr_length _ _ _ Hfr)
    | by apply (sent_kinds id) | |].
  - rewrite Hl, Hpre by (intros j Hj ->; done). rewrite <- Hl. apply (io_bytes _ _ Hio).
  - rewrite Hl. intros [|j pre] x post Heq _; injection Heq as -> Heq; [by apply Hpre; by intros ? ?%elem_of_nil|].
    cbn [app]. apply Hpre. intros y Hy ->. apply Hnin. rewrite Heq. revert Hy. in_list.
Qed.

(** A finished node leaves the list. *)
Lemma io_pop id l c sp :
  in_order c sp → writeBufferList_ c = id :: l → rest (node_at c id) = [] →
  (isAsync (node_at c id) = true → isDone (node_at c id) = true) → in_order (set_list l c) sp.
Proof.
  intros [] Hl Hr Hd.
  assert (Hnode : ∀ j, node_at (set_list l c) j = node_at c j) by done.
  assert (Hw : ∀ m, waiting (set_list l c) m = waiting c m) by done.
  assert (Ho : owned c = id :: owned (set_list l c)) by (unfold owned; by rewrite Hl).
  assert (Hhead : ∀ m, waiting c (id :: m) = waiting c m) by (intros m; unfold waiting; cbn; by rewrite Hr).
  constructor; try done; cbn [writeBufferList_ set_list set_out funcs wire nodes].
  - rewrite Hw, <- Hhead, <- Hl. done.
  - intros pre j post -> Ha. rewrite Hw, <- Hhead. change (id :: pre ++ [j]) with ((id :: pre) ++ [j]).
    destruct (io_slots0 (id :: pre) j post) as (sp1 & b & sp2 & -> & Hsp & H1 & H2); [done | done |].
    exists sp1, b, sp2. split_and!; try done. intros x Hx. apply H1. by right.
  - rewrite Ho in io_nodup0. by apply list.NoDup_cons in io_nodup0 as [_ ?].
  - intros j Hj. apply io_fresh0. rewrite Ho. in_list.
  - intros j Hj. apply io_ok0. rewrite Ho. in_list.
  - intros j Hj. destruct (io_named0 j Hj) as (H1 & H2 & H3 & H4). split_and!; try done.
    rewrite Hl in H4. rewrite Hnode. destruct H4 as [H4|H4]; [|by right].
    apply elem_of_cons in H4 as [->|H4]; [right; auto | by left].
  - intros j Ha Hd'. rewrite Hnode in Ha, Hd'. pose proof (io_open0 j Ha Hd') as Hj. rewrite Ho in Hj.
    apply elem_of_cons in Hj as [->|Hj]; [rewrite Hd in Hd' by done; done | done].
Qed.

Definition tag (c : Conn) (id : nat) : option nat := if isAsync (node_at c id) then Some id else None.

(** A node joins the list: it was waiting in the queue, or it is new. *)
Lemma io_push id c c' sp :
  in_order c sp → writeBufferList_ c' = writeBufferList_ c ++ [id] → wire c' = wire c →
  (length (nodes c) ≤ length (nodes c'))%nat →
  (∀ j, (j < length (nodes c))%nat → node_at c' j = node_at c j) →
  (∀ j, isAsync (node_at c' j) = true → (j < length (nodes c))%nat ∨ j = id) →
  base.NoDup (owned c') → (∀ j, j ∈ owned c' → (j < length (nodes c'))%nat) →
  node_ok (node_at c' id) → (∀ j, j ∈ owned c → j ∈ owned c') → (∀ j, j ∈ owned c' → j ∈ owned c ∨ j = id) →
  (∀ t, t ∈ funcs c' → t ∈ funcs c) → id ∉ omap fst sp →
  in_order c' (sp ++ [(tag c' id, rest (node_at c' id))]).
Proof.
  intros Hio Hl Hw Hlen Hn Hnew Hnd Hfresh Hok Hsub Hsup Hfs Hid. pose proof Hio as [].
  assert (Hin : ∀ j, j ∈ writeBufferList_ c → (j < length (nodes c))%nat).
  { intros j Hj. apply io_fresh0. unfold owned. in_list. }
  assert (Hinq : ∀ t j, t ∈ funcs c' → j ∈ pushed_by t → (j < length (nodes c))%nat).
  { intros t j Ht Hj. apply io_fresh0. unfold owned. apply elem_of_app. right. apply list_elem_of_bind. eauto. }
  assert (Hwait : ∀ m, (∀ j, j ∈ m → j ∈ writeBufferList_ c) → waiting c' m = waiting c m).
  { intros m Hm. apply waiting_ext. intros j Hj. by rewrite Hn by auto. }
  assert (Hpush : ∀ j, j ∈ (funcs c' ≫= pushed_by) → j ∈ (funcs c ≫= pushed_by)).
  { intros j. rewrite !list_elem_of_bind. intros (t & Ht & Htf). exists t. auto. }
  assert (Hnotq : id ∉ (funcs c' ≫= pushed_by)).
  { unfold owned in Hnd. rewrite Hl, <- app_assoc in Hnd. apply list.NoDup_app in Hnd as (_ & _ & Hnd).
    by apply list.NoDup_cons in Hnd as [? _]. }
  assert (Hnotin : id ∉ writeBufferList_ c).
  { unfold owned in Hnd. rewrite Hl, <- app_assoc in Hnd. apply list.NoDup_app in Hnd as (_ & Hnd & _).
    intros Hx. apply (Hnd id Hx). cbn. in_list. }
  constructor; try done; rewrite ?Hl, ?Hw.
  - rewrite waiting_app, waiting_one, ordered_app, <- io_bytes0, (Hwait (writeBufferList_ c)), app_assoc by done.
    unfold ordered_bytes. cbn. by rewrite app_nil_r.
  - intros pre j post Heq Ha. destruct post as [|k post] using rev_ind.
    + apply app_inj_tail in Heq as [<- <-]. exists sp, (rest (node_at c' id)), []. split; [unfold tag; by rewrite Ha|].
      rewrite waiting_app, waiting_one, <- io_bytes0, (Hwait (writeBufferList_ c)), app_assoc by done.
      split_and!; [done | by intros ? _ ?%elem_of_nil | by intros ? ?%elem_of_nil].
    + rewrite app_comm_cons, app_assoc in Heq. apply app_inj_tail in Heq as [Heq <-].
      assert (Hj : j ∈ writeBufferList_ c) by (rewrite Heq; in_list).
      rewrite Hn in Ha by auto. destruct (io_slots0 _ _ _ Heq Ha) as (sp1 & b & sp2 & -> & Hsp & Hpre & Hpost).
      exists sp1, b, (sp2 ++ [(tag c' id, rest (node_at c' id))]). rewrite <- app_assoc. split; [done|].
      rewrite Hsp, Hwait; [|intros x Hx; rewrite Heq; revert Hx; in_list]. split_and!; [done | |].
      * intros x Hx. rewrite omap_app, not_elem_of_app. split; [auto|]. unfold tag. cbn.
        destruct (isAsync (node_at c' id)); cbn; [|by intros ?%elem_of_nil]. intros ->%list_elem_of_singleton.
        apply Hnotin. rewrite Heq. in_list.
      * intros x. rewrite elem_of_app. intros [Hx| ->%list_elem_of_singleton]; [auto|].
        intros Hx. apply Hid. rewrite omap_app, elem_of_app. by left.
  - intros j Hj. destruct (Hsup j Hj) as [Ho | ->]; [|done]. rewrite Hn by auto. by apply io_ok0.
  - rewrite omap_app. apply list.NoDup_app. split; [done|]. unfold tag. cbn. destruct (isAsync _); cbn; [|split; [by intros ? ? ?%elem_of_nil | by apply list.NoDup_nil]].
    split; [by intros j Hj ->%list_elem_of_singleton | apply list.NoDup_singleton].
  - intros j Hj. rewrite omap_app in Hj. apply elem_of_app in Hj as [Hj|Hj].
    + destruct (io_named0 j Hj) as (H1 & H2 & H3 & H4). rewrite Hn by done. split_and!; [lia | auto | done |].
      destruct H4 as [H4|H4]; [left; in_list | by right].
    + unfold tag in Hj. cbn in Hj. destruct (isAsync (node_at c' id)) eqn:Ha; cbn in Hj; [|by apply elem_of_nil in Hj].
      apply list_elem_of_singleton in Hj as ->. split_and!; [|done | done | left; in_list].
      apply Hfresh. unfold owned. rewrite Hl. in_list.
  - intros j d Hj. rewrite Hn by (apply (Hinq _ j Hj), elem_of_cons; by left). eauto.
  - intros j Hj. rewrite Hn by (apply (Hinq _ j Hj), elem_of_cons; by left). eauto.
  - intros j Ha Hd. destruct (Hnew j Ha) as [Hj| ->]; [|unfold owned; rewrite Hl; in_list].
    rewrite Hn in Ha, Hd by done. auto.
Qed.

Lemma io_push_queued id t ts c sp :
  in_order c sp → funcs c = t :: ts → pushed_by t = [id] →
  in_order (push_back id (set_funcs ts c)) (sp ++ [(tag c id, rest (node_at c id))]).
Proof.
  intros Hio Hf Ht. pose proof Hio as [].
  assert (Hid : id ∈ (funcs c ≫= pushed_by)) by (rewrite Hf; cbn; rewrite Ht; in_list).
  assert (Hown : owned c = writeBufferList_ c ++ id :: (ts ≫= pushed_by)) by (unfold owned; rewrite Hf; cbn; by rewrite Ht).
  assert (Hown' : owned (push_back id (set_funcs ts c)) = owned c) by (rewrite Hown; unfold owned; cbn; by rewrite <- app_assoc).
  change (tag c id) with (tag (push_back id (set_funcs ts c)) id).
  change (rest (node_at c id)) with (rest (node_at (push_back id (set_funcs ts c)) id)).
  apply (io_push id c); rewrite ?Hown'; try done; auto.
  - intros j Ha. left. destruct (decide (j < length (nodes c))%nat); [done|]. exfalso.
    unfold node_at in Ha. cbn in Ha. rewrite lookup_ge_None_2 in Ha by lia. done.
  - apply io_ok0. unfold owned. in_list.
  - intros x Hx. rewrite Hf. by right.
  - intros Hn. by apply io_named0 in Hn as (_ & ? & _).
Qed.

Lemma node_at_alloc n c j :
  (j < length (nodes c))%nat → node_at (snd (alloc n c)) j = node_at c j.
Proof. intros. unfold node_at. cbn. by rewrite lookup_app_l. Qed.

Lemma node_at_new n c : node_at (snd (alloc n c)) (length (nodes c)) = n.
Proof. unfold node_at. cbn. by rewrite list_lookup_middle. Qed.

Lemma async_bound c j : isAsync (node_at c j) = true → (j < length (nodes c))%nat.
Proof.
  unfold node_at. destruct (nodes c !! j) eqn:Hj; [|done]. intros _. by apply lookup_lt_Some in Hj.
Qed.

Lemma tag_new n c :
  tag (push_back (length (nodes c)) (snd (alloc n c))) (length (nodes c)) =
    if isAsync n then Some (length (nodes c)) else None.
Proof. unfold tag. change (node_at (push_back _ ?x) ?j) with (node_at x j). by rewrite node_at_new. Qed.

Lemma io_push_new n c sp :
  let id := length (nodes c) in
  let c' := push_back id (snd (alloc n c)) in
  in_order c sp → node_ok n → in_order c' (sp ++ [(tag c' id, rest n)]).
Proof.
  intros id c' Hio Hok. pose proof Hio as [].
  assert (Hn : node_at c' id = n) by apply (node_at_new n c).
  assert (Hlen : length (nodes c') = S (length (nodes c))) by (cbn; rewrite length_app; cbn; lia).
  assert (Hown : ∀ j, j ∈ owned c' ↔ j ∈ owned c ∨ j = id) by (intros j; unfold owned; cbn; in_list).
  assert (Hr : rest n = rest (node_at c' id)) by (by rewrite Hn). rewrite Hr. apply (io_push id c c' sp); try done.
  - lia.
  - apply (node_at_alloc n c).
  - intros j Ha%async_bound. unfold id. lia.
  - unfold owned. cbn. rewrite <- app_assoc. apply list.NoDup_app. unfold owned in io_nodup0.
    apply list.NoDup_app in io_nodup0 as (H1 & H2 & H3). split; [done|]. cbn. split.
    + intros x Hx. rewrite elem_of_cons. intros [-> | Hq]; [|by apply (H2 x)].
      assert (id < length (nodes c))%nat by (apply io_fresh0; unfold owned; in_list). unfold id in *. lia.
    + apply list.NoDup_cons. split; [|done]. intros Hq.
      assert (id < length (nodes c))%nat by (apply io_fresh0; unfold owned; in_list). unfold id in *. lia.
  - intros j [Hj| ->]%Hown; [apply io_fresh0 in Hj; lia | rewrite Hlen; unfold id; lia].
  - by rewrite Hn.
  - intros j Hj. apply Hown. by left.
  - intros j Hj. by apply Hown.
  - intros Hj. apply io_named0 in Hj as (Hj & _). unfold id in Hj. lia.
Qed.

Lemma io_queue t c sp : in_order c sp → pushed_by t = [] → in_order (queueInLoop t c) sp.
Proof.
  intros [] Ht.
  assert (Ho : owned (queueInLoop t c) = owned c) by (unfold owned; cbn; rewrite bind_app; cbn; by rewrite Ht, !app_nil_r).
  constructor; rewrite ?Ho; try done.
  - intros id Hid. destruct (io_named0 id Hid) as (H1 & H2 & H3 & H4). split_and!; try done. cbn. rewrite bind_app. cbn.
    by rewrite Ht, app_nil_r.
  - intros id d Hid. cbn in Hid. apply elem_of_app in Hid as [Hid|Hid]; [by apply (io_streams0 _ d)|].
    apply list_elem_of_singleton in Hid as <-. done.
  - intros id Hid. cbn in Hid. apply elem_of_app in Hid as [Hid|Hid]; [by apply io_plain0|].
    apply list_elem_of_singleton in Hid as <-. done.
Qed.

Lemma io_dequeue t ts c sp : in_order c sp → funcs c = t :: ts → pushed_by t = [] → in_order (set_funcs ts c) sp.
Proof.
  intros [] Hf Ht. unfold owned in *. rewrite Hf in *. cbn in *. rewrite Ht in *. cbn in *.
  constructor; try done; unfold owned; cbn.
  - intros id d Hid. apply (io_streams0 id d). by right.
  - intros id Hid. apply io_plain0. by right.
Qed.

Lemma io_queue_new n t c sp :
  let id := length (nodes c) in
  in_order c sp → node_ok n →
  (t = TNode id ∧ isAsync n = false) ∨ (∃ d, t = TAsyncPush id d ∧ isAsync n = true) →
  in_order (queueInLoop t (snd (alloc n c))) sp.
Proof.
  intros id [] Hok Ht. set (c' := queueInLoop t _).
  assert (Hp : pushed_by t = [id]) by (by destruct Ht as [[-> _]|(d & -> & _)]).
  assert (Hn : node_at c' id = n) by apply (node_at_new n c).
  assert (Hold : ∀ j, (j < length (nodes c))%nat → node_at c' j = node_at c j) by apply (node_at_alloc n c).
  assert (Hlen : length (nodes c') = S (length (nodes c))) by (cbn; rewrite length_app; cbn; lia).
  assert (Hq : funcs c' ≫= pushed_by = (funcs c ≫= pushed_by) ++ [id]) by (cbn; rewrite bind_app; cbn; by rewrite Hp).
  assert (Hown : owned c' = owned c ++ [id]) by (unfold owned; rewrite Hq; cbn; by rewrite app_assoc).
  assert (Hid : id ∉ owned c) by (intros Hx; apply io_fresh0 in Hx; unfold id in Hx; lia).
  assert (Hlist : ∀ j, j ∈ writeBufferList_ c → (j < length (nodes c))%nat).
  { intros j Hj. apply io_fresh0. unfold owned. in_list. }
  assert (Hwait : ∀ m, (∀ j, j ∈ m → j ∈ writeBufferList_ c) → waiting c' m = waiting c m).
  { intros m Hm. apply waiting_ext. intros j Hj. by rewrite Hold by auto. }
  assert (Hqd : ∀ u j, u ∈ funcs c → j ∈ pushed_by u → (j < length (nodes c))%nat).
  { intros u j Hu Hj. apply io_fresh0. unfold owned. apply elem_of_app. right. apply list_elem_of_bind. eauto. }
  constructor; try done; rewrite ?Hown, ?Hlen.
  - change (wire c') with (wire c). change (writeBufferList_ c') with (writeBufferList_ c). by rewrite Hwait.
  - change (writeBufferList_ c') with (writeBufferList_ c). intros pre j post Heq Ha.
    rewrite Hold in Ha by (apply Hlist; rewrite Heq; in_list).
    rewrite Hwait by (intros x; rewrite Heq, !elem_of_app, !elem_of_cons, elem_of_nil; tauto). eauto.
  - apply list.NoDup_app. split; [done|]. split; [|apply list.NoDup_singleton].
    by intros x Hx ->%list_elem_of_singleton.
  - intros j. rewrite elem_of_app. intros [Hj| ->%list_elem_of_singleton]; [apply io_fresh0 in Hj; lia | unfold id; lia].
  - intros j. rewrite elem_of_app. intros [Hj| ->%list_elem_of_singleton]; [|by rewrite Hn].
    rewrite Hold by auto. auto.
  - intros j Hj. destruct (io_named0 j Hj) as (H1 & H2 & H3 & H4). rewrite Hq, Hold by done. split_and!; try done; [lia|].
    rewrite elem_of_app. intros [?| ->%list_elem_of_singleton]; [done | unfold id in H1; lia].
  - cbn. intros j d. rewrite elem_of_app. intros [Hj|Hj%list_elem_of_singleton].
    + rewrite Hold by (apply (Hqd _ j Hj), elem_of_cons; by left). eauto.
    + destruct Ht as [[-> _]|(d' & -> & Ha)]; [done|]. injection Hj as -> _. by rewrite Hn.
  - cbn. intros j. rewrite elem_of_app. intros [Hj|Hj%list_elem_of_singleton].
    + rewrite Hold by (apply (Hqd _ j Hj), elem_of_cons; by left). eauto.
    + destruct Ht as [[-> Ha]|(d' & -> & Ha)]; [|done]. injection Hj as ->. by rewrite Hn.
  - intros j Ha Hd. pose proof (async_bound _ _ Ha) as Hb. rewrite Hlen in Hb. rewrite elem_of_app.
    destruct (decide (j = id)) as [->|Hj]; [right; by apply list_elem_of_singleton|].
    left. unfold id in Hj. rewrite Hold in Ha, Hd by lia. auto.
Qed.

(** Sending a node that is about to join an empty list, then joining it or not. *)
Lemma sent_push id c c1 : sent id c c1 → sent id (push_back id c) (push_back id c1).
Proof.
  intros [[[] Hn Ho] Hb Hok Ha Hd]. constructor; try done. constructor; try done. constructor; try done.
  cbn. by rewrite q_list0.
Qed.

Lemma io_direct id c c1 sp :
  in_order (push_back id c) sp → writeBufferList_ c = [] → sent id c c1 → in_order (push_back id c1) sp.
Proof.
  intros Hio Hl Hs. apply (io_sent id [] (push_back id c)); [done | by cbn; rewrite Hl | by apply sent_push].
Qed.

Lemma io_unpush id c sp :
  in_order (push_back id c) sp → writeBufferList_ c = [] → rest (node_at c id) = [] →
  (isAsync (node_at c id) = true → isDone (node_at c id) = true) → in_order c sp.
Proof.
  intros Hio Hl Hr Hd. apply (io_same (set_list [] (push_back id c))).
  - by unfold same_output; cbn; rewrite Hl.
  - apply (io_pop id); try done. cbn. by rewrite Hl.
Qed.

(** Bytes that go straight to the wire while nothing waits. *)
Lemma io_wrote bs c c' sp :
  in_order c sp → writeBufferList_ c = [] → quiet c c' → nodes c' = nodes c → wire c' = wire c ++ bs →
  in_order c' (sp ++ [(None, bs)]).
Proof.
  intros Hio Hl Hq Hn Hw. pose proof Hio as [].
  assert (Hl' : writeBufferList_ c' = []) by (by rewrite (q_list _ _ Hq)).
  assert (Hnode : ∀ id, node_at c' id = node_at c id) by (intros; unfold node_at; by rewrite Hn).
  assert (Ho : owned c' = owned c) by (unfold owned; by rewrite Hl', Hl, (q_funcs _ _ Hq)).
  assert (Hom : omap fst (sp ++ [(None, bs)]) = omap fst sp) by (rewrite omap_app; cbn; by rewrite app_nil_r).
  constructor; rewrite ?Ho, ?Hl', ?Hn, ?(q_funcs _ _ Hq), ?Hom; try done.
  - rewrite Hl in io_bytes0. rewrite Hw, ordered_app, <- io_bytes0. cbn. unfold ordered_bytes. cbn. by rewrite !app_nil_r.
  - intros [] ? ? ?; done.
  - intros id Hid. rewrite Hnode. auto.
  - intros id Hid. rewrite Hnode. rewrite <- Hl. auto.
  - intros id d Hid. rewrite Hnode. eauto.
  - intros id Hid. rewrite Hnode. eauto.
  - intros id. rewrite Hnode. eauto.
Qed.

(** How plain bytes at the end are cut into slots does not matter. *)
Definition plain (bss : list (list Z)) : slots := (λ bs, (None, bs)) <$> bss.

Lemma plain_bytes bss : ordered_bytes (plain bss) = concat bss.
Proof. induction bss as [|bs bss IH]; [done|]. unfold ordered_bytes, plain in *. cbn. by rewrite IH. Qed.

Lemma plain_names sp bss : omap fst (sp ++ plain bss) = omap fst sp.
Proof. rewrite omap_app. induction bss; [cbn; by rewrite app_nil_r | done]. Qed.

Lemma plain_split sp bss sp1 id b sp2 :
  sp ++ plain bss = sp1 ++ (Some id, b) :: sp2 →
  ∃ sp2', sp = sp1 ++ (Some id, b) :: sp2' ∧ sp2 = sp2' ++ plain bss.
Proof.
  revert sp2. induction bss as [|bs bss IH] using rev_ind; intros sp2 Heq.
  - exists sp2. cbn in *. by rewrite !app_nil_r in *.
  - unfold plain in *. rewrite fmap_app, app_assoc in Heq. destruct sp2 as [|s sp2 _] using rev_ind.
    + by apply app_inj_tail in Heq as [_ ?].
    + rewrite app_comm_cons, app_assoc in Heq. apply app_inj_tail in Heq as [Heq <-].
      destruct (IH _ Heq) as (sp2' & -> & ->). exists sp2'. by rewrite fmap_app, app_assoc.
Qed.

Lemma io_plain_slots c sp bss bss' :
  in_order c (sp ++ plain bss) → concat bss = concat bss' → in_order c (sp ++ plain bss').
Proof.
  intros [] Heq. rewrite plain_names in *. constructor; rewrite ?plain_names; try done.
  - by rewrite io_bytes0, !ordered_app, !plain_bytes, Heq.
  - intros pre id post Hl Ha. destruct (io_slots0 _ _ _ Hl Ha) as (sp1 & x & sp2 & Hsp & H1 & H2 & H3).
    apply plain_split in Hsp as (sp2' & -> & ->). exists sp1, x, (sp2' ++ plain bss'). rewrite <- app_assoc.
    split_and!; try done. intros j Hj. specialize (H2 j Hj). by rewrite plain_names in *.
Qed.

Lemma put_kinds id n c :
  (id < length (nodes c))%nat → isAsync n = isAsync (node_at c id) →
  (isAsync (node_at c id) = true → isDone n = isDone (node_at c id)) → (node_ok (node_at c id) → node_ok n) →
  same_kinds c (put_node id n c).
Proof.
  intros Hid Ha Hd Hok j. destruct (decide (j = id)) as [->|Hj]; [by rewrite node_put|].
  by rewrite (node_other id j c) by (done || apply frame_put).
Qed.

Lemma owned_node id c sp : in_order c sp → id ∈ writeBufferList_ c → (id < length (nodes c))%nat.
Proof. intros [] Hid. apply io_fresh0. unfold owned. in_list. Qed.

(** The last node in memory takes more bytes. *)
Lemma io_append_last l id b more c sp :
  in_order c sp → writeBufferList_ c = l ++ [id] → node_at c id = MemBufferNode false b →
  in_order (put_node id (MemBufferNode false (b ++ more)) c) (sp ++ [(None, more)]).
Proof.
  intros Hio Hl Hm. set (c' := put_node id _ c). pose proof Hio as [].
  assert (Hid : (id < length (nodes c))%nat) by (apply (owned_node id c sp); [done | rewrite Hl; in_list]).
  assert (Hk : same_kinds c c') by (apply put_kinds; by rewrite ?Hm).
  assert (Hnot : id ∉ l).
  { pose proof (nodup_list _ io_nodup0) as Hnd. rewrite Hl in Hnd. apply list.NoDup_app in Hnd as (_ & Hnd & _).
    intros Hx. apply (Hnd id Hx). in_list. }
  assert (Hwait : ∀ m, id ∉ m → waiting c' m = waiting c m).
  { intros m Hx. apply waiting_ext. intros j Hj. by rewrite (node_other id j c c') by (apply frame_put || congruence). }
  assert (Hom : omap fst (sp ++ [(None, more)]) = omap fst sp) by (rewrite omap_app; cbn; by rewrite app_nil_r).
  change (owned c') with (owned c) in *.
  constructor; rewrite ?Hom; change (owned c') with (owned c); try done.
  - change (wire c') with (wire c). change (writeBufferList_ c') with (writeBufferList_ c).
    rewrite ordered_app, <- io_bytes0, Hl, !waiting_app, !waiting_one, Hwait, Hm by done.
    unfold c'. rewrite node_put by done. unfold ordered_bytes. cbn. by rewrite app_nil_r, !app_assoc.
  - change (writeBufferList_ c') with (writeBufferList_ c). intros pre j post Heq Ha.
    rewrite (proj1 (Hk j)) in Ha. destruct (io_slots0 _ _ _ Heq Ha) as (sp1 & x & sp2 & -> & H1 & H2 & H3).
    exists sp1, x, (sp2 ++ [(None, more)]). rewrite <- app_assoc. split_and!; try done.
    + rewrite Hwait; [done|]. rewrite Hl in Heq. destruct post as [|y post _] using rev_ind.
      * apply app_inj_tail in Heq as [_ <-]. by rewrite Hm in Ha.
      * rewrite app_comm_cons, app_assoc in Heq. apply app_inj_tail in Heq as [-> _]. intros Hx. apply Hnot.
        revert Hx. rewrite !elem_of_app, !elem_of_cons, elem_of_nil. tauto.
    + intros y Hy. rewrite omap_app. cbn. rewrite app_nil_r. auto.
  - intros j Hj. cbn. rewrite length_insert. auto.
  - intros j Hj. apply Hk. auto.
  - intros j Hj. destruct (io_named0 j Hj) as (H1 & H2 & H3 & H4), (Hk j) as (Ha & Hd & _). rewrite Ha, Hd by done.
    split_and!; try done. cbn. by rewrite length_insert.
  - intros j d Hj. rewrite (proj1 (Hk j)). eauto.
  - intros j Hj. rewrite (proj1 (Hk j)). eauto.
  - intros j Ha Hd. destruct (Hk j) as (Ha' & Hd' & _). rewrite Ha' in Ha. rewrite Hd' in Hd by done. auto.
Qed.

Lemma extend_slot_app id data sp1 sp2 :
  extend_slot id data (sp1 ++ sp2) = extend_slot id data sp1 ++ extend_slot id data sp2.
Proof. apply fmap_app. Qed.

Lemma extend_slot_names id data sp : omap fst (extend_slot id data sp) = omap fst sp.
Proof.
  unfold extend_slot. induction sp as [|[o b] sp IH]; [done|]. cbn. unfold fmap, omap in *.
  case_bool_decide; cbn; by rewrite IH.
Qed.

Lemma extend_slot_other id data sp : id ∉ omap fst sp → extend_slot id data sp = sp.
Proof.
  induction sp as [|[o b] sp IH]; [done|]. cbn. intros Hid. case_bool_decide as Ho; cbn in Ho.
  - subst. exfalso. apply Hid. cbn. by left.
  - f_equal. apply IH. intros Hx. apply Hid. destruct o; cbn; [by right | done].
Qed.

Lemma extend_slot_at id data sp1 b sp2 :
  id ∉ omap fst sp1 → id ∉ omap fst sp2 →
  extend_slot id data (sp1 ++ (Some id, b) :: sp2) = sp1 ++ (Some id, b ++ data) :: sp2.
Proof.
  intros H1 H2. rewrite extend_slot_app, (extend_slot_other _ _ sp1) by done. cbn.
  rewrite bool_decide_true by done. f_equal. f_equal. by apply extend_slot_other.
Qed.

(** The first element with a property splits a list in one way. *)
Lemma first_split {A} (P : A → Prop) (l1 l1' l2 l2' : list A) a a' :
  l1 ++ a :: l2 = l1' ++ a' :: l2' → P a → P a' → (∀ x, x ∈ l1 → ¬ P x) → (∀ x, x ∈ l1' → ¬ P x) →
  l1 = l1' ∧ a = a' ∧ l2 = l2'.
Proof.
  revert l1'. induction l1 as [|x l1 IH]; intros [|y l1'] Heq Ha Ha' H1 H1'; cbn in Heq; injection Heq as Hh Ht; subst.
  - done.
  - exfalso. apply (H1' y); [in_list | done].
  - exfalso. apply (H1 a'); [in_list | done].
  - destruct (IH l1' Ht) as (-> & -> & ->); try done; intros z Hz; [apply H1 | apply H1']; by right.
Qed.

Lemma not_named (id : nat) (sp : slots) x : id ∉ omap fst sp → x ∈ sp → ¬ (x.1 = Some id).
Proof. intros H Hx Hk. apply H. apply list_elem_of_omap. by exists x. Qed.

(** An open stream in the list is given [data]: its slot grows. *)
Section Extend.
Context (id : nat) (data : list Z) (pre post : list nat) (c c' : Conn) (sp : slots).
Hypothesis Hio : in_order c sp.
Hypothesis Hl : writeBufferList_ c = pre ++ id :: post.
Hypothesis Ha : isAsync (node_at c id) = true.
Hypothesis Hfr : frame id c c'.
Hypothesis Hk : same_kinds c c'.
Hypothesis Hb : wire c' ++ waiting c' (pre ++ [id]) = wire c ++ waiting c (pre ++ [id]) ++ data.
Hypothesis Hw : pre ≠ [] → wire c' = wire c.

Lemma nodup_pivot {A} (l1 l2 : list A) x : base.NoDup (l1 ++ x :: l2) → x ∉ l1 ∧ x ∉ l2.
Proof.
  intros (_ & H1 & H2)%list.NoDup_app. apply list.NoDup_cons in H2 as [? _]. split; [|done].
  intros Hx. apply (H1 x Hx). in_list.
Qed.

Lemma extend_wait m : id ∉ m → waiting c' m = waiting c m.
Proof.
  intros Hx. apply waiting_ext. intros j Hj. by rewrite (node_other id j c c') by (done || congruence).
Qed.

(** The stream stands at one place. *)
Lemma extend_place pre' post' : writeBufferList_ c = pre' ++ id :: post' → pre' = pre ∧ post' = post.
Proof.
  intros Heq. pose proof (nodup_list _ (io_nodup _ _ Hio)) as Hnd.
  assert (Hp' : id ∉ pre') by (rewrite Heq in Hnd; by apply nodup_pivot in Hnd as [? _]).
  assert (Hp : id ∉ pre) by (rewrite Hl in Hnd; by apply nodup_pivot in Hnd as [? _]).
  rewrite Hl in Heq. destruct (first_split (λ x, x = id) _ _ _ _ _ _ Heq) as (-> & _ & ->); try done;
    intros x Hx ->; done.
Qed.

(** One slot has the stream's name. *)
Lemma extend_slot_unique s1 b1 s2 :
  sp = s1 ++ (Some id, b1) :: s2 →
  id ∉ omap fst s1 ∧ id ∉ omap fst s2 ∧ extend_slot id data sp = s1 ++ (Some id, b1 ++ data) :: s2 ∧
  ordered_bytes s1 ++ b1 = wire c ++ waiting c (pre ++ [id]).
Proof.
  intros Hs. pose proof (io_names _ _ Hio) as Hn. rewrite Hs, omap_app in Hn. cbn in Hn.
  apply nodup_pivot in Hn as [H1 H2]. split_and!; try done; [rewrite Hs; by apply extend_slot_at|].
  destruct (io_slots _ _ Hio _ _ _ Hl Ha) as (sp1 & b & sp2 & Hsp & Hb1 & _).
  pose proof (io_names _ _ Hio) as Hn. rewrite Hsp, omap_app in Hn. cbn in Hn. apply nodup_pivot in Hn as [H3 _].
  rewrite Hs in Hsp. destruct (first_split (λ s, s.1 = Some id) _ _ _ _ _ _ Hsp) as (-> & [= ->] & _); try done.
  - intros x Hx. by apply (not_named _ s1).
  - intros x Hx. by apply (not_named _ sp1).
Qed.

(** A stream [j] behind it. *)
Lemma extend_behind m j sa bj sb :
  base.NoDup (pre ++ id :: m ++ [j]) → sp = sa ++ (Some j, bj) :: sb → j ≠ id → id ∉ omap fst sb →
  ordered_bytes sa ++ bj = wire c ++ waiting c ((pre ++ id :: m) ++ [j]) →
  ordered_bytes (extend_slot id data sa) ++ bj = wire c' ++ waiting c' ((pre ++ id :: m) ++ [j]).
Proof.
  intros Hnd Hsp Hj Hidb Hbj. apply nodup_pivot in Hnd as [_ Hnd].
  assert (Hida : id ∈ omap fst sa).
  { destruct (io_slots _ _ Hio _ _ _ Hl Ha) as (sp1 & b & sp2 & Hsp1 & _).
    assert (Hx : id ∈ omap fst sp) by (rewrite Hsp1, omap_app; cbn; in_list).
    rewrite Hsp, omap_app in Hx. cbn in Hx. rewrite elem_of_app, elem_of_cons in Hx.
    destruct Hx as [?|[?|?]]; [done | congruence | done]. }
  apply list_elem_of_omap in Hida as ([k b1] & Hk' & Hki). cbn in Hki. subst k.
  apply list_elem_of_split in Hk' as (s1 & s2 & ->). rewrite <- app_assoc in Hsp. cbn in Hsp.
  destruct (extend_slot_unique _ _ _ Hsp) as (H1 & H2 & _ & Hb1).
  rewrite extend_slot_at by (done || rewrite omap_app in H2; intros Hx; apply H2; apply elem_of_app; by left).
  assert (Hsw : ∀ x, waiting x ((pre ++ id :: m) ++ [j]) = waiting x (pre ++ [id]) ++ waiting x (m ++ [j])).
  { intros x. rewrite <- waiting_app. f_equal. by rewrite <- !app_assoc. }
  rewrite Hsw in Hbj |- *. rewrite app_assoc, <- Hb1, ordered_app in Hbj. rewrite app_assoc, Hb.
  unfold ordered_bytes at 2 in Hbj. cbn in Hbj. fold (ordered_bytes s2) in Hbj.
  rewrite ordered_app. unfold ordered_bytes at 2. cbn. fold (ordered_bytes s2).
  rewrite (app_assoc (wire c)), <- Hb1, extend_wait by done.
  rewrite <- !app_assoc in *. do 2 apply app_inv_head in Hbj. by rewrite Hbj.
Qed.

(** Where the end of every stream in the list stands. *)
Lemma extend_slots pre' j post' :
  writeBufferList_ c = pre' ++ j :: post' → isAsync (node_at c' j) = true →
  ∃ sp1 b sp2, extend_slot id data sp = sp1 ++ (Some j, b) :: sp2 ∧
    ordered_bytes sp1 ++ b = wire c' ++ waiting c' (pre' ++ [j]) ∧
    (∀ x, x ∈ pre' → x ∉ omap fst sp2) ∧ (∀ x, x ∈ post' → x ∉ omap fst sp1).
Proof.
  intros Heq Haj. rewrite (proj1 (Hk j)) in Haj.
  destruct (io_slots _ _ Hio _ _ _ Heq Haj) as (sa & bj & sb & Hsp & Hbj & Hpre & Hpost).
  destruct (decide (j = id)) as [->|Hj].
  { destruct (extend_place _ _ Heq) as [-> ->]. destruct (extend_slot_unique _ _ _ Hsp) as (_ & _ & -> & _).
    exists sa, (bj ++ data), sb. split_and!; try done. by rewrite Hb, !app_assoc, Hbj. }
  exists (extend_slot id data sa), bj, (extend_slot id data sb). rewrite !extend_slot_names. split_and!; try done.
  { rewrite Hsp, extend_slot_app. cbn. by rewrite bool_decide_false by (cbn; congruence). }
  destruct (decide (id ∈ pre')) as [Hin|Hin].
  - apply list_elem_of_split in Hin as (pr & m & ->). rewrite <- app_assoc in Heq. cbn in Heq.
    destruct (extend_place _ _ Heq) as [-> _]. apply (extend_behind m j sa bj sb); try done; [|apply Hpre; in_list].
    pose proof (nodup_list _ (io_nodup _ _ Hio)) as Hnd. rewrite Heq in Hnd.
    change (m ++ j :: post') with (m ++ [j] ++ post') in Hnd. rewrite app_assoc, app_comm_cons, app_assoc in Hnd.
    by apply list.NoDup_app in Hnd as [? _].
  - assert (Hx : id ∈ writeBufferList_ c) by (rewrite Hl; in_list). rewrite Heq, elem_of_app, elem_of_cons in Hx.
    destruct Hx as [?|[?|Hx]]; [done | congruence |].
    rewrite extend_slot_other by auto. rewrite Hbj, extend_wait, Hw; [done | |].
    + intros Hp. rewrite Hp in Hl. cbn in Hl. rewrite Hl in Heq. destruct pre' as [|y pre']; cbn in Heq; injection Heq; [congruence|].
      intros _ ->. apply Hin. by left.
    + rewrite elem_of_app, list_elem_of_singleton. intros [?|?]; [done | congruence].
Qed.

Lemma extend_total : wire c' ++ waiting c' (writeBufferList_ c) = ordered_bytes (extend_slot id data sp).
Proof.
  destruct (io_slots _ _ Hio _ _ _ Hl Ha) as (sp1 & b & sp2 & Hsp & Hb1 & _).
  destruct (extend_slot_unique _ _ _ Hsp) as (_ & _ & -> & _).
  assert (Hpost : id ∉ post).
  { pose proof (nodup_list _ (io_nodup _ _ Hio)) as Hnd. rewrite Hl in Hnd. by apply nodup_pivot in Hnd as [_ ?]. }
  assert (Hcut : ∀ x, waiting x (pre ++ id :: post) = waiting x (pre ++ [id]) ++ waiting x post).
  { intros x. rewrite <- waiting_app. f_equal. by rewrite <- app_assoc. }
  pose proof (io_bytes _ _ Hio) as Hall. rewrite Hl in Hall |- *. rewrite Hcut in Hall |- *.
  rewrite app_assoc, Hb, extend_wait by done. rewrite app_assoc, <- Hb1, Hsp, ordered_app in Hall.
  unfold ordered_bytes at 3 in Hall. cbn in Hall. fold (ordered_bytes sp2) in Hall.
  rewrite ordered_app. unfold ordered_bytes at 2. cbn. fold (ordered_bytes sp2).
  rewrite (app_assoc (wire c)), <- Hb1, <- !app_assoc in *. do 2 apply app_inv_head in Hall. by rewrite Hall.
Qed.

Lemma io_extend : in_order c' (extend_slot id data sp).
Proof.
  pose proof (fr_quiet _ _ _ Hfr) as Hq. pose proof Hio as [_ _ Hnd Hfresh Hok Hnames Hnamed Hst Hpl Hop].
  assert (Ho : owned c' = owned c) by (unfold owned; by rewrite (q_list _ _ Hq), (q_funcs _ _ Hq)).
  constructor; rewrite ?Ho, ?(q_list _ _ Hq), ?(q_funcs _ _ Hq), ?(fr_length _ _ _ Hfr), ?extend_slot_names; try done.
  - apply extend_total.
  - apply extend_slots.
  - intros j Hj. apply Hk. auto.
  - intros j Hj. destruct (Hnamed j Hj) as (H1 & H2 & H3 & H4), (Hk j) as (Haj & Hdj & _). by rewrite Haj, Hdj.
  - intros j d Hj. rewrite (proj1 (Hk j)). eauto.
  - intros j Hj. rewrite (proj1 (Hk j)). eauto.
  - intros j Haj Hdj. destruct (Hk j) as (Ha' & Hd' & _). rewrite Ha' in Haj. rewrite Hd' in Hdj by done. auto.
Qed.
End Extend.

(** A stream is marked as finished. *)
Lemma io_done id c sp :
  in_order c sp → isAsync (node_at c id) = true → in_order (put_node id (done_ (node_at c id)) c) sp.
Proof.
  intros [] Ha. set (c' := put_node id _ c). pose proof (async_bound _ _ Ha) as Hid.
  assert (Hn : ∀ j, rest (node_at c' j) = rest (node_at c j) ∧ isAsync (node_at c' j) = isAsync (node_at c j) ∧
                    (isDone (node_at c j) = true → isDone (node_at c' j) = true) ∧
                    (node_ok (node_at c j) → node_ok (node_at c' j))).
  { intros j. destruct (decide (j = id)) as [->|Hj].
    - unfold c'. rewrite node_put by done. by destruct (node_at c id).
    - by rewrite (node_other id j c c') by (done || apply frame_put). }
  assert (Hw : ∀ m, waiting c' m = waiting c m) by (intros m; apply waiting_ext; intros j _; apply Hn).
  constructor; change (owned c') with (owned c); try done.
  - by rewrite Hw.
  - intros pre j post Heq Haj. rewrite Hw. destruct (Hn j) as (_ & Hj & _). rewrite Hj in Haj. eauto.
  - intros j Hj. cbn. rewrite length_insert. auto.
  - intros j Hj. apply Hn. auto.
  - intros j Hj. destruct (io_named0 j Hj) as (H1 & H2 & H3 & H4), (Hn j) as (_ & Haj & Hdj & _).
    rewrite Haj. split_and!; try done; [cbn; by rewrite length_insert|]. destruct H4; auto.
  - intros j d Hj. destruct (Hn j) as (_ & -> & _). eauto.
  - intros j Hj. destruct (Hn j) as (_ & -> & _). eauto.
  - intros j Haj Hdj. destruct (Hn j) as (_ & Haj' & Hdj' & _). apply io_open0; [congruence|].
    destruct (isDone (node_at c j)) eqn:Hd; [|done]. by rewrite Hdj' in Hdj.
Qed.
