(* ===== verification/TcpOutput.v ===== *)
(** * What a connection sends

    The two invariants of [TcpConnection] over every run of its operations:
    what reaches the wire is what the calls asked for, in order, and output is
    never stuck; and how [shutdown] closes the connection. *)

From stdpp Require Import base list numbers option gmap.
From Stdlib Require Import ZArith Lia.
From S2P Require Import Prelude MsgBuffer BufferNode TcpConnection TcpOrder.

(** ** The invariant of progress and of closing *)

(** The head of the list is a stream that waits for its producer. *)
Definition idle_head (c : Conn) : Prop :=
  ∃ id l, writeBufferList_ c = id :: l ∧ isAsync (node_at c id) = true ∧
          remainingBytes (node_at c id) = 0 ∧ isDone (node_at c id) = false.

Record progress (c : Conn) : Prop := {
  pg_armed : status_ c ≠ Disconnected → writing c = true ∨ writeBufferList_ c = [] ∨ idle_head c;
  pg_writing : writing c = true → writeBufferList_ c ≠ [];
  pg_closing : status_ c = Disconnecting → writeClosed c = true;
  pg_asked : status_ c = Connected → closeOnEmpty_ c = true → writeBufferList_ c ≠ [];
  pg_open : status_ c = Connected ∨ status_ c = Connecting → writeClosed c = false;
  pg_fresh : status_ c = Connecting → closeOnEmpty_ c = false
}.

(** ** The operations that keep both invariants *)

Record good (c : Conn) (sp : slots) : Prop := { g_order : in_order c sp; g_progress : progress c }.

Lemma shutdown_good c sp : good c sp → good (shutdown c) sp.
Proof.
  intros [Hio []]. unfold shutdown. case_bool_decide as Hs; [|by split].
  case_bool_decide as Hl; cbn [negb]; [|split; [by apply (io_same c) | split; try done; cbn; intros; congruence]].
  assert (Hw : writing c = false) by (destruct (writing c) eqn:Hw; [by destruct (pg_writing0 eq_refl) | done]).
  cbn [writing set_status]. rewrite Hw. cbn [negb]. split; [by apply (io_same c)|].
  split; cbn; intros; try done; [by right; left | congruence | by destruct H as [|]].
Qed.

Lemma handleClose_good cb c sp : good c sp → good (handleClose cb c) sp.
Proof. intros [Hio []]. split; [by apply (io_same c)|]. split; try done. by intros [|]. Qed.

Lemma forceClose_good cb c sp : good c sp → good (forceClose cb c) sp.
Proof.
  intros Hg. unfold forceClose. case_match; try done; destruct Hg as [Hio []];
    (split; [by apply (io_same c) | split; try done; by intros [|]]).
Qed.

(** The parts of [progress] about the status only. *)
Definition closing_ok (c : Conn) : Prop :=
  (status_ c = Disconnecting → writeClosed c = true) ∧
  (status_ c = Connected ∨ status_ c = Connecting → writeClosed c = false) ∧
  (status_ c = Connecting → closeOnEmpty_ c = false).

Lemma progress_closing c : progress c → closing_ok c.
Proof. by intros []. Qed.

Lemma quiet_closing c c' : quiet c c' → closing_ok c → closing_ok c'.
Proof.
  intros Hq H. unfold closing_ok in *. by rewrite (q_status _ _ Hq), (q_closed _ _ Hq), (q_close _ _ Hq).
Qed.

Lemma busy_progress c : closing_ok c → writing c = true → writeBufferList_ c ≠ [] → progress c.
Proof. intros (H1 & H2 & H3) Hw Hl. split; auto. Qed.

Lemma idle_progress c : closing_ok c → writing c = false → idle_head c → progress c.
Proof.
  intros (H1 & H2 & H3) Hw Hi. assert (Hl : writeBufferList_ c ≠ []) by (destruct Hi as (? & ? & -> & _); done).
  split; auto.
Qed.

Lemma empty_progress c :
  closing_ok c → writing c = false → writeBufferList_ c = [] → (status_ c = Connected → closeOnEmpty_ c = false) →
  progress c.
Proof. intros (H1 & H2 & H3) Hw Hl Hc. split; auto; [congruence|]. intros Hs Hx. by rewrite Hc in Hx. Qed.

Lemma async_available n : isAsync n = true → available n = negb (isDone n).
Proof. by destruct n. Qed.

Lemma end_of_list_good c sp : in_order c sp → closing_ok c → writeBufferList_ c = [] → good (end_of_list c) sp.
Proof.
  intros Hio Hc Hl. unfold end_of_list. set (c1 := disableWriting c).
  assert (Hio1 : in_order c1 sp) by (by apply (io_same c)).
  case_match eqn:Hclose; [|split; [done|]; by apply empty_progress].
  unfold shutdown. rewrite (bool_decide_true (writeBufferList_ c1 = [])) by done.
  case_bool_decide as Hs; cbn; split; try (by apply (io_same c)); try done.
  all: apply empty_progress; try done. by split_and!; [|intros [|]|].
Qed.

Lemma write_loop_good l : ∀ ks c sp,
  Forall healthy ks → writeBufferList_ c = l → writing c = true → in_order c sp → closing_ok c →
  good (write_loop l ks c) sp.
Proof.
  induction l as [|id l IH]; intros ks c sp Hks Hl Hw Hio Hc; cbn [write_loop]; [by apply end_of_list_good|].
  assert (Hid : id ∈ writeBufferList_ c) by (rewrite Hl; in_list).
  pose proof (owned_node _ _ _ Hio Hid) as Hlen.
  assert (Hok : node_ok (node_at c id)) by (apply (io_ok _ _ Hio); unfold owned; in_list).
  set (turn := if _ =? 0 then _ else _). destruct turn as [[n ks1] c1] eqn:Hturn.
  assert (Hs : sent id c c1 ∧ Forall healthy ks1).
  { unfold turn in Hturn. case_if; [by injection Hturn as <- <- <-|].
    apply sendNode_spec in Hturn as (? & ? & _); auto. }
  destruct Hs as [Hs Hks1]. pose proof (fr_quiet _ _ _ (s_frame _ _ _ Hs)) as Hq.
  assert (Hio1 : in_order c1 sp) by (by apply (io_sent id l c)).
  assert (Hc1 : closing_ok c1) by (by apply (quiet_closing c)).
  assert (Hl1 : writeBufferList_ c1 = id :: l) by (by rewrite (q_list _ _ Hq)).
  pose proof (q_writing _ _ Hq Hw) as Hw1.
  destruct (negb (remainingBytes (node_at c1 id) =? 0) || (n <? 0)) eqn:Hstop.
  { split; [done|]. apply busy_progress; [done | done | by rewrite Hl1]. }
  apply orb_false_iff in Hstop as [Hrem _]. apply negb_false_iff, Z.eqb_eq in Hrem.
  case_match eqn:Hpop.
  - apply IH; try done. apply (io_pop id l); try done.
    + apply rest_remaining; [by apply (s_ok _ _ _ Hs) | done].
    + intros Ha. rewrite Ha in Hpop. cbn in Hpop. rewrite async_available in Hpop by done.
      by rewrite negb_involutive in Hpop.
  - apply orb_false_iff in Hpop as [Ha Hav]. apply negb_false_iff in Ha, Hav.
    rewrite async_available in Hav by done. apply negb_true_iff in Hav.
    split; [by apply (io_same c1)|]. apply idle_progress; try done. by exists id, l.
Qed.

Lemma writeCallback_good ks c sp : Forall healthy ks → good c sp → good (writeCallback ks c) sp.
Proof.
  intros Hks Hg. unfold writeCallback. case_if; [|done]. destruct Hg as [Hio Hp].
  apply write_loop_good; try done. by apply progress_closing.
Qed.

Lemma progress_same c c' :
  progress c → nodes c' = nodes c → quiet c c' → writing c' = writing c → progress c'.
Proof.
  intros [] Hn [H1 H2 H3 _ H4 _] Hw. split; rewrite ?H1, ?H2, ?H3, ?H4, ?Hw; auto.
  intros Hst. destruct (pg_armed0 Hst) as [?|[?|Hi]]; auto.
  right. right. destruct Hi as (id & l & Hi). exists id, l. unfold node_at in *. by rewrite H1, Hn.
Qed.

Lemma good_same c c' sp :
  good c sp → same_output c c' → quiet c c' → writing c' = writing c → good c' sp.
Proof.
  intros [Hio Hp] Hs Hq Hw. split; [by apply (io_same c)|]. apply (progress_same c); try done. apply Hs.
Qed.

(** Nodes are added behind what is in the list. *)
Lemma progress_grow c c' m :
  progress c → writeBufferList_ c' = writeBufferList_ c ++ m → writeBufferList_ c ≠ [] →
  (∀ id, isAsync (node_at c id) = true → node_at c' id = node_at c id) →
  status_ c' = status_ c → closeOnEmpty_ c' = closeOnEmpty_ c → writing c' = writing c →
  writeClosed c' = writeClosed c → progress c'.
Proof.
  intros [] Hl Hne Hn H1 H2 H3 H4.
  assert (Hl' : writeBufferList_ c' ≠ []) by (rewrite Hl; by destruct (writeBufferList_ c)).
  split; rewrite ?H1, ?H2, ?H3, ?H4; auto. intros Hst.
  destruct (pg_armed0 Hst) as [?|[?|(id & l & Hli & Ha & Hr & Hd)]]; [by left | done |].
  right. right. exists id, (l ++ m). rewrite Hl, Hli, Hn by done. done.
Qed.

Lemma check_high_water_same c :
  same_output c (check_high_water c) ∧ quiet c (check_high_water c) ∧ writing (check_high_water c) = writing c.
Proof. unfold check_high_water. by repeat case_match. Qed.

(** A new node in memory and the bytes put into it. *)
Lemma new_mem_node more c :
  writeBufferList_ (push_back (length (nodes c)) (snd (alloc (MemBufferNode false []) c))) =
    writeBufferList_ c ++ [length (nodes c)] ∧
  append_to_last more (push_back (length (nodes c)) (snd (alloc (MemBufferNode false []) c))) =
    push_back (length (nodes c)) (snd (alloc (MemBufferNode false more) c)).
Proof.
  split; [done|]. unfold append_to_last. cbn [writeBufferList_ push_back set_list set_out alloc snd].
  rewrite last_snoc. unfold node_at. cbn. rewrite list_lookup_middle by done. cbn.
  unfold put_node, push_back, set_list, set_out. cbn. f_equal.
  rewrite insert_app_r_alt by lia. by rewrite Nat.sub_diag.
Qed.

Lemma buffered_spec more c sp :
  let c' := append_to_last more (last_mem_node c) in
  in_order c sp →
  in_order c' (sp ++ [(None, more)]) ∧ (∃ m, writeBufferList_ c' = writeBufferList_ c ++ m) ∧
  writeBufferList_ c' ≠ [] ∧ (∀ id, isAsync (node_at c id) = true → node_at c' id = node_at c id) ∧
  quiet (set_list (writeBufferList_ c') c) c' ∧ writing c' = writing c.
Proof.
  intros c' Hio.
  assert (Hnew : last_mem_node c = push_back (length (nodes c)) (snd (alloc (MemBufferNode false []) c)) →
    in_order c' (sp ++ [(None, more)]) ∧ (∃ m, writeBufferList_ c' = writeBufferList_ c ++ m) ∧
    writeBufferList_ c' ≠ [] ∧ (∀ id, isAsync (node_at c id) = true → node_at c' id = node_at c id) ∧
    quiet (set_list (writeBufferList_ c') c) c' ∧ writing c' = writing c).
  { intros Heq. unfold c'. rewrite Heq, (proj2 (new_mem_node more c)). split_and!; try done.
    - pose proof (io_push_new (MemBufferNode false more) c sp Hio eq_refl) as H.
      by rewrite tag_new in H.
    - by eexists.
    - cbn. by destruct (writeBufferList_ c).
    - intros id Ha. apply (node_at_alloc _ c), async_bound, Ha. }
  destruct (last (writeBufferList_ c)) as [id|] eqn:Hlast; [|apply Hnew; unfold last_mem_node; by rewrite Hlast].
  destruct (isFile (node_at c id) || isStream (node_at c id)) eqn:Hkind;
    [apply Hnew; unfold last_mem_node; by rewrite Hlast, Hkind|].
  apply last_Some in Hlast as [l Hl].
  assert (Hid : id ∈ writeBufferList_ c) by (rewrite Hl; in_list).
  assert (Hok : node_ok (node_at c id)) by (apply (io_ok _ _ Hio); unfold owned; in_list).
  destruct (node_at c id) as [d b|f|d cb b|d b] eqn:Hm; try done. cbn in Hok. subst d.
  assert (Hc' : c' = put_node id (MemBufferNode false (b ++ more)) c).
  { unfold c', last_mem_node, append_to_last. rewrite Hl, last_snoc, Hm. cbn. rewrite Hl, last_snoc, Hm. done. }
  rewrite Hc'. split_and!; try done.
  - by apply (io_append_last l id b).
  - exists []. cbn. by rewrite app_nil_r.
  - cbn. rewrite Hl. by destruct l.
  - intros j Ha. apply (node_other id); [apply frame_put|]. intros ->. by rewrite Hm in Ha.
Qed.

Lemma ask_plain data sp : sp ++ [(None, data)] = sp ++ plain [data].
Proof. done. Qed.

Lemma sendInLoop_good r data c sp :
  healthy r → fits data → good c sp → good (sendInLoop r data c) (ask_send c data sp).
Proof.
  intros Hr Hfit Hg. unfold sendInLoop, ask_send. case_bool_decide as Hst; cbn [negb]; [|done].
  destruct Hg as [Hio Hp]. pose proof (progress_closing _ Hp) as Hc.
  destruct (negb (writing c) && bool_decide (writeBufferList_ c = [])) eqn:Hdir.
  - apply andb_true_iff in Hdir as [Hw Hl]. apply negb_true_iff in Hw. apply bool_decide_eq_true in Hl.
    destruct (writeInLoop r data c) as [n c1] eqn:Hwr.
    apply writeRaw_spec in Hwr as (Hn & Hwire & Hnodes & Hq & Hpart & Hall); [|done].
    rewrite (proj2 (Z.ltb_ge n 0)) by lia.
    assert (Hio1 : in_order c1 (sp ++ [(None, take (Z.to_nat n) data)])) by (by apply (io_wrote _ c)).
    assert (Hl1 : writeBufferList_ c1 = []) by (by rewrite (q_list _ _ Hq)).
    rewrite (q_status _ _ Hq), (bool_decide_true _ Hst), andb_true_r, length_drop.
    destruct (0 <? length data - Z.to_nat n)%nat eqn:Hmore.
    + apply Nat.ltb_lt in Hmore. set (more := drop (Z.to_nat n) data).
      destruct (buffered_spec more c1 _ Hio1) as (Hio2 & _ & Hl2 & _ & Hq2 & Hw2).
      set (c2 := append_to_last more (last_mem_node c1)) in *.
      destruct (check_high_water_same c2) as (Hso & Hq3 & Hw3).
      apply (good_same c2); [|done | done | done]. split.
      * rewrite ask_plain. apply (io_plain_slots _ _ [take (Z.to_nat n) data; more]).
        -- by rewrite <- app_assoc in Hio2.
        -- unfold more. cbn. by rewrite !app_nil_r, take_drop.
      * apply busy_progress; [|by rewrite Hw2, Hpart by (done || lia) | done].
        apply (quiet_closing _ _ Hq2). exact (quiet_closing _ _ Hq Hc).
    + apply Nat.ltb_ge in Hmore. rewrite take_ge in Hio1 by lia. split; [done|]. apply empty_progress; try done.
      * by apply (quiet_closing c).
      * rewrite Hall; [done | lia | done].
      * rewrite (q_close _ _ Hq). intros _. destruct (closeOnEmpty_ c) eqn:Hce; [|done].
        by destruct (pg_asked _ Hp Hst Hce).
  - cbn [Z.ltb Z.compare Z.to_nat]. rewrite drop_0, (bool_decide_true _ Hst), andb_true_r.
    destruct data as [|z data'] eqn:Hdata; cbn [length Nat.ltb Nat.leb].
    { split; [|done]. rewrite ask_plain. apply (io_plain_slots _ _ []); [|done]. by rewrite app_nil_r. }
    rewrite <- Hdata in *.
    assert (Hne : writeBufferList_ c ≠ []).
    { intros Hl. rewrite (bool_decide_true _ Hl), andb_true_r in Hdir. apply negb_false_iff in Hdir.
      by apply (pg_writing _ Hp). }
    destruct (buffered_spec data c _ Hio) as (Hio2 & [m Hm] & Hl2 & Ha2 & Hq2 & Hw2).
    set (c2 := append_to_last data (last_mem_node c)) in *.
    destruct (check_high_water_same c2) as (Hso & Hq3 & Hw3).
    apply (good_same c2); [|done | done | done]. split; [done|].
    apply (progress_grow c c2 m); try done; apply Hq2.
Qed.

(** The node is kept: it has bytes left, so the channel waits to write. *)
Lemma pushed_good id c sp : in_order (push_back id c) sp → closing_ok c → writing c = true → good (push_back id c) sp.
Proof.
  intros Hio Hc Hw. split; [done|]. apply busy_progress; [done | done|]. cbn. by destruct (writeBufferList_ c).
Qed.

(** A node goes behind others. *)
Lemma queued_good id c sp :
  in_order (push_back id c) sp → progress c → writeBufferList_ c ≠ [] → good (push_back id c) sp.
Proof. intros Hio Hp Hl. split; [done|]. by apply (progress_grow c _ [id]). Qed.

Section Joining.
Context (id : nat) (ks : list reply) (c : Conn) (sp : slots).
Hypothesis Hks : Forall healthy ks.
Hypothesis Hio : in_order (push_back id c) sp.
Hypothesis Hp : progress c.
Hypothesis Hfits : node_fits (node_at c id).

Lemma joining_known : (id < length (nodes c))%nat ∧ node_ok (node_at c id).
Proof.
  assert (Hid : id ∈ writeBufferList_ (push_back id c)) by (cbn; in_list).
  split; [apply (owned_node _ _ _ Hio Hid)|]. apply (io_ok _ _ Hio id). unfold owned. in_list.
Qed.

(** What a direct send leaves, when the list is empty. *)
Lemma direct_send n ks' c1 :
  writeBufferList_ c = [] → 0 < remainingBytes (node_at c id) →
  isFile (node_at c id) = false ∨ 0 ≤ r_ret (next_reply ks) →
  sendNodeInLoop ks id c = (n, ks', c1) →
  0 ≤ n ∧ isAsync (node_at c1 id) = isAsync (node_at c id) ∧
  (isAsync (node_at c id) = true → isDone (node_at c1 id) = isDone (node_at c id)) ∧
  (0 < remainingBytes (node_at c1 id) → good (push_back id c1) sp) ∧
  (remainingBytes (node_at c1 id) ≤ 0 →
    in_order (push_back id c1) sp ∧ rest (node_at c1 id) = [] ∧ writeBufferList_ c1 = [] ∧ progress c1 ∧
    remainingBytes (node_at c1 id) = 0).
Proof.
  intros Hl Hrem Hfile Hsend. destruct joining_known as [Hid Hok].
  destruct (sendNode_spec _ _ _ _ _ _ Hks Hid Hok Hsend) as (Hs & _ & Hw & Hn & Hend).
  specialize (Hn Hrem Hfile). pose proof (fr_quiet _ _ _ (s_frame _ _ _ Hs)) as Hq.
  assert (Hio1 : in_order (push_back id c1) sp) by (by apply (io_direct id c)).
  pose proof (quiet_closing _ _ Hq (progress_closing _ Hp)) as Hc1.
  assert (Hl1 : writeBufferList_ c1 = []) by (by rewrite (q_list _ _ Hq)).
  assert (Hw0 : writing c = false) by (destruct (writing c) eqn:E; [by destruct (pg_writing _ Hp E) | done]).
  split_and!; [done | apply Hs | apply Hs | |].
  - intros Hpos. apply pushed_good; [done | done | by apply Hw; [..|right]].
  - intros Hle. pose proof (s_ok _ _ _ Hs Hok) as Hok1. pose proof (remaining_nonneg _ Hok1).
    split_and!; try done; [apply rest_remaining; [done | lia] | | lia].
    apply empty_progress; [done | by rewrite Hend | done |]. rewrite (q_status _ _ Hq), (q_close _ _ Hq). intros Hst.
    destruct (closeOnEmpty_ c) eqn:Hce; [by destruct (pg_asked _ Hp Hst Hce) | done].
Qed.

Lemma send_or_queue_good :
  0 < remainingBytes (node_at c id) → isAsync (node_at c id) = false →
  (writeBufferList_ c = [] → isFile (node_at c id) = false ∨ 0 ≤ r_ret (next_reply ks)) →
  good (send_or_queue ks id c) sp.
Proof.
  intros Hrem Ha Hfile. unfold send_or_queue. destruct (writeBufferList_ c) as [|h l] eqn:Hl.
  - destruct (sendNodeInLoop ks id c) as [[n ks'] c1] eqn:Hsend.
    destruct (direct_send _ _ _ Hl Hrem (Hfile eq_refl) Hsend) as (Hn & Ha1 & _ & Hmore & Hend).
    rewrite (proj2 (Z.leb_le 0 n)), andb_true_r by done. case_if; bool_to_prop; [auto|].
    destruct (Hend Heqb) as (Hio1 & Hr & Hl1 & Hp1 & _). split; [|done].
    apply (io_unpush id); try done. by rewrite Ha1, Ha.
  - apply queued_good; [done | done | by rewrite Hl].
Qed.

Lemma push_queued_good :
  isAsync (node_at c id) = true → isDone (node_at c id) = false →
  good (if bool_decide (writeBufferList_ c = []) && (0 <? remainingBytes (node_at c id)) then
    let '(n, _, c1) := sendNodeInLoop ks id c in
    if (0 <=? n) && ((0 <? remainingBytes (node_at c1 id)) || available (node_at c1 id))
    then push_back id c1 else c1
  else push_back id c) sp.
Proof.
  intros Ha Hd. case_bool_decide as Hl; cbn [andb]; [|by apply queued_good].
  assert (Hidle : ∀ x, writeBufferList_ x = [] → isAsync (node_at x id) = true → isDone (node_at x id) = false →
    remainingBytes (node_at x id) = 0 → in_order (push_back id x) sp → progress x → good (push_back id x) sp).
  { intros x Hlx Hax Hdx Hrx Hiox Hpx. split; [done|].
    assert (Hwx : writing x = false) by (destruct (writing x) eqn:E; [by destruct (pg_writing _ Hpx E) | done]).
    apply idle_progress; [exact (progress_closing _ Hpx) | done|]. exists id, []. cbn. by rewrite Hlx. }
  case_if; bool_to_prop.
  - destruct (sendNodeInLoop ks id c) as [[n ks'] c1] eqn:Hsend.
    assert (Hf : isFile (node_at c id) = false) by (by destruct (node_at c id)).
    destruct (direct_send _ _ _ Hl Heqb (or_introl Hf) Hsend) as (Hn & Ha1 & Hd1 & Hmore & Hend).
    rewrite async_available, Hd1, Hd by congruence. rewrite orb_true_r, (proj2 (Z.leb_le 0 n)) by done. cbn.
    destruct (decide (0 < remainingBytes (node_at c1 id))) as [Hpos|Hle]; [auto|].
    destruct (Hend ltac:(lia)) as (Hio1 & Hr & Hl1 & Hp1 & Hr0). apply Hidle; try done; [congruence | by rewrite Hd1].
  - apply Hidle; try done. destruct joining_known as [_ Hok]. pose proof (remaining_nonneg _ Hok). lia.
Qed.
End Joining.

Lemma extend_slot_nil id sp : extend_slot id [] sp = sp.
Proof.
  unfold extend_slot. induction sp as [|[o b] sp IH]; [done|]. rewrite fmap_cons, IH. cbn.
  case_bool_decide; [by rewrite app_nil_r | done].
Qed.

(** A node behind the head, or outside the list, changes. *)
Lemma progress_put id n c :
  progress c → (status_ c ≠ Disconnected → head (writeBufferList_ c) = Some id → writing c = true) →
  progress (put_node id n c).
Proof.
  intros [] Hh. split; auto. intros Hst. destruct (pg_armed0 Hst) as [?|[?|(i & l & Hl & Hi)]]; [by left | by right; left |].
  destruct (decide (i = id)) as [->|Hne]; [left; apply Hh; [done | by rewrite Hl]|].
  right. right. exists i, l. rewrite (node_other id i c) by (done || apply frame_put). done.
Qed.

(** A stream that is not in the list yet is given data. *)
Lemma io_outside id n c sp :
  in_order c sp → id ∉ writeBufferList_ c → same_kinds c (put_node id n c) → in_order (put_node id n c) sp.
Proof.
  intros Hio Hid Hk. assert (Hw : ∀ m, id ∉ m → waiting (put_node id n c) m = waiting c m).
  { intros m Hm. apply waiting_ext. intros j Hj. by rewrite (node_other id j c) by (apply frame_put || congruence). }
  apply (io_moved c); try done.
  - cbn. by rewrite length_insert.
  - change (wire (put_node id n c)) with (wire c). rewrite Hw by done. apply (io_bytes _ _ Hio).
  - intros pre j post Heq _. change (wire (put_node id n c)) with (wire c). rewrite Hw; [done|].
    intros Hx. apply Hid. rewrite Heq. revert Hx. rewrite !elem_of_app, !elem_of_cons, elem_of_nil. tauto.
Qed.

Lemma append_kinds id data c :
  isAsync (node_at c id) = true → same_kinds c (put_node id (node_append data (node_at c id)) c).
Proof.
  intros Ha. apply put_kinds; [by apply async_bound | | |]; by destruct (node_at c id).
Qed.

Lemma rest_append data n : isAsync n = true → rest (node_append data n) = rest n ++ data.
Proof. by destruct n. Qed.

(** The data waits in the node. *)
Lemma append_async_good id data c sp :
  good c sp → isAsync (node_at c id) = true → isDone (node_at c id) = false →
  (head (writeBufferList_ c) = Some id → 0 < remainingBytes (node_at c id)) →
  good (put_node id (node_append data (node_at c id)) c) (extend_slot id data sp).
Proof.
  intros [Hio Hp] Ha Hd Hhead. pose proof (async_bound _ _ Ha) as Hid. set (c' := put_node _ _ c). split.
  - destruct (decide (id ∈ writeBufferList_ c)) as [Hin|Hout].
    + apply list_elem_of_split in Hin as (pre & post & Hl).
      apply (io_extend id data pre post c); try done; [apply frame_put | by apply append_kinds |].
      change (wire c') with (wire c). rewrite !waiting_app, !waiting_one.
      rewrite <- !app_assoc. f_equal. unfold c'. rewrite node_put, rest_append by done. rewrite !app_assoc. do 2 f_equal.
      apply waiting_ext. intros j Hj. rewrite (node_other id j c); [done | apply frame_put|]. intros ->.
      pose proof (nodup_list _ (io_nodup _ _ Hio)) as Hnd. rewrite Hl in Hnd.
      apply list.NoDup_app in Hnd as (_ & Hnd & _). apply (Hnd id Hj). in_list.
    + rewrite extend_slot_other; [apply io_outside; [done | done | by apply append_kinds]|].
      intros Hx. destruct (io_named _ _ Hio id Hx) as (_ & _ & _ & [?|?]); [done | congruence].
  - apply progress_put; [done|]. intros Hst Hh. specialize (Hhead Hh).
    destruct (pg_armed _ Hp Hst) as [?|[Hl|(i & l & Hl & _ & Hr & _)]]; [done | by rewrite Hl in Hh|].
    rewrite Hl in Hh. injection Hh as ->. lia.
Qed.

(** The data goes straight to the wire, as far as the kernel takes it. *)
Lemma write_async_good r id data l c sp n c1 :
  good c sp → healthy r → fits data → data ≠ [] → isAsync (node_at c id) = true → isDone (node_at c id) = false →
  writeBufferList_ c = id :: l → remainingBytes (node_at c id) = 0 → writeInLoop r data c = (n, c1) →
  0 ≤ n ∧
  good (if n <? Z.of_nat (length data)
        then put_node id (node_append (drop (Z.to_nat n) data) (node_at c1 id)) c1 else c1) (extend_slot id data sp).
Proof.
  intros [Hio Hp] Hr Hfit Hne Ha Hd Hl Hrem Hw. pose proof (async_bound _ _ Ha) as Hid.
  apply writeRaw_spec in Hw as (Hn & Hwire & Hnodes & Hq & Hpart & Hall); [|done]. split; [lia|].
  assert (Hnode : ∀ j, node_at c1 j = node_at c j) by (intros j; unfold node_at; by rewrite Hnodes).
  assert (Hr0 : rest (node_at c id) = []) by (apply rest_remaining; [by destruct (node_at c id) | done]).
  set (c2 := if _ <? _ then _ else c1).
  assert (Hfr1 : frame id c c1) by (constructor; [done | by rewrite Hnodes | intros; by rewrite Hnodes]).
  assert (Hfr : frame id c c2) by (unfold c2; case_if; [trans c1; [done | apply frame_put] | done]).
  assert (Hid1 : (id < length (nodes c1))%nat) by (by rewrite Hnodes).
  assert (Hc1 : same_kinds c c1) by (intros j; by rewrite Hnode).
  assert (Hk : same_kinds c c2).
  { unfold c2. case_if; [|done]. intros j. rewrite <- (Hnode j). apply append_kinds. by rewrite Hnode. }
  split.
  - apply (io_extend id data [] l c); try done. cbn [app]. rewrite !waiting_one, Hr0. unfold c2.
    case_if; bool_to_prop.
    + rewrite node_put, rest_append, Hnode, Hr0 by (done || by rewrite Hnode). cbn [app].
      change (wire (put_node _ _ ?x)) with (wire x). by rewrite Hwire, <- app_assoc, take_drop.
    + by rewrite Hnode, Hr0, Hwire, take_ge, app_nil_r by lia.
  - pose proof (quiet_closing _ _ (fr_quiet _ _ _ Hfr) (progress_closing _ Hp)) as Hcl.
    assert (Hl2 : writeBufferList_ c2 ≠ []) by (by rewrite (q_list _ _ (fr_quiet _ _ _ Hfr)), Hl).
    unfold c2 in *. case_if; bool_to_prop; [apply busy_progress; [done | by apply Hpart | done]|].
    apply (progress_same c); try done. apply Hall; [lia | done].
Qed.

Lemma sendAsyncDataInLoop_good r id data c sp :
  good c sp → healthy r → fits data → isAsync (node_at c id) = true → isDone (node_at c id) = false →
  good (sendAsyncDataInLoop r id (Some data) c) (extend_slot id data sp).
Proof.
  intros Hg Hr Hfit Ha Hd. unfold sendAsyncDataInLoop.
  destruct data as [|z data'] eqn:Hdata; [by rewrite extend_slot_nil|]. rewrite <- Hdata in *.
  assert (Hne : data ≠ []) by (by rewrite Hdata). rewrite (proj2 (Nat.ltb_lt 0 (length data))) by (rewrite Hdata; cbn; lia).
  assert (Hnn : 0 ≤ remainingBytes (node_at c id)) by (apply remaining_nonneg; by destruct (node_at c id)).
  case_bool_decide as Hh; [|by apply append_async_good; try done; intros].
  cbn [andb]. case_if; bool_to_prop.
  - destruct (writeInLoop r data c) as [n c1] eqn:Hw.
    destruct (writeBufferList_ c) as [|i l] eqn:Hl; [done|]. injection Hh as ->.
    destruct (write_async_good r id data l c sp n c1) as [Hn Hg1]; try done.
    by rewrite (proj2 (Z.ltb_ge n 0)) by lia.
  - apply append_async_good; try done. intros _. lia.
Qed.

Lemma resume_kickoff_same c :
  same_output c (resume_kickoff c) ∧ quiet c (resume_kickoff c) ∧ writing (resume_kickoff c) = writing c.
Proof. unfold resume_kickoff. by case_match. Qed.

Lemma closeAsync_good r id c sp :
  good c sp → isAsync (node_at c id) = true → good (sendAsyncDataInLoop r id None c) sp.
Proof.
  intros [Hio Hp] Ha. unfold sendAsyncDataInLoop. set (c1 := put_node id _ c). set (c2 := if _ && _ then _ else c1).
  destruct (resume_kickoff_same c2) as (Hs & Hq & Hw). apply (good_same c2); try done.
  assert (Hio1 : in_order c1 sp) by (by apply io_done).
  split; [by apply (io_same c1); unfold c2; [case_if|]|].
  unfold c2. case_bool_decide as Hh; cbn [andb]; [|by apply progress_put].
  assert (Hl : writeBufferList_ c ≠ []) by (intros Hl; by rewrite Hl in Hh).
  change (writing c1) with (writing c). destruct (writing c) eqn:Hwr; cbn [negb];
    (apply busy_progress; [exact (progress_closing _ Hp) | done | done]).
Qed.

(** ** Nodes that wait in the queue are left alone *)

Definition pending_ok (c : Conn) : Prop :=
  ∀ id, TNode id ∈ funcs c → 0 < remainingBytes (node_at c id) ∧ node_fits (node_at c id).

Lemma pending_apart id c sp :
  in_order c sp → TNode id ∈ funcs c →
  id ∉ writeBufferList_ c ∧ (id < length (nodes c))%nat ∧ isAsync (node_at c id) = false.
Proof.
  intros Hio Hid. assert (Hq : id ∈ (funcs c ≫= pushed_by)).
  { apply list_elem_of_bind. exists (TNode id). split; [cbn; in_list | done]. }
  split_and!; [|apply (io_fresh _ _ Hio); unfold owned; in_list | by apply (io_plain _ _ Hio)].
  intros Hl. pose proof (io_nodup _ _ Hio) as Hnd. unfold owned in Hnd.
  apply list.NoDup_app in Hnd as (_ & Hd & _). by apply (Hd id).
Qed.

(** [j] is not the node of the call, nor in the list. *)
Lemma sendNode_other ks id c sp n ks' c' j :
  in_order c sp → Forall healthy ks → id ∈ writeBufferList_ c → sendNodeInLoop ks id c = (n, ks', c') → j ≠ id →
  node_at c' j = node_at c j.
Proof.
  intros Hio Hks Hid Hs Hj. apply sendNode_spec in Hs as (Hs & _); try done.
  - apply (node_other id); [apply Hs | done].
  - by apply (owned_node _ _ sp).
  - apply (io_ok _ _ Hio). unfold owned. in_list.
Qed.

Lemma write_loop_other l : ∀ ks c sp j,
  Forall healthy ks → in_order c sp → writeBufferList_ c = l → j ∉ l → node_at (write_loop l ks c) j = node_at c j.
Proof.
  induction l as [|id l IH]; intros ks c sp j Hks Hio Hl Hj; cbn [write_loop].
  { unfold end_of_list, shutdown. by repeat case_match. }
  apply not_elem_of_cons in Hj as [Hne Hj]. assert (Hid : id ∈ writeBufferList_ c) by (rewrite Hl; in_list).
  set (turn := if _ =? 0 then _ else _). destruct turn as [[n ks1] c1] eqn:Hturn.
  assert (Hs : sent id c c1 ∧ Forall healthy ks1 ∧ node_at c1 j = node_at c j).
  { unfold turn in Hturn. case_if; [by injection Hturn as <- <- <-|].
    pose proof (sendNode_other _ _ _ _ _ _ _ j Hio Hks Hid Hturn Hne).
    apply sendNode_spec in Hturn as (? & ? & _); [done | done | by apply (owned_node _ _ sp)|].
    apply (io_ok _ _ Hio). unfold owned. in_list. }
  destruct Hs as (Hs & Hks1 & Hn1).
  assert (Hio1 : in_order c1 sp) by (by apply (io_sent id l c)).
  assert (Hl1 : writeBufferList_ c1 = id :: l) by (by rewrite (q_list _ _ (fr_quiet _ _ _ (s_frame _ _ _ Hs)))).
  case_match eqn:Hstop; [done|]. case_match eqn:Hpop; [|done].
  rewrite <- Hn1. change (node_at c1 j) with (node_at (set_list l c1) j).
  apply orb_false_iff in Hstop as [Hrem _]. apply negb_false_iff, Z.eqb_eq in Hrem.
  apply (IH ks1 _ sp); try done. apply (io_pop id); try done.
  - apply rest_remaining; [|done]. apply (s_ok _ _ _ Hs), (io_ok _ _ Hio). unfold owned. in_list.
  - intros Ha. rewrite Ha in Hpop. cbn in Hpop. rewrite async_available in Hpop by done.
    by rewrite negb_involutive in Hpop.
Qed.

Lemma sendInLoop_other r data c j :
  (j < length (nodes c))%nat → j ∉ writeBufferList_ c → healthy r → node_at (sendInLoop r data c) j = node_at c j.
Proof.
  intros Hlt Hj Hr. unfold sendInLoop. case_match; [done|].
  set (turn := if negb (writing c) && _ then _ else _). destruct turn as [n c1] eqn:Hturn.
  assert (H1 : nodes c1 = nodes c ∧ writeBufferList_ c1 = writeBufferList_ c).
  { unfold turn in Hturn. case_if; [|by injection Hturn as <- <-].
    apply writeRaw_spec in Hturn as (_ & _ & Hn & Hq & _); [|done]. split; [done | apply Hq]. }
  destruct H1 as [Hn1 Hl1]. assert (Hnode : node_at c1 j = node_at c j) by (unfold node_at; by rewrite Hn1).
  repeat (case_match; [done|]). case_match; [|done].
  destruct (check_high_water_same (append_to_last (drop (Z.to_nat n) data) (last_mem_node c1))) as ((Hn & _) & _).
  unfold node_at at 1. rewrite Hn. fold (node_at (append_to_last (drop (Z.to_nat n) data) (last_mem_node c1)) j).
  rewrite <- Hnode. rewrite <- Hn1 in Hlt. rewrite <- Hl1 in Hj. clear -Hlt Hj.
  assert (Hnew : last_mem_node c1 = push_back (length (nodes c1)) (snd (alloc (MemBufferNode false []) c1)) →
    node_at (append_to_last (drop (Z.to_nat n) data) (last_mem_node c1)) j = node_at c1 j).
  { intros ->. rewrite (proj2 (new_mem_node _ c1)). by apply (node_at_alloc _ c1). }
  unfold last_mem_node in *. destruct (last (writeBufferList_ c1)) as [id|] eqn:Hlast; [|by apply Hnew].
  case_match; [by apply Hnew|]. unfold append_to_last. rewrite Hlast.
  apply (node_other id); [apply frame_put|]. intros ->. apply Hj. apply last_Some in Hlast as [l ->]. in_list.
Qed.

Lemma joined_other ks id c sp j n ks' c1 :
  in_order (push_back id c) sp → Forall healthy ks → j ≠ id → sendNodeInLoop ks id c = (n, ks', c1) →
  node_at c1 j = node_at c j.
Proof.
  intros Hio Hks Hj Hs. destruct (joining_known _ _ _ Hio) as [Hid Hok].
  apply sendNode_spec in Hs as (Hs & _); [|done..]. apply (node_other id); [apply Hs | done].
Qed.

Lemma send_or_queue_other ks id c sp j :
  in_order (push_back id c) sp → Forall healthy ks → j ≠ id → node_at (send_or_queue ks id c) j = node_at c j.
Proof.
  intros Hio Hks Hj. unfold send_or_queue. case_match; [|done].
  destruct (sendNodeInLoop ks id c) as [[n ks'] c1] eqn:Hs. pose proof (joined_other _ _ _ _ _ _ _ _ Hio Hks Hj Hs).
  by case_match.
Qed.

Lemma suspend_kickoff_same c :
  same_output c (suspend_kickoff c) ∧ quiet c (suspend_kickoff c) ∧ writing (suspend_kickoff c) = writing c.
Proof. done. Qed.

Lemma push_async_queued_other ks d id c sp j :
  in_order (push_back id c) sp → Forall healthy ks → j ≠ id → node_at (push_async_queued ks d id c) j = node_at c j.
Proof.
  intros Hio Hks Hj. unfold push_async_queued. set (c0 := if d then suspend_kickoff c else c).
  assert (Hio0 : in_order (push_back id c0) sp) by (by apply (io_same (push_back id c)); [unfold c0; by destruct d|]).
  assert (Hn : node_at c0 j = node_at c j) by (unfold c0; by destruct d). rewrite <- Hn.
  case_match; [|done].
  destruct (sendNodeInLoop ks id c0) as [[n ks'] c1] eqn:Hs. pose proof (joined_other _ _ _ _ _ _ _ _ Hio0 Hks Hj Hs).
  by case_match.
Qed.

Lemma sendAsyncDataInLoop_other r id data c j :
  healthy r → j ≠ id → node_at (sendAsyncDataInLoop r id data c) j = node_at c j.
Proof.
  intros Hr Hj. unfold sendAsyncDataInLoop. destruct data as [data|].
  - case_match; [|done]. case_match; [|apply (node_other id); [apply frame_put | done]].
    destruct (writeInLoop r data c) as [n c1] eqn:Hw. apply writeRaw_spec in Hw as (_ & _ & Hn & _); [|done].
    assert (H1 : node_at c1 j = node_at c j) by (unfold node_at; by rewrite Hn).
    repeat case_match; try done. rewrite <- H1. apply (node_other id); [apply frame_put | done].
  - set (c2 := if _ && _ then _ else _). destruct (resume_kickoff_same c2) as ((Hn & _) & _).
    unfold node_at at 1. rewrite Hn. unfold c2. etrans; [|apply (node_other id j c (put_node id (done_ (node_at c id)) c));
      [apply frame_put | done]]. by case_match.
Qed.

(** ** Runs of a connection *)

(** A new connection, before [connectEstablished]. *)
Definition new_conn (l : Life) (mark : option Z) : Conn :=
  {| nodes := []; writeBufferList_ := []; reading := false; writing := false; status_ := Connecting;
     closeOnEmpty_ := false; bytesSent_ := 0; bytesReceived_ := 0; highWater := mark; life := l; funcs := [];
     wire := []; writeClosed := false; events := [] |}.

(** What is asked of a queued function when it runs.  A file does not meet
    [EAGAIN] when it is the first thing to send; a stream is not finished, nor
    used after its end. *)
Definition task_ok (ks : list reply) (c : Conn) (t : task) : Prop :=
  match t with
  | TSend data => fits data
  | TNode id => writeBufferList_ c = [] → isFile (node_at c id) = true → 0 ≤ r_ret (next_reply ks)
  | TAsyncPush id _ => isDone (node_at c id) = false ∧ node_fits (node_at c id)
  | TAsyncData id data =>
      isAsync (node_at c id) = true ∧
      (∀ bs, data = Some bs → isDone (node_at c id) = false ∧ fits bs)
  | _ => True
  end.

Definition ask (inLoop : bool) (c : Conn) (t : task) (sp : slots) : slots :=
  if inLoop then ask_task c t sp else sp.

Section Run.
Context (cb : Callbacks).

Inductive step : Conn * slots → Conn * slots → Prop :=
| StEstablish c sp : status_ c = Connecting → step (c, sp) (connectEstablished cb c, sp)
| StSend inLoop r data c sp : healthy r → fits data →
    step (c, sp) (send inLoop r data c, ask inLoop c (TSend data) sp)
| StNode inLoop ks n c sp : Forall healthy ks → isAsync n = false → 0 < remainingBytes n → node_ok n → node_fits n →
    (inLoop = true → writeBufferList_ c = [] → isFile n = true → 0 ≤ r_ret (next_reply ks)) →
    step (c, sp) (sendNode inLoop ks n c, if inLoop then sp ++ [(None, rest n)] else sp)
| StAsyncStream inLoop d c sp :
    step (c, sp) (snd (sendAsyncStream inLoop d c), if inLoop then sp ++ [(Some (length (nodes c)), [])] else sp)
| StAsync inLoop r id data c sp : healthy r → task_ok [r] c (TAsyncData id data) →
    step (c, sp) (snd (async_callback inLoop r id data c),
                  if bool_decide (status_ c = Connected) then ask inLoop c (TAsyncData id data) sp else sp)
| StShutdown inLoop c sp : step (c, sp) (run_shutdown inLoop c, sp)
| StForceClose inLoop c sp : step (c, sp) (run_forceClose cb inLoop c, sp)
| StTask ks t c sp : Forall healthy ks → head (funcs c) = Some t → task_ok ks c t →
    step (c, sp) (run_task cb ks c, ask_task c t sp)
| StEvent ev n e ks c sp : Forall healthy ks → step (c, sp) (handleEvent cb ev n e ks c, sp)
| StKeepAlive c sp : step (c, sp) (keepAlive c, sp)
| StKickOff timeout c sp : step (c, sp) (enableKickingOff timeout c, sp)
| StEntry e c sp : step (c, sp) (drop_entry cb e c, sp)
| StDestroyed c sp : step (c, sp) (connectDestroyed c, sp).

Record sound (s : Conn * slots) : Prop := {
  sd_good : good s.1 s.2;
  sd_pending : pending_ok s.1
}.

(** A step that changes neither nodes nor queue keeps what is pending. *)
Lemma pending_same c c' : pending_ok c → nodes c' = nodes c → funcs c' = funcs c → pending_ok c'.
Proof. intros H Hn Hf id Hid. rewrite Hf in Hid. unfold node_at. rewrite Hn. by apply H. Qed.

(** A step that touches only nodes which are not pending. *)
Lemma pending_other c c' :
  pending_ok c → (∀ t, t ∈ funcs c' → t ∈ funcs c) → (∀ j, TNode j ∈ funcs c' → node_at c' j = node_at c j) →
  pending_ok c'.
Proof. intros H Hf Hn id Hid. rewrite Hn by done. auto. Qed.


(** The queue stays, and the write side is not closed. *)
Definition calm (c c' : Conn) : Prop := funcs c' = funcs c ∧ writeClosed c' = writeClosed c.

Lemma quiet_calm c c' : quiet c c' → calm c c'.
Proof. by intros []. Qed.

Lemma writeRaw_calm r data c n c' : healthy r → writeRaw r data c = (n, c') → calm c c'.
Proof. intros Hr Hw. apply writeRaw_spec in Hw as (_ & _ & _ & Hq & _); [by apply quiet_calm | done]. Qed.

Lemma sendInLoop_calm r data c : healthy r → calm c (sendInLoop r data c).
Proof.
  intros Hr. unfold sendInLoop. case_match; [done|].
  set (turn := if negb (writing c) && _ then _ else _). destruct turn as [n c1] eqn:Hturn.
  assert (H1 : calm c c1).
  { unfold turn in Hturn. case_if; [by apply (writeRaw_calm r data c n) | by injection Hturn as <- <-]. }
  repeat (case_match; [done|]). case_match; [|done].
  destruct (check_high_water_same (append_to_last (drop (Z.to_nat n) data) (last_mem_node c1))) as (_ & Hq & _).
  unfold calm in *. rewrite (q_funcs _ _ Hq), (q_closed _ _ Hq), <- (proj1 H1), <- (proj2 H1).
  unfold append_to_last, last_mem_node. cbn [alloc].
  destruct (last (writeBufferList_ c1)); [case_if|]; by destruct (last _).
Qed.

Lemma sendNode_calm ks id c n ks' c' :
  Forall healthy ks → (id < length (nodes c))%nat → node_ok (node_at c id) →
  sendNodeInLoop ks id c = (n, ks', c') → calm c c'.
Proof.
  intros Hks Hid Hok Hs. apply sendNode_spec in Hs as (Hs & _); [apply quiet_calm, (s_frame _ _ _ Hs) | done..].
Qed.

Lemma write_loop_calm l : ∀ ks c sp,
  Forall healthy ks → in_order c sp → writeBufferList_ c = l →
  funcs (write_loop l ks c) = funcs c ∧
  (writeClosed (write_loop l ks c) = writeClosed c ∨ writeBufferList_ (write_loop l ks c) = []).
Proof.
  induction l as [|id l IH]; intros ks c sp Hks Hio Hl; cbn [write_loop].
  { unfold end_of_list, shutdown. repeat case_match; (split; [done|]); by (left + right). }
  assert (Hid : id ∈ writeBufferList_ c) by (rewrite Hl; in_list).
  assert (Hlt : (id < length (nodes c))%nat) by (by apply (owned_node _ _ sp)).
  assert (Hok : node_ok (node_at c id)) by (apply (io_ok _ _ Hio); unfold owned; in_list).
  set (turn := if _ =? 0 then _ else _). destruct turn as [[n ks1] c1] eqn:Hturn.
  assert (Hs : sent id c c1 ∧ Forall healthy ks1 ∧ calm c c1).
  { unfold turn in Hturn. case_if; [by injection Hturn as <- <- <-|].
    pose proof (sendNode_calm _ _ _ _ _ _ Hks Hlt Hok Hturn). apply sendNode_spec in Hturn as (? & ? & _); done. }
  destruct Hs as (Hs & Hks1 & Hf1).
  assert (Hio1 : in_order c1 sp) by (by apply (io_sent id l c)).
  assert (Hl1 : writeBufferList_ c1 = id :: l) by (by rewrite (q_list _ _ (fr_quiet _ _ _ (s_frame _ _ _ Hs)))).
  destruct Hf1 as [Hf1 Hc1]. rewrite <- Hf1, <- Hc1.
  case_match eqn:Hstop; [auto|]. case_match eqn:Hpop; [|auto].
  apply orb_false_iff in Hstop as [Hrem _]. apply negb_false_iff, Z.eqb_eq in Hrem.
  apply (IH ks1 (set_list l c1) sp); try done. apply (io_pop id); try done.
  - apply rest_remaining; [|done]. by apply (s_ok _ _ _ Hs).
  - intros Ha. rewrite Ha in Hpop. cbn in Hpop. rewrite async_available in Hpop by done.
    by rewrite negb_involutive in Hpop.
Qed.

Lemma joined_calm ks id c sp n ks' c1 :
  in_order (push_back id c) sp → Forall healthy ks → sendNodeInLoop ks id c = (n, ks', c1) → calm c c1.
Proof.
  intros Hio Hks Hs. destruct (joining_known _ _ _ Hio) as [Hid Hok]. by apply (sendNode_calm ks id c n ks').
Qed.

Lemma send_or_queue_calm ks id c sp :
  in_order (push_back id c) sp → Forall healthy ks → calm c (send_or_queue ks id c).
Proof.
  intros Hio Hks. unfold send_or_queue. case_match; [|done].
  destruct (sendNodeInLoop ks id c) as [[n ks'] c1] eqn:Hs. pose proof (joined_calm _ _ _ _ _ _ _ Hio Hks Hs).
  by case_match.
Qed.

Lemma sendAsyncDataInLoop_calm r id data c :
  healthy r → calm c (sendAsyncDataInLoop r id data c).
Proof.
  intros Hr. unfold sendAsyncDataInLoop, resume_kickoff. destruct data as [data|]; [|by repeat case_match].
  case_match; [|done]. case_match; [|done].
  destruct (writeInLoop r data c) as [n c1] eqn:Hw. pose proof (writeRaw_calm _ _ _ _ _ Hr Hw). by repeat case_match.
Qed.

(** ** Each operation keeps a connection sound *)

Lemma sendInLoop_sound r data c sp :
  healthy r → fits data → sound (c, sp) → sound (sendInLoop r data c, ask_send c data sp).
Proof.
  intros Hr Hfit [Hg Hp]. split; cbn in *; [by apply sendInLoop_good|].
  apply (pending_other c); [done | by rewrite (proj1 (sendInLoop_calm r data c Hr))|].
  rewrite (proj1 (sendInLoop_calm r data c Hr)).
  intros j Hj. destruct (pending_apart j c sp (g_order _ _ Hg) Hj) as (? & ? & _). by apply sendInLoop_other.
Qed.

Lemma queue_sound t c sp :
  pushed_by t = [] → sound (c, sp) → sound (queueInLoop t c, sp).
Proof.
  intros Ht [[Hio Hp] Hpend]. split; cbn in *.
  - split; [by apply io_queue|]. by destruct Hp.
  - intros id Hid. cbn in Hid. apply elem_of_app in Hid as [Hid|Hid%list_elem_of_singleton]; [by apply Hpend | by subst].
Qed.

Lemma send_or_queue_sound ks id c sp :
  Forall healthy ks → in_order (push_back id c) sp → progress c → pending_ok c → (∀ j, TNode j ∈ funcs c → j ≠ id) →
  isAsync (node_at c id) = false → 0 < remainingBytes (node_at c id) → node_fits (node_at c id) →
  (writeBufferList_ c = [] → isFile (node_at c id) = true → 0 ≤ r_ret (next_reply ks)) →
  sound (send_or_queue ks id c, sp).
Proof.
  intros Hks Hio Hp Hpend Hne Ha Hrem Hfit Hfile. split; cbn.
  - apply send_or_queue_good; try done. intros Hl. destruct (isFile _) eqn:Hf; [right; auto | by left].
  - apply (pending_other c); [done | by rewrite (proj1 (send_or_queue_calm _ _ _ sp Hio Hks))|].
    rewrite (proj1 (send_or_queue_calm _ _ _ sp Hio Hks)). intros j Hj. apply (send_or_queue_other _ _ _ sp); auto.
Qed.

Lemma async_sound r id data c sp :
  healthy r → task_ok [r] c (TAsyncData id data) → sound (c, sp) →
  sound (sendAsyncDataInLoop r id data c, ask_task c (TAsyncData id data) sp).
Proof.
  intros Hr [Ha Hdata] [Hg Hp]. split; cbn in *.
  - destruct data as [data|]; [|by apply closeAsync_good]. destruct (Hdata data eq_refl). by apply sendAsyncDataInLoop_good.
  - apply (pending_other c); [done | by rewrite (proj1 (sendAsyncDataInLoop_calm r id data c Hr))|].
    rewrite (proj1 (sendAsyncDataInLoop_calm r id data c Hr)). intros j Hj. apply sendAsyncDataInLoop_other; [done|]. intros ->.
    destruct (pending_apart id c sp (g_order _ _ Hg) Hj) as (_ & _ & ?). congruence.
Qed.

(** Operations on the status, the channel, the idle timer and the events only. *)
Lemma sound_aside c c' sp :
  sound (c, sp) → same_output c c' → progress c' → sound (c', sp).
Proof.
  intros [[Hio _] Hp] Hs Hpr. split; cbn in *.
  - split; [by apply (io_same c) | done].
  - destruct Hs as (Hn & _ & Hf & _). by apply (pending_same c).
Qed.

Lemma handleClose_sound c sp : sound (c, sp) → sound (handleClose cb c, sp).
Proof. intros H. apply (sound_aside c); [done | done|]. apply (g_progress _ sp), handleClose_good, H. Qed.

Lemma forceClose_sound c sp : sound (c, sp) → sound (forceClose cb c, sp).
Proof.
  intros H. apply (sound_aside c); [done | by unfold forceClose; case_match |].
  apply (g_progress _ sp), forceClose_good, H.
Qed.

Lemma shutdown_sound c sp : sound (c, sp) → sound (shutdown c, sp).
Proof.
  intros H. apply (sound_aside c); [done | by unfold shutdown; repeat case_match |].
  apply (g_progress _ sp), shutdown_good, H.
Qed.

Lemma extendLife_sound c sp : sound (c, sp) → sound (extendLife c, sp).
Proof.
  intros H. pose proof (sd_good _ H) as Hg. cbn in Hg. destruct (extendLife_same c) as (Hq & Hn & Hw & Hwr).
  apply (sound_aside c); [done | split_and!; try done; apply Hq |].
  apply (progress_same c); [apply Hg | done | done | done].
Qed.

Lemma note_sound e c sp : sound (c, sp) → sound (note e c, sp).
Proof. intros H. apply (sound_aside c); [done | done|]. pose proof (sd_good _ H) as [_ Hp]. by destruct Hp. Qed.

Lemma readCallback_sound n e c sp : sound (c, sp) → sound (readCallback cb n e c, sp).
Proof.
  intros H. unfold readCallback. case_if; [case_match; try done; by apply handleClose_sound|].
  set (c1 := extendLife _). assert (H1 : sound (c1, sp)).
  { apply extendLife_sound. case_if; [by apply handleClose_sound | done]. }
  case_if; [|done]. assert (H2 : sound (add_received n c1, sp)).
  { apply (sound_aside c1); [done | done|]. pose proof (sd_good _ H1) as [_ Hp]. by destruct Hp. }
  case_if; [by apply note_sound | done].
Qed.

Lemma writeCallback_sound ks c sp : Forall healthy ks → sound (c, sp) → sound (writeCallback ks c, sp).
Proof.
  intros Hks [Hg Hp]. cbn in *. split; cbn; [by apply writeCallback_good|].
  unfold writeCallback. case_if; [|done].
  apply (pending_other c); [done | by rewrite (proj1 (write_loop_calm _ ks c sp Hks (g_order _ _ Hg) eq_refl))|].
  rewrite (proj1 (write_loop_calm _ ks c sp Hks (g_order _ _ Hg) eq_refl)). intros j Hj.
  destruct (pending_apart j c sp (g_order _ _ Hg) Hj) as (? & _).
  by apply (write_loop_other _ _ _ sp); [| apply Hg | |].
Qed.

Lemma handleEvent_sound ev n e ks c sp : Forall healthy ks → sound (c, sp) → sound (handleEvent cb ev n e ks c, sp).
Proof.
  intros Hks H. unfold handleEvent. case_if; [done|].
  set (c1 := if pollhup ev && _ then _ else c).
  assert (H1 : sound (c1, sp)) by (unfold c1; case_if; [by apply handleClose_sound | done]).
  set (c2 := if pollin ev || _ then _ else c1).
  assert (H2 : sound (c2, sp)) by (unfold c2; case_if; [by apply readCallback_sound | done]).
  case_if; [by apply writeCallback_sound | done].
Qed.

(** A new node, given to the loop at once or queued. *)
Lemma alloc_progress n c : progress c → (∀ id, id ∈ writeBufferList_ c → (id < length (nodes c))%nat) → progress (snd (alloc n c)).
Proof.
  intros [] Hlt. split; auto. intros Hst. destruct (pg_armed0 Hst) as [?|[?|(id & l & Hl & Hi)]]; [by left | by right; left |].
  right. right. exists id, l. rewrite node_at_alloc by (apply Hlt; rewrite Hl; in_list). done.
Qed.

Lemma alloc_pending n c sp : in_order c sp → pending_ok c → pending_ok (snd (alloc n c)).
Proof.
  intros Hio Hp. apply (pending_other c); try done. intros j Hj. cbn in Hj.
  destruct (pending_apart j c sp Hio Hj) as (_ & ? & _). by apply node_at_alloc.
Qed.

Lemma sendNode_sound inLoop ks n c sp :
  Forall healthy ks → isAsync n = false → 0 < remainingBytes n → node_ok n → node_fits n →
  (inLoop = true → writeBufferList_ c = [] → isFile n = true → 0 ≤ r_ret (next_reply ks)) →
  sound (c, sp) → sound (sendNode inLoop ks n c, if inLoop then sp ++ [(None, rest n)] else sp).
Proof.
  intros Hks Ha Hrem Hok Hfit Hfile [[Hio Hpr] Hp]. cbn in *. unfold sendNode. cbn [alloc].
  set (id := length (nodes c)). change (set_out (nodes c ++ [n]) (writeBufferList_ c) c) with (snd (alloc n c)).
  assert (Hn : node_at (snd (alloc n c)) id = n) by apply node_at_new.
  assert (Hpr1 : progress (snd (alloc n c))).
  { apply alloc_progress; [done|]. intros j Hj. by apply (owned_node _ _ sp). }
  pose proof (alloc_pending n c sp Hio Hp) as Hp1. destruct inLoop.
  - pose proof (io_push_new n c sp Hio Hok) as Hio1. cbn zeta in Hio1. fold id in Hio1.
    unfold id in Hio1 at 2. rewrite tag_new, Ha in Hio1. fold id in Hio1.
    apply send_or_queue_sound; rewrite ?Hn; auto.
    intros j Hj. destruct (pending_apart j c sp Hio Hj) as (_ & ? & _). unfold id. lia.
  - split; cbn.
    + split; [apply (io_queue_new n); auto | by destruct Hpr1].
    + intros j Hj. cbn in Hj. apply elem_of_app in Hj as [Hj|Hj%list_elem_of_singleton]; [by apply Hp1|].
      injection Hj as ->. 
      change (0 < remainingBytes (node_at (snd (alloc n c)) id) ∧ node_fits (node_at (snd (alloc n c)) id)).
      by rewrite Hn.
Qed.

Lemma sendAsyncStream_sound inLoop d c sp :
  sound (c, sp) →
  sound (snd (sendAsyncStream inLoop d c), if inLoop then sp ++ [(Some (length (nodes c)), [])] else sp).
Proof.
  intros [[Hio Hpr] Hp]. cbn in *. set (id := length (nodes c)). set (n := AsyncBufferNode false None).
  unfold sendAsyncStream. cbn [alloc]. fold id.
  change (set_out (nodes c ++ [n]) (writeBufferList_ c) c) with (snd (alloc n c)).
  assert (Hn : node_at (snd (alloc n c)) id = n) by apply node_at_new.
  assert (Hpr1 : progress (snd (alloc n c))).
  { apply alloc_progress; [done|]. intros j Hj. by apply (owned_node _ _ sp). }
  pose proof (alloc_pending n c sp Hio Hp) as Hp1. destruct inLoop; cbn [snd].
  - pose proof (io_push_new n c sp Hio I) as Hio1. cbn zeta in Hio1. rewrite tag_new in Hio1. fold id in Hio1.
    change (isAsync n) with true in Hio1. cbn iota in Hio1. change (rest n) with (@nil Z) in Hio1.
    set (c1 := push_back id (snd (alloc n c))) in *.
    assert (Hs : sound (c1, sp ++ [(Some id, [])])).
    { split; cbn; [|by apply (pending_same (snd (alloc n c)))]. split; [done|].
      destruct (decide (writeBufferList_ c = [])) as [Hl|Hl].
      - apply idle_progress; [exact (progress_closing _ Hpr1) | |].
        + destruct (writing c) eqn:E; [by destruct (pg_writing _ Hpr E) | done].
        + exists id, []. change (node_at c1 id) with (node_at (snd (alloc n c)) id). rewrite Hn. cbn. by rewrite Hl.
      - by apply (progress_grow (snd (alloc n c)) c1 [id]). }
    destruct d; [|done]. apply (sound_aside c1); [done | done|].
    pose proof (sd_good _ Hs) as [_ Hq]. by destruct Hq.
  - split; cbn.
    + split; [|by destruct Hpr1]. apply (io_queue_new n); [done | done|]. right. by exists d.
    + intros j Hj. cbn in Hj. apply elem_of_app in Hj as [Hj|Hj%list_elem_of_singleton]; [by apply Hp1 | done].
Qed.

(** The function at the head of the queue is taken out. *)
Section Task.
Context (t : task) (ts : list task) (c : Conn) (sp : slots).
Hypothesis Hf : funcs c = t :: ts.
Hypothesis Hs : sound (c, sp).
Let c1 := set_funcs ts c.

Lemma dequeued_progress : progress c1 ∧ pending_ok c1.
Proof.
  destruct Hs as [[_ Hp] Hpend]. cbn in *. split; [by destruct Hp|].
  apply (pending_other c); try done. intros u Hu. rewrite Hf. by right.
Qed.

Lemma dequeue_sound : pushed_by t = [] → sound (c1, sp).
Proof.
  intros Ht. destruct dequeued_progress. split; [|done]. split; [|done].
  apply (io_dequeue t); [apply Hs | done | done].
Qed.

Lemma dequeue_apart id j : pushed_by t = [id] → TNode j ∈ ts → j ≠ id.
Proof.
  intros Ht Hj ->. pose proof (io_nodup _ _ (g_order _ _ (sd_good _ Hs))) as Hnd. cbn in Hnd.
  unfold owned in Hnd. rewrite Hf in Hnd. cbn in Hnd. rewrite Ht in Hnd.
  apply list.NoDup_app in Hnd as (_ & _ & Hnd). cbn in Hnd. apply list.NoDup_cons in Hnd as [Hnd _]. apply Hnd.
  apply list_elem_of_bind. exists (TNode id). split; [cbn; in_list | done].
Qed.

Lemma task_node_sound ks id :
  t = TNode id → Forall healthy ks → task_ok ks c t → sound (send_or_queue ks id c1, ask_task c t sp).
Proof.
  intros Ht Hks Hok. destruct Hs as [[Hio Hp] Hpend], dequeued_progress as [Hp1 Hpend1]. cbn in *.
  assert (Hin : TNode id ∈ funcs c) by (rewrite Hf, Ht; by left).
  pose proof (io_plain _ _ Hio id Hin) as Ha. destruct (Hpend id Hin) as [Hrem Hfit].
  pose proof (io_push_queued id t ts c sp Hio Hf ltac:(by rewrite Ht)) as Hio1. unfold tag in Hio1. rewrite Ha in Hio1.
  rewrite Ht in Hok |- *. apply send_or_queue_sound; try done.
  intros j Hj. apply dequeue_apart; [by rewrite Ht | done].
Qed.

Lemma task_push_sound ks id d :
  t = TAsyncPush id d → Forall healthy ks → task_ok ks c t → sound (push_async_queued ks d id c1, ask_task c t sp).
Proof.
  intros Ht Hks Hok. destruct Hs as [[Hio Hp] Hpend], dequeued_progress as [Hp1 Hpend1]. cbn in *.
  pose proof (io_streams _ _ Hio id d ltac:(rewrite Hf, Ht; by left)) as Ha.
  pose proof (io_push_queued id t ts c sp Hio Hf ltac:(by rewrite Ht)) as Hio1. unfold tag in Hio1. rewrite Ha in Hio1.
  rewrite Ht in Hok |- *. destruct Hok as [Hd Hfit]. cbn [ask_task]. unfold push_async_queued.
  set (c2 := if d then suspend_kickoff c1 else c1).
  assert (Hn2 : ∀ j, node_at c2 j = node_at c j) by (intros j; unfold c2; by destruct d).
  assert (Hf2 : funcs c2 = ts) by (unfold c2; by destruct d).
  assert (Hio2 : in_order (push_back id c2) (sp ++ [(Some id, rest (node_at c id))])).
  { apply (io_same (push_back id c1)); [unfold c2; by destruct d | done]. }
  assert (Hp2 : progress c2) by (apply (progress_same c1); unfold c2; by destruct d).
  split; cbn [fst snd]; [apply push_queued_good; try done; by rewrite Hn2|].
  set (c3 := if _ && _ then _ else push_back id c2).
  assert (Hf3 : funcs c3 = ts ∧ ∀ j, j ≠ id → node_at c3 j = node_at c2 j).
  { split; [|intros j Hj].
    - rewrite <- Hf2. unfold c3. case_match; [|done].
      destruct (sendNodeInLoop ks id c2) as [[n ks'] c4] eqn:Hsend.
      destruct (joined_calm _ _ _ _ _ _ _ Hio2 Hks Hsend). by case_match.
    - unfold c3. case_match; [|done]. destruct (sendNodeInLoop ks id c2) as [[n ks'] c4] eqn:Hsend.
      pose proof (joined_other _ _ _ _ _ _ _ _ Hio2 Hks Hj Hsend). by case_match. }
  destruct Hf3 as [Hf3 Hn3]. intros j Hj. rewrite Hf3 in Hj.
  rewrite Hn3 by (apply dequeue_apart; [by rewrite Ht | done]). rewrite Hn2. apply Hpend. rewrite Hf. by right.
Qed.

End Task.

Lemma run_task_sound ks t c sp :
  head (funcs c) = Some t → Forall healthy ks → task_ok ks c t → sound (c, sp) →
  sound (run_task cb ks c, ask_task c t sp).
Proof.
  intros Hh Hks Hok Hs. destruct (funcs c) as [|t' ts] eqn:Hf; [done|]. injection Hh as ->.
  unfold run_task. rewrite Hf. pose proof (healthy_next _ Hks) as Hr. pose proof (dequeue_sound t ts c sp Hf Hs) as Hd.
  destruct t as [data|id|id d|id data| |].
  - apply (sendInLoop_sound _ data (set_funcs ts c)); auto.
  - by apply (task_node_sound (TNode id) ts c sp).
  - by apply (task_push_sound (TAsyncPush id d) ts c sp).
  - apply (async_sound _ id data (set_funcs ts c)); auto.
  - by apply shutdown_sound, Hd.
  - by apply forceClose_sound, Hd.
Qed.

Lemma step_sound s s' : sound s → step s s' → sound s'.
Proof.
  intros Hs Hstep. destruct Hstep as [c sp Hst|inLoop r data c sp|inLoop ks n c sp|inLoop d c sp|inLoop r id data c sp Hr Hok
    |inLoop c sp|inLoop c sp|ks t c sp|ev n e ks c sp| | |e c sp|c sp].
  - apply (sound_aside c); [done | by unfold connectEstablished; case_match |].
    pose proof (sd_good _ Hs) as [_ []]. cbn in *. unfold connectEstablished.
    assert (Ha : writing c = true ∨ writeBufferList_ c = [] ∨ idle_head c) by (apply pg_armed0; congruence).
    case_match; split; cbn; intros; rewrite ?pg_fresh0 in * by done; auto; try done.
  - destruct inLoop; cbn; [by apply sendInLoop_sound | by apply queue_sound].
  - by apply sendNode_sound.
  - by apply sendAsyncStream_sound.
  - unfold async_callback. case_bool_decide; cbn; [|done]. destruct inLoop; [by apply async_sound | by apply queue_sound].
  - destruct inLoop; cbn; [by apply shutdown_sound | by apply queue_sound].
  - destruct inLoop; cbn; [by apply forceClose_sound | by apply queue_sound].
  - by apply run_task_sound.
  - by apply handleEvent_sound.
  - pose proof (sd_good _ Hs) as [_ []]. by apply (sound_aside c).
  - pose proof (sd_good _ Hs) as [_ []]. by apply (sound_aside c).
  - pose proof (sd_good _ Hs) as [_ []]. unfold drop_entry. set (c1 := set_life _ c).
    assert (H1 : sound (c1, sp)) by (by apply (sound_aside c)). case_match; [|done]. case_if; [by apply forceClose_sound | done].
  - pose proof (sd_good _ Hs) as [_ []]. apply (sound_aside c); [done | by unfold connectDestroyed; case_match |].
    unfold connectDestroyed. case_match eqn:Hst; split; cbn in *; rewrite ?Hst in *; auto; try done; by intros [|].
Qed.

End Run.

(** ** When the write side is closed *)

Section Fin.
Context (cb : Callbacks).

Definition fin_clean (c c' : Conn) : Prop := writeClosed c' = writeClosed c ∨ writeBufferList_ c' = [].

Lemma calm_clean c c' : calm c c' → fin_clean c c'.
Proof. intros [_ H]. by left. Qed.

Lemma shutdown_clean c : fin_clean c (shutdown c).
Proof.
  unfold fin_clean, shutdown. case_bool_decide; [|by left]. case_bool_decide; cbn; [|by left].
  case_if; [by right | by left].
Qed.

Lemma handleClose_clean c : writeClosed (handleClose cb c) = writeClosed c.
Proof. done. Qed.

Lemma forceClose_clean c : writeClosed (forceClose cb c) = writeClosed c.
Proof. unfold forceClose. by case_match. Qed.

Lemma extendLife_clean c : writeClosed (extendLife c) = writeClosed c.
Proof. apply extendLife_same. Qed.

Lemma readCallback_clean n e c : writeClosed (readCallback cb n e c) = writeClosed c.
Proof.
  unfold readCallback. case_if; [by case_match|].
  set (c1 := extendLife _). assert (H1 : writeClosed c1 = writeClosed c).
  { unfold c1. rewrite extendLife_clean. by case_if. }
  case_if; [|done]. by case_if.
Qed.

Lemma writeCallback_clean ks c sp : Forall healthy ks → in_order c sp → fin_clean c (writeCallback ks c).
Proof.
  intros Hks Hio. unfold writeCallback. case_if; [|by left]. by apply (write_loop_calm _ ks c sp).
Qed.

Lemma handleEvent_clean ev n e ks c sp :
  Forall healthy ks → sound (c, sp) → fin_clean c (handleEvent cb ev n e ks c).
Proof.
  intros Hks Hs. unfold handleEvent. case_if; [by left|].
  set (c1 := if pollhup ev && _ then _ else c).
  assert (H1 : sound (c1, sp) ∧ writeClosed c1 = writeClosed c).
  { unfold c1. case_if; [split; [by apply handleClose_sound | done] | done]. }
  set (c2 := if pollin ev || _ then _ else c1).
  assert (H2 : sound (c2, sp) ∧ writeClosed c2 = writeClosed c).
  { unfold c2. case_if; [|done]. rewrite readCallback_clean. split; [apply readCallback_sound, H1 | apply H1]. }
  destruct H2 as [Hs2 Hc2]. case_if; [|by left]. unfold fin_clean. rewrite <- Hc2.
  apply (writeCallback_clean _ _ sp); [done | apply Hs2].
Qed.

Lemma run_task_clean ks t c sp :
  head (funcs c) = Some t → Forall healthy ks → task_ok ks c t → sound (c, sp) → fin_clean c (run_task cb ks c).
Proof.
  intros Hh Hks Hok Hs. destruct (funcs c) as [|t' ts] eqn:Hf; [done|]. injection Hh as ->.
  unfold run_task. rewrite Hf. pose proof (healthy_next _ Hks) as Hr.
  pose proof (g_order _ _ (sd_good _ Hs)) as Hio. cbn in Hio.
  destruct t as [data|id|id d|id data| |].
  - apply (calm_clean (set_funcs ts c)). by apply sendInLoop_calm.
  - apply (calm_clean (set_funcs ts c)). eapply send_or_queue_calm; [|done]. by eapply io_push_queued.
  - unfold push_async_queued. set (c2 := if d then _ else _).
    assert (Hio2 : in_order (push_back id c2) (sp ++ [(tag c id, rest (node_at c id))])).
    { apply (io_same (push_back id (set_funcs ts c))); [unfold c2; by destruct d | by eapply io_push_queued]. }
    assert (Hc2 : writeClosed c2 = writeClosed c) by (unfold c2; by destruct d). unfold fin_clean. rewrite <- Hc2.
    case_match; [|by left]. destruct (sendNodeInLoop ks id c2) as [[n ks'] c4] eqn:Hsend.
    pose proof (joined_calm _ _ _ _ _ _ _ Hio2 Hks Hsend) as [_ Hc]. case_match; by left.
  - apply (calm_clean (set_funcs ts c)). by apply sendAsyncDataInLoop_calm.
  - apply (shutdown_clean (set_funcs ts c)).
  - left. by apply (forceClose_clean (set_funcs ts c)).
Qed.

Lemma step_clean c sp c' sp' : sound (c, sp) → step cb (c, sp) (c', sp') → fin_clean c c'.
Proof.
  intros Hs Hstep. pose proof (g_order _ _ (sd_good _ Hs)) as Hio. cbn in Hio.
  inversion Hstep; subst.
  - left. unfold connectEstablished. by case_match.
  - unfold send. destruct inLoop; [by apply calm_clean, sendInLoop_calm | by left].
  - unfold sendNode. cbn [alloc]. destruct inLoop; [|by left].
    apply (calm_clean (snd (alloc n c))). eapply send_or_queue_calm; [by apply io_push_new | done].
  - left. unfold sendAsyncStream. cbn. destruct inLoop; [by destruct d | done].
  - unfold async_callback. case_bool_decide; [|by left].
    destruct inLoop; cbn; [by apply calm_clean, sendAsyncDataInLoop_calm | by left].
  - destruct inLoop; [apply shutdown_clean | by left].
  - left. destruct inLoop; [apply forceClose_clean | done].
  - by eapply run_task_clean.
  - by eapply handleEvent_clean.
  - by left.
  - by left.
  - left. unfold drop_entry. case_match; [|done]. case_if; [|done]. by rewrite forceClose_clean.
  - left. unfold connectDestroyed. by case_match.
Qed.
End Fin.

(** ** Properties *)

Lemma new_conn_sound l mark : sound (new_conn l mark, []).
Proof.
  split; cbn; [split; split|]; try done; try (by apply list.NoDup_nil); cbn.
  1-3: by intros id ?%elem_of_nil.
  - by intros id d ?%elem_of_nil.
  - intros _. right. by left.
  - by intros id ?%elem_of_nil.
Qed.

Lemma run_sound cb l mark s : reachable (step cb) (new_conn l mark, []) s → sound s.
Proof. apply reachable_invariant; [apply new_conn_sound | apply step_sound]. Qed.




(** ** A run *)

Definition demo_life : Life :=
  {| now := 0; hasWheel := false; idleTimeout_ := 0; idleTimeoutBackup_ := 0; lastTimingWheelUpdateTime_ := 0;
     kickoffEntry_ := None; entries := ∅; nextEntry := 0; wheel := [] |}.

Definition all_cb : Callbacks := {| cb_connection := true; cb_close := true; cb_user := true; cb_recv := true |}.
Definition takes (n : Z) : reply := {| r_ret := n; r_errno := E0 |}.
Definition demo_file : BufferNode := FileBufferNode (newFileBufferNode (Some [40; 41; 42; 43]) true 1 2).
Definition writable : Revents := {| pollhup := false; pollin := false; pollpri := false; pollout := true |}.

(** Three bytes of which the kernel takes two, a file range, a stream with one
    byte, [shutdown], the stream's end, and two rounds of the socket. *)
Definition demo1 := connectEstablished all_cb (new_conn demo_life None).
Definition demo2 := send true (takes 2) [1; 2; 3] demo1.
Definition demo3 := sendNode true [] demo_file demo2.
Definition demo4 := snd (sendAsyncStream true false demo3).
Definition demo5 := snd (async_callback true again 2 (Some [7]) demo4).
Definition demo6 := run_shutdown true demo5.
Definition demo7 := snd (async_callback true again 2 None demo6).
Definition demo8 := handleEvent all_cb writable 0 E0 [takes 1; takes 1] demo7.
Definition demo9 := handleEvent all_cb writable 0 E0 [takes 5; takes 5] demo8.

Definition demo_slots : slots := [(None, [1; 2; 3]); (None, [41; 42]); (Some 2%nat, [7])].

Lemma healthy_takes n : healthy (takes n).
Proof. by right. Qed.

Lemma demo8_reachable : reachable (step all_cb) (new_conn demo_life None, []) (demo8, demo_slots).
Proof.
  exists 8%nat. apply (steps_snoc _ _ _ (demo7, demo_slots)).
  2:{ apply (StEvent all_cb writable 0 E0 [takes 1; takes 1] demo7). repeat constructor. }
  apply (steps_snoc _ _ _ (demo6, demo_slots)).
  2:{ apply (StAsync all_cb true again 2 None demo6 demo_slots); [by right | by split]. }
  apply (steps_snoc _ _ _ (demo5, demo_slots)); [|apply (StShutdown all_cb true)].
  apply (steps_snoc _ _ _ (demo4, [(None, [1; 2; 3]); (None, [41; 42]); (Some 2%nat, [])])).
  2:{ apply (StAsync all_cb true again 2 (Some [7]) demo4 [(None, [1; 2; 3]); (None, [41; 42]); (Some 2%nat, [])]);
        [by right|]. by split; [|intros bs [= <-]]. }
  apply (steps_snoc _ _ _ (demo3, [(None, [1; 2; 3]); (None, [41; 42])])).
  2:{ apply (StAsyncStream all_cb true false demo3 [(None, [1; 2; 3]); (None, [41; 42])]). }
  apply (steps_snoc _ _ _ (demo2, [(None, [1; 2; 3])])).
  2:{ apply (StNode all_cb true [] demo_file demo2 [(None, [1; 2; 3])]); done. }
  apply (steps_snoc _ _ _ (demo1, [])).
  2:{ apply (StSend all_cb true (takes 2) [1; 2; 3] demo1 []); [by left | done]. }
  apply (steps_snoc _ _ _ (new_conn demo_life None, [])); [apply steps_refl|]. by apply StEstablish.
Qed.




(** ** What the premises exclude *)

(** [sendfile] answers [EAGAIN] when nothing waits: [sendNodeInLoop] returns -1
    and the file is dropped, with the channel left waiting to write. *)
Example file_dropped_on_eagain :
  let c := sendNode true [again] demo_file demo1 in
  wire c = [] ∧ writeBufferList_ c = [] ∧ writing c = true ∧ status_ c = Connected ∧ remainingBytes (node_at c 0) = 2.
Proof. by vm_compute. Qed.

(** After that, [shutdown] leaves the write side open for good: the write
    callback finds the list empty and [closeOnEmpty_] unset. *)
Example shutdown_after_dropped_file :
  let c := handleEvent all_cb writable 0 E0 [] (run_shutdown true (sendNode true [again] demo_file demo1)) in
  status_ c = Disconnecting ∧ writeClosed c = false ∧ writing c = false ∧ writeBufferList_ c = [].
Proof. by vm_compute. Qed.

(** A message of [2^31] bytes or more: the length is negative as an [int], so
    a partial write does not make the channel wait for the socket. *)
Lemma big_write_not_armed r data c :
  2 ^ 31 ≤ Z.of_nat (length data) < 2 ^ 32 → writing (snd (writeRaw r data c)) = writing c.
Proof.
  intros Hlen. unfold writeRaw. set (len := Z.of_nat (length data)) in *.
  set (c1 := if 0 <? sys_count len r then _ else c). assert (H1 : writing c1 = writing c) by (unfold c1; by case_if).
  case_if; [done|]. cbn [snd]. destruct (extendLife_same (if (Z.max 0 (sys_count len r) <? wrapI32 len) && negb (writing c1)
    then enableWriting c1 else c1)) as (_ & _ & _ & ->).
  assert (Hw : wrapI32 len < 0).
  { unfold wrapI32. replace ((len + 2 ^ 31) mod 2 ^ 32) with (len - 2 ^ 31); [lia|].
    apply (Z.mod_unique _ _ 1); lia. }
  by rewrite (proj2 (Z.ltb_ge _ _)) by lia.
Qed.

(** The end of a stream that was queued before the peer closed arms the
    channel again, and a hang-up then runs the close callbacks twice. *)
Example close_callbacks_twice :
  let c1 := snd (async_callback false again 0 None (snd (sendAsyncStream true false demo1))) in
  let c2 := run_task all_cb [] (handleClose all_cb c1) in
  let c3 := handleEvent all_cb {| pollhup := true; pollin := false; pollpri := false; pollout := false |} 0 E0 [] c2 in
  writing c2 = true ∧
  events c3 = [ConnectionCallback Connected; ConnectionCallback Disconnected; CloseCallback; UserCloseCallback;
               ConnectionCallback Disconnected; CloseCallback; UserCloseCallback].
Proof. by vm_compute. Qed.

(** A [send] from another thread that returned before the loop's thread calls
    [send] is overtaken by it. *)
Example queued_send_overtaken :
  wire (run_task all_cb [takes 1] (send true (takes 1) [2] (send false (takes 1) [1] demo1))) = [2; 1].
Proof. by vm_compute. Qed.

(** A file that has become shorter: [sendfile] moves nothing, the node stays and
    the channel keeps waiting for a socket that is writable. *)
Example truncated_file_spins :
  let f := {| f_isDone := false; sendFd_ := Some []; fileBytesToSend_ := 5; f_msgBufferPtr_ := None |} in
  let c := send_or_queue [takes 0] 0 (snd (alloc (FileBufferNode f) demo1)) in
  writeBufferList_ c = [0%nat] ∧ writing c = true ∧ handleEvent all_cb writable 0 E0 [takes 0; takes 0] c = c.
Proof. by vm_compute. Qed.
