(* ===== verification/Router.v ===== *)
(** * Drogon's regex router (drogon/lib/src/HttpControllersRouter.cc)

    Every HTTP handler of the package is registered with
    [registerHandlerViaRegex], so of the router's tables only [ctrlVector_] is
    ever filled: one item per distinct pattern, in order of first registration,
    with one binder per method.  [std::regex_match] is a parameter: for a
    pattern and a path, the capture groups ([None]: a group that took no part
    in the match), or no match. *)

From stdpp Require Import base gmap strings list numbers.
From Stdlib Require Import ZArith Lia Ascii.
From S2P Require Import Prelude CDouble StaticFiles.

#[global] Instance HttpMethod_eq_dec : EqDecision HttpMethod.
Proof. solve_decision. Defined.

Section Router.
Context {T : Type}.

Record RouterItem := { pathParameterPattern_ : string; binders_ : HttpMethod → option T }.

Definition set_binder (t : T) (ms : list HttpMethod) (b : HttpMethod → option T) : HttpMethod → option T :=
  λ m, if decide (m ∈ ms) then Some t else b m.

(** [addCtrlBinderToRouterItem]; no methods means all of them. *)
Definition addCtrlBinderToRouterItem (t : T) (ms : list HttpMethod) (b : HttpMethod → option T)
    : HttpMethod → option T :=
  match ms with [] => λ _, Some t | _ => set_binder t ms b end.

Fixpoint addRegexCtrlBinder (t : T) (pattern : string) (ms : list HttpMethod) (v : list RouterItem) : list RouterItem :=
  match v with
  | [] => [{| pathParameterPattern_ := pattern; binders_ := addCtrlBinderToRouterItem t ms (λ _, None) |}]
  | it :: v' =>
      if String.eqb (pathParameterPattern_ it) pattern
      then {| pathParameterPattern_ := pathParameterPattern_ it;
              binders_ := addCtrlBinderToRouterItem t ms (binders_ it) |} :: v'
      else it :: addRegexCtrlBinder t pattern ms v'
  end.

Record handler := { hd_regex : string; hd_methods : list HttpMethod; hd_target : T }.

(** The handlers registered so far, in order. *)
Definition register_all (hs : list handler) : list RouterItem :=
  fold_left (λ v h, addRegexCtrlBinder (hd_target h) (hd_regex h) (hd_methods h) v) hs [].

(** The routing parameters: group [j] goes to place [j]; a group that took no
    part leaves an empty string when a later one did. *)
Fixpoint routing_params (groups : list (option string)) : list string :=
  match groups with
  | [] => []
  | None :: gs => match routing_params gs with [] => [] | ps => EmptyString :: ps end
  | Some s :: gs => s :: routing_params gs
  end.

Section Route.
Variable regex_match : string → string → option (list (option string)).

Inductive RouteResult := NotFound | Success (t : T) (params : list string).

Fixpoint route (m : HttpMethod) (path : string) (v : list RouterItem) : RouteResult :=
  match v with
  | [] => NotFound
  | it :: v' =>
      match binders_ it m with
      | Some t =>
          match regex_match (pathParameterPattern_ it) path with
          | Some groups => Success t (routing_params groups)
          | None => route m path v'
          end
      | None => route m path v'
      end
  end.

(** ** What the router promises

    Patterns compete in order of first registration; within a pattern the
    last handler registered for the method is the one called. *)

Fixpoint patterns (seen : list string) (hs : list handler) : list string :=
  match hs with
  | [] => []
  | h :: hs' => if decide (hd_regex h ∈ seen) then patterns seen hs'
                else hd_regex h :: patterns (hd_regex h :: seen) hs'
  end.

Definition serves (p : string) (m : HttpMethod) (h : handler) : bool :=
  String.eqb (hd_regex h) p && (match hd_methods h with [] => true | ms => bool_decide (m ∈ ms) end).

Definition last_for (p : string) (m : HttpMethod) (hs : list handler) : option T :=
  fold_left (λ acc h, if serves p m h then Some (hd_target h) else acc) hs None.

Fixpoint first_match (m : HttpMethod) (path : string) (hs : list handler) (ps : list string) : RouteResult :=
  match ps with
  | [] => NotFound
  | p :: ps' =>
      match last_for p m hs, regex_match p path with
      | Some t, Some groups => Success t (routing_params groups)
      | _, _ => first_match m path hs ps'
      end
  end.
End Route.
End Router.
Arguments RouterItem : clear implicits.
Arguments handler : clear implicits.
Arguments RouteResult : clear implicits.

(** ** Lemmas *)

Section Lemmas.
Context {T : Type}.
Implicit Types (hs : list (handler T)) (v : list (RouterItem T)).

(** The table represents the handlers registered so far. *)
Definition represents hs v : Prop :=
  map pathParameterPattern_ v = patterns [] hs ∧
  ∀ it m, it ∈ v → binders_ it m = last_for (pathParameterPattern_ it) m hs.

Lemma patterns_snoc seen hs h :
  patterns seen (hs ++ [h]) =
    patterns seen hs ++ (if decide (hd_regex h ∈ seen ++ patterns seen hs) then [] else [hd_regex h]).
Proof.
  revert seen. induction hs as [|h' hs IH]; intros seen; cbn.
  - rewrite app_nil_r. by case_decide.
  - case_decide; [apply IH|]. rewrite IH. cbn. f_equal. f_equal.
    apply decide_ext. set_solver.
Qed.

Lemma last_for_snoc p m hs h :
  last_for p m (hs ++ [h]) = if serves p m h then Some (hd_target h) else last_for p m hs.
Proof. unfold last_for. by rewrite fold_left_app. Qed.

Lemma binder_serves h m (b : HttpMethod → option T) :
  addCtrlBinderToRouterItem (hd_target h) (hd_methods h) b m =
    if serves (hd_regex h) m h then Some (hd_target h) else b m.
Proof.
  unfold addCtrlBinderToRouterItem, serves. rewrite String.eqb_refl. cbn.
  destruct (hd_methods h); [done|]. unfold set_binder. by case_decide; case_bool_decide.
Qed.

Lemma elem_of_patterns p seen hs : p ∈ patterns seen hs ↔ p ∈ map hd_regex hs ∧ p ∉ seen.
Proof.
  revert seen. induction hs as [|h hs IH]; intros seen; cbn [patterns map].
  { rewrite elem_of_nil. tauto. }
  destruct (decide (hd_regex h ∈ seen)); rewrite ?elem_of_cons, IH, ?elem_of_cons; [|destruct (decide (p = hd_regex h))];
    naive_solver.
Qed.

Lemma patterns_nodup seen hs : NoDup (patterns seen hs).
Proof.
  revert seen. induction hs as [|h hs IH]; intros seen; cbn; [apply NoDup_nil_2|].
  case_decide; [apply IH|]. apply list.NoDup_cons. split; [|apply IH].
  rewrite elem_of_patterns. set_solver.
Qed.

Lemma last_for_none p m hs : p ∉ map hd_regex hs → last_for p m hs = None.
Proof.
  induction hs as [|h hs IH] using rev_ind; [done|]. rewrite map_app. cbn. intros Hp.
  rewrite last_for_snoc, IH by set_solver. unfold serves.
  destruct (String.eqb_spec (hd_regex h) p); [set_solver|done].
Qed.

Lemma add_patterns t p ms v :
  map pathParameterPattern_ (addRegexCtrlBinder t p ms v) =
    map pathParameterPattern_ v ++ (if decide (p ∈ map pathParameterPattern_ v) then [] else [p]).
Proof.
  induction v as [|it v IH]; cbn; [done|]. destruct (String.eqb_spec (pathParameterPattern_ it) p) as [E|E]; cbn.
  - rewrite decide_True by (rewrite <- E; by left). by rewrite app_nil_r.
  - rewrite IH. f_equal. f_equal. apply decide_ext. set_solver.
Qed.

(** The items after a registration: the pattern's own item with its new
    binder, the others unchanged. *)
Lemma add_items t p ms v it :
  NoDup (map pathParameterPattern_ v) → it ∈ addRegexCtrlBinder t p ms v →
  (pathParameterPattern_ it ≠ p ∧ it ∈ v) ∨
  (pathParameterPattern_ it = p ∧
     ((p ∉ map pathParameterPattern_ v ∧ binders_ it = addCtrlBinderToRouterItem t ms (λ _, None)) ∨
      ∃ old, old ∈ v ∧ pathParameterPattern_ old = p ∧ binders_ it = addCtrlBinderToRouterItem t ms (binders_ old))).
Proof.
  induction v as [|x v IH]; cbn [addRegexCtrlBinder map]; intros Hnd Hit.
  { apply list_elem_of_singleton in Hit as ->. right. split; [done|]. left. split; [apply not_elem_of_nil|done]. }
  apply list.NoDup_cons in Hnd as [Hx Hnd].
  destruct (String.eqb_spec (pathParameterPattern_ x) p) as [E|E]; apply elem_of_cons in Hit as [->|Hit].
  - right. split; [done|]. right. exists x. split; [by left|]. done.
  - left. split; [|by right]. intros E'. destruct Hx. rewrite E, <- E'. by apply (list_elem_of_fmap_2 pathParameterPattern_).
  - left. split; [done|by left].
  - destruct (IH Hnd Hit) as [[? ?]|[? [[Hn ?]|(old & ? & ? & ?)]]].
    + left. split; [done|by right].
    + right. split; [done|]. left. split; [|done]. apply not_elem_of_cons. split; congruence.
    + right. split; [done|]. right. exists old. split; [by right|]. done.
Qed.

Lemma represents_add hs v h :
  represents hs v →
  represents (hs ++ [h]) (addRegexCtrlBinder (hd_target h) (hd_regex h) (hd_methods h) v).
Proof.
  intros [Hp Hb]. split.
  - rewrite add_patterns, patterns_snoc, Hp. done.
  - intros it m Hit. rewrite last_for_snoc.
    apply add_items in Hit as [[Hne Hit]|[Ep [[Hn ->]|(old & Hold & E & ->)]]].
    + unfold serves. destruct (String.eqb_spec (hd_regex h) (pathParameterPattern_ it)); [congruence|]. by apply Hb.
    + rewrite Hp, elem_of_patterns in Hn. rewrite binder_serves, Ep.
      destruct (serves _ _ _); [done|]. symmetry. apply last_for_none.
      intros ?. destruct Hn. split; [done|apply not_elem_of_nil].
    + by rewrite binder_serves, (Hb _ _ Hold), E, Ep.
    + rewrite Hp. apply patterns_nodup.
Qed.

Lemma register_all_represents hs : represents hs (register_all hs).
Proof.
  induction hs as [|h hs IH] using rev_ind.
  - split; [done|]. intros it m Hit. by apply elem_of_nil in Hit.
  - unfold register_all in *. rewrite fold_left_app. cbn. by apply represents_add.
Qed.

Lemma route_first_match regex_match m path hs v :
  (∀ it, it ∈ v → binders_ it m = last_for (pathParameterPattern_ it) m hs) →
  route regex_match m path v = first_match regex_match m path hs (map pathParameterPattern_ v).
Proof.
  induction v as [|it v IH]; intros Hv; cbn; [done|]. rewrite (Hv it) by (by left).
  rewrite IH by (intros; apply Hv; by right). destruct (last_for _ m hs); [|done].
  by destruct (regex_match _ _).
Qed.
End Lemmas.

(** ** Theorems *)

(** C29. The router implements its specification: whatever handlers are
    registered, in whatever order, a request is routed to the first registered
    pattern that matches the path and serves the method, and within that
    pattern to the handler registered last for the method, with the matched
    groups as parameters; it is not found exactly when no such pattern exists. *)
Theorem router_refines {T} (regex_match : string → string → option (list (option string))) m path (hs : list (handler T)) :
  route regex_match m path (register_all hs) = first_match regex_match m path hs (patterns [] hs).
Proof.
  destruct (register_all_represents hs) as [Hp Hb]. rewrite <- Hp.
  apply route_first_match. intros it Hit. by apply Hb.
Qed.
