(* ===== verification/Server.v ===== *)
(** * The server's life cycle (drogon_server.cpp: start, stop, the shared
      dispatcher; r_bridge.cpp)

    The package's globals put together: the dispatcher's world (queue, kernel
    pipes, routes, streams, WebSocket sessions and clients), the wake pipe, the
    native worker pool and what was configured on [drogon::app()].  The server
    is the client subsystem's host, and the WebSocket components are the
    dispatcher's pump. *)

From stdpp Require Import base gmap strings list numbers.
From Stdlib Require Import ZArith Lia Ascii SpecFloat.
From S2P Require Import Prelude CDouble RValue RequestQueue HttpResponse RateLimiter StaticFiles.
From S2P Require Import StreamSession Routes Dispatcher TaskQueue NativeHandlers WsSession WsClient Router.

(** ** drogon::app() *)

Inductive LogLevel := kTrace | kDebug | kInfo | kWarn | kError | kFatal.

(** The C++ closure a regex is bound to, with what it captured. *)
Inductive target :=
| TR (route_id : Z) (rl : RouteLimiters)
| TCpp (fn : Z) (rl : RouteLimiters)
| TCppStream (fn : Z) (content_type : string) (rl : RouteLimiters)
| TStatic (dir : string).

Record App := {
  ap_handlers : list (handler target);
  ap_ws_paths : list string;
  ap_threads : Z;
  ap_upload : string;
  ap_listeners : list Z;
  ap_logLevel : option LogLevel;
  ap_reuse_port : bool;
  ap_loop_resets : nat;
  ap_running : bool;          (** the thread in [drogon::app().run()] *)
}.

Abbreviation WS := (WsWorld * ClientWorld)%type.

Record World := {
  disp : DispWorld WS;
  g_wakePipe : Z * Z;
  g_cppWorkerPool : option Pool;
  limiter_heap : LimiterHeap;
  app : App;
}.

Definition set_disp (d : DispWorld WS) (w : World) : World :=
  {| disp := d; g_wakePipe := g_wakePipe w; g_cppWorkerPool := g_cppWorkerPool w;
     limiter_heap := limiter_heap w; app := app w |}.
Definition set_pipe (p : Z * Z) (w : World) : World :=
  {| disp := disp w; g_wakePipe := p; g_cppWorkerPool := g_cppWorkerPool w;
     limiter_heap := limiter_heap w; app := app w |}.
Definition set_pool (p : option Pool) (w : World) : World :=
  {| disp := disp w; g_wakePipe := g_wakePipe w; g_cppWorkerPool := p; limiter_heap := limiter_heap w; app := app w |}.
Definition set_app (h : LimiterHeap) (a : App) (w : World) : World :=
  {| disp := disp w; g_wakePipe := g_wakePipe w; g_cppWorkerPool := g_cppWorkerPool w; limiter_heap := h; app := a |}.

Definition set_disp_routes (rs : RouteState) (d : DispWorld WS) : DispWorld WS :=
  {| dw_q := dw_q d; dw_k := dw_k d; dw_routes := rs; dw_streams := dw_streams d; dw_ws := dw_ws d;
     g_dispatcherFd := g_dispatcherFd d; g_later_fd := g_later_fd d; armed := armed d |}.

(** An entry point of a component run on its part of the world. *)
Definition zoom {S A} (get_ : World → S) (set_ : S → World → World) (m : M S A) : M World A :=
  λ w, let '(s, r) := m (get_ w) in (set_ s w, r).

Definition routes_of (w : World) : RouteState := dw_routes (disp w).
Definition set_routes_of (rs : RouteState) (w : World) : World := set_disp (set_disp_routes rs (disp w)) w.

Section Server.
(** [std::getenv("DROGONR_LOG_LEVEL")], whether [pipe(2)] succeeds, the clock
    at installation. *)
Context (env_level : option string) (pipe_ok : bool) (now : Z).

Definition log_level (s : string) : option LogLevel :=
  let s := str_tolower s in
  if String.eqb s "trace" then Some kTrace
  else if String.eqb s "debug" then Some kDebug
  else if String.eqb s "info" then Some kInfo
  else if String.eqb s "warn" then Some kWarn
  else if String.eqb s "error" then Some kError
  else if String.eqb s "fatal" then Some kFatal
  else None.

Definition set_log (l : LogLevel) (a : App) : App :=
  {| ap_handlers := ap_handlers a; ap_ws_paths := ap_ws_paths a; ap_threads := ap_threads a; ap_upload := ap_upload a;
     ap_listeners := ap_listeners a; ap_logLevel := Some l; ap_reuse_port := ap_reuse_port a;
     ap_loop_resets := ap_loop_resets a; ap_running := ap_running a |}.

Definition applyLogLevelFromEnv (w : World) : World :=
  match env_level with
  | None => w
  | Some lvl => match log_level lvl with
                | Some l => set_app (limiter_heap w) (set_log l (app w)) w
                | None => w
                end
  end.

Definition ensureDispatcherRunning : M World unit :=
  _ ← modify applyLogLevelFromEnv;
  w ← get;
  if negb (fst (g_wakePipe w) =? -1) then mret tt else
  let '(rc, fds, k) := makeWakePipe pipe_ok (g_wakePipe w) (dw_k (disp w)) in
  _ ← modify (λ w, set_pipe fds (set_disp (set_queue (dw_q (disp w)) k (disp w)) w));
  _ ← reject_if (negb (rc =? 0)) "failed to create wakeup pipe";
  _ ← modify (λ w, set_disp (set_queue (initQueueWakeup (fst fds) (snd fds) (dw_q (disp w))) (dw_k (disp w)) (disp w)) w);
  zoom disp set_disp (registerDispatcherFd (fst fds)).

Definition shutdownDispatcher (w : World) : World :=
  let '(r, wr) := g_wakePipe w in
  if r =? -1 then w else
  let d := unregisterDispatcherFd (disp w) in
  let d := set_queue (resetQueueWakeup (dw_q d)) (closeWakeFd wr (closeWakeFd r (dw_k d))) d in
  set_pipe (-1, -1) (set_disp d w).

(** ** Installing the routes *)

Abbreviation Inst := (list (handler target) * list RateLimitRule * LimiterHeap)%type.

Definition install_limited (path regex method : string) (mk : RouteLimiters → target) (acc : Inst) : Inst :=
  let '(hs, rules, heap) := acc in
  let '(rules', rl, heap') := buildLimitersForPath now path rules heap in
  (hs ++ [{| hd_regex := regex; hd_methods := [methodFromString method]; hd_target := mk rl |}], rules', heap').

Definition installDrogonHandler (r : Route) (route_id : Z) : Inst → Inst :=
  install_limited (r_path r) (r_regex r) (r_method r) (TR route_id).
Definition installCppHandler (r : CppRoute) : Inst → Inst :=
  install_limited (cr_path r) (cr_regex r) (cr_method r) (TCpp (cr_fn r)).
Definition installCppStreamHandler (r : CppStreamRoute) : Inst → Inst :=
  install_limited (csr_path r) (csr_regex r) (csr_method r)
    (TCppStream (csr_fn r) (if String.eqb (csr_content_type r) EmptyString then "text/event-stream"
                            else csr_content_type r)).
Definition installStaticMount (sm : StaticMount) (acc : Inst) : Inst :=
  let '(hs, rules, heap) := acc in
  (hs ++ [{| hd_regex := static_regex sm; hd_methods := static_methods; hd_target := TStatic (sm_dir sm) |}], rules, heap).

Fixpoint install_routes (i : nat) (rs : list Route) (acc : Inst) : Inst :=
  match rs with
  | [] => acc
  | r :: rs' => install_routes (S i) rs' (installDrogonHandler r (wrapI32 (Z.of_nat i)) acc)
  end.

(** The block under [g_routesMutex]. *)
Definition install_all (w : World) : World :=
  let rs := routes_of w in
  let acc := install_routes 0 (g_routes rs) (ap_handlers (app w), g_rateLimitRules rs, limiter_heap w) in
  let acc := fold_left (λ acc r, installCppHandler r acc) (g_cppRoutes rs) acc in
  let acc := fold_left (λ acc r, installCppStreamHandler r acc) (g_cppStreamRoutes rs) acc in
  let '(hs, rules, heap) := fold_left (λ acc sm, installStaticMount sm acc) (g_staticMounts rs) acc in
  let a := app w in
  set_app heap
    {| ap_handlers := hs; ap_ws_paths := ap_ws_paths a; ap_threads := ap_threads a; ap_upload := ap_upload a;
       ap_listeners := ap_listeners a; ap_logLevel := ap_logLevel a; ap_reuse_port := ap_reuse_port a;
       ap_loop_resets := ap_loop_resets a; ap_running := ap_running a |}
    (set_routes_of (set_rules rules rs) w).

Definition install_ws (w : World) : World :=
  let '(paths, ws) := installWsRoutes (fst (dw_ws (disp w))) in
  let a := app w in
  set_app (limiter_heap w)
    {| ap_handlers := ap_handlers a; ap_ws_paths := ap_ws_paths a ++ paths; ap_threads := ap_threads a;
       ap_upload := ap_upload a; ap_listeners := ap_listeners a; ap_logLevel := ap_logLevel a;
       ap_reuse_port := ap_reuse_port a; ap_loop_resets := ap_loop_resets a; ap_running := ap_running a |}
    (set_disp (Dispatcher.set_ws (ws, snd (dw_ws (disp w))) (disp w)) w).

(** The rest of [drogon::app()]'s configuration, and the server thread. *)
Definition launch (port threads : Z) (upload : string) (w : World) : World :=
  let w := applyLogLevelFromEnv
             (set_app (limiter_heap w)
                {| ap_handlers := ap_handlers (app w); ap_ws_paths := ap_ws_paths (app w); ap_threads := threads;
                   ap_upload := upload; ap_listeners := ap_listeners (app w); ap_logLevel := ap_logLevel (app w);
                   ap_reuse_port := ap_reuse_port (app w); ap_loop_resets := ap_loop_resets (app w);
                   ap_running := ap_running (app w) |} w) in
  let a := app w in
  set_app (limiter_heap w)
    {| ap_handlers := ap_handlers a; ap_ws_paths := ap_ws_paths a; ap_threads := ap_threads a; ap_upload := ap_upload a;
       ap_listeners := ap_listeners a ++ [port]; ap_logLevel := ap_logLevel a; ap_reuse_port := true;
       ap_loop_resets := S (ap_loop_resets a); ap_running := true |}
    (set_routes_of (set_flags true true (routes_of w)) w).

Definition want_int (x : SEXP) (msg : string) : M World Z :=
  match single_int x with Some z => mret z | None => raise msg end.

Definition drogonR_server_start (port_ threads_ upload_path_ max_queue_ cpp_workers_ : SEXP) : M World SEXP :=
  _ ← zoom disp set_disp requireLaterInitialized;
  w ← get;
  _ ← reject_if (g_running (routes_of w)) "server is already running";
  _ ← reject_if (g_everStarted (routes_of w))
        "drogonR: Drogon cannot be restarted in the same R session. Please restart R.";
  port ← want_int port_ "port must be a single integer";
  threads ← want_int threads_ "threads must be a single integer";
  upload ← want_string upload_path_ "upload_path must be a single string";
  max_queue ← want_int max_queue_ "max_queue must be a single integer";
  cpp_workers ← want_int cpp_workers_ "cpp_workers must be a single integer";
  _ ← reject_if ((port <=? 0) || (65535 <? port)) "port must be in 1..65535";
  _ ← reject_if (threads <? 1) "threads must be >= 1";
  _ ← reject_if (max_queue <? 1) "max_queue must be >= 1";
  _ ← reject_if (cpp_workers <? 1) "cpp_workers must be >= 1";
  _ ← ensureDispatcherRunning;
  _ ← modify (λ w, set_disp (set_queue (setQueueMaxSize (int_to_size max_queue) (dw_q (disp w))) (dw_k (disp w)) (disp w)) w);
  _ ← modify (λ w, match g_cppWorkerPool w with
                   | None => set_pool (Some (pool_init (Z.to_nat cpp_workers))) w
                   | Some _ => w
                   end);
  _ ← modify install_all;
  _ ← modify install_ws;
  _ ← modify (launch port threads (CHAR upload));
  mret R_NilValue.
End Server.

(** [drogon::app().quit()] and the join of the server thread. *)
Definition quit_app (w : World) : World :=
  let a := app w in
  set_app (limiter_heap w)
    {| ap_handlers := ap_handlers a; ap_ws_paths := ap_ws_paths a; ap_threads := ap_threads a; ap_upload := ap_upload a;
       ap_listeners := ap_listeners a; ap_logLevel := ap_logLevel a; ap_reuse_port := ap_reuse_port a;
       ap_loop_resets := ap_loop_resets a; ap_running := false |} w.

Definition drogonR_server_stop : M World SEXP :=
  w ← get;
  if negb (g_running (routes_of w)) then mret R_NilValue else
  _ ← modify quit_app;
  _ ← modify (λ w, set_routes_of (set_flags false (g_everStarted (routes_of w)) (routes_of w)) w);
  _ ← modify (λ w, set_disp (set_queue (setQueueMaxSize 0 (dw_q (disp w))) (dw_k (disp w)) (disp w)) w);
  _ ← modify shutdownDispatcher;
  _ ← modify (λ w, set_disp (set_streams (clearAllStreamSessions (dw_streams (disp w))) (disp w)) w);
  _ ← modify (λ w, set_disp (Dispatcher.set_ws (clearAllWsSessions (fst (dw_ws (disp w))), snd (dw_ws (disp w))) (disp w)) w);
  _ ← modify (set_pool None);
  mret R_NilValue.

(** ** r_bridge.cpp *)

Definition drogonR_smoke (w : World) : SEXP := ScalarInteger (ap_threads (app w)).

(** [CallEntries]: the names and arities registered with R. *)
Definition CallEntries : list (string * Z) :=
  [("drogonR_smoke", 0); ("drogonR_drogon_version", 0); ("drogonR_init_later", 0); ("drogonR_server_start", 5);
   ("drogonR_server_stop", 0); ("drogonR_server_running", 0); ("drogonR_reset_fork_state", 0);
   ("drogonR_register_route", 5); ("drogonR_register_static", 2); ("drogonR_register_rate_limits", 1);
   ("drogonR_resolve_ccallable", 2); ("drogonR_register_cpp_route", 5); ("drogonR_register_cpp_stream_route", 6);
   ("drogonR_clear_routes", 0); ("drogonR_register_ws", 4); ("drogonR_register_ws_cpp", 5); ("drogonR_ws_send", 3);
   ("drogonR_ws_close", 1); ("drogonR_ws_join", 2); ("drogonR_ws_leave", 2); ("drogonR_ws_broadcast", 3);
   ("drogonR_ws_connect", 5); ("drogonR_ws_client_send", 3); ("drogonR_ws_client_close", 1);
   ("drogonR_ws_shutdown", 0); ("drogonR_has_ssl", 0); ("drogonR_to_json", 2)].

(** ** The interfaces discharged *)

(** The dispatcher pumps the server's sessions, then the clients. *)
Definition server_pump (code : nat → SEXP → list SEXP → list ws_op) (inet : bool → string → bool)
    (ccode : nat → SEXP → list SEXP → list client_op) : WsPump WS :=
  {| Dispatcher.drainWsEvents := λ ws, (WsSession.drainWsEvents code (fst ws), snd ws);
     Dispatcher.drainWsClientEvents := λ ws, (fst ws, WsClient.drainWsClientEvents inet ccode (snd ws)) |}.

Definition clients_of (w : World) : ClientWorld := snd (dw_ws (disp w)).
Definition set_clients_of (c : ClientWorld) (w : World) : World :=
  set_disp (Dispatcher.set_ws (fst (dw_ws (disp w)), c) (disp w)) w.

Lemma apply_log_frame env w :
  let w' := applyLogLevelFromEnv env w in
  disp w' = disp w ∧ g_wakePipe w' = g_wakePipe w ∧ g_cppWorkerPool w' = g_cppWorkerPool w ∧
  ap_handlers (app w') = ap_handlers (app w) ∧ limiter_heap w' = limiter_heap w.
Proof. unfold applyLogLevelFromEnv. destruct env as [l|]; [|done]. by destruct (log_level l). Qed.

(** ** The wake pipe *)

Record up (r wr : Z) (w : World) : Prop := {
  up_pipe : g_wakePipe w = (r, wr);
  up_fds : 0 ≤ r ∧ 0 ≤ wr;
  up_queue : g_wakeReadFd (dw_q (disp w)) = r ∧ g_wakeWriteFd (dw_q (disp w)) = wr;
  up_kernel : k_peer (dw_k (disp w)) !! wr = Some r ∧ is_Some (k_bytes (dw_k (disp w)) !! r);
  up_watch : g_dispatcherFd (disp w) = r ∧ r ∈ armed (disp w);
}.

Record down (w : World) : Prop := {
  dn_pipe : g_wakePipe w = (-1, -1);
  dn_queue : g_wakeReadFd (dw_q (disp w)) = -1 ∧ g_wakeWriteFd (dw_q (disp w)) = -1;
  dn_watch : g_dispatcherFd (disp w) = -1;
  dn_running : g_running (routes_of w) = false;
}.

(** The dispatcher is either down, and then no server is running, or up with
    the pipe, the queue and later's watch agreeing. *)
Record live (w : World) : Prop := {
  lv_later : g_later_fd (disp w) = true;
  lv_next : 0 ≤ k_next (dw_k (disp w));
  lv_state : down w ∨ ∃ r wr, up r wr w;
}.

(** The parts [ensureDispatcherRunning] leaves alone. *)
Definition same_rest (w w' : World) : Prop :=
  dw_routes (disp w') = dw_routes (disp w) ∧ dw_streams (disp w') = dw_streams (disp w) ∧
  dw_ws (disp w') = dw_ws (disp w) ∧ g_queue (dw_q (disp w')) = g_queue (dw_q (disp w)) ∧
  g_later_fd (disp w') = g_later_fd (disp w) ∧ g_cppWorkerPool w' = g_cppWorkerPool w ∧
  ap_handlers (app w') = ap_handlers (app w) ∧ limiter_heap w' = limiter_heap w.

Lemma zoom_register fd w :
  zoom disp set_disp (registerDispatcherFd fd) w =
    if g_later_fd (disp w) then (set_disp (set_fd fd (armed (disp w) ++ [fd]) (disp w)) w, Ret tt)
    else (set_disp (disp w) w, Rf_error "drogonR not initialized — call library(drogonR)").
Proof.
  unfold zoom, registerDispatcherFd, requireLaterInitialized, M_bind, mbind, get, reject_if. cbn.
  by destruct (g_later_fd (disp w)).
Qed.

Lemma ensure_frame env pipe_ok w : same_rest w (fst (ensureDispatcherRunning env pipe_ok w)).
Proof.
  unfold ensureDispatcherRunning. run_M. destruct (apply_log_frame env w) as (E1 & E2 & E3 & E4 & E5).
  unfold same_rest. rewrite <- E1, <- E3, <- E4, <- E5. clear. generalize (applyLogLevelFromEnv env w) as w0. intros w0.
  case_if; cbn; [done|].
  unfold makeWakePipe. destruct pipe_ok; cbn; run_M; [|done].
  rewrite zoom_register. cbn. destruct (g_later_fd (disp w0)) eqn:Hg; cbn; by rewrite ?Hg.
Qed.

#[global] Instance server_host (env : option string) (pipe_ok : bool) : ClientHost World.
Proof.
  refine {| host_clients := clients_of; host_set_clients := set_clients_of;
            WsClient.ensureDispatcherRunning := ensureDispatcherRunning env pipe_ok |}.
  - done.
  - intros w. unfold clients_of. by destruct (ensure_frame env pipe_ok w) as (_ & _ & -> & _).
Defined.

Lemma ensure_up env pipe_ok w :
  live w →
  let '(w', res) := ensureDispatcherRunning env pipe_ok w in
  live w' ∧
  match res with
  | Ret _ => ∃ r wr, up r wr w'
  | Rf_error e => e = "failed to create wakeup pipe" ∧ pipe_ok = false ∧ down w'
  end.
Proof.
  intros [Hl Hn Hst]. unfold ensureDispatcherRunning. run_M.
  destruct (apply_log_frame env w) as (E1 & E2 & _ & _ & _). rewrite E2.
  destruct Hst as [Hd|(r & wr & Hu)].
  2:{ rewrite (up_pipe _ _ _ Hu). cbn. destruct (up_fds _ _ _ Hu).
      replace (negb (r =? -1)) with true by lia. cbn.
      assert (up r wr (applyLogLevelFromEnv env w)) by (by destruct Hu; split; rewrite ?E1, ?E2).
      split; [split; rewrite ?E1; eauto|eauto]. }
  rewrite (dn_pipe _ Hd). cbn. unfold makeWakePipe. destruct pipe_ok; cbn; run_M; cbn.
  - rewrite zoom_register. cbn. rewrite E1, Hl. cbn.
    set (r := k_next _). set (w' := set_disp _ _).
    assert (up r (r + 1) w').
    { split; cbn; [done|unfold r; lia|done| |].
      - rewrite lookup_insert_eq. split; [done|]. rewrite lookup_insert_eq. by eexists.
      - split; [done|]. apply elem_of_app. right. by left. }
    split; [|eauto]. split; [done|cbn; lia|eauto].
  - assert (Hdown : down (set_pipe (-1, -1)
      (set_disp (set_queue (dw_q (disp (applyLogLevelFromEnv env w))) (dw_k (disp w)) (disp (applyLogLevelFromEnv env w)))
         (applyLogLevelFromEnv env w)))).
    { destruct Hd as [? ? ? ?]. split; unfold routes_of in *; cbn; rewrite ?E1; done. }
    rewrite E1 in *. split; [|done]. split; [done|done|by left].
Qed.

(** What the wake pipe's users see is unchanged. *)
Definition same_pipe (w w' : World) : Prop :=
  g_wakePipe w' = g_wakePipe w ∧ g_wakeReadFd (dw_q (disp w')) = g_wakeReadFd (dw_q (disp w)) ∧
  g_wakeWriteFd (dw_q (disp w')) = g_wakeWriteFd (dw_q (disp w)) ∧ dw_k (disp w') = dw_k (disp w) ∧
  g_dispatcherFd (disp w') = g_dispatcherFd (disp w) ∧ armed (disp w') = armed (disp w) ∧
  g_later_fd (disp w') = g_later_fd (disp w).

Lemma up_same r wr w w' : same_pipe w w' → up r wr w → up r wr w'.
Proof.
  intros (H1 & H2 & H3 & H4 & H5 & H6 & H7) [U1 U2 U3 U4 U5].
  split; rewrite ?H1, ?H2, ?H3, ?H4, ?H5, ?H6; done.
Qed.

Lemma live_same w w' :
  same_pipe w w' → (g_running (routes_of w) = false → g_running (routes_of w') = false) → live w → live w'.
Proof.
  intros Hs Hr [Hl Hn Hst]. pose proof Hs as (H1 & H2 & H3 & H4 & H5 & H6 & H7).
  split; [congruence|congruence|]. destruct Hst as [[D1 D2 D3 D4]|(r & wr & Hu)]; [left|right].
  - split; rewrite ?H1, ?H2, ?H3, ?H5; auto.
  - exists r, wr. by eapply up_same.
Qed.

(** ** Starting and stopping *)

Lemma bind_run {S A B} (m : M S A) (k : A → M S B) (s : S) :
  (m ≫= k) s = match m s with (s', Ret a) => k a s' | (s', Rf_error e) => (s', Rf_error e) end.
Proof. done. Qed.

Lemma bind_want_int {B} x msg (k : Z → M World B) w :
  (want_int x msg ≫= k) w = match single_int x with Some z => k z w | None => (w, Rf_error msg) end.
Proof. unfold want_int. by destruct (single_int x). Qed.

Lemma bind_require {B} (k : unit → M World B) w :
  (zoom disp set_disp requireLaterInitialized ≫= k) w =
    if g_later_fd (disp w) then k tt w else (w, Rf_error "drogonR not initialized — call library(drogonR)").
Proof. rewrite bind_run. unfold zoom. destruct w as [[q kk rs ss ws fd lf ar] p pl h a]. cbn. by destruct lf. Qed.

(** What [drogonR_server_start] demands of its arguments. *)
Definition good_args (port_ threads_ upload_path_ max_queue_ cpp_workers_ : SEXP) : option (Z * Z * string * Z * Z) :=
  port ← single_int port_; threads ← single_int threads_; upload ← single_string upload_path_;
  max_queue ← single_int max_queue_; cpp_workers ← single_int cpp_workers_;
  if (0 <? port) && (port <=? 65535) && (1 <=? threads) && (1 <=? max_queue) && (1 <=? cpp_workers)
  then Some (port, threads, CHAR upload, max_queue, cpp_workers) else None.

(** The state the dispatcher is up in, before the routes are installed. *)
Definition prepared (max_queue cpp_workers : Z) (w : World) : World :=
  let w := set_disp (set_queue (setQueueMaxSize (int_to_size max_queue) (dw_q (disp w))) (dw_k (disp w)) (disp w)) w in
  match g_cppWorkerPool w with None => set_pool (Some (pool_init (Z.to_nat cpp_workers))) w | Some _ => w end.

Lemma start_cases env pipe_ok now port_ threads_ upload_ max_queue_ cpp_workers_ w :
  match good_args port_ threads_ upload_ max_queue_ cpp_workers_ with
  | Some (port, threads, upload, max_queue, cpp_workers) =>
      if g_later_fd (disp w) && negb (g_running (routes_of w)) && negb (g_everStarted (routes_of w)) then
        drogonR_server_start env pipe_ok now port_ threads_ upload_ max_queue_ cpp_workers_ w =
          match ensureDispatcherRunning env pipe_ok w with
          | (w', Ret _) =>
              (launch env port threads upload (install_ws (install_all now (prepared max_queue cpp_workers w'))), Ret R_NilValue)
          | (w', Rf_error e) => (w', Rf_error e)
          end
      else ∃ e, drogonR_server_start env pipe_ok now port_ threads_ upload_ max_queue_ cpp_workers_ w = (w, Rf_error e)
  | None => ∃ e, drogonR_server_start env pipe_ok now port_ threads_ upload_ max_queue_ cpp_workers_ w = (w, Rf_error e)
  end.
Proof.
  unfold good_args, drogonR_server_start. rewrite bind_require.
  destruct (g_later_fd (disp w)); [|repeat case_match; cbn in *; try discriminate; eauto]; cbv beta iota. rewrite bind_get, bind_reject.
  destruct (g_running (routes_of w)); [repeat case_match; cbn in *; try discriminate; eauto|]; cbv beta iota. rewrite bind_reject.
  destruct (g_everStarted (routes_of w)); [repeat case_match; cbn in *; try discriminate; eauto|]; cbv beta iota.
  rewrite bind_want_int. destruct (single_int port_) as [port|]; [|cbn; eauto]; cbv beta iota.
  rewrite bind_want_int. destruct (single_int threads_) as [threads|]; [|cbn; eauto]; cbv beta iota.
  rewrite bind_want_string. destruct (single_string upload_) as [upload|]; [|cbn; eauto]; cbv beta iota.
  rewrite bind_want_int. destruct (single_int max_queue_) as [max_queue|]; [|cbn; eauto]; cbv beta iota.
  rewrite bind_want_int. destruct (single_int cpp_workers_) as [cpp_workers|]; [|cbn; eauto]; cbv beta iota.
  cbn [mbind option_bind]; cbv beta iota. rewrite bind_reject.
  replace ((port <=? 0) || (65535 <? port)) with (negb ((0 <? port) && (port <=? 65535))) by lia.
  destruct ((0 <? port) && (port <=? 65535)); cbn [negb andb]; [|eauto]; cbv beta iota. rewrite bind_reject.
  replace (threads <? 1) with (negb (1 <=? threads)) by lia.
  destruct (1 <=? threads); cbn [negb andb]; [|eauto]; cbv beta iota. rewrite bind_reject.
  replace (max_queue <? 1) with (negb (1 <=? max_queue)) by lia.
  destruct (1 <=? max_queue); cbn [negb andb]; [|eauto]; cbv beta iota. rewrite bind_reject.
  replace (cpp_workers <? 1) with (negb (1 <=? cpp_workers)) by lia.
  destruct (1 <=? cpp_workers); cbn [negb andb]; [|eauto]; cbv beta iota.
  rewrite bind_run. destruct (ensureDispatcherRunning env pipe_ok w) as [w' [[]|e]]; [|done].
  rewrite !bind_modify. reflexivity.
Qed.

(** *** Kernel frames *)

(** Reads and writes move bytes; they neither open nor close a pipe. *)
Definition same_pipes (k k' : Kernel) : Prop :=
  k_peer k' = k_peer k ∧ k_next k' = k_next k ∧ ∀ fd, is_Some (k_bytes k !! fd) → is_Some (k_bytes k' !! fd).

Lemma set_bytes_same r n k : same_pipes k (set_bytes r n k).
Proof.
  split; [done|]. split; [done|]. intros fd Hfd. cbn.
  destruct (decide (r = fd)) as [->|]; [rewrite lookup_insert_eq; by eexists|by rewrite lookup_insert_ne].
Qed.

Lemma same_pipes_refl k : same_pipes k k.
Proof. by split. Qed.
Lemma same_pipes_trans k1 k2 k3 : same_pipes k1 k2 → same_pipes k2 k3 → same_pipes k1 k3.
Proof. intros (A & B & C) (A' & B' & C'). split; [congruence|]. split; [congruence|]. auto. Qed.

#[local] Hint Resolve set_bytes_same same_pipes_refl : drogonR.

Lemma write1_same b fd k : same_pipes k (snd (sys_write1 b fd k)).
Proof. unfold sys_write1. repeat case_match; cbn; auto with drogonR. Qed.

Lemma writeWakeByte_same signals fd k : same_pipes k (writeWakeByte signals fd k).
Proof.
  revert k. induction signals as [|b l IH]; intros k; cbn [writeWakeByte]; (case_if; [auto with drogonR|]).
  - apply (write1_same false).
  - pose proof (write1_same b fd k) as Hw. destruct (sys_write1 b fd k) as [[] k']; cbn in Hw; try done.
    by eapply same_pipes_trans.
Qed.

Lemma drain_same fuel fd k k' : drain_loop fuel fd k = Some k' → same_pipes k k'.
Proof.
  revert k. induction fuel as [|f IH]; intros k; cbn; [done|].
  assert (Hr : same_pipes k (snd (sys_read fd 64 k))).
  { unfold sys_read. repeat case_match; cbn; auto with drogonR. }
  destruct (sys_read fd 64 k) as [n k1]. cbn in Hr. case_if; intros Hd.
  - eapply same_pipes_trans; [exact Hr|by apply IH].
  - by injection Hd as <-.
Qed.

Lemma live_kernel k w :
  same_pipes (dw_k (disp w)) k → live w → live (set_disp (set_queue (dw_q (disp w)) k (disp w)) w).
Proof.
  intros (K1 & K2 & K3) [Hl Hn Hst]. split; [done|cbn; lia|].
  destruct Hst as [[D1 D2 D3 D4]|(r & wr & [U1 U2 U3 [U4 U4'] U5])]; [left|right].
  - by split.
  - exists r, wr. split; cbn; try done. rewrite K1. auto.
Qed.

(** *** Stop *)

(** The world after a stop that found the server running. *)
Lemma stop_run w :
  g_running (routes_of w) = true →
  ∃ w', drogonR_server_stop w = (w', Ret R_NilValue) ∧
    g_running (routes_of w') = false ∧ g_everStarted (routes_of w') = g_everStarted (routes_of w) ∧
    ap_running (app w') = false ∧ g_cppWorkerPool w' = None ∧ clients_of w' = clients_of w ∧
    fst (dw_ws (disp w')) = clearAllWsSessions (fst (dw_ws (disp w))) ∧
    dw_streams (disp w') = clearAllStreamSessions (dw_streams (disp w)) ∧
    g_later_fd (disp w') = g_later_fd (disp w) ∧ armed (disp w') = armed (disp w) ∧
    g_queueMaxSize (dw_q (disp w')) = 0 ∧ k_next (dw_k (disp w')) = k_next (dw_k (disp w)) ∧
    (∀ r wr, up r wr w → down w' ∧ g_queue (dw_q (disp w')) = [] ∧
       k_bytes (dw_k (disp w')) !! r = None ∧ k_peer (dw_k (disp w')) !! wr = None).
Proof.
  intros Hr. unfold drogonR_server_stop. rewrite bind_get, Hr. cbn [negb]. rewrite !bind_modify.
  eexists. split; [reflexivity|]. unfold shutdownDispatcher, clients_of, routes_of. cbn.
  destruct (g_wakePipe w) as [r wr] eqn:Ep. destruct (r =? -1) eqn:Er; cbn.
  - repeat (split; [done|]). intros r' wr' [U1 [U2 _] _ _ _]. rewrite Ep in U1. injection U1 as -> ->. bool_to_prop. lia.
  - assert (Hk : ∀ fd k, k_next (closeWakeFd fd k) = k_next k) by (intros; unfold closeWakeFd; by case_if).
    do 11 (split; [by rewrite ?Hk|]). intros r' wr' [U1 [U2 U2'] _ _ _]. rewrite Ep in U1. simplify_eq.
    split; [by split|]. split; [done|]. unfold closeWakeFd.
    replace (r' <? 0) with false by lia. replace (wr' <? 0) with false by lia. cbn.
    rewrite lookup_delete_eq. split; [|done].
    destruct (decide (wr' = r')) as [->|]; [apply lookup_delete_eq|by rewrite lookup_delete_ne, lookup_delete_eq].
Qed.

Lemma stop_idle w : g_running (routes_of w) = false → drogonR_server_stop w = (w, Ret R_NilValue).
Proof. intros Hr. unfold drogonR_server_stop. by rewrite bind_get, Hr. Qed.

(** ** The whole package as one step function

    What R calls, what Drogon's I/O threads and the client loop do, and a round
    of the dispatcher when later finds its descriptor ready. *)

Inductive sop :=
| Start (env : option string) (pipe_ok : bool) (now : Z) (port_ threads_ upload_ max_queue_ cpp_workers_ : SEXP)
| Stop
| ResetFork
| Register (c : call)
| WsConnect (env : option string) (pipe_ok : bool) (inet : bool → string → bool) (host_ path_ m o c : SEXP)
| WsClientClose (id_ : SEXP)
| WsShutdown (loop_run : ClientWorld → ClientWorld)
| Enqueue (signals : list bool) (req : PendingRequest)
| ClientLoop (signals : list bool) (id : Z) (e : loop_event)
| Dispatch (fd : Z) (R : R_eval) (junk : Z) (alive : option positive → bool) (fuel : nat)
           (code : nat → SEXP → list SEXP → list ws_op) (inet : bool → string → bool)
           (ccode : nat → SEXP → list SEXP → list client_op).

Fixpoint remove_one (fd : Z) (l : list Z) : list Z :=
  match l with [] => [] | x :: l' => if x =? fd then l' else x :: remove_one fd l' end.

(** [n] calls of [notifyDispatcher]. *)
Fixpoint notify_times (n : nat) (signals : list bool) (w : World) : World :=
  match n with
  | O => w
  | S n' => notify_times n' signals
              (set_disp (set_queue (dw_q (disp w)) (notifyDispatcher signals (dw_q (disp w)) (dw_k (disp w))) (disp w)) w)
  end.

Definition client_loop (signals : list bool) (id : Z) (e : loop_event) (w : World) : World :=
  match loop_step id e (clients_of w) with
  | Some cw => notify_times (cl_notified cw - cl_notified (clients_of w)) signals (set_clients_of cw w)
  | None => w
  end.

Definition dispatch_round `{Platform} (fd : Z) (R : R_eval) (junk : Z) (alive : option positive → bool) (fuel : nat)
    (pump : WsPump WS) (w : World) : World :=
  if decide (fd ∈ armed (disp w)) then
    let d := set_fd (g_dispatcherFd (disp w)) (remove_one fd (armed (disp w))) (disp w) in
    match runDispatcher R junk alive fuel d with
    | Some d' => set_disp d' w
    | None => w
    end
  else w.

Definition run_sop `{Platform} (w : World) (op : sop) : World :=
  match op with
  | Start env ok now p t u q c => fst (drogonR_server_start env ok now p t u q c w)
  | Stop => fst (drogonR_server_stop w)
  | ResetFork => fst (zoom routes_of set_routes_of drogonR_reset_fork_state w)
  | Register c => fst (zoom routes_of set_routes_of (run_call c) w)
  | WsConnect env ok inet h p m o c =>
      fst (@drogonR_ws_connect World (server_host env ok) inet h p m o c w)
  | WsClientClose id_ => fst (@drogonR_ws_client_close World (server_host None true) _ id_ w)
  | WsShutdown loop_run => fst (@drogonR_ws_shutdown World (server_host None true) loop_run w)
  | Enqueue signals req =>
      let '(_, q, k) := enqueueRequest signals req (dw_q (disp w)) (dw_k (disp w)) in
      set_disp (set_queue q k (disp w)) w
  | ClientLoop signals id e => client_loop signals id e w
  | Dispatch fd R junk alive fuel code inet ccode =>
      dispatch_round fd R junk alive fuel (server_pump code inet ccode) w
  end.

(** The freshly loaded package. *)
Definition world_init : World :=
  {| disp := {| dw_q := queue_init; dw_k := {| k_bytes := ∅; k_peer := ∅; k_next := 3 |};
                dw_routes := routes_init []; dw_streams := StreamSession.init [];
                dw_ws := ({| g_wsRoutes := []; ws_live := ∅; ws_next_counter := 1; g_wsSessions := ∅; g_wsEvents := [];
                             g_nextWsId := 1; g_wsRooms := ∅; ws_contexts := ∅; ws_connected := ∅; ws_out := [];
                             ws_notified := 0; g_wsReaperStop := false; g_wsReaperArmed := false;
                             ws_reaper_interval := None; ws_precious := []; ws_log := [] |}, clients_init []);
                g_dispatcherFd := -1; g_later_fd := true; armed := [] |};
     g_wakePipe := (-1, -1); g_cppWorkerPool := None;
     limiter_heap := {| heap_objs := ∅; heap_next := 1 |};
     app := {| ap_handlers := []; ap_ws_paths := []; ap_threads := 1; ap_upload := EmptyString; ap_listeners := [];
               ap_logLevel := None; ap_reuse_port := false; ap_loop_resets := 0; ap_running := false |} |}.

(** ** The dispatcher stays consistent *)

Lemma install_all_same now w : same_pipe w (install_all now w) ∧ routes_of (install_all now w) = set_rules (g_rateLimitRules (routes_of (install_all now w))) (routes_of w).
Proof.
  unfold install_all. set (acc := fold_left (λ acc sm, installStaticMount sm acc) _ _).
  destruct acc as [[hs rules] heap]. unfold same_pipe, routes_of. cbn. done.
Qed.

Lemma install_ws_same w : same_pipe w (install_ws w) ∧ routes_of (install_ws w) = routes_of w.
Proof. unfold install_ws. destruct (installWsRoutes _) as [paths ws]. unfold same_pipe, routes_of. cbn. done. Qed.

Lemma launch_same env port threads upload w :
  same_pipe w (launch env port threads upload w) ∧
  routes_of (launch env port threads upload w) = set_flags true true (routes_of w).
Proof.
  unfold launch. set (w0 := set_app _ _ w).
  destruct (apply_log_frame env w0) as (E1 & E2 & _). unfold same_pipe, routes_of. cbn.
  rewrite E1, E2. done.
Qed.

Lemma prepared_same mq cw w : same_pipe w (prepared mq cw w) ∧ routes_of (prepared mq cw w) = routes_of w.
Proof. unfold prepared, same_pipe, routes_of. cbn. by destruct (g_cppWorkerPool w). Qed.

Lemma prepared_app mq cw w : app (prepared mq cw w) = app w.
Proof. unfold prepared. cbn. by destruct (g_cppWorkerPool w). Qed.

Lemma same_pipe_trans w1 w2 w3 : same_pipe w1 w2 → same_pipe w2 w3 → same_pipe w1 w3.
Proof. unfold same_pipe. intros. naive_solver congruence. Qed.

(** A started world: the dispatcher is up and nothing about the pipe changed
    since it came up. *)
Lemma started_world env now port threads upload mq cw w :
  let w' := launch env port threads upload (install_ws (install_all now (prepared mq cw w))) in
  same_pipe w w' ∧ g_running (routes_of w') = true ∧ g_everStarted (routes_of w') = true.
Proof.
  cbv zeta. set (w1 := prepared mq cw w). set (w2 := install_all now w1). set (w3 := install_ws w2).
  destruct (launch_same env port threads upload w3) as [H4 ->]. destruct (install_ws_same w2) as [H3 _].
  destruct (install_all_same now w1) as [H2 _]. destruct (prepared_same mq cw w) as [H1 _].
  split; [|done]. eauto using same_pipe_trans.
Qed.

Lemma launch_parts env port threads upload w :
  let w' := launch env port threads upload w in
  dw_q (disp w') = dw_q (disp w) ∧ g_cppWorkerPool w' = g_cppWorkerPool w ∧ ap_running (app w') = true ∧
  ap_threads (app w') = threads ∧ ∃ l, ap_listeners (app w') = l ++ [port].
Proof.
  unfold launch, applyLogLevelFromEnv. destruct env as [l|]; [destruct (log_level l)|]; cbn; eauto 6.
Qed.

Lemma started_parts env now port threads upload mq cw w :
  let w' := launch env port threads upload (install_ws (install_all now (prepared mq cw w))) in
  g_queueMaxSize (dw_q (disp w')) = int_to_size mq ∧
  g_cppWorkerPool w' = match g_cppWorkerPool w with None => Some (pool_init (Z.to_nat cw)) | Some p => Some p end ∧
  ap_running (app w') = true ∧ ap_threads (app w') = threads ∧ ∃ l, ap_listeners (app w') = l ++ [port].
Proof.
  cbv zeta. set (w2 := install_ws _). destruct (launch_parts env port threads upload w2) as (-> & -> & H).
  split; [|split; [|exact H]]; unfold w2, install_ws, install_all; destruct (installWsRoutes _);
    set (acc := fold_left (λ acc sm, installStaticMount sm acc) _ _); destruct acc as [[hs rules] heap]; cbn;
    unfold prepared; cbn; by destruct (g_cppWorkerPool w) eqn:E; cbn; rewrite ?E.
Qed.

Lemma live_start env ok now p t u q c w : live w → live (fst (drogonR_server_start env ok now p t u q c w)).
Proof.
  intros Hl. pose proof (start_cases env ok now p t u q c w) as Hs.
  destruct (good_args p t u q c) as [[[[[port threads] upload] mq] cw]|]; [|by destruct Hs as [e ->]].
  destruct (_ && _ && _); [|by destruct Hs as [e ->]]. rewrite Hs.
  pose proof (ensure_up env ok w Hl) as He. destruct (ensureDispatcherRunning env ok w) as [w' [[]|e]]; [|apply He].
  destruct He as [[Hl1 Hl2 _] (r & wr & Hu)].
  destruct (started_world env now port threads upload mq cw w') as (Hsp & _). cbn [fst].
  pose proof Hsp as (S1 & S2 & S3 & S4 & S5 & S6 & S7).
  split; [congruence|by rewrite S4|]. right. exists r, wr. by eapply up_same.
Qed.

Lemma live_stop w : live w → live (fst (drogonR_server_stop w)).
Proof.
  intros Hl. destruct (g_running (routes_of w)) eqn:Hr; [|by rewrite stop_idle].
  destruct (stop_run w Hr) as (w' & -> & F1 & F2 & F3 & F4 & F5 & F6 & F7 & F8 & F9 & F10 & F11 & F12). cbn.
  destruct Hl as [H1 H2 [[D1 D2 D3 D4]|(r & wr & Hu)]]; [congruence|].
  split; [congruence|lia|]. left. by apply (F12 r wr).
Qed.

Lemma live_clients c w : live w → live (set_clients_of c w).
Proof. by apply live_same. Qed.

Lemma live_routes rs w :
  (g_running (routes_of w) = false → g_running rs = false) → live w → live (set_routes_of rs w).
Proof. intros Hr. by apply live_same. Qed.

Lemma live_connect env ok inet h p m o c w :
  live w → live (fst (@drogonR_ws_connect World (server_host env ok) inet h p m o c w)).
Proof.
  intros Hl. unfold drogonR_ws_connect. rewrite Routes.bind_want_string.
  destruct (single_string h); [|done]. rewrite Routes.bind_want_string. destruct (single_string p); [|done].
  unfold modify_clients. rewrite bind_modify, bind_run.
  set (w1 := host_set_clients _ w). assert (Hl1 : live w1) by (by apply live_clients).
  pose proof (ensure_up env ok w1 Hl1) as He. cbn [WsClient.ensureDispatcherRunning server_host].
  destruct (ensureDispatcherRunning env ok w1) as [w' [[]|e]]; [|apply He]. destruct He as [Hl2 _].
  rewrite bind_get. destruct (open_client _ _ _ _ _ _ _) as [r cw]. rewrite bind_modify.
  destruct r; cbn; by apply live_clients.
Qed.

Lemma notify_live n signals w : live w → live (notify_times n signals w).
Proof.
  revert w. induction n as [|n IH]; intros w Hl; cbn; [done|]. apply IH, live_kernel; [|done].
  apply writeWakeByte_same.
Qed.

Lemma live_enqueue signals req w :
  live w → live (let '(_, q, k) := enqueueRequest signals req (dw_q (disp w)) (dw_k (disp w)) in set_disp (set_queue q k (disp w)) w).
Proof.
  intros Hl. unfold enqueueRequest. pose proof (enqueue_locked_fds req (dw_q (disp w))) as Hq.
  destruct (enqueue_locked req (dw_q (disp w))) as [b q]. cbn in Hq. destruct Hq as (Q1 & Q2 & _).
  assert (Hset : ∀ k, same_pipes (dw_k (disp w)) k → live (set_disp (set_queue q k (disp w)) w)).
  { intros k Hk. apply (live_same (set_disp (set_queue (dw_q (disp w)) k (disp w)) w)); [by unfold same_pipe|done|].
    by apply live_kernel. }
  destruct b; apply Hset; [apply writeWakeByte_same|apply same_pipes_refl].
Qed.

Lemma live_dispatch `{Platform} fd R junk alive fuel pump w :
  live w → live (dispatch_round fd R junk alive fuel pump w).
Proof.
  intros Hl. unfold dispatch_round. case_decide; [|done]. unfold runDispatcher. cbn.
  destruct Hl as [Hl Hn Hst]. destruct Hst as [Hd|(r & wr & Hu)].
  - rewrite (dn_watch _ Hd). cbn. split; [done|done|]. left. by destruct Hd.
  - destruct Hu as [U1 [U2 U2'] [U3 U3'] [U4 U4'] [U5 U5']]. rewrite U5. replace (r <? 0) with false by lia.
    destruct (drainWakePipe fuel (dw_q (disp w)) (dw_k (disp w))) as [k|] eqn:Ed; cbn.
    2:{ split; [done|done|]. right. by exists r, wr. }
    set (w1 := set_queue _ k _).
    destruct (dispatch_loop_spec R junk alive 0 (g_queue (dw_q (disp w))) w1) as (E1 & E2 & _ & _ & E5 & E6 & _).
    assert (Hk : same_pipes (dw_k (disp w)) k).
    { unfold drainWakePipe, drainWakeBytes in Ed. rewrite U3 in Ed. replace (r <? 0) with false in Ed by lia.
      by eapply drain_same. }
    destruct Hk as (K1 & K2 & K3).
    assert (El : ∀ i items (d : DispWorld WS), g_later_fd (dispatch_loop R junk alive i items d) = g_later_fd d).
    { intros i items. revert i. induction items as [|pr items IH]; intros i d; cbn; [done|]. rewrite IH.
      unfold dispatch_one. by destruct (decide_request _ _ _ _ _). }
    split; cbn; [by rewrite El|rewrite E2; cbn; lia|]. right. exists r, wr.
    split; cbn; rewrite ?E1, ?E2, ?E5; cbn; rewrite ?K1; auto.
    split; [done|]. apply elem_of_app. right. by left.
Qed.

Lemma live_step `{Platform} w op : live w → live (run_sop w op).
Proof.
  intros Hl. destruct op; cbn [run_sop].
  - by apply live_start.
  - by apply live_stop.
  - cbn. by apply live_routes.
  - unfold zoom. pose proof (run_call_flags c (routes_of w)) as [Hf _].
    destruct (run_call c (routes_of w)) as [rs r]. cbn in *. apply live_routes; congruence.
  - by apply live_connect.
  - unfold drogonR_ws_client_close, want_client_id. destruct id_ as [| | |[|r []]| | | | | |]; try done.
    cbn. by apply live_clients.
  - cbn. by apply live_clients.
  - by apply live_enqueue.
  - unfold client_loop. destruct (loop_step _ _ _); [|done]. by apply notify_live, live_clients.
  - by apply live_dispatch.
Qed.

Lemma live_init : live world_init.
Proof. split; cbn; [done|lia|]. left. by split. Qed.

Lemma live_run `{Platform} ops : live (fold_left run_sop ops world_init).
Proof. induction ops as [|op ops IH] using rev_ind; [apply live_init|]. rewrite fold_left_app. cbn. by apply live_step. Qed.

(** ** What a start installs *)

(** A handler without its limiters. *)
Inductive key := KR (route_id : Z) | KCpp (fn : Z) | KCppStream (fn : Z) (content_type : string) | KStatic (dir : string).
Definition target_key (t : target) : key :=
  match t with TR i _ => KR i | TCpp f _ => KCpp f | TCppStream f c _ => KCppStream f c | TStatic d => KStatic d end.
Definition handler_key (h : handler target) : string * list HttpMethod * key :=
  (hd_regex h, hd_methods h, target_key (hd_target h)).

Fixpoint route_keys (i : nat) (rs : list Route) : list (string * list HttpMethod * key) :=
  match rs with
  | [] => []
  | r :: rs' => (r_regex r, [methodFromString (r_method r)], KR (wrapI32 (Z.of_nat i))) :: route_keys (S i) rs'
  end.
Definition cpp_keys (rs : list CppRoute) : list (string * list HttpMethod * key) :=
  map (λ r, (cr_regex r, [methodFromString (cr_method r)], KCpp (cr_fn r))) rs.
Definition stream_keys (rs : list CppStreamRoute) : list (string * list HttpMethod * key) :=
  map (λ r, (csr_regex r, [methodFromString (csr_method r)],
             KCppStream (csr_fn r) (if String.eqb (csr_content_type r) EmptyString then "text/event-stream"
                                    else csr_content_type r))) rs.
Definition static_keys (ms : list StaticMount) : list (string * list HttpMethod * key) :=
  map (λ sm, (static_regex sm, static_methods, KStatic (sm_dir sm))) ms.
Definition all_keys (rs : RouteState) : list (string * list HttpMethod * key) :=
  route_keys 0 (g_routes rs) ++ cpp_keys (g_cppRoutes rs) ++ stream_keys (g_cppStreamRoutes rs) ++
  static_keys (g_staticMounts rs).

Abbreviation inst_keys acc := (map handler_key (fst (fst acc))).

Lemma install_limited_keys now path regex method mk acc k :
  (∀ rl, target_key (mk rl) = k) →
  inst_keys (install_limited now path regex method mk acc) = inst_keys acc ++ [(regex, [methodFromString method], k)].
Proof.
  intros Hk. destruct acc as [[hs rules] heap]. unfold install_limited.
  destruct (buildLimitersForPath now path rules heap) as [[rules' rl] heap']. cbn.
  rewrite map_app. cbn. unfold handler_key. cbn. by rewrite Hk.
Qed.

Lemma install_routes_keys now i rs acc : inst_keys (install_routes now i rs acc) = inst_keys acc ++ route_keys i rs.
Proof.
  revert i acc. induction rs as [|r rs IH]; intros i acc; cbn [install_routes route_keys]; [by rewrite app_nil_r|].
  rewrite IH. unfold installDrogonHandler. rewrite (install_limited_keys _ _ _ _ _ _ (KR (wrapI32 (Z.of_nat i)))) by done.
  by rewrite <- app_assoc.
Qed.

Lemma fold_keys {A} (f : A → (list (handler target) * list RateLimitRule * LimiterHeap) → _) (k : A → string * list HttpMethod * key) l acc :
  (∀ a acc, inst_keys (f a acc) = inst_keys acc ++ [k a]) →
  inst_keys (fold_left (λ acc a, f a acc) l acc) = inst_keys acc ++ map k l.
Proof.
  intros Hf. revert acc. induction l as [|a l IH]; intros acc; cbn; [by rewrite app_nil_r|].
  rewrite IH, Hf, <- app_assoc. done.
Qed.

Lemma install_all_keys now w :
  map handler_key (ap_handlers (app (install_all now w))) = map handler_key (ap_handlers (app w)) ++ all_keys (routes_of w).
Proof.
  unfold install_all, all_keys. set (rs := routes_of w).
  set (a1 := install_routes now 0 (g_routes rs) _).
  set (a2 := fold_left (λ acc r, installCppHandler now r acc) (g_cppRoutes rs) a1).
  set (a3 := fold_left (λ acc r, installCppStreamHandler now r acc) (g_cppStreamRoutes rs) a2).
  set (a4 := fold_left (λ acc sm, installStaticMount sm acc) (g_staticMounts rs) a3).
  assert (H : inst_keys a4 = map handler_key (ap_handlers (app w)) ++ all_keys rs).
  { unfold a4. rewrite (fold_keys installStaticMount (λ sm, (static_regex sm, static_methods, KStatic (sm_dir sm)))).
    2:{ intros sm [[hs rules] heap]. cbn. by rewrite map_app. }
    unfold a3. rewrite (fold_keys (installCppStreamHandler now)
      (λ r, (csr_regex r, [methodFromString (csr_method r)],
             KCppStream (csr_fn r) (if String.eqb (csr_content_type r) EmptyString then "text/event-stream"
                                    else csr_content_type r)))).
    2:{ intros r acc. by apply install_limited_keys. }
    unfold a2. rewrite (fold_keys (installCppHandler now) (λ r, (cr_regex r, [methodFromString (cr_method r)], KCpp (cr_fn r)))).
    2:{ intros r acc. by apply install_limited_keys. }
    unfold a1. rewrite install_routes_keys. cbn [fst]. unfold all_keys. by rewrite <- !app_assoc. }
  destruct a4 as [[hs rules] heap]. exact H.
Qed.

Lemma handlers_after_install env port threads upload w :
  ap_handlers (app (launch env port threads upload (install_ws w))) = ap_handlers (app w).
Proof.
  unfold launch. set (w0 := set_app _ _ (install_ws w)). destruct (apply_log_frame env w0) as (_ & _ & _ & E & _).
  cbn [app set_app ap_handlers]. rewrite E. unfold w0, install_ws. by destruct (installWsRoutes _).
Qed.

(** *** Routing to an R handler *)

Lemma last_for_in p m (hs : list (handler target)) t :
  last_for p m hs = Some t →
  ∃ l1 h l2, hs = l1 ++ h :: l2 ∧ hd_target h = t ∧ serves p m h = true ∧ Forall (λ h', serves p m h' = false) l2.
Proof.
  induction hs as [|h hs IH] using rev_ind; [done|]. rewrite last_for_snoc. destruct (serves p m h) eqn:E.
  - intros [= <-]. exists hs, h, []. auto.
  - intros (l1 & h' & l2 & -> & H1 & H2 & H3)%IH. exists l1, h', (l2 ++ [h]). rewrite <- app_assoc. cbn.
    repeat split; auto. apply Forall_app. auto.
Qed.

Lemma route_success regex_match m path (v : list (RouterItem target)) t ps :
  route regex_match m path v = Success t ps →
  ∃ it groups, it ∈ v ∧ binders_ it m = Some t ∧ regex_match (pathParameterPattern_ it) path = Some groups ∧
               ps = routing_params groups.
Proof.
  induction v as [|it v IH]; cbn; [done|].
  assert (Hrec : route regex_match m path v = Success t ps →
    ∃ it0 groups, it0 ∈ it :: v ∧ binders_ it0 m = Some t ∧ regex_match (pathParameterPattern_ it0) path = Some groups ∧
                  ps = routing_params groups).
  { intros Hr. destruct (IH Hr) as (it0 & g & Hin & Hrest). exists it0, g. split; [by right|done]. }
  destruct (binders_ it m) eqn:Eb; [|done]. destruct (regex_match _ _) as [g|] eqn:Er; [|done].
  intros [= <- <-]. exists it, g. split; [by left|]. done.
Qed.

Lemma route_keys_app i rs l1 x l2 :
  route_keys i rs = l1 ++ x :: l2 →
  ∃ r, rs !! length l1 = Some r ∧ x = (r_regex r, [methodFromString (r_method r)], KR (wrapI32 (Z.of_nat (i + length l1)))).
Proof.
  revert i l1. induction rs as [|r rs IH]; intros i l1; cbn; [by destruct l1|].
  destruct l1 as [|y l1]; cbn; intros [= H1 H2].
  - exists r. rewrite Nat.add_0_r. done.
  - destruct (IH (S i) l1 H2) as (r' & Hr & Hx). exists r'. split; [done|]. rewrite Hx. do 3 f_equal. lia.
Qed.

(** A KR key in the installed list is one of the R routes. *)
Lemma all_keys_route rs l1 regex ms id l2 :
  all_keys rs = l1 ++ (regex, ms, KR id) :: l2 →
  ∃ r, g_routes rs !! length l1 = Some r ∧ regex = r_regex r ∧ ms = [methodFromString (r_method r)] ∧
       id = wrapI32 (Z.of_nat (length l1)) ∧ ∃ l3, l2 = l3 ++ cpp_keys (g_cppRoutes rs) ++
         stream_keys (g_cppStreamRoutes rs) ++ static_keys (g_staticMounts rs).
Proof.
  unfold all_keys. set (rest := cpp_keys _ ++ _). intros Hl.
  assert (Hrest : ∀ x, x ∈ rest → ∀ i, snd x ≠ KR i).
  { intros x Hx i. unfold rest in Hx. rewrite !elem_of_app in Hx.
    destruct Hx as [Hx|[Hx|Hx]]; apply list_elem_of_fmap in Hx as (y & -> & _); done. }
  destruct (app_eq_inv _ _ _ _ Hl) as [(k & Hk & Hk')|(k & Hk & Hk')].
  - destruct k as [|y k].
    + cbn in Hk'. destruct (Hrest (regex, ms, KR id)) with id; [|done]. rewrite <- Hk'. by left.
    + injection Hk' as <- Hk'. destruct (route_keys_app _ _ _ _ _ Hk) as (r & Hr & [= -> -> ->]).
      exists r. repeat split; auto. exists k. by rewrite Hk'.
  - exfalso. apply (Hrest (regex, ms, KR id)) with id; [|done]. rewrite Hk'. apply elem_of_app. right. by left.
Qed.

(** ** Theorems *)

(** C5. The dispatcher survives every interleaving: from the loaded package,
    after any sequence of starts, stops, registrations, client connects and
    shutdowns, queued requests, client-loop events and dispatcher rounds, either
    the wake pipe is down everywhere (no server runs) or pipe, queue, kernel and
    later's watch agree on the same open descriptors; so while the server runs
    its requests always have a live pump. *)
Theorem dispatcher_always_consistent `{Platform} ops :
  let w := fold_left run_sop ops world_init in
  live w ∧ (g_running (routes_of w) = true → ∃ r wr, up r wr w).
Proof.
  intros w. pose proof (live_run ops) as Hl. fold w in Hl. split; [done|].
  intros Hr. destruct Hl as [_ _ [Hd|?]]; [|done]. by rewrite (dn_running _ Hd) in Hr.
Qed.

(** A start with valid arguments on a fresh session succeeds and leaves the
    server complete: running, its wake pipe up, the queue bounded by
    [max_queue], a worker pool of [cpp_workers] threads, the listener on the
    port, and after the handlers Drogon already had exactly the registered R
    routes (each bound to its own index), native routes, native streams and
    static mounts, in that order. *)
Theorem server_start_spec env now port_ threads_ upload_ max_queue_ cpp_workers_ port threads upload mq cw w :
  live w → g_running (routes_of w) = false → g_everStarted (routes_of w) = false → g_cppWorkerPool w = None →
  good_args port_ threads_ upload_ max_queue_ cpp_workers_ = Some (port, threads, upload, mq, cw) →
  ∃ w', drogonR_server_start env true now port_ threads_ upload_ max_queue_ cpp_workers_ w = (w', Ret R_NilValue) ∧
    g_running (routes_of w') = true ∧ g_everStarted (routes_of w') = true ∧ (∃ r wr, up r wr w') ∧
    g_queueMaxSize (dw_q (disp w')) = int_to_size mq ∧ g_cppWorkerPool w' = Some (pool_init (Z.to_nat cw)) ∧
    ap_running (app w') = true ∧ (∃ l, ap_listeners (app w') = l ++ [port]) ∧ ap_threads (app w') = threads ∧
    map handler_key (ap_handlers (app w')) = map handler_key (ap_handlers (app w)) ++ all_keys (routes_of w).
Proof.
  intros Hl Hr He Hp Ha.
  pose proof (start_cases env true now port_ threads_ upload_ max_queue_ cpp_workers_ w) as Hs.
  rewrite Ha, (lv_later _ Hl), Hr, He in Hs. cbn [negb andb] in Hs. rewrite Hs. clear Hs.
  pose proof (ensure_up env true w Hl) as Hu. pose proof (ensure_frame env true w) as Hf.
  destruct (ensureDispatcherRunning env true w) as [w1 [[]|e]]; [|by destruct Hu as [_ (_ & ? & _)]].
  destruct Hu as [_ (r & wr & Hu)]. destruct Hf as (F1 & _ & _ & _ & _ & F6 & F7 & _). cbn in F1, F6, F7.
  destruct (started_world env now port threads upload mq cw w1) as (Hsp & S1 & S2).
  eexists. split; [reflexivity|]. split; [done|]. split; [done|].
  split; [exists r, wr; by eapply up_same|].
  destruct (started_parts env now port threads upload mq cw w1) as (P1 & P2 & P3 & P4 & P5).
  rewrite P1, P2, P3, P4, F6, Hp. split; [done|]. split; [done|]. split; [done|].
  split; [apply P5|]. split; [done|].
  destruct (prepared_same mq cw w1) as [_ Er]. rewrite handlers_after_install, install_all_keys, Er, prepared_app, F7.
  unfold routes_of. by rewrite F1.
Qed.

(** Nothing but a fork reset clears [g_everStarted]. *)
Lemma ever_step `{Platform} w op :
  op ≠ ResetFork → g_everStarted (routes_of w) = true → g_everStarted (routes_of (run_sop w op)) = true.
Proof.
  intros Hop He. destruct op; cbn [run_sop]; try done.
  - pose proof (start_cases env pipe_ok now port_ threads_ upload_ max_queue_ cpp_workers_ w) as Hs.
    rewrite He, andb_false_r in Hs. destruct (good_args _ _ _ _ _) as [[[[[? ?] ?] ?] ?]|]; by destruct Hs as [e ->].
  - destruct (g_running (routes_of w)) eqn:Hr; [|by rewrite stop_idle].
    destruct (stop_run w Hr) as (w' & -> & _ & Hf & _). cbn [fst]. congruence.
  - unfold zoom. pose proof (run_call_flags c (routes_of w)) as [_ Hf].
    destruct (run_call c (routes_of w)) as [rs r]. cbn in *. congruence.
  - unfold drogonR_ws_connect. rewrite Routes.bind_want_string.
    destruct (single_string host_); [|done]. rewrite Routes.bind_want_string. destruct (single_string path_); [|done].
    unfold modify_clients. rewrite bind_modify, bind_run. cbn [WsClient.ensureDispatcherRunning server_host].
    set (w1 := host_set_clients _ w). pose proof (ensure_frame env pipe_ok w1) as (Hf & _).
    destruct (ensureDispatcherRunning env pipe_ok w1) as [w' [[]|e]]; cbn in Hf; unfold routes_of in *; [|cbn; by rewrite Hf].
    rewrite bind_get. destruct (open_client _ _ _ _ _ _ _) as [r cw']. rewrite bind_modify.
    destruct r; cbn; by rewrite Hf.
  - unfold drogonR_ws_client_close, want_client_id. by destruct id_ as [| | |[|r []]| | | | | |].
  - unfold enqueueRequest. destruct (enqueue_locked _ _) as [b q]. by destruct b.
  - unfold client_loop. destruct (loop_step _ _ _) as [cw|]; [|done].
    assert (Hn : ∀ n w0, routes_of (notify_times n signals w0) = routes_of w0).
    { induction n as [|n IH]; intros w0; cbn; [done|]. by rewrite IH. }
    by rewrite Hn.
  - unfold dispatch_round. case_decide; [|done]. unfold runDispatcher. case_if; [done|].
    destruct (drainWakePipe _ _ _) as [k|]; [|done]. cbn. unfold routes_of in *. cbn.
    set (w1 := set_queue _ k _).
    by destruct (dispatch_loop_spec R junk alive 0 (g_queue (dw_q (disp w))) w1) as (_ & _ & -> & _).
Qed.

(** A session starts the server at most once: after a successful start, and
    whatever happens then short of a fork reset (stops included), every further
    start is refused and changes nothing. *)
Theorem server_starts_once `{Platform} w w1 x env ok now p t u q c ops env' ok' now' p' t' u' q' c' :
  drogonR_server_start env ok now p t u q c w = (w1, Ret x) → Forall (λ op, op ≠ ResetFork) ops →
  let w2 := fold_left run_sop ops w1 in
  ∃ e, drogonR_server_start env' ok' now' p' t' u' q' c' w2 = (w2, Rf_error e).
Proof.
  intros Hs Hops w2.
  assert (He : g_everStarted (routes_of w1) = true).
  { pose proof (start_cases env ok now p t u q c w) as Hc.
    destruct (good_args p t u q c) as [[[[[port threads] upload] mq] cw]|]; [|destruct Hc as [e Hc]; congruence].
    destruct (_ && _ && _); [|destruct Hc as [e Hc]; congruence]. rewrite Hs in Hc.
    destruct (ensureDispatcherRunning env ok w) as [w' [[]|e]]; [|done]. injection Hc as -> _.
    apply started_world. }
  assert (He2 : g_everStarted (routes_of w2) = true).
  { unfold w2. clear w2 Hs. revert w1 He. induction ops as [|op ops IH]; intros w1 He; cbn; [done|].
    inversion Hops; subst. apply IH; [done|]. by apply ever_step. }
  pose proof (start_cases env' ok' now' p' t' u' q' c' w2) as Hc. rewrite He2, andb_false_r in Hc.
  destruct (good_args p' t' u' q' c') as [[[[[? ?] ?] ?] ?]|]; exact Hc.
Qed.

(** Stopping the server strands the WebSocket clients: after
    [drogonR_server_stop] the clients are still registered, but an event of the
    client loop writes no byte to any pipe, and no dispatcher round, on whatever
    descriptor later still watches, touches the clients. *)
Theorem stop_strands_clients `{Platform} w :
  live w → g_running (routes_of w) = true →
  ∃ w', drogonR_server_stop w = (w', Ret R_NilValue) ∧ clients_of w' = clients_of w ∧ down w' ∧
    ∀ signals id e cw, loop_step id e (clients_of w') = Some cw →
      let w2 := client_loop signals id e w' in
      clients_of w2 = cw ∧ dw_k (disp w2) = dw_k (disp w') ∧
      ∀ fd R junk alive fuel pump, clients_of (dispatch_round fd R junk alive fuel pump w2) = cw.
Proof.
  intros Hl Hr. destruct (stop_run w Hr) as (w' & E & _ & _ & _ & _ & F5 & _ & _ & _ & _ & _ & _ & F12).
  destruct Hl as [_ _ [Hd|(r & wr & Hu)]]; [by rewrite (dn_running _ Hd) in Hr|].
  destruct (F12 r wr Hu) as (Hdown & _). exists w'. split; [done|]. split; [done|]. split; [done|].
  intros signals id e cw Hstep. unfold client_loop. rewrite Hstep.
  assert (Hn : ∀ n w0, g_wakeWriteFd (dw_q (disp w0)) = -1 → disp (notify_times n signals w0) = disp w0).
  { induction n as [|n IH]; intros w0 Hw; cbn; [done|]. rewrite IH by done. cbn. unfold notifyDispatcher. rewrite Hw.
    destruct w0 as [[] ? ? ? ?]. by destruct signals. }
  destruct (dn_queue _ Hdown) as [_ Hq]. unfold clients_of at 1 2. rewrite !Hn by done. split; [done|]. split; [done|].
  intros fd R junk alive fuel pump. unfold dispatch_round. case_decide; [|unfold clients_of; by rewrite Hn].
  unfold runDispatcher. cbn. rewrite Hn by done. cbn. rewrite (dn_watch _ Hdown). done.
Qed.

(** What a successful start did to the handlers and the tables. *)
Lemma start_success env ok now p t u q c w w' x :
  drogonR_server_start env ok now p t u q c w = (w', Ret x) →
  map handler_key (ap_handlers (app w')) = map handler_key (ap_handlers (app w)) ++ all_keys (routes_of w) ∧
  g_routes (routes_of w') = g_routes (routes_of w).
Proof.
  intros Hs. pose proof (start_cases env ok now p t u q c w) as Hc. rewrite Hs in Hc. clear Hs.
  destruct (good_args p t u q c) as [[[[[port threads] upload] mq] cw]|]; [|destruct Hc as [e Hc]; congruence].
  destruct (_ && _ && _); [|destruct Hc as [e Hc]; congruence].
  pose proof (ensure_frame env ok w) as Hf. destruct (ensureDispatcherRunning env ok w) as [w1 [[]|e]]; [|done].
  injection Hc as -> _. destruct Hf as (F1 & _ & _ & _ & _ & _ & F7 & _). cbn in F1, F7.
  destruct (prepared_same mq cw w1) as [_ Er]. split.
  - rewrite handlers_after_install, install_all_keys, Er, prepared_app, F7. unfold routes_of. by rewrite F1.
  - set (w2 := install_all now _). rewrite (proj2 (launch_same _ _ _ _ _)), (proj2 (install_ws_same _)).
    unfold w2. rewrite (proj2 (install_all_same _ _)), Er. unfold routes_of. cbn. by rewrite F1.
Qed.

Lemma serves_spec p m (h : handler target) :
  serves p m h = true ↔ hd_regex h = p ∧ (hd_methods h = [] ∨ m ∈ hd_methods h).
Proof.
  unfold serves. destruct (String.eqb_spec (hd_regex h) p); cbn; [|naive_solver].
  destruct (hd_methods h); [naive_solver|]. rewrite bool_decide_eq_true. naive_solver.
Qed.

(** C30. A request that Drogon routes to an R handler reaches the right one: after
    a start on an application without handlers, a request routed to the R target
    [id] is one whose method is the method of the registered route [id] and whose
    path its regex matches, with the matched groups as parameters, so that the
    dispatcher's [getRoute] finds exactly that route; and no native route with
    the same regex and method was registered, for such a route takes every
    request of the R route. *)
Theorem routed_request_finds_route regex_match m path env ok now p t u q c w w' x id rl ps :
  drogonR_server_start env ok now p t u q c w = (w', Ret x) → ap_handlers (app w) = [] →
  Z.of_nat (length (g_routes (routes_of w))) ≤ INT_MAX →
  route regex_match m path (register_all (ap_handlers (app w'))) = Success (TR id rl) ps →
  ∃ r groups, getRoute id (routes_of w') = Some r ∧ methodFromString (r_method r) = m ∧
    regex_match (r_regex r) path = Some groups ∧ ps = routing_params groups ∧
    ∀ cr, cr ∈ g_cppRoutes (routes_of w) → cr_regex cr = r_regex r → methodFromString (cr_method cr) ≠ m.
Proof.
  intros Hs He Hlen Hroute. destruct (start_success _ _ _ _ _ _ _ _ _ _ _ Hs) as [Hk Hr]. rewrite He in Hk. cbn in Hk.
  set (hs := ap_handlers (app w')) in *. destruct (register_all_represents hs) as [_ Hb].
  destruct (route_success _ _ _ _ _ _ Hroute) as (it & groups & Hit & Hbi & Hm & ->).
  rewrite (Hb it m Hit) in Hbi. destruct (last_for_in _ _ _ _ Hbi) as (l1 & h & l2 & E & Ht & Hsv & Hl2).
  rewrite E, map_app in Hk. cbn in Hk. unfold handler_key at 2 in Hk. rewrite Ht in Hk.
  destruct (all_keys_route _ _ _ _ _ _ (eq_sym Hk)) as (r & Hlk & Erx & Ems & Eid & l3 & El2).
  apply serves_spec in Hsv as [Erp Hmem]. rewrite Ems in Hmem.
  assert (methodFromString (r_method r) = m) as Hmeth.
  { destruct Hmem as [?|Hmem]; [done|]. by apply list_elem_of_singleton in Hmem. }
  rewrite length_map in Hlk, Eid. assert (Hlt := lookup_lt_Some _ _ _ Hlk).
  rewrite wrapI32_small in Eid by (unfold INT_MIN in *; lia).
  exists r, groups. split; [|split; [done|]; split; [by rewrite <- Erx, Erp|]; split; [done|]].
  - unfold getRoute. rewrite Hr, wrapI32_small by (unfold INT_MIN; lia). rewrite Eid.
    replace (Z.of_nat (length l1) <? 0) with false by lia.
    replace (Z.of_nat (length (g_routes (routes_of w))) <=? Z.of_nat (length l1)) with false by lia.
    cbn. by rewrite Nat2Z.id.
  - intros cr Hcr Ecr Emeth.
    assert (Hin : (cr_regex cr, [methodFromString (cr_method cr)], KCpp (cr_fn cr)) ∈ map handler_key l2).
    { rewrite El2, !elem_of_app. right. left. apply list_elem_of_fmap. by exists cr. }
    apply list_elem_of_fmap in Hin as (h' & Eh & Hh'). rewrite Forall_forall in Hl2.
    apply list_elem_of_In in Hh'. specialize (Hl2 h' Hh'). assert (serves (pathParameterPattern_ it) m h' = true); [|congruence].
    apply serves_spec. injection Eh as E1 E2 _. split; [congruence|]. right. rewrite <- E2, Emeth. by left.
Qed.

(** ** Concrete runs *)

(** A matcher for patterns without metacharacters. *)
Definition literal_match (regex path : string) : option (list (option string)) :=
  if String.eqb regex path then Some [] else None.

Definition str1 (s : string) : SEXP := STRSXP [Some s] no_attr.
Definition ex_start (w : World) : World * outcome SEXP :=
  drogonR_server_start None true 0 (ScalarInteger 8080) (ScalarInteger 2) (str1 "uploads") (ScalarInteger 100)
    (ScalarInteger 4) w.

(** A package with one R route registered. *)
Definition ex_registered `{Platform} : World :=
  run_sop world_init (Register (RegisterRoute (str1 "GET") (str1 "/hi") (str1 "/hi") (STRSXP [] no_attr) (CLOSXP 7))).

(** With a native route for the same path and method besides, every request
    goes to the native handler, although the R routes are installed first. *)
Definition ex_both : World :=
  run_sop (H := x86_64) (ex_registered (H := x86_64))
    (Register (RegisterCpp (str1 "GET") (str1 "/hi") (str1 "/hi") (STRSXP [] no_attr) (EXTPTRSXP 4096))).

Example native_route_takes_r_route :
  ∃ rl, route literal_match Get "/hi" (register_all (ap_handlers (app (fst (ex_start ex_both))))) = Success (TCpp 4096 rl) [].
Proof. eexists. vm_compute. reflexivity. Qed.

(** The descriptors agree with nothing left behind after start and stop. *)
Example start_stop_closes_pipe :
  let w := fst (drogonR_server_stop (fst (ex_start world_init))) in
  k_bytes (dw_k (disp w)) = ∅ ∧ k_peer (dw_k (disp w)) = ∅ ∧ g_cppWorkerPool w = None.
Proof. vm_compute. done. Qed.

Lemma server_start_spec_witness :
  ∃ w', ex_start world_init = (w', Ret R_NilValue) ∧ g_running (routes_of w') = true.
Proof.
  destruct (server_start_spec None 0 (ScalarInteger 8080) (ScalarInteger 2) (str1 "uploads") (ScalarInteger 100)
    (ScalarInteger 4) 8080 2 "uploads" 100 4 world_init live_init) as (w' & H1 & H2 & _);
    try (vm_compute; reflexivity).
  exists w'. split; [exact H1|exact H2].
Defined.

Lemma dispatcher_always_consistent_witness :
  let w := fold_left (run_sop (H := x86_64))
    [Start None true 0 (ScalarInteger 8080) (ScalarInteger 2) (str1 "uploads") (ScalarInteger 100) (ScalarInteger 4); Stop]
    world_init in
  live w.
Proof.
  apply (dispatcher_always_consistent (H := x86_64)
    [Start None true 0 (ScalarInteger 8080) (ScalarInteger 2) (str1 "uploads") (ScalarInteger 100) (ScalarInteger 4); Stop]).
Defined.

Definition ex_running : World := Eval vm_compute in fst (ex_start world_init).

Lemma server_starts_once_witness :
  let w2 := fold_left (run_sop (H := x86_64)) [Stop] ex_running in
  ∃ e, drogonR_server_start None true 0 (ScalarInteger 8081) (ScalarInteger 2) (str1 "uploads") (ScalarInteger 100)
         (ScalarInteger 4) w2 = (w2, Rf_error e).
Proof.
  refine (server_starts_once (H := x86_64) world_init ex_running R_NilValue None true 0
    (ScalarInteger 8080) (ScalarInteger 2) (str1 "uploads") (ScalarInteger 100) (ScalarInteger 4) [Stop]
    None true 0 (ScalarInteger 8081) (ScalarInteger 2) (str1 "uploads") (ScalarInteger 100) (ScalarInteger 4) _ _).
  - vm_compute. reflexivity.
  - constructor; [discriminate|constructor].
Defined.

Lemma ex_running_live : live ex_running.
Proof.
  split; vm_compute; [reflexivity|discriminate|]. right. exists 3, 4.
  split; vm_compute; repeat split; try discriminate; [by eexists|]. by left.
Qed.

Lemma stop_strands_clients_witness :
  ∃ w', drogonR_server_stop ex_running = (w', Ret R_NilValue) ∧ clients_of w' = clients_of ex_running ∧ down w'.
Proof.
  destruct (stop_strands_clients (H := x86_64) ex_running ex_running_live) as (w' & H1 & H2 & H3 & _);
    [vm_compute; reflexivity|].
  exists w'. split; [exact H1|]. split; [exact H2|exact H3].
Defined.

Definition ex_route_world : World := Eval vm_compute in ex_registered (H := x86_64).

Lemma routed_request_finds_route_witness :
  ∃ r groups, getRoute 0 (routes_of (fst (ex_start ex_route_world))) = Some r ∧ methodFromString (r_method r) = Get ∧
    literal_match (r_regex r) "/hi" = Some groups ∧ [] = routing_params groups ∧
    ∀ cr, cr ∈ g_cppRoutes (routes_of ex_route_world) → cr_regex cr = r_regex r → methodFromString (cr_method cr) ≠ Get.
Proof.
  apply (routed_request_finds_route literal_match Get "/hi" None true 0 (ScalarInteger 8080) (ScalarInteger 2)
    (str1 "uploads") (ScalarInteger 100) (ScalarInteger 4) ex_route_world (fst (ex_start ex_route_world)) R_NilValue 0
    {| rls_limiters := []; rls_max_window := d_zero |} []); vm_compute; try reflexivity. discriminate.
Defined.
