(* ===== verification/HttpClientFlow.v ===== *)
(** * The HTTP client: what becomes of a call

    Every call of a client with an address is called back exactly once, the
    client never dereferences an empty queue or a client that is gone, and the
    responses of a connection go to its requests in order.  The invariant has
    three parts: the books of the calls ([accounted]), what holds at every
    moment ([base]), and what each suspended frame finds when it goes on ([res]). *)

From stdpp Require Import base list numbers option relations.
From Stdlib Require Import ZArith Lia.
From S2P Require Import Prelude HttpClient.
Local Open Scope nat_scope.

(** ** The books *)

Definition answered (tr : list event) : list nat := omap (λ e, match e with ECall i _ => Some i | _ => None end) tr.
Definition sent (k : nat) (tr : list event) : list nat :=
  omap (λ e, match e with ESent j i => if decide (j = k) then Some i else None | _ => None end) tr.
Definition got (k : nat) (tr : list event) : list nat :=
  omap (λ e, match e with EGot j i => if decide (j = k) then Some i else None | _ => None end) tr.

#[local] Arguments answered : simpl never.
#[local] Arguments sent : simpl never.
#[local] Arguments got : simpl never.

Record accounted (held : list nat) (cs : list Call) (ans : list nat) : Prop := {
  acc_nodup : NoDup held;
  acc_once : NoDup ans;
  acc_range i : i ∈ held ∨ i ∈ ans ↔ i < length cs;
  acc_plain i c : cs !! i = Some c → c_timed c = false → i ∈ held → i ∉ ans;
  acc_flag i c : cs !! i = Some c → c_timed c = true → (c_flag c = true ↔ i ∈ ans)
}.

Definition held (w : Client) : list nat := pipe w ++ buffer w.
Definition books (w : Client) : Prop := accounted (held w) (calls w) (answered (trace w)).

Lemma answered_snoc tr e : answered (tr ++ [e]) = answered tr ++ match e with ECall i _ => [i] | _ => [] end.
Proof. unfold answered. rewrite omap_app. by destruct e. Qed.

Lemma accounted_perm h h' cs ans : h ≡ₚ h' → accounted h cs ans → accounted h' cs ans.
Proof.
  intros E [A B C D F]; split; [by rewrite <-E|done|intros i; by rewrite <-E|intros i c; rewrite <-E; apply D|done].
Qed.

Lemma accounted_add h cs ans c :
  c_flag c = false → accounted h cs ans → accounted (length cs :: h) (cs ++ [c]) ans.
Proof.
  intros Hc [A B C D F].
  assert (Hn : ∀ X : Prop, length cs ∈ h ∨ length cs ∈ ans → X) by (intros X H; apply C in H; lia).
  assert (Hh : length cs ∉ h) by (intros ?; eapply Hn; eauto).
  assert (Ha : length cs ∉ ans) by (intros ?; eapply Hn; eauto).
  split; [by constructor|done| | |].
  - intros i. rewrite elem_of_cons, length_app; cbn.
    assert (i < length cs + 1 ↔ i = length cs ∨ i < length cs) as -> by lia. rewrite <-C. tauto.
  - intros i c' Hi Ht Hin. apply elem_of_cons in Hin as [->|Hin]; [done|].
    apply lookup_snoc_Some in Hi as [[? Hi]|[-> <-]]; [by eapply D|done].
  - intros i c' Hi Ht. apply lookup_snoc_Some in Hi as [[? Hi]|[-> <-]]; [by eapply F|].
    intuition congruence.
Qed.

Lemma accounted_drop i h cs ans : i ∈ ans → accounted (i :: h) cs ans → accounted h cs ans.
Proof.
  intros Hi [A B C D F]. apply NoDup_cons in A as [_ A].
  split; [done..| | |done].
  - intros j. rewrite <-C, elem_of_cons. split; [tauto|]. intros [[->|?]|?]; auto.
  - intros j c Hc Ht Hj. apply (D j c); [done..|by right].
Qed.

(** A call with a time-out is called back, and perhaps still held. *)
Lemma accounted_flag i h w ans :
  i ∈ h → c_timed (call_of i w) = true → c_flag (call_of i w) = false →
  accounted h (calls w) ans → accounted h (calls (flag i w)) (ans ++ [i]).
Proof.
  intros Hi Ht Hf [A B C D F].
  assert (Hr : i < length (calls w)) by (apply C; by left).
  apply lookup_lt_is_Some in Hr as [c Hc]. unfold call_of in *; rewrite Hc in *; cbn in *.
  assert (Ha : i ∉ ans) by (intros Ha; apply (F _ _ Hc Ht) in Ha; congruence).
  split; [done| | | |].
  - apply NoDup_app; split_and!; [done|set_solver|apply NoDup_singleton].
  - intros j. rewrite length_alter. specialize (C j). set_solver.
  - intros j c'. rewrite list_lookup_alter. case_decide as E; [subst j|].
    + rewrite Hc; cbn. intros [= <-]; cbn. congruence.
    + intros Hj Hj' Hin. specialize (D j c' Hj Hj' Hin). rewrite elem_of_app, list_elem_of_singleton. naive_solver.
  - intros j c'. rewrite list_lookup_alter. case_decide as E; [subst j|].
    + rewrite Hc; cbn. intros [= <-] _; cbn. set_solver.
    + intros Hj Hj'. rewrite (F _ _ Hj Hj'). set_solver.
Qed.

(** The callback of a call that is no longer held. *)
Lemma accounted_invoke i r h w :
  accounted (i :: h) (calls w) (answered (trace w)) →
  accounted h (calls (invoke i r w)) (answered (trace (invoke i r w))).
Proof.
  intros Hb. unfold invoke. destruct (c_timed (call_of i w)) eqn:Ht; [destruct (c_flag (call_of i w)) eqn:Hf|].
  - apply (accounted_drop i); [|done]. destruct Hb as [_ _ C _ F].
    assert (Hr : i < length (calls w)) by (apply C; left; left). apply lookup_lt_is_Some in Hr as [c Hc].
    unfold call_of in *. rewrite Hc in *. by apply (F _ _ Hc).
  - cbn. rewrite answered_snoc. apply (accounted_drop i); [set_solver|]. by apply accounted_flag; [left|..].
  - cbn. rewrite answered_snoc. destruct Hb as [A B C D F]. apply NoDup_cons in A as [Hi A].
    assert (Hr : i < length (calls w)) by (apply C; left; left). apply lookup_lt_is_Some in Hr as [c Hc].
    unfold call_of in *. rewrite Hc in *. cbn in *.
    assert (Ha : i ∉ answered (trace w)) by (eapply D; eauto; left).
    split; [done| | | |].
    + apply NoDup_app; split_and!; [done|set_solver|apply NoDup_singleton].
    + intros j. specialize (C j). set_solver.
    + intros j c' Hj Hj' Hin. assert (j ≠ i) by set_solver. specialize (D j c' Hj Hj'). set_solver.
    + intros j c' Hj Hj'. rewrite (F _ _ Hj Hj'). assert (j ≠ i) by congruence. set_solver.
Qed.

(** ** What holds at every moment *)

Definition down (k : nat) (w : Client) : Prop := status k w = Disconnected ∧ k < length (tcps w).
Definition live (k : nat) (w : Client) : Prop := tcp w = Some k ∧ up k w.
Definition fifo (k : nat) (w : Client) : Prop :=
  EHalf k ∉ trace w → sent k (trace w) = got k (trace w) ++ pipe w.

Section Invariant.
Context (address : Address) (depth : nat).

Record base (w : Client) : Prop := {
  b_crash : crashed w = false ∧ dns w = false;
  b_down k : status k w ≠ Disconnected → tcp w = Some k;
  b_tcp k : tcp w = Some k → k < length (tcps w);
  b_fresh k : status k w = Connecting ∨ length (tcps w) ≤ k →
    expects k w = false ∧ closing k w = false ∧ sent k (trace w) = [] ∧ got k (trace w) = [];
  b_half k : status k w = Disconnecting ∨ closing k w = true → EHalf k ∈ trace w ∨ expects k w = true ∨ status k w = Disconnected;
  b_fifo k : EHalf k ∉ trace w → got k (trace w) `prefix_of` sent k (trace w);
  b_pipe : length (pipe w) ≤ S (S depth)
}.

(** ** What each suspended frame finds *)

Definition conn (w : Client) : Prop := ∃ k, tcp w = Some k ∧ status k w = Connecting.
Definition not_up (w : Client) : Prop := ∀ k, ¬ live k w.
Definition unborn (w : Client) : Prop := tcp w = None ∨ conn w.
Definition cleared (w : Client) : Prop := tcp w = None ∧ pipe w = [] ∧ buffer w = [].
Definition ready (k : nat) (w : Client) : Prop :=
  live k w ∧ (status k w = Connected → pipe w = [] → buffer w = []) ∧ (expects k w = true → pipe w ≠ []) ∧ fifo k w.
Definition settled (w : Client) : Prop := cleared w ∨ (conn w ∧ pipe w = []) ∨ ∃ k, ready k w.

(** The frames over which a callback runs. *)
Definition calling (s : list frame) : Prop :=
  match s with
  | [] | KUser _ :: _ | KHandle _ _ :: _ | KFail :: _ | KErrPipe _ :: _ | KErrBuf _ :: _ => True
  | _ => False
  end.

(** The stacks that can go on with no client and nothing outstanding. *)
Fixpoint clearable (s : list frame) (w : Client) : Prop :=
  match s with
  | [] | [KRecv _ _] | [KFail; KClosePath] | [KClosePath] => True
  | KUser _ :: s => calling s ∧ clearable s w
  | KErrPipe _ :: s | KErrBuf _ :: s => clearable s w
  | [KHandle k _; KClosePath] => down k w
  | _ => False
  end.

Definition erring (s : list frame) (w : Client) : Prop := s = [] ∧ ∃ k, live k w ∧ expects k w = false.

Fixpoint res (s : list frame) (w : Client) : Prop :=
  match s with
  | [] => settled w
  | KUser _ :: s => calling s ∧ res s w
  | KSetup :: s | KConnect :: s => conn w ∧ calling s ∧ res s w ∧ clearable s w
  | [KRecv k _] => cleared w ∨ ready k w
  | [KHandle k _; KRecv k' _] => k' = k ∧ live k w ∧ expects k w = false ∧ fifo k w ∧ length (pipe w) ≤ S depth
  | [KHandle k _; KClosePath] => unborn w ∧ down k w
  | [KFail; KRecv k _] => live k w ∧ status k w = Disconnecting ∧ expects k w = false
  | [KFail; KClosePath] => unborn w
  | [KClosePath] => unborn w ∧ pipe w = []
  | [KDisc k; KRecv k' _] => cleared w ∧ expects k w = false
  | [KDisc k] =>
      (tcp w = Some k ∧ status k w = Disconnected ∧ (expects k w = true → pipe w ≠ []) ∧ fifo k w) ∨
      (tcp w = None ∧ buffer w = [] ∧ expects k w = false)
  | [KClosed k] => tcp w = None ∧ down k w ∧ pipe w ≠ [] ∧ fifo k w
  | KErrPipe _ :: s => clearable s w ∧ (not_up w ∨ erring s w)
  | KErrBuf _ :: s => clearable s w ∧ (not_up w ∧ pipe w = [] ∨ erring s w)
  | _ => False
  end.

(** Without a usable address there are no connections, only callbacks. *)
Definition quiet (w : Client) : Prop :=
  tcp w = None ∧ tcps w = [] ∧ held w = [] ∧ Forall (λ f, match f with KUser _ => True | _ => False end) (stack w).

Definition good (w : Client) : Prop :=
  base w ∧ (address = ValidIp ∧ res (stack w) w ∨ address = InvalidIp ∧ quiet w).

(** ** What does not see the calls and the stack *)

Record sim (w w' : Client) : Prop := {
  sim_tcp : tcp w' = tcp w;
  sim_tcps : tcps w' = tcps w;
  sim_pipe : pipe w' = pipe w;
  sim_buffer : buffer w' = buffer w;
  sim_crashed : crashed w' = crashed w ∧ dns w' = dns w;
  sim_sent k : sent k (trace w') = sent k (trace w);
  sim_got k : got k (trace w') = got k (trace w);
  sim_half k : EHalf k ∈ trace w' ↔ EHalf k ∈ trace w
}.

Lemma base_sim w w' : sim w w' → base w → base w'.
Proof.
  intros [E1 E2 E3 E4 [E5 E5'] E6 E7 E8] [A B C D F G H].
  split; try intros k; unfold status, expects, closing, tcp_of in *; rewrite ?E1, ?E2, ?E3, ?E5, ?E5', ?E6, ?E7, ?E8; eauto.
Qed.

Lemma live_sim w w' k : sim w w' → live k w' ↔ live k w.
Proof. intros [E1 E2 _ _ _ _ _ _]. unfold live, up, status, tcp_of. by rewrite E1, E2. Qed.
Lemma conn_sim w w' : sim w w' → conn w' ↔ conn w.
Proof. intros [E1 E2 _ _ _ _ _ _]. unfold conn, status, tcp_of. by setoid_rewrite E1; setoid_rewrite E2. Qed.
Lemma fifo_sim w w' k : sim w w' → fifo k w' ↔ fifo k w.
Proof. intros [_ _ E3 _ _ E6 E7 E8]. unfold fifo. by rewrite E3, E6, E7, E8. Qed.
Lemma ready_sim w w' k : sim w w' → ready k w' ↔ ready k w.
Proof.
  intros E. unfold ready. rewrite (live_sim _ _ _ E), (fifo_sim _ _ _ E). destruct E as [_ E2 E3 E4 _ _ _ _].
  unfold status, expects, tcp_of. by rewrite E2, E3, E4.
Qed.

Lemma clearable_sim s w w' : sim w w' → clearable s w → clearable s w'.
Proof.
  intros [_ E2 _ _ _ _ _ _]. induction s as [|f s IH]; [done|].
  destruct f; cbn; try naive_solver; destruct s as [|[] [|]]; unfold down, status, tcp_of; rewrite ?E2; done.
Qed.

Lemma erring_sim s w w' : sim w w' → erring s w → erring s w'.
Proof.
  intros E (? & k & Hl & He). split; [done|]. exists k. rewrite (live_sim _ _ _ E). split; [done|].
  destruct E as [_ E2 _ _ _ _ _ _]. unfold expects, tcp_of in *. by rewrite E2.
Qed.

Lemma res_sim s w w' : sim w w' → res s w → res s w'.
Proof.
  intros E. induction s as [|f s IH].
  - cbn. unfold settled, cleared. rewrite (conn_sim _ _ E). setoid_rewrite (λ k, ready_sim _ _ k E).
    destruct E as [E1 _ E3 E4 _ _ _ _]. by rewrite E1, E3, E4.
  - pose proof (clearable_sim s _ _ E) as Hc. pose proof (erring_sim s _ _ E) as He. pose proof E as [E1 E2 E3 E4 _ _ _ _].
    assert (Hn : not_up w → not_up w') by (intros Hn k; rewrite (live_sim _ _ k E); apply Hn).
    destruct f; cbn; rewrite ?E3; try rewrite (conn_sim _ _ E); try naive_solver;
      destruct s as [|[] [|]]; cbn; unfold cleared, unborn; rewrite ?E1, ?E3, ?E4, ?(conn_sim _ _ E); rewrite ?(ready_sim _ _ _ E), ?(fifo_sim _ _ _ E), ?(live_sim _ _ _ E);
      unfold down, status, expects, tcp_of; rewrite ?E2; done.
Qed.

Lemma sim_refl w w' :
  tcp w' = tcp w → tcps w' = tcps w → pipe w' = pipe w → buffer w' = buffer w → crashed w' = crashed w ∧ dns w' = dns w → trace w' = trace w → sim w w'.
Proof. intros E1 E2 E3 E4 E5 E6. by split; intros; rewrite ?E6. Qed.

Lemma sim_trans w1 w2 w3 : sim w1 w2 → sim w2 w3 → sim w1 w3.
Proof.
  intros [A1 A2 A3 A4 [A5 A5'] A6 A7 A8] [B1 B2 B3 B4 [B5 B5'] B6 B7 B8].
  split; try congruence; [split; congruence|..]; intros k; rewrite ?B6, ?B7, ?B8; done.
Qed.

Lemma sim_push f w : sim w (push f w).
Proof. by apply sim_refl. Qed.
Lemma sim_pop w : sim w (pop w).
Proof. by apply sim_refl. Qed.

Lemma sim_invoke i r w : sim w (invoke i r w).
Proof.
  assert (H : ∀ w', tcp w' = tcp w → tcps w' = tcps w → pipe w' = pipe w → buffer w' = buffer w → crashed w' = crashed w ∧ dns w' = dns w →
    trace w' = trace w ++ [ECall i r] → sim w w').
  { intros w' E1 E2 E3 E4 E5 E6. split; try done; intros k; rewrite E6.
    - unfold sent. by rewrite omap_app, app_nil_r.
    - unfold got. by rewrite omap_app, app_nil_r.
    - rewrite elem_of_app, list_elem_of_singleton. naive_solver. }
  unfold invoke. destruct (c_timed (call_of i w)); [destruct (c_flag (call_of i w))|]; try by apply H.
  by apply sim_refl.
Qed.

Lemma stack_invoke i r w : stack (invoke i r w) = stack w ∨ stack (invoke i r w) = KUser i :: stack w.
Proof. unfold invoke. destruct (c_timed (call_of i w)); [destruct (c_flag (call_of i w))|]; auto. Qed.

Lemma good_invoke i r w : calling (stack w) → base w → res (stack w) w → base (invoke i r w) ∧ res (stack (invoke i r w)) (invoke i r w).
Proof.
  intros Hc Hb Hr. pose proof (sim_invoke i r w) as E. split; [by eapply base_sim|].
  destruct (stack_invoke i r w) as [-> | ->]; cbn; eauto using res_sim.
Qed.

(** ** The connections *)

Lemma tcp_of_alter f k j w :
  tcp_of j (set_tcps (alter f k (tcps w)) w) = if decide (k = j ∧ j < length (tcps w)) then f (tcp_of j w) else tcp_of j w.
Proof.
  unfold tcp_of; cbn. rewrite list_lookup_alter.
  case_decide as E; [subst j|by rewrite decide_False by naive_solver].
  destruct (tcps w !! k) as [t|] eqn:Et; cbn.
  - apply lookup_lt_Some in Et. by rewrite decide_True.
  - apply lookup_ge_None in Et. by rewrite decide_False by lia.
Qed.

(** An update of one connection: enough about that connection is enough. *)
Lemma base_alter f k w :
  (status k w ≠ Disconnected → tcp w = Some k →
   let t := f (tcp_of k w) in
   (t_status t = Connecting → status k w = Connecting ∧ t_expect t = expects k w ∧ t_closing t = closing k w) ∧
   (t_status t = Disconnecting ∨ t_closing t = true → EHalf k ∈ trace w ∨ t_expect t = true ∨ t_status t = Disconnected)) →
  (status k w = Disconnected → t_status (f (tcp_of k w)) = Disconnected) →
  base w → base (set_tcps (alter f k (tcps w)) w).
Proof.
  intros Hu Hd [A B C D F G H]. split; try done.
  - intros j. unfold status. rewrite tcp_of_alter. case_decide as E; [destruct E as [-> _]|apply B].
    intros Hs. apply B. intros Hj. auto.
  - intros j Hj. cbn. rewrite length_alter. by apply C.
  - intros j. unfold status, expects, closing. rewrite tcp_of_alter. cbn. rewrite length_alter.
    case_decide as E; [destruct E as [-> E]|apply D].
    intros [Hs|?]; [|lia]. assert (Hn : status j w ≠ Disconnected) by (intros Hj; apply Hd in Hj; congruence).
    destruct (Hu Hn (B _ Hn)) as [Hc _]. destruct (Hc Hs) as (Hs' & -> & ->). by apply D; left.
  - intros j. unfold status, expects, closing. rewrite tcp_of_alter. case_decide as E; [destruct E as [-> E]|apply F].
    intros Hs. destruct (decide (status j w = Disconnected)) as [Hj|Hn]; [by right; right; auto|].
    by apply (Hu Hn (B _ Hn)).
Qed.

Lemma base_disconnect k w : base w → base (set_status k Disconnected w).
Proof. intros. apply base_alter; cbn; [|done..]. intros _ _. split; [done|by right; right]. Qed.

Lemma base_connected k w : status k w = Connecting → base w → base (set_status k Connected w).
Proof.
  intros Hs Hb. apply base_alter; cbn; [|congruence|done]. intros _ _. split; [done|].
  destruct (b_fresh _ Hb k) as (_ & Hc & _); [by left|]. unfold closing in Hc. intros [|]; congruence.
Qed.

Lemma base_disconnecting k w :
  status k w = Connected → EHalf k ∈ trace w ∨ expects k w = true → base w → base (set_status k Disconnecting w).
Proof. intros Hs Hh Hb. apply base_alter; cbn; [|congruence|done]. intros _ _. split; [done|]. fold (expects k w). tauto. Qed.

Lemma base_expect k w : up k w → base w → base (set_expect k true w).
Proof.
  intros Hu Hb. apply base_alter; cbn; [| |done].
  - intros _ _. fold (status k w). destruct Hu as [-> | ->]; (split; [done|by right; left]).
  - intros E. destruct Hu; congruence.
Qed.

Lemma base_unexpect k w : status k w = Disconnected → base w → base (set_expect k false w).
Proof. intros Hs Hb. apply base_alter; cbn; [congruence|by intros|done]. Qed.

Lemma base_shutdown gone k w : EHalf k ∈ trace w ∨ expects k w = true → base w → base (shutdown gone k w).
Proof.
  intros Hh Hb. unfold shutdown. destruct (status k w) eqn:Hs; try done. destruct gone; [by apply base_disconnecting|].
  apply base_alter; cbn; [|congruence|done]. fold (status k w) (expects k w). intros _ _. split; [congruence|tauto].
Qed.

(** ** The queues *)

Lemma sent_snoc k tr e :
  sent k (tr ++ [e]) = sent k tr ++ match e with ESent j i => if decide (j = k) then [i] else [] | _ => [] end.
Proof. unfold sent. rewrite omap_app. destruct e; cbn; try done. by case_decide. Qed.
Lemma got_snoc k tr e :
  got k (tr ++ [e]) = got k tr ++ match e with EGot j i => if decide (j = k) then [i] else [] | _ => [] end.
Proof. unfold got. rewrite omap_app. destruct e; cbn; try done. by case_decide. Qed.

Lemma base_queues p b w : length p ≤ S (S depth) → base w → base (set_queues p b w).
Proof. by intros Hp [A B C D F G H]; split. Qed.

Lemma base_reset_tcp w : not_up w → ¬ conn w → base w → base (set_tcp None w).
Proof.
  intros Hn Hc [A B C D F G H]. split; try done.
  intros k Hk. exfalso. apply B in Hk as Ht. unfold status in Hk; cbn in Hk.
  destruct (t_status (tcp_of k w)) eqn:Hs; [apply Hc; exists k|apply (Hn k)|apply (Hn k)|]; try done; (split; [done|]); unfold up; auto.
Qed.

Lemma base_created w : tcp w = None → base w → base (set_tcp (Some (length (tcps w))) (set_tcps (tcps w ++ [new_tcp]) w)).
Proof.
  intros Ht [A B C D F G H].
  assert (E : ∀ j, tcp_of j (set_tcp (Some (length (tcps w))) (set_tcps (tcps w ++ [new_tcp]) w)) =
    if decide (j = length (tcps w)) then new_tcp else tcp_of j w).
  { intros j. unfold tcp_of; cbn. case_decide as E; [subst; by rewrite lookup_app_r, Nat.sub_diag|].
    destruct (decide (j < length (tcps w))); [by rewrite lookup_app_l|].
    by rewrite !lookup_ge_None_2 by (rewrite ?length_app; cbn; lia). }
  split; try done; try intros k; unfold status, expects, closing in *; rewrite ?E; cbn; rewrite ?length_app; cbn.
  - case_decide; [by subst|]. intros Hk. apply B in Hk. congruence.
  - intros [= <-]. lia.
  - case_decide; [subst; intros _; repeat split; by apply D; right|]. intros [Hk|Hk]; apply D; [by left|right; lia].
  - case_decide; [by intros [|]|]. apply F.
Qed.

Lemma live_half k w : live k w → k < length (tcps w) ∧ status k w ≠ Connecting ∧ status k w ≠ Disconnected.
Proof.
  intros [_ Hu]. split.
  - apply not_ge. intros Hk. unfold up, status, tcp_of in Hu. rewrite lookup_ge_None_2 in Hu by lia. by destruct Hu.
  - by destruct Hu as [-> | ->].
Qed.

Lemma base_send_now k i w : live k w → length (pipe w) ≤ S depth → base w → base (send_now k i w).
Proof.
  intros Hl Hp [A B C D F G H]. apply live_half in Hl as (Hk & Hs & _).
  split; try done; try intros j; cbn; rewrite ?sent_snoc, ?got_snoc, ?app_nil_r.
  - intros Hj. case_decide; [subst j|rewrite app_nil_r; by apply D]. destruct Hj; [done|lia].
  - intros Hj. destruct (F j Hj); [left; set_solver|by right].
  - intros Hj. apply prefix_app_r, G. set_solver.
  - rewrite length_app; cbn. lia.
Qed.

Lemma base_got k i rest w : up k w ∨ down k w →
  fifo k w → pipe w = i :: rest → base w → base (emit (EGot k i) (set_queues rest (buffer w) w)).
Proof.
  intros Hu Hf Hp [A B C D F G H].
  split; try done; try intros j; cbn; rewrite ?sent_snoc, ?got_snoc, ?app_nil_r.
  - intros Hj. case_decide; [subst j|rewrite app_nil_r; by apply D]. exfalso. destruct Hj as [Hj|Hj].
    + change (status k w = Connecting) in Hj. destruct Hu as [[]|[]]; congruence.
    + destruct Hu as [Hu|[_ ?]]; [|lia]. unfold up, status, tcp_of in Hu. rewrite lookup_ge_None_2 in Hu by lia. by destruct Hu.
  - intros Hj. destruct (F j Hj); [left; set_solver|by right].
  - intros Hj. case_decide; [subst j|rewrite app_nil_r; apply G; set_solver].
    rewrite Hf, Hp by set_solver. exists rest. by rewrite <-app_assoc.
  - rewrite Hp in H. cbn in H. lia.
Qed.

Lemma base_half k w : base w → base (emit (EHalf k) w).
Proof.
  intros [A B C D F G H]. split; try done; try intros j; cbn; rewrite ?sent_snoc, ?got_snoc, ?app_nil_r.
  - apply D.
  - intros Hj. destruct (F j Hj); [left; set_solver|by right].
  - intros Hj. apply G. set_solver.
Qed.

(** ** Going on with nothing outstanding *)

Lemma conn_not_up w : conn w → not_up w.
Proof. intros (k & Ht & Hs) j [Hj [Hu|Hu]]; congruence. Qed.
Lemma none_not_up w : tcp w = None → not_up w.
Proof. intros Ht j [Hj _]; congruence. Qed.
Lemma unborn_not_up w : unborn w → not_up w.
Proof. intros [?|?]; auto using none_not_up, conn_not_up. Qed.

Lemma clear_res s w : clearable s w → cleared w → res s w.
Proof.
  intros Hs Hc. assert (Hu : unborn w) by (left; apply Hc). pose proof (unborn_not_up _ Hu) as Hn.
  induction s as [|f s IH]; [by left|].
  destruct f; cbn in *; try done; try naive_solver; try (split; [done|left; split; [done|apply Hc]]);
    destruct s as [|[] [|]]; try done; try naive_solver. split; [done|apply Hc].
Qed.

Lemma clearable_down s w w' : (∀ j, down j w → down j w') → clearable s w → clearable s w'.
Proof.
  intros Hd. induction s as [|f s IH]; [done|].
  destruct f; cbn; try naive_solver; destruct s as [|[] [|]]; try done. apply Hd.
Qed.

Lemma status_set j k s w : status j (set_status k s w) = if decide (k = j ∧ j < length (tcps w)) then s else status j w.
Proof. unfold status at 1, set_status. rewrite tcp_of_alter. by case_decide. Qed.
Lemma down_set k s j w : s = Disconnected ∨ status k w ≠ Disconnected → down j w → down j (set_status k s w).
Proof.
  intros Hs [Hj Hl]. split; [|unfold set_status; cbn; by rewrite length_alter].
  rewrite status_set. case_decide as E; [|done]. destruct E as [-> _]. by destruct Hs.
Qed.
Lemma status_closing j k w : status j (set_closing k w) = status j w.
Proof. unfold status, set_closing. rewrite tcp_of_alter. by case_decide. Qed.
Lemma expects_closing j k w : expects j (set_closing k w) = expects j w.
Proof. unfold expects, set_closing. rewrite tcp_of_alter. by case_decide. Qed.
Lemma status_expect j k e w : status j (set_expect k e w) = status j w.
Proof. unfold status, set_expect. rewrite tcp_of_alter. by case_decide. Qed.
Lemma expects_set j k s w : expects j (set_status k s w) = expects j w.
Proof. unfold expects, set_status. rewrite tcp_of_alter. by case_decide. Qed.

Lemma unset_not_up k w : base w → tcp w = Some k → not_up (set_status k Disconnected w) ∧ ¬ conn (set_status k Disconnected w).
Proof.
  intros Hb Ht. pose proof (b_tcp _ Hb _ Ht) as Hk. split.
  - intros j [Hj Hu]. cbn in Hj. assert (j = k) as -> by congruence.
    unfold up in Hu. rewrite status_set, decide_True in Hu by done. by destruct Hu.
  - intros (j & Hj & Hu). cbn in Hj. assert (j = k) as -> by congruence.
    by rewrite status_set, decide_True in Hu.
Qed.

(** A client that is not up goes without a callback. *)
Lemma reset_quiet w :
  not_up w → ∃ l, reset w = set_tcp None (set_tcps l w) ∧ (base w → base (reset w)) ∧ ∀ j, down j w → down j (reset w).
Proof.
  intros Hn. unfold reset, destroy. destruct (tcp w) as [k|] eqn:Ht.
  - change (status k (set_tcp None w)) with (status k w). destruct (status k w) eqn:Hk.
    + eexists. split; [done|]. split; [|intros j; apply (down_set k _ j (set_tcp None w)); by left].
      intros Hb. destruct (unset_not_up k w Hb Ht). by apply (base_reset_tcp (set_status k Disconnected w)), base_disconnect.
    + exfalso. apply (Hn k). split; [done|by left].
    + exfalso. apply (Hn k). split; [done|by right].
    + exists (tcps w). split; [done|]. split; [|done]. intros Hb. apply base_reset_tcp; [done| |done]. intros (j & Hj & Hu). congruence.
  - exists (tcps w). split; [done|]. split; [|done]. intros Hb. apply base_reset_tcp; [done| |done]. intros (j & Hj & Hu). congruence.
Qed.

Lemma reset_idle s w :
  base w → not_up w → pipe w = [] → buffer w = [] → clearable s w →
  base (reset w) ∧ res s (reset w) ∧ stack (reset w) = stack w.
Proof.
  intros Hb Hn Hp Hq Hs. destruct (reset_quiet w Hn) as (l & E & Hb' & Hd).
  split_and!; [auto| |by rewrite E]. apply clear_res; [by apply (clearable_down _ w)|by rewrite E].
Qed.

Lemma reset_live k w :
  live k w → reset w = push (KDisc k) (set_status k Disconnected (set_tcp None w)).
Proof. intros [Ht Hu]. unfold reset, destroy. rewrite Ht. change (status k (set_tcp None w)) with (status k w). by destruct Hu as [-> | ->]. Qed.

Lemma base_reset_live k w : live k w → base w → base (reset w).
Proof.
  intros Hl Hb. rewrite (reset_live k) by done. eapply base_sim; [apply sim_push|].
  destruct (unset_not_up k w Hb); [apply Hl|]. by apply (base_reset_tcp (set_status k Disconnected w)), base_disconnect.
Qed.

(** ** Sending, from anywhere *)

Lemma clearable_same s w w' : tcps w' = tcps w → clearable s w → clearable s w'.
Proof. intros E. apply clearable_down. unfold down, status, tcp_of. by rewrite E. Qed.

Lemma res_wait i s w : calling s → not_up w → tcp w ≠ None → res s w → res s (wait i w).
Proof.
  intros Hc Hn Ht. induction s as [|f s IH].
  - intros [[? _]|[?|(k & [? _])]]; [done|by right; left|by destruct (Hn k)].
  - pose proof (clearable_same s w (wait i w) eq_refl) as Hs.
    destruct f; cbn; try done.
    + intros [? ?]. auto.
    + naive_solver.
    + naive_solver.
Qed.

Lemma fifo_send_now k i w : fifo k w → fifo k (send_now k i w).
Proof.
  intros Hf He. cbn in He. cbn. rewrite sent_snoc, got_snoc, app_nil_r, decide_True by done.
  rewrite Hf by set_solver. by rewrite <-app_assoc.
Qed.

(** The request goes out at once or waits behind others. *)
Definition sent_or_waits (k i : nat) (w w' : Client) : Prop :=
  w' = send_now k i w ∧ length (pipe w) ≤ depth ∨ w' = wait i w ∧ (pipe w = [] → buffer w ≠ []).

Lemma res_live i k s w w' : sent_or_waits k i w w' → calling s → live k w → res s w → res s w'.
Proof.
  intros Hw Hc Hl.
  assert (Hk : ∀ j, live j w → j = k) by (intros j [Hj _]; destruct Hl; congruence).
  assert (Hn : ¬ not_up w) by (intros Hn; by apply (Hn k)).
  assert (Hu : ¬ unborn w) by (intros Hu; by apply Hn, unborn_not_up).
  assert (El : live k w') by (by destruct Hw as [[-> _]|[-> _]]).
  assert (Es : tcps w' = tcps w) by (by destruct Hw as [[-> _]|[-> _]]).
  assert (Ex : expects k w' = expects k w) by (unfold expects, tcp_of; by rewrite Es).
  assert (Et : status k w' = status k w) by (unfold status, tcp_of; by rewrite Es).
  assert (Ef : fifo k w → fifo k w') by (destruct Hw as [[-> _]|[-> _]]; [apply fifo_send_now|done]).
  assert (Ep : length (pipe w) ≤ S depth → length (pipe w') ≤ S depth).
  { destruct Hw as [[-> Hg]|[-> _]]; [|done]. cbn. rewrite length_app; cbn. lia. }
  assert (Ee : erring (tl s) w → erring (tl s) w').
  { intros (? & j & Hj & He). rewrite (Hk j Hj) in He. split; [done|]. exists k. by rewrite Ex. }
  revert Ee. induction s as [|f s IH]; intros Ee.
  - intros [[? _]|[[? _]|(j & Hj & Hb & He & Hf)]].
    + destruct Hl; congruence.
    + exfalso. by apply Hn, conn_not_up.
    + rewrite (Hk j Hj) in *. right; right. exists k. split_and!; [done| | |auto].
      * rewrite Et. destruct Hw as [[-> _]|[-> Hg]]; cbn; [by destruct (pipe w)|].
        intros Hs Hp. by destruct (Hg Hp (Hb Hs Hp)).
      * rewrite Ex. intros H'. specialize (He H'). destruct Hw as [[-> _]|[-> _]]; cbn; [by destruct (pipe w)|done].
  - pose proof (clearable_same s w w' Es) as Hs.
    destruct f; cbn; try done.
    + intros [? ?]. split; [done|]. apply IH; try done.
      intros (E & j & Hj & He). rewrite (Hk j Hj) in He. split; [done|]. exists k. by rewrite Ex.
    + destruct s as [|[] [|]]; try done; [|naive_solver].
      intros (-> & Hl' & He & Hf & Hp). rewrite (Hk _ Hl') in *. rewrite Ex. auto 10.
    + destruct s as [|[] [|]]; try done.
      intros (Hl' & He & Hf). rewrite (Hk _ Hl') in *. by rewrite Ex, Et.
    + naive_solver.
    + naive_solver.
Qed.

Definition create (w : Client) : Client := set_tcp (Some (length (tcps w))) (set_tcps (tcps w ++ [new_tcp]) w).

Lemma create_conn w : conn (create w).
Proof. exists (length (tcps w)). split; [done|]. unfold status, tcp_of; cbn. by rewrite lookup_app_r, Nat.sub_diag. Qed.

Lemma create_down j w : down j w → down j (create w).
Proof.
  intros [Hs Hj]. split; [|cbn; rewrite length_app; lia]. unfold status, tcp_of in *; cbn. by rewrite lookup_app_l.
Qed.

Lemma live_none k w : tcp w = None → ¬ live k w.
Proof. intros E [? _]. congruence. Qed.

Lemma res_create s w w' :
  tcp w = None → calling s → res s w → conn w' → pipe w' = pipe w → (∀ j, down j w → down j w') → res s w' ∧ clearable s w'.
Proof.
  intros Ht Hc Hr Hn Hp Hd. pose proof (conn_not_up _ Hn) as Hu. assert (Hb : unborn w') by by right.
  assert (Hl : ∀ k, ¬ live k w) by (intros; by apply live_none).
  induction s as [|f s IH].
  - split; [|done]. right; left. split; [done|]. rewrite Hp.
    destruct Hr as [(_ & ? & _)|[[(k & ? & _) _]|(k & [? _] & _)]]; [done|congruence|congruence].
  - pose proof (clearable_down s _ _ Hd) as Hs.
    assert (He : ¬ erring s w) by (intros (_ & k & ? & _); by eapply Hl).
    destruct f; cbn in Hr |- *; try done; try rewrite Hp; try naive_solver;
      destruct s as [|[] [|]]; try done; naive_solver.
Qed.

Lemma base_wait i w : base w → base (wait i w).
Proof. intros Hb. apply base_queues; [apply Hb|done]. Qed.

Lemma createTcpClient_none w : tcp w = None → createTcpClient w = push KSetup (create w).
Proof. intros E. unfold createTcpClient. by rewrite E. Qed.

Lemma good_live_send i k w w' :
  sent_or_waits k i w w' → live k w → calling (stack w) → base w → res (stack w) w → base w' ∧ res (stack w') w'.
Proof.
  intros Hw Hl Hc Hb Hr. split.
  - destruct Hw as [[-> Hp]|[-> _]]; [|by apply base_wait]. apply base_send_now; [done|lia|done].
  - replace (stack w') with (stack w) by (by destruct Hw as [[-> _]|[-> _]]). by eapply res_live.
Qed.

Lemma good_send req timed w :
  address = ValidIp → calling (stack w) → base w → res (stack w) w →
  base (sendRequestInLoop address depth req timed w) ∧
  res (stack (sendRequestInLoop address depth req timed w)) (sendRequestInLoop address depth req timed w).
Proof.
  intros -> Hc Hb Hr. unfold sendRequestInLoop. set (i := length (calls w)). set (w1 := set_calls _ w).
  assert (E : sim w w1) by by apply sim_refl.
  apply (base_sim _ _ E) in Hb as Hb1. apply (res_sim _ _ _ E) in Hr as Hr1.
  change (stack w) with (stack w1) in Hc, Hr1. clearbody w1 i. clear E Hb Hr w.
  assert (Hw : not_up w1 → tcp w1 ≠ None → base (wait i w1) ∧ res (stack (wait i w1)) (wait i w1)).
  { intros. split; [by apply base_wait|by apply res_wait]. }
  destruct (tcp w1) as [k|] eqn:Ht.
  - assert (Hk : ∀ j, live j w1 → j = k) by (intros j [? _]; congruence).
    assert (Hg : sent_or_waits k i w1
      (if (length (pipe w1) <=? depth) && bool_decide (buffer w1 = []) then send_now k i w1 else wait i w1)).
    { destruct (Nat.leb_spec (length (pipe w1)) depth); cbn; [|right; split; [done|]; intros E; rewrite E in *; cbn in *; lia].
      case_bool_decide; [by left|by right]. }
    destruct (status k w1) eqn:Hs.
    + apply Hw; [apply conn_not_up; by exists k|done].
    + eapply good_live_send; eauto. split; [done|by left].
    + eapply good_live_send; eauto. split; [done|by right].
    + apply Hw; [|done]. intros j Hj. rewrite (Hk j Hj) in Hj. destruct Hj as [_ []]; congruence.
  - rewrite createTcpClient_none by done.
    destruct (res_create (stack w1) w1 (create (wait i w1))) as [H1 H2]; try done.
    { apply create_conn. } { intros j. apply create_down. }
    split; [eapply base_sim; [apply sim_push|]; apply base_created; [done|by apply base_wait]|].
    apply (res_sim _ (create (wait i w1))); [apply sim_push|]. cbn. auto using create_conn.
Qed.

(** ** The frames *)

Definition fine (w : Client) : Prop := base w ∧ res (stack w) w.

Lemma fine_push f w : base w → res (f :: stack w) w → fine (push f w).
Proof. intros Hb Hr. split; [by eapply base_sim; [apply sim_push|]|]. by apply (res_sim _ w); [apply sim_push|]. Qed.

Lemma fine_pop w : base w → res (tail (stack w)) w → fine (pop w).
Proof. intros Hb Hr. split; [by eapply base_sim; [apply sim_pop|]|]. by apply (res_sim _ w); [apply sim_pop|]. Qed.

Lemma pop_clearable w : clearable (tail (stack w)) w → clearable (stack (pop w)) (pop w).
Proof. by apply clearable_same. Qed.

Lemma fine_error r w : base w → clearable (stack w) w → not_up w ∨ erring (stack w) w → fine (onError r w).
Proof. intros. by apply fine_push. Qed.

Lemma fine_shutdown gone k w :
  (cleared w ∨ ready k w) → EHalf k ∈ trace w ∨ expects k w = true → cleared (shutdown gone k w) ∨ ready k (shutdown gone k w).
Proof.
  intros [Hc|Hrd] Hh; unfold shutdown.
  { left. destruct (status k w); [done|by destruct gone|done..]. }
  right. destruct (status k w) eqn:Hs; try exact Hrd. destruct Hrd as (Hl & Hb & He & Hf). pose proof Hl as [Ht Hu]. destruct gone.
  - assert (Hk : k < length (tcps w)) by by apply live_half.
    refine (conj _ (conj _ (conj _ Hf))).
    + split; [done|]. unfold up. rewrite status_set, decide_True by done. by right.
    + rewrite status_set, decide_True by done. done.
    + by rewrite expects_set.
  - refine (conj _ (conj _ (conj _ Hf))).
    + split; [done|]. by unfold up; rewrite status_closing.
    + intros _. by apply Hb.
    + by rewrite expects_closing.
Qed.

Lemma fine_handle k close s w :
  stack w = s → base w → fifo k w → pipe w ≠ [] → up k w ∨ down k w →
  (∀ i rest, pipe w = i :: rest → let w' := emit (EGot k i) (set_queues rest (buffer w) w) in
    fifo k w' → res (KHandle k close :: s) w') →
  fine (handleResponse k close w).
Proof.
  intros Es Hb Hf Hp Hu Hr. unfold handleResponse. destruct (pipe w) as [|i rest] eqn:Ep; [done|].
  specialize (Hr i rest eq_refl). apply good_invoke.
  - done.
  - eapply base_sim; [apply sim_push|]. by apply base_got.
  - subst s. apply (res_sim (KHandle k close :: stack w) (emit (EGot k i) (set_queues rest (buffer w) w))); [apply sim_push|].
    apply Hr. intros He. cbn in He |- *. rewrite got_snoc, sent_snoc, app_nil_r, decide_True by done.
    rewrite Hf, Ep by set_solver. by rewrite <-app_assoc.
Qed.

Lemma fine_invoke i r p b w : 
  calling (stack w) → length p ≤ length (pipe w) → base w → res (stack w) (set_queues p b w) → fine (invoke i r (set_queues p b w)).
Proof. intros Hc Hp Hb Hr. apply good_invoke; [done| |done]. apply base_queues; [|done]. pose proof (b_pipe _ Hb). lia. Qed.

Lemma stack_shutdown gone k w : stack (shutdown gone k w) = stack w.
Proof. unfold shutdown. by repeat case_match. Qed.
Lemma pipe_shutdown gone k w : pipe (shutdown gone k w) = pipe w.
Proof. unfold shutdown. by repeat case_match. Qed.
Lemma expects_shutdown gone j k w : expects j (shutdown gone k w) = expects j w.
Proof. unfold shutdown. repeat case_match; auto using expects_set, expects_closing. Qed.

(** A response that nobody waits for. *)
Lemma fine_recv_more gone k w :
  stack w = [] → base w → cleared w ∨ ready k w → fine (shutdown gone k (emit (EHalf k) w)).
Proof.
  intros Es Hb Hr. set (w1 := emit (EHalf k) w). assert (Hh : EHalf k ∈ trace w1) by (cbn; set_solver).
  assert (Hr1 : cleared w1 ∨ ready k w1).
  { destruct Hr as [?|(Hl & Hbf & He & Hf)]; [by left|right]. refine (conj Hl (conj Hbf (conj He _))). by intros []. }
  split; [apply base_shutdown; [by left|by apply base_half]|]. rewrite stack_shutdown. cbn [stack w1 emit]. rewrite Es.
  destruct (fine_shutdown gone k w1 Hr1 (or_introl Hh)) as [?|?]; [by left|right; right; by exists k].
Qed.

(** A response to the first of the pipeline; a HEAD may have shut the connection down. *)
Lemma fine_recv_response gone k outs shut close w :
  stack w = [KRecv k outs] → base w → ready k w → expects k w = false → pipe w ≠ [] →
  fine (handleResponse k close (if shut : bool then shutdown gone k (emit (EHalf k) w) else w)).
Proof.
  intros Es Hb Hr He Hp.
  assert (Hg : ∀ w2, base w2 → live k w2 → fifo k w2 → expects k w2 = false → pipe w2 = pipe w → stack w2 = [KRecv k outs] →
    fine (handleResponse k close w2)).
  { intros w2 Hb2 Hl2 Hf2 He2 Ep2 Es2. eapply fine_handle; eauto; [by rewrite Ep2|left; apply Hl2|].
    intros j l Ej w' Hf'. refine (conj eq_refl (conj Hl2 (conj He2 (conj Hf' _)))).
    pose proof (b_pipe _ Hb2) as Hlen. rewrite Ej in Hlen. cbn in *. lia. }
  destruct shut; [|by apply Hg; try apply Hr].
  set (w1 := emit (EHalf k) w). assert (Hh : EHalf k ∈ trace w1) by (cbn; set_solver).
  assert (Hr1 : ready k w1).
  { destruct Hr as (Hl & Hbf & He' & Hf). refine (conj Hl (conj Hbf (conj He' _))). by intros []. }
  destruct (fine_shutdown gone k w1 (or_intror Hr1) (or_introl Hh)) as [(_ & Hc & _)|(Hl & _ & _ & Hf)].
  { by rewrite pipe_shutdown in Hc. }
  apply Hg; try done; [apply base_shutdown; [by left|by apply base_half]|by rewrite expects_shutdown|by rewrite pipe_shutdown|by rewrite stack_shutdown].
Qed.

(** The parser begins to wait for the end of the connection. *)
Lemma fine_recv_expect gone k w :
  stack w = [] → base w → ready k w → pipe w ≠ [] → fine (shutdown gone k (set_expect k true w)).
Proof.
  intros Es Hb Hr Hp. set (w1 := set_expect k true w).
  assert (Hb1 : base w1) by (apply base_expect; [apply Hr|done]).
  assert (Hx : expects k w1 = true).
  { destruct Hr as [Hl _]. apply live_half in Hl as [Hk _]. unfold w1, expects, set_expect. by rewrite tcp_of_alter, decide_True. }
  assert (Hr1 : ready k w1).
  { destruct Hr as ([Ht Hu'] & Hbf & _ & Hf). unfold ready, live, up, w1. rewrite status_expect.
    by refine (conj (conj Ht Hu') (conj Hbf (conj _ Hf))). }
  split; [by apply base_shutdown; [right|]|]. rewrite stack_shutdown. cbn [stack w1 set_expect set_tcps]. rewrite Es.
  destruct (fine_shutdown gone k w1 (or_intror Hr1) (or_intror Hx)) as [?|?]; [by left|right; right; by exists k].
Qed.

Lemma fine_recv gone k outs w : stack w = [KRecv k outs] → fine w → fine (run gone w).
Proof.
  intros Es [Hb Hr]. unfold run. rewrite Es in Hr |- *. cbn in Hr.
  assert (Et : stack (pop w) = []) by (cbn; by rewrite Es).
  assert (Hp : fine (pop w)).
  { apply fine_pop; [done|]. rewrite Es. cbn. destruct Hr as [?|?]; [by left|right; right; by exists k]. }
  destruct outs as [|o outs]; [done|].
  destruct (pipe w) as [|i rest] eqn:Ep; [by apply fine_recv_more; [|apply Hp|]|].
  destruct Hr as [(_ & ? & _)|Hr]; [congruence|].
  destruct (expects k w) eqn:He; [done|].
  destruct o as [shut close| |[]]; [| | |done].
  - apply (fine_recv_response gone k outs); [cbn; by rewrite Es| |done|done|cbn; by rewrite Ep].
    eapply base_sim; [apply sim_push|apply Hp].
  - apply fine_error; [apply Hp|by rewrite Et|right]. split; [done|]. exists k. split; [apply Hr|done].
  - apply fine_recv_expect; [done|apply Hp|done|cbn; by rewrite Ep].
Qed.

Lemma fine_reset_live k w :
  live k w → base w → res (KDisc k :: stack w) (set_status k Disconnected (set_tcp None w)) → fine (reset w).
Proof.
  intros Hl Hb Hr. split; [by eapply base_reset_live|]. rewrite (reset_live k) by done.
  by apply (res_sim _ (set_status k Disconnected (set_tcp None w))); [apply sim_push|].
Qed.

Lemma fine_after_response gone k close s w : stack w = KHandle k close :: s → fine w → fine (run gone w).
Proof.
  intros Es [Hb Hr]. unfold run. rewrite Es in Hr |- *. cbn in Hr.
  assert (Hp : base (pop w)) by (eapply base_sim; [apply sim_pop|done]).
  assert (Et : stack (pop w) = s) by (cbn; by rewrite Es).
  unfold after_response. change (status k (pop w)) with (status k w).
  destruct s as [|[] [|]]; try done.
  - destruct Hr as (-> & Hl & He & Hf & Hlen).
    pose proof (live_half _ _ Hl) as (_ & Hs1 & Hs2). destruct (status k w) eqn:Hs; try done.
    + change (buffer (pop w)) with (buffer w). change (pipe (pop w)) with (pipe w).
      destruct (buffer w) as [|i rest] eqn:Eb; [case_match eqn:Eg|].
      * apply andb_true_iff in Eg as [_ Eg%bool_decide_eq_true].
        apply (fine_reset_live k); [done..|]. rewrite Et. split; [|by rewrite expects_set]. by split_and!.
      * split; [done|]. rewrite Et. right. refine (conj Hl (conj _ (conj _ Hf))); [done|].
        intros E. change (expects k w = true) in E. congruence.
      * split; [apply base_send_now; [done|done|apply base_queues; [cbn; lia|done]]|].
        replace (stack _) with [KRecv k outs] by done. right. refine (conj Hl (conj _ (conj _ _))).
        -- intros _ E. by destruct (pipe w).
        -- intros E. change (expects k w = true) in E. congruence.
        -- by apply (fifo_send_now k i (set_queues (pipe w) rest (pop w))).
    + apply fine_push; [done|]. rewrite Et. by refine (conj Hl (conj Hs He)).
  - destruct Hr as (Hu & Hs & Hk). rewrite Hs. apply fine_push; [done|]. by rewrite Et.
Qed.

Lemma fine_fail gone s w : stack w = KFail :: s → fine w → fine (run gone w).
Proof.
  intros Es [Hb Hr]. unfold run. rewrite Es in Hr |- *.
  destruct (pipe w) as [|i rest] eqn:Ep.
  - apply fine_pop; [done|]. rewrite Es. cbn in *. destruct s as [|[] [|]]; try done.
    destruct Hr as (Hl & Hs & He). right. refine (conj Hl (conj _ (conj _ _))); [congruence|congruence|].
    intros Hn. destruct (b_half _ Hb k) as [?|[?|?]]; [by left|done|congruence|congruence].
  - apply fine_invoke; [by rewrite Es|rewrite Ep; cbn; lia|done|]. rewrite Es. by destruct s as [|[] [|]].
Qed.

Lemma fine_setup gone s w : stack w = KSetup :: s → fine w → fine (run gone w).
Proof.
  intros Es [Hb Hr]. unfold run. rewrite Es in Hr |- *. pose proof Hr as [(k & -> & _) _].
  apply fine_push; [by eapply base_sim; [apply sim_pop|]|]. cbn [stack pop set_stack tail]. rewrite Es.
  by apply (res_sim _ w); [apply sim_pop|].
Qed.

Lemma fine_connect gone s w : stack w = KConnect :: s → fine w → fine (run gone w).
Proof.
  intros Es [Hb Hr]. unfold run. rewrite Es in Hr |- *. apply fine_pop; [done|]. rewrite Es. apply Hr.
Qed.

Lemma fine_disc gone k s w : stack w = KDisc k :: s → fine w → fine (run gone w).
Proof.
  intros Es [Hb Hr]. unfold run. rewrite Es in Hr |- *.
  assert (Hp : base (pop w)) by (eapply base_sim; [apply sim_pop|done]).
  assert (Et : stack (pop w) = s) by (cbn; by rewrite Es).
  cbn in Hr. destruct (expects k w) eqn:He.
  - destruct s as [|[] [|]]; try done; [|by destruct Hr]. destruct Hr as [(Ht & Hs & Hx & Hf)|(_ & _ & ?)]; [|done].
    destruct (pipe w) as [|i rest] eqn:Ep; [by specialize (Hx eq_refl)|].
    assert (Hd : tcp w = Some k → reset (push (KClosed k) (set_expect k false (pop w))) =
      set_tcp None (push (KClosed k) (set_expect k false (pop w)))).
    { intros E. unfold reset, destroy. replace (tcp (push _ _)) with (Some k) by done.
      replace (status k _) with Disconnected; [done|]. rewrite <-Hs. symmetry. apply (status_expect k k false (pop w)). }
    rewrite Hd by done.
    assert (Hk : status k (set_expect k false (pop w)) = Disconnected) by (rewrite <-Hs; apply (status_expect k k false (pop w))).
    assert (Hb2 : base (set_expect k false (pop w))) by by apply base_unexpect.
    split.
    + apply (base_sim (set_tcp None (set_expect k false (pop w)))); [by apply sim_refl|].
      apply base_reset_tcp; [|intros (j & Hj & E)|done].
      * intros j [Hj Hu]. cbn in Hj. assert (j = k) as -> by congruence. destruct Hu; congruence.
      * cbn in Hj. assert (j = k) as -> by congruence. congruence.
    + replace (stack _) with [KClosed k] by (cbn; by rewrite Es). refine (conj eq_refl (conj (conj _ _) (conj _ Hf))).
      * apply Hk.
      * unfold set_expect; cbn. rewrite length_alter. by apply (b_tcp _ Hb).
      * cbn. by rewrite Ep.
  - assert (Hn : not_up (pop w)).
    { intros j Hj. destruct s as [|[] [|]]; try done; [destruct Hr as [(Ht & Hs & _)|(Ht & _)]|destruct Hr as [(Ht & _) _]];
        destruct Hj as [Hj Hu]; change (tcp w = Some j) in Hj; [|congruence..].
      assert (j = k) as -> by congruence. change (up k w) in Hu. destruct Hu; congruence. }
    apply fine_error; [done| |by left]. rewrite Et. by destruct s as [|[] [|]].
Qed.

Lemma fine_closed gone k s w : stack w = KClosed k :: s → fine w → fine (run gone w).
Proof.
  intros Es [Hb Hr]. unfold run. rewrite Es in Hr |- *. destruct s; [|done].
  destruct Hr as (Ht & Hk & Hp & Hf). apply (fine_handle k true [KClosePath]); try done.
  - cbn. by rewrite Es.
  - eapply base_sim; [apply sim_push|]. eapply base_sim; [apply sim_pop|done].
  - by right.
  - intros i rest E w' _. split; [by left|apply Hk].
Qed.

Lemma createTcpClient_conn k w :
  tcp w = Some k → status k w = Connecting → k < length (tcps w) → createTcpClient w = push KSetup (create (reset w)).
Proof.
  intros Ht Hs Hk. unfold createTcpClient, reset, destroy. rewrite Ht.
  change (status k (set_tcp None w)) with (status k w). rewrite Hs.
  assert (status k (push KSetup (set_tcp (Some (length (tcps w))) (set_tcps (tcps w ++ [new_tcp]) w))) = Connecting) as ->.
  { rewrite <-Hs. unfold status, tcp_of; cbn. by rewrite lookup_app_l. }
  unfold create, set_status, push, set_tcps, set_tcp, set_stack; cbn. by rewrite alter_app_l, length_alter.
Qed.

Lemma fine_close_path gone s w : stack w = KClosePath :: s → fine w → fine (run gone w).
Proof.
  intros Es [Hb Hr]. unfold run. rewrite Es in Hr |- *. destruct s; [|done]. destruct Hr as [Hu Hp].
  assert (Hq : base (pop w)) by (eapply base_sim; [apply sim_pop|done]).
  case_bool_decide as E.
  - apply fine_pop; [done|]. rewrite Es. destruct Hu as [?|?]; [by left|by right; left].
  - assert (Hc : createTcpClient (pop w) = push KSetup (create (reset (pop w)))).
    { destruct Hu as [Hu|(k & Ht & Hs)]; [|apply (createTcpClient_conn k); try done; by apply (b_tcp _ Hb)].
      rewrite createTcpClient_none by done. unfold reset, destroy. by replace (tcp (pop w)) with (@None nat). }
    destruct (reset_quiet (pop w)) as (l & El & Hb' & _); [by apply unborn_not_up|]. specialize (Hb' Hq).
    rewrite Hc. apply fine_push; [by apply base_created; [rewrite El|]|].
    assert (Hs : stack (reset (pop w)) = []) by (rewrite El; cbn; by rewrite Es).
    assert (Hpp : pipe (reset (pop w)) = []) by (by rewrite El).
    replace (stack _) with (@nil frame) by done. pose proof (create_conn (reset (pop w))).
    refine (conj _ (conj I (conj _ I))); [done|]. right; left. done.
Qed.

Lemma fine_err_pipe gone r s w : stack w = KErrPipe r :: s → fine w → fine (run gone w).
Proof.
  intros Es [Hb Hr]. unfold run. rewrite Es in Hr |- *. destruct Hr as [Hc Hr].
  destruct (pipe w) as [|i rest] eqn:Ep.
  - apply fine_push; [by eapply base_sim; [apply sim_pop|]|]. cbn [stack pop set_stack]. rewrite Es. cbn [tail].
    apply (res_sim _ w); [apply sim_pop|]. split; [done|]. destruct Hr as [?|?]; [by left|by right].
  - apply fine_invoke; [by rewrite Es|rewrite Ep; cbn; lia|done|]. rewrite Es. split; [by apply (clearable_same s w)|done].
Qed.

Lemma fine_err_buf gone r s w : stack w = KErrBuf r :: s → fine w → fine (run gone w).
Proof.
  intros Es [Hb Hr]. unfold run. rewrite Es in Hr |- *. destruct Hr as [Hc Hr].
  assert (Hq : base (pop w)) by (eapply base_sim; [apply sim_pop|done]).
  destruct (buffer w) as [|i rest] eqn:Eb.
  - destruct Hr as [[Hn Hp]|(-> & k & Hl & He)].
    + destruct (reset_idle s (pop w)) as (H1 & H2 & H3); try done; [by apply (clearable_same s w)|].
      split; [done|]. rewrite H3. cbn. by rewrite Es.
    + apply (fine_reset_live k); [done..|]. cbn [stack pop set_stack tail]. rewrite Es. cbn [tail].
      right. refine (conj eq_refl (conj Eb _)). by rewrite expects_set.
  - apply fine_invoke; [by rewrite Es|done|done|]. rewrite Es. split; [by apply (clearable_same s w)|].
    destruct Hr as [?|?]; [by left|by right].
Qed.

Lemma fine_run gone w : fine w → fine (run gone w).
Proof.
  intros Hf. destruct (stack w) as [|f s] eqn:Es; [by unfold run; rewrite Es|].
  destruct f.
  - by unfold run; rewrite Es.
  - by eapply fine_setup.
  - by eapply fine_connect.
  - by destruct Hf as [_ Hr]; rewrite Es in Hr.
  - destruct Hf as [Hb Hr]. assert (s = []) as -> by (rewrite Es in Hr; by destruct s). by eapply fine_recv.
  - by eapply fine_after_response.
  - by eapply fine_fail.
  - by eapply fine_disc.
  - by eapply fine_closed.
  - by eapply fine_close_path.
  - by eapply fine_err_pipe.
  - by eapply fine_err_buf.
  - by destruct Hf as [_ Hr]; rewrite Es in Hr.
  - by destruct Hf as [_ Hr]; rewrite Es in Hr.
Qed.

(** ** The steps *)

Lemma send_waiting_fine n k w :
  live k w → base w → length (pipe w) ≤ S depth → fifo k w → expects k w = false →
  let w' := send_waiting depth n k w in
  base w' ∧ live k w' ∧ fifo k w' ∧ expects k w' = false ∧ stack w' = stack w ∧ (pipe w ≠ [] → pipe w' ≠ []).
Proof.
  revert w. induction n as [|n IH]; intros w Hl Hb Hp Hf He; [done|]. cbn.
  destruct (buffer w) as [|i rest] eqn:Eb; [done|].
  destruct (Nat.leb_spec (length (pipe w)) depth) as [Hle|]; [|done].
  destruct (IH (send_now k i (set_queues (pipe w) rest w))) as (H1 & H2 & H3 & H4 & H5 & H6); try done.
  - by apply base_send_now, base_queues; [|cbn; lia|cbn; lia|].
  - cbn. rewrite length_app; cbn. lia.
  - by apply (fifo_send_now k i (set_queues (pipe w) rest w)).
  - refine (conj H1 (conj H2 (conj H3 (conj H4 (conj H5 _))))). intros _. apply H6. cbn. by destruct (pipe w).
Qed.

Lemma fine_connected k w :
  idle w → tcp w = Some k → status k w = Connecting → fine w →
  fine (send_waiting depth (length (buffer w)) k (set_status k Connected w)).
Proof.
  intros Hi Ht Hs [Hb Hr]. rewrite Hi in Hr.
  assert (Hp : pipe w = []).
  { destruct Hr as [(? & _)|[[_ ?]|(j & [Hj Hu] & _)]]; [congruence|done|]. destruct Hu; congruence. }
  pose proof (b_tcp _ Hb _ Ht) as Hk. destruct (b_fresh _ Hb k) as (He & _ & E1 & E2); [by left|].
  set (w1 := set_status k Connected w).
  assert (Hl : live k w1) by (split; [done|]; left; by unfold w1; rewrite status_set, decide_True).
  assert (Hf : fifo k w1) by (intros _; cbn; by rewrite E1, E2, Hp).
  destruct (buffer w) as [|i rest] eqn:Eb.
  - split; [by apply base_connected|]. cbn [length send_waiting]. replace (stack w1) with (@nil frame) by done.
    right; right. exists k. refine (conj Hl (conj _ (conj _ Hf))); [done|]. unfold w1. rewrite expects_set. congruence.
  - cbn [length send_waiting]. replace (buffer w1) with (i :: rest) by done. replace (length (pipe w1)) with 0 by (cbn; by rewrite Hp).
    cbn [Nat.leb].
    destruct (send_waiting_fine (length rest) k (send_now k i (set_queues (pipe w1) rest w1))) as (H1 & H2 & H3 & H4 & H5 & H6).
    + done.
    + apply base_send_now; [done|cbn; rewrite Hp; cbn; lia|]. apply base_queues; [cbn; rewrite Hp; cbn; lia|by apply base_connected].
    + cbn. rewrite Hp. cbn. lia.
    + by apply (fifo_send_now k i (set_queues (pipe w1) rest w1)).
    + by rewrite <-He; apply (expects_set k k Connected w).
    + split; [done|]. rewrite H5. replace (stack _) with (@nil frame) by done. right; right. exists k.
      assert (Hne : pipe (send_waiting depth (length rest) k (send_now k i (set_queues (pipe w1) rest w1))) ≠ []).
      { apply H6. cbn. by rewrite Hp. }
      by refine (conj H2 (conj _ (conj _ H3))).
Qed.

Lemma settled_live k w : settled w → tcp w = Some k → up k w → ready k w.
Proof.
  intros [(? & _)|[[(j & Hj & Hs) _]|(j & Hj)]] Ht Hu; [congruence| |].
  - assert (j = k) as -> by congruence. destruct Hu; congruence.
  - assert (j = k) as <-; [|done]. destruct Hj as [[? _] _]. congruence.
Qed.

Lemma fine_idle_up k w : idle w → up k w → fine w → ready k w.
Proof.
  intros Hi Hu [Hb Hr]. rewrite Hi in Hr. apply settled_live; [done| |done]. apply (b_down _ Hb). by destruct Hu as [-> | ->].
Qed.

Lemma fine_drained k w : idle w → status k w = Connected → closing k w = true → fine w → fine (set_status k Disconnecting w).
Proof.
  intros Hi Hs Hc Hf. assert (Hr : ready k w) by (apply fine_idle_up; [done|by left|done]).
  destruct Hf as [Hb _]. destruct (fine_shutdown true k w) as [(Hx & _)|Hx].
  - by right.
  - destruct (b_half _ Hb k) as [?|[?|?]]; [by right|by left|by right|congruence].
  - unfold shutdown in Hx. rewrite Hs in Hx. destruct Hr as [[? _] _]. cbn in Hx. congruence.
  - unfold shutdown in Hx. rewrite Hs in Hx. split; [|cbn [stack set_status set_tcps]; rewrite Hi; by right; right; exists k].
    apply base_disconnecting; [done| |done]. destruct (b_half _ Hb k) as [?|[?|?]]; [by right|by left|by right|congruence].
Qed.

Lemma fine_close k w : idle w → up k w → fine w → fine (handleClose k w).
Proof.
  intros Hi Hu Hf. assert (Hr : ready k w) by by apply fine_idle_up.
  destruct Hf as [Hb _]. apply fine_push; [by apply base_disconnect|].
  replace (stack _) with (@nil frame) by done. left. destruct Hr as (Hl & _ & He & Hf).
  pose proof (live_half _ _ Hl) as (Hk & _). refine (conj _ (conj _ (conj _ Hf))).
  - apply Hl.
  - by rewrite status_set, decide_True.
  - by rewrite expects_set.
Qed.

Lemma fine_timeout i w : idle w → fine w → fine (timeout i w).
Proof.
  intros Hi [Hb Hr]. unfold timeout. set (b := match _ with Some _ => _ | None => _ end).
  assert (Hbb : buffer w = [] → b = []) by (intros E; unfold b; by rewrite E).
  set (w1 := set_queues (pipe w) b w).
  assert (H1 : base w1) by (apply base_queues; [apply Hb|done]).
  assert (H2 : settled w1).
  { rewrite Hi in Hr. destruct Hr as [(H1' & H2 & H3)|[?|(k & Hl & H3 & H4 & H5)]].
    - left. refine (conj H1' (conj H2 _)). by apply Hbb.
    - by right; left.
    - right; right. exists k. refine (conj Hl (conj _ (conj H4 H5))). intros Hs Hp. by apply Hbb, H3. }
  assert (E : sim w1 (push (KUser i) (emit (ECall i Timeout) (set_queues (pipe w) b (flag i w))))).
  { split; try done; intros k; cbn; [by rewrite sent_snoc, app_nil_r|by rewrite got_snoc, app_nil_r|set_solver]. }
  split; [by eapply base_sim|]. replace (stack _) with [KUser i] by (cbn; by rewrite Hi).
  split; [done|]. by apply (res_sim [] w1).
Qed.

Lemma fine_step w w' : address = ValidIp → step address depth false w w' → fine w → fine w'.
Proof.
  intros Ha Hs Hf. destruct Hs as [req timed w Hi|i s w Es|gone w|k s w Es Ht|found s w Es|k w Hi Ht Hk|k w Hi Ht Hk|k outs w Hi Hu|k w Hi Hs Hc|k w Hi Hu|i w Hi _ _ _|found w _ Hd|].
  - destruct Hf as [Hb Hr]. apply good_send; [done| |done..]. destruct Hi as [-> |(i & s & ->)]; done.
  - destruct Hf as [Hb Hr]. apply fine_pop; [done|]. rewrite Es in *. apply Hr.
  - by apply fine_run.
  - destruct Hf as [Hb Hr]. rewrite Es in Hr. destruct Hr as (Hc & _ & _ & Hcl).
    apply fine_error; [by eapply base_sim; [apply sim_pop|]| |left].
    + apply pop_clearable. by rewrite Es.
    + by apply (conn_not_up w).
  - destruct Hf as [_ Hr]. by rewrite Es in Hr.
  - by apply fine_connected.
  - destruct Hf as [Hb Hr]. apply fine_error; [done|by rewrite Hi|left]. apply conn_not_up. by exists k.
  - pose proof (fine_idle_up k w Hi Hu Hf). apply fine_push; [apply Hf|]. rewrite Hi. by right.
  - by apply fine_drained.
  - by apply fine_close.
  - by apply fine_timeout.
  - destruct Hf as [Hb _]. pose proof (b_crash _ Hb) as [_ ?]. congruence.
  - done.
Qed.

Lemma quiet_step w w' : address = InvalidIp → step address depth false w w' → base w ∧ quiet w → base w' ∧ quiet w'.
Proof.
  intros Ha Hs [Hb Hq]. pose proof Hq as (Ht & Hts & Hh & Hst).
  apply app_eq_nil in Hh as [Hp Hbu].
  assert (Hk : ∀ k, status k w = Disconnected) by (intros k; unfold status, tcp_of; by rewrite Hts).
  assert (Hn : ∀ k, ¬ up k w) by (intros k []; specialize (Hk k); congruence).
  destruct Hs as [req timed w Hi|i s w Es|gone w|k s w Es E|found s w Es|k w Hi E _|k w Hi E _|k outs w Hi Hu|k w Hi E Hc|k w Hi Hu|i w Hi Hin _ _|found w _ Hd|];
    try congruence; try (by destruct (Hn k)).
  - unfold sendRequestInLoop. replace (tcp _) with (@None nat) by done. rewrite Ha.
    set (i := length (calls w)). set (w1 := set_queues _ _ _).
    assert (E1 : sim w w1) by (apply sim_refl; try done; cbn; by rewrite Hbu).
    assert (E2 : sim w (invoke i BadServerAddress w1)) by (eapply sim_trans; [done|apply sim_invoke]).
    split; [by eapply base_sim|]. destruct E2 as [F1 F2 F3 F4 _ _ _ _]. unfold quiet, held. rewrite F1, F2, F3, F4, Hp, Hbu.
    split_and!; [done..|]. destruct (stack_invoke i BadServerAddress w1) as [-> | ->]; [done|by constructor].
  - split; [by eapply base_sim; [apply sim_pop|]|]. split_and!; try done; [unfold held; cbn; by rewrite Hp, Hbu|].
    cbn. rewrite Es in *. by inversion Hst.
  - assert (run gone w = w) as ->; [|done]. unfold run. destruct Hst as [|[] ? Hx]; done.
  - rewrite Es in Hst. by inversion Hst.
  - rewrite Hp, Hbu in Hin. by apply not_elem_of_nil in Hin.
  - pose proof (b_crash _ Hb) as [_ ?]. congruence.
Qed.

(** ** The books along the steps *)

Definition keeps (w w' : Client) : Prop :=
  held w' ≡ₚ held w ∧ calls w' = calls w ∧ answered (trace w') = answered (trace w).

Lemma books_keeps w w' : keeps w w' → books w → books w'.
Proof. intros (E1 & E2 & E3) Hb. unfold books. rewrite E2, E3. by apply (accounted_perm (held w)). Qed.

Lemma keeps_refl w w' : pipe w' = pipe w → buffer w' = buffer w → calls w' = calls w → trace w' = trace w → keeps w w'.
Proof. intros E1 E2 E3 E4. unfold keeps, held. by rewrite E1, E2, E3, E4. Qed.

Lemma keeps_trans w1 w2 w3 : keeps w1 w2 → keeps w2 w3 → keeps w1 w3.
Proof. intros (A1 & A2 & A3) (B1 & B2 & B3). split_and!; [by rewrite B1|congruence..]. Qed.

Lemma keeps_destroy o w : keeps w (destroy o w).
Proof. apply keeps_refl; unfold destroy; by repeat case_match. Qed.
Lemma keeps_reset w : keeps w (reset w).
Proof. eapply keeps_trans; [|apply keeps_destroy]. by apply keeps_refl. Qed.
Lemma keeps_create w : keeps w (createTcpClient w).
Proof. eapply keeps_trans; [|apply keeps_destroy]. by apply keeps_refl. Qed.
Lemma keeps_shutdown gone k w : keeps w (shutdown gone k w).
Proof. apply keeps_refl; unfold shutdown; by repeat case_match. Qed.
Lemma keeps_push f w : keeps w (push f w).
Proof. by apply keeps_refl. Qed.

Lemma keeps_emit e w : match e with ECall _ _ => False | _ => True end → keeps w (emit e w).
Proof. intros He. unfold keeps; cbn. rewrite answered_snoc. destruct e; by rewrite ?app_nil_r. Qed.

Lemma keeps_send_now k i b w : buffer w = i :: b → keeps w (send_now k i (set_queues (pipe w) b w)).
Proof.
  intros E. unfold keeps, held; cbn. rewrite answered_snoc, app_nil_r, E, <-app_assoc. done.
Qed.

Lemma keeps_send_waiting n k w : keeps w (send_waiting depth n k w).
Proof.
  revert w. induction n as [|n IH]; intros w; cbn; [by apply keeps_refl|].
  destruct (buffer w) as [|i rest] eqn:E; [by apply keeps_refl|]. case_match; [|by apply keeps_refl].
  eapply keeps_trans; [by apply keeps_send_now|apply IH].
Qed.

(** A callback is of a call that was held until then. *)
Definition calls_back (w w' : Client) : Prop :=
  ∃ i r w1, w' = invoke i r w1 ∧ held w ≡ₚ i :: held w1 ∧ calls w1 = calls w ∧ answered (trace w1) = answered (trace w).

Lemma held_invoke i r w : held (invoke i r w) = held w.
Proof. destruct (sim_invoke i r w) as [_ _ E1 E2 _ _ _ _]. unfold held. by rewrite E1, E2. Qed.

Lemma books_calls_back w w' : calls_back w w' → books w → books w'.
Proof.
  intros (i & r & w1 & -> & E1 & E2 & E3) Hb. unfold books. rewrite held_invoke. apply accounted_invoke.
  rewrite E2, E3. by apply (accounted_perm (held w)).
Qed.

Lemma calls_back_pipe i r rest w : pipe w = i :: rest → calls_back w (invoke i r (set_queues rest (buffer w) w)).
Proof. intros E. eexists i, r, _. split; [done|]. unfold held; cbn. by rewrite E. Qed.
Lemma calls_back_buffer i r rest w : buffer w = i :: rest → calls_back w (invoke i r (set_queues (pipe w) rest w)).
Proof. intros E. eexists i, r, _. split; [done|]. unfold held; cbn. rewrite E. by rewrite <-Permutation_middle. Qed.

Lemma keeps_calls_back w w1 w2 : keeps w w1 → calls_back w1 w2 → calls_back w w2.
Proof.
  intros (E1 & E2 & E3) (i & r & w3 & -> & F1 & F2 & F3). exists i, r, w3. split; [done|]. by rewrite <-E1, F1, F2, F3, E2, E3.
Qed.

Lemma handle_books k close w : pipe w ≠ [] → calls_back w (handleResponse k close w).
Proof.
  intros Hp. unfold handleResponse. destruct (pipe w) as [|i rest] eqn:E; [done|].
  eexists i, Ok, _. split; [done|]. unfold held; cbn. by rewrite E, answered_snoc, app_nil_r.
Qed.

Lemma run_books gone w : fine w → keeps w (run gone w) ∨ calls_back w (run gone w).
Proof.
  intros [_ Hr]. unfold run. destruct (stack w) as [|f s] eqn:Es; [left; by apply keeps_refl|].
  assert (Hpop : keeps w (pop w)) by by apply keeps_refl.
  assert (Hpush : ∀ f, keeps w (push f (pop w))) by (intros; by apply keeps_refl).
  destruct f; try by destruct Hr.
  - left. by apply keeps_refl.
  - left. case_match; by apply keeps_refl.
  - by left.
  - destruct outs as [|o outs]; [by left|]. destruct (pipe w) as [|i rest] eqn:Ep.
    { left. eapply keeps_trans; [|apply keeps_shutdown]. eapply keeps_trans; [apply Hpop|by apply keeps_emit]. }
    destruct (expects k w); [by left|]. destruct o as [shut close| |expect].
    + right. set (w1 := push _ _). set (w2 := if shut then _ else _).
      assert (Hk : keeps w w2).
      { unfold w2. destruct shut; [|apply Hpush]. eapply keeps_trans; [|apply keeps_shutdown].
        eapply keeps_trans; [apply Hpush|by apply keeps_emit]. }
      eapply keeps_calls_back; [apply Hk|]. apply handle_books.
      assert (pipe w2 = pipe w) as -> by (unfold w2, shutdown; by repeat case_match). by rewrite Ep.
    + by left.
    + left. destruct expect; [|done]. eapply keeps_trans; [|apply keeps_shutdown]. by apply keeps_refl.
  - left. unfold after_response. case_match; [by apply keeps_refl| |by apply keeps_refl..].
    destruct (buffer (pop w)) as [|i rest] eqn:E; [|eapply keeps_trans; [apply Hpop|by apply keeps_send_now]].
    case_match; [|done]. eapply keeps_trans; [apply Hpop|apply keeps_reset].
  - destruct (pipe w) as [|i rest] eqn:Ep; [by left|]. right. by apply calls_back_pipe.
  - destruct (expects k w); [|by left]. left. case_match; [by apply keeps_refl|].
    eapply keeps_trans; [|apply keeps_reset]. by apply keeps_refl.
  - right. eapply keeps_calls_back; [apply Hpush|]. apply handle_books. destruct s; [|done]. apply Hr.
  - left. case_match; [done|]. eapply keeps_trans; [apply Hpop|apply keeps_create].
  - destruct (pipe w) as [|i rest] eqn:Ep; [by left|]. right. by apply calls_back_pipe.
  - destruct (buffer w) as [|i rest] eqn:Ep; [left; eapply keeps_trans; [apply Hpop|apply keeps_reset]|].
    right. by apply calls_back_buffer.
Qed.

Lemma timeout_books i w :
  NoDup (c_req <$> calls w) → i ∈ held w → c_timed (call_of i w) = true → c_flag (call_of i w) = false →
  books w → books (timeout i w).
Proof.
  intros Hnd Hi Ht Hf Hb. unfold books, held. cbn. rewrite answered_snoc.
  assert (Hsame : ∀ j, j ∈ held w → c_req (call_of j w) = c_req (call_of i w) → j = i).
  { intros j Hj E. assert (Hl : ∀ x, x ∈ held w → ∃ c, calls w !! x = Some c).
    { intros x Hx. apply lookup_lt_is_Some, (acc_range _ _ _ Hb). by left. }
    destruct (Hl i Hi) as [ci Hci], (Hl j Hj) as [cj Hcj]. unfold call_of in E. rewrite Hci, Hcj in E.
    eapply NoDup_lookup; [apply Hnd|by rewrite list_lookup_fmap, Hcj|]. rewrite list_lookup_fmap, Hci. cbn in *. by rewrite E. }
  assert (Hw : accounted (held w) (calls (flag i w)) (answered (trace w) ++ [i])) by by apply accounted_flag.
  destruct (list_find _ (buffer w)) as [[n j]|] eqn:E; [|done].
  apply list_find_Some in E as (En & E & _). apply bool_decide_unpack in E.
  assert (j = i) as ->. { apply Hsame; [|done]. apply elem_of_app. right. by eapply list_elem_of_lookup_2. }
  apply (accounted_drop i); [set_solver|]. apply (accounted_perm (held w)); [|done].
  unfold held. rewrite (delete_Permutation _ _ _ En) at 1. by rewrite <-Permutation_middle.
Qed.

(** A new call waits, and may then be sent or called back. *)
Definition called (req : nat) (timed : bool) (w : Client) : Client :=
  wait (length (calls w)) (set_calls (calls w ++ [{| c_req := req; c_timed := timed; c_flag := false |}]) w).

Lemma called_books req timed w : books w → books (called req timed w).
Proof.
  intros Hb. unfold books. eapply accounted_perm; [|by apply accounted_add].
  unfold held; cbn. rewrite (app_assoc (pipe w)). by rewrite <-Permutation_cons_append.
Qed.

Lemma send_called req timed w :
  (address = InvalidIp → held w = []) → address ≠ DomainName →
  let w' := sendRequestInLoop address depth req timed w in keeps (called req timed w) w' ∨ calls_back (called req timed w) w'.
Proof.
  intros Hi Hd. unfold sendRequestInLoop. fold (called req timed w).
  set (w1 := set_calls _ w). destruct (tcp w1) as [k|].
  - left. assert (Hs : keeps (called req timed w) (send_now k (length (calls w)) w1)).
    { unfold keeps, held; cbn. rewrite answered_snoc, app_nil_r. split; [|done].
      rewrite <-app_assoc. apply Permutation_app_head, Permutation_app_comm. }
    destruct (status k w1); try done; by case_match.
  - destruct address.
    + left. apply keeps_create.
    + specialize (Hi eq_refl). apply app_eq_nil in Hi as [Hp Hbu].
      right. eexists _, _, _. split; [done|]. unfold held; cbn. by rewrite Hbu, Hp.
    + done.
Qed.

Definition requests (w : Client) : list nat := c_req <$> calls w.

Lemma requests_flag i w : requests (flag i w) = requests w.
Proof.
  apply list_eq. intros j. unfold requests, flag; cbn. rewrite !list_lookup_fmap, list_lookup_alter.
  case_decide; [subst; by destruct (calls w !! j)|done].
Qed.

Lemma requests_invoke i r w : requests (invoke i r w) = requests w.
Proof. unfold invoke. repeat case_match; try done. apply (requests_flag i w). Qed.

Lemma requests_keeps w w' : keeps w w' ∨ calls_back w w' → requests w' = requests w.
Proof.
  unfold requests. intros [(_ & E & _)|(i & r & w1 & -> & _ & E & _)]; [by rewrite E|].
  change (requests (invoke i r w1) = requests w). by rewrite requests_invoke; unfold requests; rewrite E.
Qed.

Lemma good_run_books gone w : good w → keeps w (run gone w) ∨ calls_back w (run gone w).
Proof.
  intros [Hb [[_ Hr]|(_ & _ & _ & _ & Hst)]]; [by apply run_books|].
  left. assert (run gone w = w) as ->; [|by apply keeps_refl]. unfold run. by destruct Hst as [|[]].
Qed.

Lemma good_step w w' : step address depth false w w' → good w → good w'.
Proof.
  intros Hs [Hb [[Ha Hr]|[Ha Hq]]].
  - destruct (fine_step w w' Ha Hs) as [H1 H2]; [done|]. split; [done|by left].
  - destruct (quiet_step w w' Ha Hs) as [H1 H2]; [done|]. split; [done|by right].
Qed.

Lemma step_books w w' :
  step address depth false w w' → good w →
  requests w `prefix_of` requests w' ∧ (NoDup (requests w) → books w → books w').
Proof.
  intros Hs Hg.
  assert (Ha : address ≠ DomainName) by (destruct Hg as [_ [[]|[]]]; congruence).
  assert (Hq : address = InvalidIp → held w = []) by (intros E; destruct Hg as [_ [[? _]|(_ & _ & _ & ? & _)]]; congruence).
  assert (Hk : ∀ w', keeps w w' ∨ calls_back w w' → requests w `prefix_of` requests w' ∧ (NoDup (requests w) → books w → books w')).
  { intros w1 Hw. split; [by rewrite (requests_keeps _ _ Hw)|]. intros _. destruct Hw; [by apply books_keeps|by apply books_calls_back]. }
  destruct Hs as [req timed w Hi|i s w Es|gone w|k s w Es E|found s w Es|k w Hi E _|k w Hi E _|k outs w Hi Hu|k w Hi E Hc|k w Hi Hu|i w Hi Hin H1 H2|found w _ Hd|];
    try (apply Hk; left; by apply keeps_refl); try done.
  - pose proof (send_called req timed w Hq Ha) as Hc. cbv zeta in Hc. split.
    + rewrite (requests_keeps _ _ Hc). unfold requests, called; cbn. rewrite fmap_app. by eexists.
    + intros _ Hb. apply (called_books req timed) in Hb. destruct Hc; [by eapply books_keeps|by eapply books_calls_back].
  - by apply Hk, good_run_books.
  - apply Hk. left. destruct found; [|by apply keeps_refl]. eapply keeps_trans; [|apply keeps_create]. by apply keeps_refl.
  - apply Hk. left. eapply keeps_trans; [|apply keeps_send_waiting]. by apply keeps_refl.
  - split; [change (requests (timeout i w)) with (requests (flag i w)); by rewrite requests_flag|].
    intros Hnd Hb. by apply timeout_books.
  - apply Hk. left. destruct found; [|by apply keeps_refl]. eapply keeps_trans; [|apply keeps_create]. by apply keeps_refl.
Qed.

Definition reachable : Client → Prop := rtc (step address depth false) new_client.

Lemma good_new : address ≠ DomainName → good new_client.
Proof.
  intros Ha. split.
  - split; [done|done|done| | | |cbn; lia].
    + intros k _. done.
    + intros k [H|H]; by destruct k.
    + intros k _. apply prefix_nil.
  - destruct address; [left|right|]; try done. split; [done|]. left. done.
Qed.

Lemma reachable_good w : address ≠ DomainName → reachable w → good w ∧ (NoDup (requests w) → books w).
Proof.
  intros Ha Hr. unfold reachable in Hr. apply rtc_ind_r with (P := λ w, good w ∧ (NoDup (requests w) → books w)) in Hr; [done| |].
  - split; [by apply good_new|]. intros _. split; try done; try apply NoDup_nil_2. intros i; cbn. split; [|lia].
    intros [E|E]; by apply not_elem_of_nil in E.
  - intros w1 w2 _ Hs [Hg Hb]. destruct (step_books w1 w2 Hs Hg) as [[l Hl] H2]. split; [by eapply good_step|].
    intros Hn. assert (NoDup (requests w1)) by (rewrite Hl in Hn; by apply NoDup_app in Hn as [? _]). auto.
Qed.
End Invariant.

(** ** What becomes of a call *)



(** ** Runs *)

(** What may happen to a client, to be written down as a list. *)
Inductive act :=
| ASend (req : nat) (timed : bool) | AReturn | ARun (gone : bool) | AConnected | ARecv (outs : list outcome) | AClosed
| ATimeout (i : nat) | AResolved (found : bool) | ATls.

Definition the_tcp (w : Client) : nat := default 0 (tcp w).

Definition act_step (address : Address) (depth : nat) (w : Client) (a : act) : Client :=
  match a with
  | ASend req timed => sendRequestInLoop address depth req timed w
  | AReturn => pop w
  | ARun gone => run gone w
  | AConnected => send_waiting depth (length (buffer w)) (the_tcp w) (set_status (the_tcp w) Connected w)
  | ARecv outs => push (KRecv (the_tcp w) outs) w
  | AClosed => handleClose (the_tcp w) w
  | ATimeout i => timeout i w
  | AResolved found => resolved found w
  | ATls => onError EncryptionFailure w
  end.

(** Whether the action is a step. *)
Definition may (tls : bool) (w : Client) (a : act) : bool :=
  match a with
  | ASend _ _ => match stack w with [] | KUser _ :: _ => true | _ => false end
  | AReturn => match stack w with KUser _ :: _ => true | _ => false end
  | ARun _ => true
  | AConnected => match stack w, tcp w with [], Some k => bool_decide (status k w = Connecting) | _, _ => false end
  | ARecv _ | AClosed => match stack w, tcp w with [], Some k => bool_decide (up k w) | _, _ => false end
  | ATimeout i =>
      match stack w with
      | [] => bool_decide (i ∈ pipe w ++ buffer w) && c_timed (call_of i w) && negb (c_flag (call_of i w))
      | _ => false
      end
  | AResolved _ => match stack w with [] => dns w | _ => false end
  | ATls => match stack w, tcp w with [], Some k => tls && bool_decide (up k w) | _, _ => false end
  end.

Fixpoint may_all (address : Address) (depth : nat) (tls : bool) (w : Client) (l : list act) : bool :=
  match l with [] => true | a :: l => may tls w a && may_all address depth tls (act_step address depth w a) l end.
Definition after (address : Address) (depth : nat) (l : list act) : Client := foldl (act_step address depth) new_client l.

Lemma may_step address depth tls w a : may tls w a = true → step address depth tls w (act_step address depth w a).
Proof.
  destruct a; cbn; intros H.
  - constructor. destruct (stack w) as [|[]] eqn:E; [by left|right; eauto|done..].
  - destruct (stack w) as [|[] s] eqn:E; [done| |done..]. by econstructor.
  - constructor.
  - destruct (stack w) eqn:E; [|done]. destruct (tcp w) as [k|] eqn:Ek; [|done]. unfold the_tcp. rewrite Ek.
    apply bool_decide_eq_true in H. by constructor.
  - destruct (stack w) eqn:E; [|done]. destruct (tcp w) as [k|] eqn:Ek; [|done]. unfold the_tcp. rewrite Ek.
    apply bool_decide_eq_true in H. by constructor.
  - destruct (stack w) eqn:E; [|done]. destruct (tcp w) as [k|] eqn:Ek; [|done]. unfold the_tcp. rewrite Ek.
    apply bool_decide_eq_true in H. by constructor.
  - destruct (stack w) eqn:E; [|done]. apply andb_true_iff in H as [[H1%bool_decide_eq_true H2]%andb_true_iff H3%negb_true_iff].
    by constructor.
  - destruct (stack w) eqn:E; [|done]. by constructor.
  - destruct (stack w) eqn:E; [|done]. destruct (tcp w) as [k|] eqn:Ek; [|done].
    apply andb_true_iff in H as [H1 H2%bool_decide_eq_true]. by apply (STlsError _ _ _ k).
Qed.

Lemma may_rtc address depth tls l w :
  may_all address depth tls w l = true → rtc (step address depth tls) w (foldl (act_step address depth) w l).
Proof.
  revert w. induction l as [|a l IH]; intros w H; [done|]. cbn in H. apply andb_true_iff in H as [H1 H2].
  eapply rtc_l; [by apply may_step|by apply IH].
Qed.

Lemma may_reachable address depth l : may_all address depth false new_client l = true → reachable address depth (after address depth l).
Proof. apply may_rtc. Qed.

(** Pipelining is off (depth 0).  The callback of the first response sends two
    requests; the second waits, and goes out when the callback returns: two are out. *)
Definition overfull : list act :=
  [ASend 10 true; ARun true; ARun true; AConnected; ARecv [MResp false false]; ARun true;
   ASend 11 false; ASend 12 false; AReturn; ARun true; ARun true].

Example pipeline_over_depth :
  let w := after ValidIp 0 overfull in
  stack w = [] ∧ pipe w = [1; 2] ∧ sent 0 (trace w) = [0; 1; 2] ∧ got 0 (trace w) = [0] ∧ answered (trace w) = [0].
Proof. vm_compute. by repeat split. Qed.



(** One request object sent twice: the second call's timer takes the first call out of
    the buffer, and the first is never called back. *)
Example same_request_loses_a_call :
  let w := after ValidIp 0 [ASend 10 true; ARun true; ARun true; ASend 10 true; ATimeout 1; AReturn] in
  crashed w = false ∧ length (calls w) = 2 ∧ stack w = [] ∧ answered (trace w) = [1] ∧ pipe w ++ buffer w = [1].
Proof. vm_compute. by repeat split. Qed.

(** A response without a request half-closes the connection, but only a closed one
    makes a request wait: the next one counts as sent, and what comes back answers it. *)
Example stale_bytes_answer :
  let w := after ValidIp 0
    [ASend 10 false; ARun true; ARun true; AConnected; ARecv [MResp false false; MResp false false]; ARun true; AReturn; ARun true; ARun true;
     ASend 11 false; ARecv [MResp false false]; ARun true] in
  status 0 w = Disconnecting ∧ answered (trace w) = [0; 1] ∧ got 0 (trace w) = [0; 1].
Proof. vm_compute. by repeat split. Qed.

(** The response to a HEAD without a length shuts the connection down, and the next request of the pipeline fails. *)
Example head_fails_the_next :
  let w := after ValidIp 1
    [ASend 10 false; ARun true; ARun true; ASend 11 false; AConnected; ARecv [MResp true false]; ARun true; AReturn; ARun true; ARun true] in
  last (trace w) = Some (ECall 1 NetworkFailure).
Proof. by vm_compute. Qed.

(** With TLS, an error while a response waits for the end of its connection empties
    the pipeline and then closes: the close takes the front of the empty pipeline. *)
Example tls_error_while_expecting :
  let l := [ASend 10 false; ARun true; ARun true; AConnected; ARecv [MPart true]; ARun true; ATls; ARun true; AReturn; ARun true; ARun true; ARun true] in
  may_all ValidIp 0 true new_client l = true ∧ crashed (after ValidIp 0 l) = true.
Proof. vm_compute. by split. Qed.

(** A client with a domain name: a response that ended with its connection makes a new
    client while a resolution is under way; its answer replaces that client when it is
    connected, the error path clears the replacement, and its set-up dereferences null. *)
Example resolved_while_connected :
  let l := [ASend 10 false; ARun true; AResolved true; ARun true; ARun true; AConnected; ARecv [MPart true]; ARun true; AClosed; ARun true;
    ARun true; ASend 11 false; ARun true; AReturn; ARun true; ARun true; ARun true; ARun true; ARun true; AConnected; AResolved true; ARun true;
    ARun true; AReturn; ARun true; ARun true; ARun true] in
  may_all DomainName 0 false new_client l = true ∧ crashed (after DomainName 0 l) = true.
Proof. vm_compute. by split. Qed.
